(* ===== verification/_CoqProject ===== *)
-Q . S2P
Prelude.v
GoHeap.v
WorkQueue.v
WorkQueueFacts.v
WorkQueueSpec.v
ApiTypes.v
Cluster.v
MemCluster.v
PolicyCache.v
PolicyCacheSpec.v
Webhook.v
WebhookSpec.v
Worker.v
WorkerSpec.v
WorkerPool.v
PoolSpec.v
RetryBudget.v
Wakeup.v
WakeupFacts.v
WakeupProgress.v
WakeupSpec.v
Controller.v
ControllerSpec.v
StatusSpec.v
NamespaceController.v
NamespaceSpec.v
GoSlice.v
GoMemory.v
DeepCopy.v
DeepCopySpec.v
Flags.v
FlagsSpec.v
Config.v
ConfigSpec.v
SecretWatcher.v
SecretWatcherSpec.v
CertManager.v
MemCert.v
CertManagerSpec.v
Main.v
MainSpec.v
