(* ===== verification/Prelude.v ===== *)
(** * KubeTemplater

    A verification development of the KubeTemplater operator, written in Go under
    [src/].  The operator takes [KubeTemplate] resources, each a list of raw Kubernetes
    objects, and applies them to the cluster as far as the [KubeTemplatePolicy] of the
    template's namespace allows.

    ** The program

    An admission webhook ([internal/webhook]) validates a template against the policy
    when it is created or updated.  The template controller
    ([internal/controller/kubetemplater.io/kubetemplate_controller.go]) puts templates
    into an in-memory work queue ([internal/queue]) and periodically repairs drift in
    the resources of completed templates.  Workers ([internal/worker]) take items from
    the queue, check each resource against the policy again and apply it by server-side
    apply; failures go back to the queue with exponential backoff, in cycles, until the
    template is paused.  Webhook and workers look policies up in a TTL cache
    ([internal/cache]) that two policy controllers feed.  A namespace controller deletes
    the templates of a namespace before the namespace goes.  [cmd/main.go] reads tuning
    parameters from the environment and wires everything together; [internal/cert]
    manages the certificate of the webhook.

    ** The files

    - [Prelude]: 64-bit integers with wrap-around, arrays, strings, the automation.
    - [GoHeap]: the algorithms of Go's [container/heap] over an interface, with the laws
      of that interface and the specification of push, pop and fix.
    - [WorkQueue]: [work_queue.go].  Items are shared by pointer, so the state is a store
      of items, the heap slice and the map of pointers into it.  Each operation is a
      function; the clock readings it takes are arguments, a panic is [None].
      [Dequeue_pass] is one pass of the loop of [Dequeue] under the lock.
      [WorkQueueFacts] has the invariant [wq_wf], the abstract queue and the refinement
      lemmas, [WorkQueueSpec] the theorems.
    - [ApiTypes]: the resource types of [api/], errors with their status reason, values.
    - [Cluster]: the interfaces to the code that is not in the repository (Kubernetes
      client and clock, unstructured objects and YAML, CEL, regexp, digests) with their
      documented laws; the monad in which the operator runs, over an arbitrary world and
      a log of the calls that write; [emits], the logic for reasoning about the log.
      [MemCluster] is a concrete instance on which every theorem is exercised.
    - [PolicyCache]: [policy_cache.go], [kubetemplatepolicy_controller.go] and
      [policy_cache_controller.go].  [PolicyCacheSpec] interleaves them.
    - [Webhook]: [kubetemplate_webhook.go], every check with its error text;
      [WebhookSpec] has the declarative reading of a policy.
    - [Worker]: [template_processor.go]; [handle_item] and [finish_item] are the body of
      the loop of [Start].  [WorkerSpec] has the theorems on one item; [WorkerPool] and
      [PoolSpec] those on any number of workers that share the queue, which may leave their
      loop at any time they hold no item; [RetryBudget] counts the retries in such runs.
    - [Wakeup]: the condition variable of the queue, its timers and its lock, as a
      transition system that refines that of [WorkerPool]; workers leave when their context
      is done.  [WakeupFacts] has its invariant [cp_inv], [WakeupProgress] the measure that
      every step decreases while nothing is enqueued, [WakeupSpec] the theorems, which are
      for the context that [main] passes, [context.Background()].
    - [Controller]: [kubetemplate_controller.go] and [resource_watcher_controller.go];
      [ControllerSpec] the theorems.  [StatusSpec] has the invariant of the statuses that
      controller and workers record, over an interface to the status subresource.
    - [NamespaceController] and [NamespaceSpec]: [namespace_controller.go].
    - [GoSlice] and [GoMemory]: slices that share an array, with [append] and capacities;
      memory with pointers and slices, what is reached from a value, and deep copies.
    - [DeepCopy] and [DeepCopySpec]: [zz_generated.deepcopy.go], every function.
    - [Flags] and [FlagsSpec]: the flags of [main] and their parsing.
    - [Config] and [ConfigSpec]: [getEnvInt] and the tuning parameters of [main].
    - [Main] and [MainSpec]: [main] as the sequence of its calls, each of which may fail,
      with the TLS options, the runnables, and the [SetupWithManager] of the controllers.
    - [SecretWatcher] and [SecretWatcherSpec]: [secret_watcher.go], the initial load and
      the watch loop as steps on the events they receive.
    - [CertManager] and [CertManagerSpec]: [manager.go] of [internal/cert], over
      interfaces to the client, RSA, X.509 and PEM; [MemCert] is a concrete instance.

    ** What is shown

    - Queue: every operation refines an abstract priority queue with deduplication,
      delayed retries and cycles, never panics, and keeps its metrics exact; with any
      interleaving of workers no item is processed twice at once, and an item that keeps
      failing is requeued exactly [MaxRetryCycles * (MaxRetries + 1)] times before its
      template is paused (documents speak of 5 retries).  The backoff is the
      capped exponential as long as it cannot overflow, and overflows otherwise; an
      enqueue during processing leads to a duplicate.
    - Liveness of the queue: once nothing is enqueued any more, the pool inevitably comes
      to rest with all workers waiting.  In runs in which no signal of a timer is lost,
      each pending item has a worker awake or a timer that fires in time, and the pool
      rests with an empty queue.  A timer that signals between [AfterFunc] and [Wait] of
      its worker, while nobody waits, loses the wake-up for good.
    - Policies: an answer of the cache is at most the TTL and the client's lag old, under
      any interleaving; what each policy controller does to it.
    - Admission: the webhook admits exactly what the declarative policy allows, names the
      first violation, and its regex cache never shows.
    - Workers: nothing is written but the template's status and allowed, labelled
      resources; what the webhook admitted is not skipped; when the worker retries, gives
      up and pauses.  Field validations are not enforced, and violations end in the phase
      "Completed".
    - Controllers: when a template is queued, what the periodic reconciliation writes,
      which updates trigger it, how labels lead back to the template, and that the
      namespace finalizer is removed last.
    - Statuses: every status recorded by workers and controller is well-formed, on every
      path: the documented phases, each with its times and reason, and consistent counts.
    - Deep copies: they exist, look like the original and share no memory with it.
    - Set-up: flags are read back as printed, in any spelling; [main] stops right after the
      first call that fails; a complete set-up is wired consistently; the TLS options of the
      two servers, appended to one slice, do not overwrite each other; certificate manager
      and watcher agree on the secret exactly when two environment variables agree.
    - Configuration: integers are read back as printed; every parameter is the configured
      one within its bounds, except that large delays overflow, and moderate ones give
      retries that wait between a second and the maximum delay.
    - Certificates: the watcher serves the last certificate that loaded; the manager
      renews exactly what is not current, where both CAs of a transition are accepted, does
      not lose a CA in a transition, and updates the CA bundle only after the certificate it
      belongs to is stored; a renewed certificate that is read back is kept until 30 days
      before it expires, while its CA is in use and valid.

    ** Choices

    A [time.Time] is an unbounded [Z] in nanoseconds; durations and counters are 64-bit
    and wrap, and the difference of two times saturates, as in Go.  Loops over lists are structural.  The heap's loops carry fuel, the length
    of the path they can walk ([S j] for [up], the heap size for [down]), and the
    specification lemmas show that it does not run out.  [flag.Parse]
    recurses over the arguments.  A pool of workers has no fuel: it is a step relation, and
    its termination is by a measure.  [parse_flags] is Go's parser, for the flags that [main]
    registers.  The capacity that [append] gives an empty slice is a parameter, since the
    language leaves it to the runtime.  The client of the certificate manager may read from
    a cache: nothing is assumed of what it reads after a write.  The retry loop of a status
    update has three iterations in the source and in the model.  The client may change
    the world in any way at any call, which also stands for other clients and other
    goroutines; a theorem that needs more names the law.  A slice that [range] evaluates
    once is the list of that moment: the spec of a template is the same in what a status
    update returns, so decoding it into the same variable does not change the elements.
    Log lines are not modelled.

    ** Not modelled

    What the libraries do with what they are given: the manager with its probes and leader
    election, the servers, scheme registration.  [ResourceWatcherReconciler] is never
    registered; its predicate, mapping and handler are modelled, its registration is not.
    The utilities of the end-to-end tests run external commands. *)
From stdpp Require Import base option list gmap strings pretty.
From Stdlib Require Import ZArith Lia.

Set Default Proof Using "Type".

(** ** Rewriting boolean tests into propositions *)
Create Rewrite HintDb kt_bool.
#[export] Hint Rewrite Z.ltb_lt Z.ltb_ge Z.leb_le Z.leb_gt Z.eqb_eq Z.eqb_neq
  Nat.ltb_lt Nat.ltb_ge Nat.leb_le Nat.leb_gt Nat.eqb_eq Nat.eqb_neq
  andb_true_iff andb_false_iff orb_true_iff orb_false_iff
  negb_true_iff negb_false_iff : kt_bool.

Ltac bool_simpl := autorewrite with kt_bool in *.

(** ** Lists as arrays *)
Section arrays.
Context {A : Type} `{!Inhabited A}.
Implicit Types (l : list A) (i j k : nat).

(** [l[i], l[j] = l[j], l[i]] *)
Definition list_swap i j l : list A := <[i := l !!! j]> (<[j := l !!! i]> l).

Lemma length_list_swap i j l : length (list_swap i j l) = length l.
Proof. unfold list_swap. by rewrite !length_insert. Qed.

Lemma list_swap_lookup_total i j k l :
  i < length l → j < length l →
  list_swap i j l !!! k =
    if decide (k = i) then l !!! j else if decide (k = j) then l !!! i else l !!! k.
Proof.
  intros Hi Hj. unfold list_swap.
  rewrite !list_lookup_total_insert, length_insert.
  by repeat case_decide; destruct_and?; simplify_eq; intuition lia.
Qed.

Lemma list_swap_Permutation i j l :
  i < length l → j < length l → list_swap i j l ≡ₚ l.
Proof.
  intros Hi Hj. apply (Permutation_insert_swap l j i); by apply list_lookup_lookup_total_lt.
Qed.

Lemma list_eq_total l1 l2 :
  length l1 = length l2 → (∀ i, i < length l1 → l1 !!! i = l2 !!! i) → l1 = l2.
Proof.
  intros Hlen Hi. apply list_eq_same_length with (length l1); [done..|].
  intros i x y Hlt Hx Hy. specialize (Hi i Hlt).
  by rewrite (list_lookup_total_correct _ _ _ Hx), (list_lookup_total_correct _ _ _ Hy) in Hi.
Qed.
End arrays.

(** ** Go integers

    [int], [int64] and [time.Duration] are 64 bits wide and wrap around.  A
    [time.Time] is a number of nanoseconds since the Unix epoch; it has more than
    64 bits of range in Go and is an unbounded [Z] here. *)
Definition int64_min : Z := - 2 ^ 63.
Definition int64_max : Z := 2 ^ 63 - 1.
Definition in_int64 (z : Z) : Prop := (int64_min ≤ z ≤ int64_max)%Z.
Definition wrap64 (z : Z) : Z := ((z + 2 ^ 63) mod 2 ^ 64 - 2 ^ 63)%Z.

(** [1 << uint(n)] at type [int64]: shifting by 64 or more gives 0, and a
    negative [n] converts to a huge [uint]. *)
Definition shl1_64 (n : Z) : Z :=
  if ((0 <=? n) && (n <? 64))%Z then wrap64 (2 ^ n) else 0%Z.

Lemma wrap64_id z : in_int64 z → wrap64 z = z.
Proof.
  unfold in_int64, int64_min, int64_max, wrap64. intros ?.
  rewrite Z.mod_small; lia.
Qed.

(** [t.Sub(u)] saturates at the bounds of a [time.Duration]. *)
Definition time_Sub (t u : Z) : Z := Z.max int64_min (Z.min int64_max (t - u)).

Lemma time_Sub_pos t u : (u < t → time_Sub t u = Z.min (t - u) int64_max)%Z.
Proof. unfold time_Sub, int64_min, int64_max. lia. Qed.

Lemma wrap64_range z : in_int64 (wrap64 z).
Proof.
  unfold in_int64, int64_min, int64_max, wrap64.
  pose proof (Z.mod_pos_bound (z + 2 ^ 63) (2 ^ 64)). lia.
Qed.

Lemma wrap64_mod z : (wrap64 z mod 2 ^ 64 = z mod 2 ^ 64)%Z.
Proof.
  unfold wrap64. rewrite Zminus_mod_idemp_l. f_equal. lia.
Qed.

Lemma wrap64_wrap64_add a b : wrap64 (wrap64 a + b) = wrap64 (a + b).
Proof.
  unfold wrap64 at 1 3. f_equal. rewrite <- !Z.add_assoc.
  rewrite <- Zplus_mod_idemp_l, wrap64_mod, Zplus_mod_idemp_l. done.
Qed.

Lemma shl1_64_pow n : (0 ≤ n ≤ 62)%Z → shl1_64 n = (2 ^ n)%Z.
Proof.
  intros Hn. unfold shl1_64.
  replace ((0 <=? n) && (n <? 64))%Z with true by (symmetry; bool_simpl; lia).
  apply wrap64_id. unfold in_int64, int64_min, int64_max.
  assert (2 ^ n ≤ 2 ^ 62)%Z by (apply Z.pow_le_mono_r; lia). lia.
Qed.

Create HintDb kt_int.
#[export] Hint Resolve wrap64_range : kt_int.

(** The Go constants [time.Second], [time.Minute], [time.Hour] in nanoseconds. *)
Definition time_Millisecond : Z := 1000000.
Definition time_Second : Z := 1000 * time_Millisecond.
Definition time_Minute : Z := 60 * time_Second.
Definition time_Hour : Z := 60 * time_Minute.

(** ** [types.NamespacedName]: the key of every queue and client call *)
Record NamespacedName := NN { nn_Namespace : string; nn_Name : string }.

#[export] Instance NamespacedName_eq_dec : EqDecision NamespacedName.
Proof. solve_decision. Defined.

#[export] Instance NamespacedName_countable : Countable NamespacedName.
Proof.
  refine (inj_countable' (λ n, (nn_Namespace n, nn_Name n)) (λ '(a, b), NN a b) _).
  by intros [].
Defined.

(** ** Strings *)
Lemma string_app_assoc (s1 s2 s3 : string) : (s1 +:+ s2) +:+ s3 = s1 +:+ (s2 +:+ s3).
Proof. induction s1 as [|c s1 IH]; [done|]. exact (f_equal (String c) IH). Qed.

Lemma string_app_nil_r (s : string) : s +:+ EmptyString = s.
Proof. induction s as [|c s IH]; [done|]. exact (f_equal (String c) IH). Qed.

Lemma string_length_app (s1 s2 : string) :
  String.length (s1 +:+ s2) = String.length s1 + String.length s2.
Proof. induction s1 as [|c s1 IH]; [done|]. exact (f_equal S IH). Qed.

Definition has_prefix (p s : string) : Prop := ∃ r, s = p +:+ r.

Lemma has_prefix_app p s r : has_prefix p s → has_prefix p (s +:+ r).
Proof. intros [r' ->]. exists (r' +:+ r). apply string_app_assoc. Qed.

Lemma has_prefix_refl p : has_prefix p p.
Proof. exists EmptyString. symmetry. apply string_app_nil_r. Qed.

Create HintDb kt_string.
#[export] Hint Resolve has_prefix_app has_prefix_refl : kt_string.
