(* ===== verification/GoHeap.v ===== *)
(** The part of Go's [container/heap] that the work queue uses, over the
    [heap.Interface] of the standard library, and its correctness for every
    implementation that behaves as an array of comparable keys.

    A call that panics in Go (an index out of range, a nil dereference) is
    [None]; [None] is also the result of running out of fuel, so every theorem
    below that gives [Some] says both that the call does not panic and that its
    loop ends. *)
From S2P Require Import Prelude.
From stdpp Require Import base option list.
From Stdlib Require Import ZArith Lia ZifyNat.

Ltac Zify.zify_post_hook ::= Z.to_euclidean_division_equations.

(** [heap.Interface]: [sort.Interface] plus [Push] and [Pop]. *)
Class HeapInterface (H X : Type) := {
  Len : H → nat;
  Less : H → nat → nat → option bool;
  Swap : H → nat → nat → option H;
  Push : H → X → option H;
  Pop : H → option (H * X)
}.

(** ** The algorithms of [container/heap] *)
Section algorithms.
Context {H X : Type} `{HeapInterface H X}.

Definition parent (j : nat) : nat := (j - 1) / 2.

Lemma parent_lt j : 0 < j → parent j < j.
Proof. unfold parent. intros. lia. Qed.

Fixpoint up_loop (fuel : nat) (h : H) (j : nat) : option H :=
  match fuel with
  | 0 => None
  | S fuel =>
      let i := parent j in
      if i =? j then Some h
      else
        b ← Less h j i;
        if (b : bool) then h' ← Swap h i j; up_loop fuel h' i
        else Some h
  end.

Definition up (h : H) (j : nat) : option H := up_loop (S j) h j.

(** One loop iteration chooses the smaller child of [i] below [n]. *)
Definition smaller_child (h : H) (i n : nat) : option nat :=
  let j1 := 2 * i + 1 in
  let j2 := j1 + 1 in
  if j2 <? n then b ← Less h j2 j1; Some (if (b : bool) then j2 else j1)
  else Some j1.

Fixpoint down_loop (fuel : nat) (h : H) (i n : nat) : option (H * nat) :=
  match fuel with
  | 0 => None
  | S fuel =>
      if n <=? 2 * i + 1 then Some (h, i)
      else
        j ← smaller_child h i n;
        b ← Less h j i;
        if (b : bool) then h' ← Swap h i j; down_loop fuel h' j n
        else Some (h, i)
  end.

Definition down (h : H) (i0 n : nat) : option (H * bool) :=
  '(h', i) ← down_loop (S n) h i0 n; Some (h', i0 <? i).

Fixpoint init_loop (k : nat) (h : H) (n : nat) : option H :=
  match k with
  | 0 => Some h
  | S i => '(h', _) ← down h i n; init_loop i h' n
  end.

Definition heap_Init (h : H) : option H :=
  let n := Len h in init_loop (n / 2) h n.

Definition heap_Push (h : H) (x : X) : option H :=
  h' ← Push h x; up h' (Len h' - 1).

Definition heap_Pop (h : H) : option (H * X) :=
  match Len h with
  | 0 => None
  | S n => h1 ← Swap h 0 n; '(h2, _) ← down h1 0 n; Pop h2
  end.

(** [Fix] takes a Go [int].  At [-1] both loops stop at once without touching
    the slice; below that [up] indexes the slice with a negative number. *)
Definition heap_Fix (h : H) (i : Z) : option H :=
  if (i =? -1)%Z then Some h
  else if (i <? 0)%Z then None
  else
    '(h', moved) ← down h (Z.to_nat i) (Len h);
    if (moved : bool) then Some h' else up h' (Z.to_nat i).
End algorithms.

(** ** What an implementation of the interface promises

    [view] is the slice as a list of keys, [valid] the representation invariant,
    [frame] what no operation of the interface changes. *)
Class HeapLaws (H X K : Type) `{HeapInterface H X} `{Inhabited K} (ltk : K → K → bool) := {
  view : H → list K;
  valid : H → Prop;
  frame : H → H → Prop;
  frame_preorder :: PreOrder frame;
  Len_view h : Len h = length (view h);
  Less_view h i j :
    valid h → i < length (view h) → j < length (view h) →
    Less h i j = Some (ltk (view h !!! i) (view h !!! j));
  Swap_view h i j :
    valid h → i < length (view h) → j < length (view h) →
    ∃ h', Swap h i j = Some h' ∧ valid h' ∧ frame h h' ∧
          view h' = list_swap i j (view h)
}.

(** The comparison is a strict weak order. *)
Class StrictWeakOrder {K : Type} (ltk : K → K → bool) : Prop := {
  ltk_asym x y : ltk x y = true → ltk y x = false;
  ltk_negtrans x y z : ltk y x = false → ltk z y = false → ltk z x = false
}.

(** ** The heap order on lists *)
Section order.
Context {K : Type} `{Inhabited K} (ltk : K → K → bool) `{!StrictWeakOrder ltk}.
Implicit Types (l : list K) (i j k n : nat).

Definition lek (x y : K) : Prop := ltk y x = false.

Lemma lek_refl x : lek x x.
Proof. unfold lek. destruct (ltk x x) eqn:E; [|done]. by rewrite (ltk_asym _ _ E) in E. Qed.

Lemma lek_trans x y z : lek x y → lek y z → lek x z.
Proof. unfold lek. apply ltk_negtrans. Qed.

Lemma ltk_lek x y : ltk x y = true → lek x y.
Proof. apply ltk_asym. Qed.

Definition edge_ok l k : Prop := lek (l !!! parent k) (l !!! k).

(** The first [n] elements form a heap. *)
Definition heap_upto l n : Prop := ∀ k, 0 < k → k < n → edge_ok l k.

Definition heap_ordered l : Prop := heap_upto l (length l).

(** Heap order except around [i], whose children still dominate [i]'s parent. *)
Definition hole l i n : Prop :=
  (∀ k, 0 < k → k < n → k ≠ i → parent k ≠ i → edge_ok l k) ∧
  (∀ k, 0 < k → k < n → parent k = i → 0 < i → lek (l !!! parent i) (l !!! k)).

Definition children_ok l i n : Prop := ∀ k, 0 < k → k < n → parent k = i → edge_ok l k.

Definition parent_ok l i : Prop := 0 < i → edge_ok l i.

Lemma hole_fill l i n :
  hole l i n → children_ok l i n → parent_ok l i → heap_upto l n.
Proof.
  intros [Hh _] Hc Hp k Hk Hn.
  destruct (decide (k = i)) as [->|]; [by apply Hp|].
  destruct (decide (parent k = i)); [by apply Hc|by apply Hh].
Qed.

Lemma heap_hole l i n : heap_upto l n → i < n → hole l i n.
Proof.
  intros Hh Hi. split; intros k Hk Hn; intros; [by apply Hh|].
  apply lek_trans with (l !!! parent k); [|by apply Hh].
  replace (parent k) with i by done. apply Hh; [done|].
  unfold parent in *; lia.
Qed.

(** Replacing the key at [i] leaves a hole at [i]. *)
Lemma heap_insert_hole l i x n :
  heap_upto l n → i < n → n ≤ length l → hole (<[i:=x]> l) i n.
Proof.
  intros Hh Hi Hn. destruct (heap_hole _ _ _ Hh Hi) as [H1 H2].
  split; intros k Hk Hkn; unfold edge_ok; intros.
  - rewrite !list_lookup_total_insert_ne by done. by apply H1.
  - assert (parent i ≠ i) by (unfold parent; lia).
    assert (k ≠ i) by (intros ->; unfold parent in *; lia).
    rewrite !list_lookup_total_insert_ne by done. by apply H2.
Qed.

Lemma up_step l j n :
  n ≤ length l → 0 < j → j < n →
  hole l j n → children_ok l j n → ltk (l !!! j) (l !!! parent j) = true →
  let l' := list_swap (parent j) j l in
  hole l' (parent j) n ∧ children_ok l' (parent j) n.
Proof.
  intros Hlen Hj Hn [Hh1 Hh2] Hc Hlt l'.
  assert (Hp : parent j < j) by (unfold parent; lia).
  assert (Hl' : ∀ k, l' !!! k = if decide (k = parent j) then l !!! j
                     else if decide (k = j) then l !!! parent j else l !!! k).
  { intros k. apply list_swap_lookup_total; lia. }
  split; [split|].
  - intros k Hk Hkn Hkp Hpk. unfold edge_ok. rewrite !Hl'.
    repeat case_decide; simplify_eq; try lia.
    + apply Hh2; auto; lia.
    + apply Hh1; auto; congruence.
  - intros k Hk Hkn Hpk Hp0. rewrite !Hl'.
    assert (Hpp : parent (parent j) < parent j) by (unfold parent in *; lia).
    assert (Hpar : edge_ok l (parent j)).
    { apply Hh1; [lia|lia|lia|]. unfold parent in *; lia. }
    repeat case_decide; simplify_eq; try lia; [done|].
    apply lek_trans with (l !!! parent j); [done|].
    rewrite <- Hpk. apply Hh1; auto. rewrite Hpk. lia.
  - intros k Hk Hkn Hpk. unfold edge_ok. rewrite !Hl', Hpk.
    assert (parent k < k) by (unfold parent; lia).
    repeat case_decide; simplify_eq; try lia; [by apply ltk_lek|].
    apply lek_trans with (l !!! parent j); [by apply ltk_lek|].
    rewrite <- Hpk. apply Hh1; auto. rewrite Hpk. lia.
Qed.

Lemma down_step l i j n :
  n ≤ length l → j < n → parent j = i → 0 < j →
  hole l i n → (∀ k, 0 < k → k < n → parent k = i → lek (l !!! j) (l !!! k)) →
  ltk (l !!! j) (l !!! i) = true →
  let l' := list_swap i j l in hole l' j n ∧ parent_ok l' j.
Proof.
  intros Hlen Hj Hp Hj0 [Hh1 Hh2] Hmin Hlt l'.
  assert (Hij : i < j) by (subst i; unfold parent; lia).
  assert (Hl' : ∀ k, l' !!! k = if decide (k = i) then l !!! j
                     else if decide (k = j) then l !!! i else l !!! k).
  { intros k. apply list_swap_lookup_total; lia. }
  split; [split|].
  - intros k Hk Hkn Hkj Hpk. unfold edge_ok. rewrite !Hl'.
    assert (parent k < k) by (unfold parent; lia).
    repeat case_decide; simplify_eq; try lia; auto.
    by apply Hh1.
  - intros k Hk Hkn Hpk _. rewrite !Hl'.
    assert (parent k < k) by (unfold parent; lia).
    repeat case_decide; simplify_eq; try lia.
    apply Hh1; auto; lia.
  - intros _. unfold edge_ok. rewrite !Hl'. rewrite Hp.
    repeat case_decide; simplify_eq; try lia. by apply ltk_lek.
Qed.

(** The root of a heap is minimal. *)
Lemma heap_root_min l k : heap_ordered l → k < length l → lek (l !!! 0) (l !!! k).
Proof.
  intros Hh. induction k as [k IH] using (well_founded_induction lt_wf). intros Hk.
  destruct (decide (k = 0)) as [->|]; [apply lek_refl|].
  assert (parent k < k) by (unfold parent; lia).
  apply lek_trans with (l !!! parent k); [apply IH; lia|apply Hh; lia].
Qed.
End order.

(** ** Correctness of the algorithms for a lawful implementation *)
Section correctness.
Context {H X K : Type} `{HL : HeapLaws H X K ltk} `{!StrictWeakOrder ltk}.
Implicit Types (h : H) (i j k n : nat).

Local Abbreviation size h := (length (view h)).

Lemma up_loop_spec fuel h j :
  j < fuel → valid h → j < size h →
  hole ltk (view h) j (size h) → children_ok ltk (view h) j (size h) →
  ∃ h', up_loop fuel h j = Some h' ∧ valid h' ∧ frame h h' ∧
        view h' ≡ₚ view h ∧ heap_ordered ltk (view h').
Proof.
  revert h j. induction fuel as [|fuel IH]; intros h j Hf Hv Hj Hh Hc; [lia|]. simpl.
  destruct (Nat.eqb_spec (parent j) j) as [Hpj|Hpj].
  { assert (j = 0) as -> by (destruct j; [done|]; unfold parent in Hpj; lia).
    exists h. split_and!; [done..|]. eapply hole_fill; eauto. intros ?; lia. }
  assert (Hp : parent j < j) by (apply parent_lt; destruct j; [done|lia]).
  rewrite Less_view by (done || lia). simpl.
  destruct (ltk _ _) eqn:Hlt.
  - destruct (Swap_view h (parent j) j) as (h1 & -> & Hv1 & Hf1 & Hw1); [done|lia..|]. simpl.
    assert (Hs1 : size h1 = size h) by (rewrite Hw1; apply length_list_swap).
    destruct (up_step ltk (view h) j (size h)) as [Hh1 Hc1]; try done; try lia.
    rewrite <- Hw1 in Hh1, Hc1.
    destruct (IH h1 (parent j)) as (h2 & -> & Hv2 & Hf2 & Hp2 & Ho2);
      [lia|done|lia|by rewrite Hs1..|].
    exists h2. split_and!; [done..|by etrans| |done].
    rewrite Hp2, Hw1. apply list_swap_Permutation; lia.
  - exists h. split_and!; [done..|]. eapply hole_fill; eauto. by intros _.
Qed.

Lemma smaller_child_spec h i n :
  valid h → n ≤ size h → 2 * i + 1 < n →
  ∃ j, smaller_child h i n = Some j ∧ j < n ∧ parent j = i ∧ 0 < j ∧
       ∀ k, 0 < k → k < n → parent k = i → lek ltk (view h !!! j) (view h !!! k).
Proof.
  intros Hv Hn Hi. unfold smaller_child.
  assert (Hk : ∀ k, 0 < k → parent k = i → k = 2 * i + 1 ∨ k = 2 * i + 1 + 1)
    by (unfold parent; lia).
  destruct (Nat.ltb_spec (2 * i + 1 + 1) n).
  - rewrite Less_view by (done || lia). simpl.
    destruct (ltk _ _) eqn:Hlt; eexists; (split; [done|]).
    all: split_and!; [lia|unfold parent; lia|lia|].
    all: intros k Hk0 Hkn Hpk; destruct (Hk k Hk0 Hpk) as [-> | ->];
      first [by apply lek_refl | by apply ltk_lek | done].
  - eexists; split; [done|]. split_and!; [lia|unfold parent; lia|lia|].
    intros k Hk0 Hkn Hpk. destruct (Hk k Hk0 Hpk) as [-> | ->]; [by apply lek_refl|lia].
Qed.

Lemma down_loop_spec fuel h i n :
  n - i < fuel → valid h → n ≤ size h → hole ltk (view h) i n →
  ∃ h' i', down_loop fuel h i n = Some (h', i') ∧ valid h' ∧ frame h h' ∧
    view h' ≡ₚ view h ∧ (∀ k, n ≤ k → view h' !!! k = view h !!! k) ∧ i ≤ i' ∧
    (i' = i → view h' = view h ∧ children_ok ltk (view h) i n) ∧
    (i < i' ∨ parent_ok ltk (view h) i → heap_upto ltk (view h') n).
Proof.
  revert h i. induction fuel as [|fuel IH]; intros h i Hf Hv Hn Hh; [lia|]. simpl.
  destruct (Nat.leb_spec n (i + (i + 0) + 1)).
  { assert (children_ok ltk (view h) i n) by (intros k; unfold parent; lia).
    exists h, i. split_and!; auto; [reflexivity|]. intros [?|?]; [lia|]. by eapply hole_fill. }
  destruct (smaller_child_spec h i n) as (j & -> & Hj & Hpj & Hj0 & Hmin); [done|lia..|]. simpl.
  assert (Hij : i < j) by (subst i; by apply parent_lt).
  rewrite Less_view by (done || lia). simpl.
  destruct (ltk _ _) eqn:Hlt.
  - destruct (Swap_view h i j) as (h1 & -> & Hv1 & Hf1 & Hw1); [done|lia..|]. simpl.
    assert (Hs1 : size h1 = size h) by (rewrite Hw1; apply length_list_swap).
    destruct (down_step ltk (view h) i j n) as [Hh1 Hp1]; [done..|].
    rewrite <- Hw1 in Hh1, Hp1.
    destruct (IH h1 j) as (h2 & i2 & -> & Hv2 & Hf2 & Hperm & Hsuf & Hi2 & _ & Hup);
      [lia|done|lia|done|].
    exists h2, i2. split_and!; [done..|by etrans| | |lia|lia|by auto].
    + rewrite Hperm, Hw1. apply list_swap_Permutation; lia.
    + intros k Hk. rewrite Hsuf, Hw1, list_swap_lookup_total by lia.
      by repeat case_decide; try lia.
  - assert (Hc : children_ok ltk (view h) i n).
    { intros k Hk Hkn Hpk. unfold edge_ok. rewrite Hpk.
      apply (lek_trans ltk) with (view h !!! j); [done|by apply Hmin]. }
    exists h, i. split_and!; auto; [reflexivity|]. intros [?|?]; [lia|]. by eapply hole_fill.
Qed.

Lemma heap_Push_spec h h1 x key :
  Push h x = Some h1 → valid h1 → view h1 = view h ++ [key] → heap_ordered ltk (view h) →
  ∃ h', heap_Push h x = Some h' ∧ valid h' ∧ frame h1 h' ∧
        view h' ≡ₚ key :: view h ∧ heap_ordered ltk (view h').
Proof.
  intros HP Hv Hw Ho. unfold heap_Push. rewrite HP. simpl. rewrite Len_view.
  assert (Hs : size h1 = S (size h)) by (rewrite Hw, length_app; simpl; lia).
  assert (Hlast : ∀ k, 0 < k → k < size h → edge_ok ltk (view h1) k).
  { intros k Hk Hks. pose proof (parent_lt k Hk). unfold edge_ok. rewrite Hw.
    rewrite !lookup_total_app_l by lia. by apply Ho. }
  destruct (up_loop_spec (S (size h)) h1 (size h)) as (h' & Hu & ? & ? & Hp & ?);
    [lia|done|lia| | |].
  - split.
    + intros k Hk Hks Hkn _. apply Hlast; lia.
    + intros k Hk Hks Hpk. pose proof (parent_lt k Hk). lia.
  - intros k Hk Hks Hpk. pose proof (parent_lt k Hk). lia.
  - exists h'. unfold up. replace (size h1 - 1) with (size h) by lia.
    split_and!; [done..| |done]. rewrite Hp, Hw. symmetry. apply Permutation_cons_append.
Qed.

Lemma heap_Pop_spec h :
  valid h → 0 < size h → heap_ordered ltk (view h) →
  ∃ h2 rest, heap_Pop h = Pop h2 ∧ valid h2 ∧ frame h h2 ∧
    view h2 = rest ++ [view h !!! 0] ∧ view h2 ≡ₚ view h ∧ heap_ordered ltk rest.
Proof.
  intros Hv Hs Ho. unfold heap_Pop. rewrite Len_view.
  destruct (size h) as [|n] eqn:Hn; [lia|].
  destruct (Swap_view h 0 n) as (h1 & -> & Hv1 & Hf1 & Hw1); [done|lia..|]. simpl.
  assert (Hs1 : size h1 = S n) by (rewrite Hw1, length_list_swap; lia).
  assert (Hlk : ∀ k, 0 < k → k < n → view h1 !!! k = view h !!! k).
  { intros k Hk Hkn. rewrite Hw1, list_swap_lookup_total by lia.
    by repeat case_decide; try lia. }
  destruct (down_loop_spec (S n) h1 0 n)
    as (h2 & i' & Hd & Hv2 & Hf2 & Hp2 & Hsuf & _ & _ & Hup); [lia|done|lia| |].
  { split; [|lia]. intros k Hk Hkn _ Hpk. pose proof (parent_lt k Hk). unfold edge_ok.
    rewrite !Hlk by lia. apply Ho; lia. }
  unfold down. rewrite Hd. simpl.
  assert (Hs2 : size h2 = S n) by (by rewrite Hp2).
  exists h2, (take n (view h2)). split_and!; [done..|by etrans| | |].
  - rewrite <- (take_drop n (view h2)) at 1. f_equal. apply list_eq_total.
    { rewrite length_drop; simpl; lia. }
    intros i. rewrite length_drop, lookup_total_drop. intros Hi.
    replace i with 0 by lia. rewrite Hsuf by lia. rewrite Hw1, list_swap_lookup_total by lia.
    rewrite Nat.add_0_r. simpl. by repeat case_decide; simplify_eq; try lia.
  - rewrite Hp2, Hw1. apply list_swap_Permutation; lia.
  - intros k Hk. rewrite length_take_le by lia. intros Hkn.
    pose proof (parent_lt k Hk). unfold edge_ok.
    rewrite !lookup_total_take_lt by lia. apply Hup; [right; intros ?; lia|lia..].
Qed.

(** [Fix] restores the order after the key at [i] has changed. *)
Lemma heap_Fix_spec h i :
  valid h → i < size h → hole ltk (view h) i (size h) →
  ∃ h', heap_Fix h (Z.of_nat i) = Some h' ∧ valid h' ∧ frame h h' ∧
        view h' ≡ₚ view h ∧ heap_ordered ltk (view h').
Proof.
  intros Hv Hi Hh. unfold heap_Fix.
  destruct (Z.eqb_spec (Z.of_nat i) (-1)); [lia|].
  destruct (Z.ltb_spec (Z.of_nat i) 0); [lia|]. rewrite Nat2Z.id, Len_view.
  destruct (down_loop_spec (S (size h)) h i (size h))
    as (h' & i' & Hd & Hv' & Hf' & Hp' & _ & Hi' & Hstay & Hup); [lia|done..|].
  unfold down. rewrite Hd. simpl. assert (Hs : size h' = size h) by (by rewrite Hp').
  destruct (Nat.ltb_spec i i').
  { exists h'. split_and!; [done..|]. unfold heap_ordered. rewrite Hs. auto. }
  destruct Hstay as [Hw Hc]; [lia|].
  destruct (up_loop_spec (S i) h' i) as (h2 & ? & ? & ? & Hp2 & ?); [lia|done|lia|by rewrite Hw..|].
  exists h2. split_and!; [done..|by etrans|by rewrite Hp2|done].
Qed.

Lemma heap_Init_empty h : Len h = 0 → heap_Init h = Some h.
Proof. intros Hl. unfold heap_Init. by rewrite Hl. Qed.
End correctness.
