(* ===== verification/WorkQueue.v ===== *)
(** The work queue of [internal/queue/work_queue.go]: a priority queue of
    pointers to work items with deduplication, delayed retries and metrics.

    Items are shared by pointer between the heap slice, [itemsMap] and the worker
    that processes them, so the model keeps a store of items and lets the other
    structures hold pointers into it.  Every operation runs under [wq.mu]; its
    [time.Now] readings are arguments, in the order in which they are taken, and
    its call to the condition variable is part of the result.  [None] is a panic. *)
From S2P Require Import Prelude GoHeap.
From stdpp Require Import base option list gmap strings.
From Stdlib Require Import ZArith Lia.

Local Open Scope Z_scope.

(** ** Data *)
Definition DefaultMaxRetries : Z := 5.
Definition DefaultInitialRetryDelay : Z := 1 * time_Second.
Definition DefaultMaxRetryDelay : Z := 5 * time_Minute.
Definition DefaultMaxRetryCycles : Z := 3.

Record WorkItem := {
  wi_NamespacedName : NamespacedName;
  wi_Priority : Z;
  wi_RetryCount : Z;
  wi_RetryCycle : Z;
  wi_EnqueuedAt : Z;
  wi_ScheduledAt : Z;
  wi_index : Z
}.

#[export] Instance WorkItem_inhabited : Inhabited WorkItem :=
  populate {| wi_NamespacedName := NN "" ""; wi_Priority := 0; wi_RetryCount := 0;
              wi_RetryCycle := 0; wi_EnqueuedAt := 0; wi_ScheduledAt := 0; wi_index := 0 |}.

Definition set_index (i : Z) (w : WorkItem) : WorkItem :=
  {| wi_NamespacedName := wi_NamespacedName w; wi_Priority := wi_Priority w;
     wi_RetryCount := wi_RetryCount w; wi_RetryCycle := wi_RetryCycle w;
     wi_EnqueuedAt := wi_EnqueuedAt w; wi_ScheduledAt := wi_ScheduledAt w; wi_index := i |}.

Definition set_Priority (pr : Z) (w : WorkItem) : WorkItem :=
  {| wi_NamespacedName := wi_NamespacedName w; wi_Priority := pr;
     wi_RetryCount := wi_RetryCount w; wi_RetryCycle := wi_RetryCycle w;
     wi_EnqueuedAt := wi_EnqueuedAt w; wi_ScheduledAt := wi_ScheduledAt w;
     wi_index := wi_index w |}.

(** The three fields a requeue rewrites. *)
Definition set_retry (count cycle scheduled : Z) (w : WorkItem) : WorkItem :=
  {| wi_NamespacedName := wi_NamespacedName w; wi_Priority := wi_Priority w;
     wi_RetryCount := count; wi_RetryCycle := cycle;
     wi_EnqueuedAt := wi_EnqueuedAt w; wi_ScheduledAt := scheduled;
     wi_index := wi_index w |}.

Record QueueMetrics := {
  m_enqueueCount : Z;
  m_dequeueCount : Z;
  m_retryCount : Z;
  m_currentDepth : Z;
  m_processingItems : Z
}.

Definition ptr := positive.

(** The slice [priorityQueue] together with the memory its pointers refer to. *)
Record priorityQueue := PQ { pq_store : gmap ptr WorkItem; pq_items : list ptr }.

Record WorkQueue := {
  wq_items : priorityQueue;
  wq_itemsMap : gmap NamespacedName ptr;
  wq_shutdown : bool;
  wq_metrics : QueueMetrics;
  wq_MaxRetries : Z;
  wq_InitialRetryDelay : Z;
  wq_MaxRetryDelay : Z;
  wq_MaxRetryCycles : Z
}.

Definition wq_store (wq : WorkQueue) : gmap ptr WorkItem := pq_store (wq_items wq).
Definition wq_slice (wq : WorkQueue) : list ptr := pq_items (wq_items wq).

Definition with_queue (h : priorityQueue) (m : gmap NamespacedName ptr) (mt : QueueMetrics)
    (wq : WorkQueue) : WorkQueue :=
  {| wq_items := h; wq_itemsMap := m; wq_shutdown := wq_shutdown wq; wq_metrics := mt;
     wq_MaxRetries := wq_MaxRetries wq; wq_InitialRetryDelay := wq_InitialRetryDelay wq;
     wq_MaxRetryDelay := wq_MaxRetryDelay wq; wq_MaxRetryCycles := wq_MaxRetryCycles wq |}.

(** What an operation does to the condition variable. *)
Inductive Wake := NoWake | Signal | Broadcast.

(** ** [heap.Interface] of [priorityQueue] *)
Definition item_less (wi wj : WorkItem) : bool :=
  if negb (wi_Priority wi =? wi_Priority wj) then wi_Priority wj <? wi_Priority wi
  else wi_ScheduledAt wi <? wi_ScheduledAt wj.

Definition pq_Len (h : priorityQueue) : nat := length (pq_items h).

Definition pq_Less (h : priorityQueue) (i j : nat) : option bool :=
  pi ← pq_items h !! i; pj ← pq_items h !! j;
  wi ← pq_store h !! pi; wj ← pq_store h !! pj;
  Some (item_less wi wj).

(** [p.index = i] through the pointer [p]. *)
Definition store_index (p : ptr) (i : Z) (st : gmap ptr WorkItem) : option (gmap ptr WorkItem) :=
  w ← st !! p; Some (<[p := set_index i w]> st).

Definition pq_Swap (h : priorityQueue) (i j : nat) : option priorityQueue :=
  pi ← pq_items h !! i; pj ← pq_items h !! j;
  let items := <[i := pj]> (<[j := pi]> (pq_items h)) in
  st1 ← store_index pj (Z.of_nat i) (pq_store h);
  st2 ← store_index pi (Z.of_nat j) st1;
  Some (PQ st2 items).

Definition pq_Push (h : priorityQueue) (p : ptr) : option priorityQueue :=
  st ← store_index p (Z.of_nat (pq_Len h)) (pq_store h);
  Some (PQ st (pq_items h ++ [p])).

Definition pq_Pop (h : priorityQueue) : option (priorityQueue * ptr) :=
  p ← last (pq_items h);
  st ← store_index p (-1) (pq_store h);
  Some (PQ st (take (pq_Len h - 1) (pq_items h)), p).

#[export] Instance priorityQueue_heap : HeapInterface priorityQueue ptr := {
  Len := pq_Len; Less := pq_Less; Swap := pq_Swap; Push := pq_Push; Pop := pq_Pop
}.

(** ** Operations *)
Definition zero_metrics : QueueMetrics :=
  {| m_enqueueCount := 0; m_dequeueCount := 0; m_retryCount := 0;
     m_currentDepth := 0; m_processingItems := 0 |}.

Definition NewWorkQueueWithConfig (maxRetries initialDelay maxDelay maxCycles : Z)
    : option WorkQueue :=
  items ← heap_Init (PQ ∅ []);
  Some {| wq_items := items; wq_itemsMap := ∅; wq_shutdown := false;
          wq_metrics := zero_metrics; wq_MaxRetries := maxRetries;
          wq_InitialRetryDelay := initialDelay; wq_MaxRetryDelay := maxDelay;
          wq_MaxRetryCycles := maxCycles |}.

Definition NewWorkQueue : option WorkQueue :=
  NewWorkQueueWithConfig DefaultMaxRetries DefaultInitialRetryDelay
    DefaultMaxRetryDelay DefaultMaxRetryCycles.

Definition metrics_enqueue (depth : nat) (m : QueueMetrics) : QueueMetrics :=
  {| m_enqueueCount := wrap64 (m_enqueueCount m + 1); m_dequeueCount := m_dequeueCount m;
     m_retryCount := m_retryCount m; m_currentDepth := Z.of_nat depth;
     m_processingItems := m_processingItems m |}.

Definition metrics_dequeue (depth : nat) (m : QueueMetrics) : QueueMetrics :=
  {| m_enqueueCount := m_enqueueCount m; m_dequeueCount := wrap64 (m_dequeueCount m + 1);
     m_retryCount := m_retryCount m; m_currentDepth := Z.of_nat depth;
     m_processingItems := wrap64 (m_processingItems m + 1) |}.

Definition metrics_retry (depth : nat) (m : QueueMetrics) : QueueMetrics :=
  {| m_enqueueCount := m_enqueueCount m; m_dequeueCount := m_dequeueCount m;
     m_retryCount := wrap64 (m_retryCount m + 1); m_currentDepth := Z.of_nat depth;
     m_processingItems := m_processingItems m |}.

(** [wq.metrics.processingItems--] *)
Definition metrics_done (m : QueueMetrics) : QueueMetrics :=
  {| m_enqueueCount := m_enqueueCount m; m_dequeueCount := m_dequeueCount m;
     m_retryCount := m_retryCount m; m_currentDepth := m_currentDepth m;
     m_processingItems := wrap64 (m_processingItems m - 1) |}.

Definition Enqueue (wq : WorkQueue) (nn : NamespacedName) (priority now1 now2 : Z)
    : option (WorkQueue * Wake) :=
  match wq_itemsMap wq !! nn with
  | Some p =>
      existing ← wq_store wq !! p;
      if wi_Priority existing <? priority then
        h ← heap_Fix (PQ (<[p := set_Priority priority existing]> (wq_store wq)) (wq_slice wq))
              (wi_index existing);
        Some (with_queue h (wq_itemsMap wq) (wq_metrics wq) wq, NoWake)
      else Some (wq, NoWake)
  | None =>
      let p := fresh (dom (wq_store wq)) in
      let item := {| wi_NamespacedName := nn; wi_Priority := priority; wi_RetryCount := 0;
                     wi_RetryCycle := 0; wi_EnqueuedAt := now1; wi_ScheduledAt := now2;
                     wi_index := 0 |} in
      h ← heap_Push (PQ (<[p := item]> (wq_store wq)) (wq_slice wq)) p;
      Some (with_queue h (<[nn := p]> (wq_itemsMap wq))
              (metrics_enqueue (pq_Len h) (wq_metrics wq)) wq, Signal)
  end.

(** One pass of the loop of [Dequeue] while it holds the lock: it returns, or it
    releases the lock in [cond.Wait], with a timer when the first item is delayed. *)
Inductive DequeueOutcome :=
  | Stopped
  | Dequeued (p : ptr)
  | WaitTimer (waitTime : Z)
  | WaitSignal.

Definition Dequeue_pass (wq : WorkQueue) (now : Z) : option (WorkQueue * DequeueOutcome) :=
  if wq_shutdown wq then Some (wq, Stopped)
  else
    match wq_slice wq with
    | [] => Some (wq, WaitSignal)
    | p :: _ =>
        item ← wq_store wq !! p;
        if now <? wi_ScheduledAt item then Some (wq, WaitTimer (time_Sub (wi_ScheduledAt item) now))
        else
          '(h, _) ← heap_Pop (wq_items wq);
          Some (with_queue h (delete (wi_NamespacedName item) (wq_itemsMap wq))
                  (metrics_dequeue (pq_Len h) (wq_metrics wq)) wq, Dequeued p)
    end.

(** The exponential backoff of the [else] branch of [Requeue]. *)
Definition backoff (initial maxDelay retryCount : Z) : Z :=
  let rc := wrap64 (retryCount - 1) in
  let rc := if 30 <? rc then 30 else rc in
  let delay := wrap64 (initial * shl1_64 rc) in
  if maxDelay <? delay then maxDelay else delay.

Definition Requeue (wq : WorkQueue) (p : ptr) (now : Z) : option (WorkQueue * Wake) :=
  item ← wq_store wq !! p;
  let count := wrap64 (wi_RetryCount item + 1) in
  let m := metrics_done (wq_metrics wq) in
  let push item m :=
    h ← heap_Push (PQ (<[p := item]> (wq_store wq)) (wq_slice wq)) p;
    Some (with_queue h (<[wi_NamespacedName item := p]> (wq_itemsMap wq))
            (metrics_retry (pq_Len h) m) wq, Signal) in
  if wq_MaxRetries wq <? count then
    if (0 <? wq_MaxRetryCycles wq) && (wq_MaxRetryCycles wq <=? wi_RetryCycle item) then
      let item' := set_retry count (wi_RetryCycle item) (wi_ScheduledAt item) item in
      Some (with_queue (PQ (<[p := item']> (wq_store wq)) (wq_slice wq))
              (wq_itemsMap wq) (metrics_done m) wq, NoWake)
    else
      push (set_retry 0 (wrap64 (wi_RetryCycle item + 1)) (now + wq_MaxRetryDelay wq) item) m
  else
    let delay := backoff (wq_InitialRetryDelay wq) (wq_MaxRetryDelay wq) count in
    push (set_retry count (wi_RetryCycle item) (now + delay) item) m.

Definition Done (wq : WorkQueue) (p : ptr) : WorkQueue :=
  with_queue (wq_items wq) (wq_itemsMap wq) (metrics_done (wq_metrics wq)) wq.

Definition Shutdown (wq : WorkQueue) : WorkQueue * Wake :=
  ({| wq_items := wq_items wq; wq_itemsMap := wq_itemsMap wq; wq_shutdown := true;
      wq_metrics := wq_metrics wq; wq_MaxRetries := wq_MaxRetries wq;
      wq_InitialRetryDelay := wq_InitialRetryDelay wq;
      wq_MaxRetryDelay := wq_MaxRetryDelay wq; wq_MaxRetryCycles := wq_MaxRetryCycles wq |},
   Broadcast).

Definition GetMetrics (wq : WorkQueue) : QueueMetrics := wq_metrics wq.

Definition wq_Len (wq : WorkQueue) : Z := Z.of_nat (length (wq_slice wq)).

Definition Contains (wq : WorkQueue) (nn : NamespacedName) : bool :=
  bool_decide (is_Some (wq_itemsMap wq !! nn)).
