(* ===== verification/WorkQueueFacts.v ===== *)
(** Correctness of the work queue: the slice of pointers is a lawful
    [heap.Interface], every operation keeps the queue well formed and refines a
    finite map of pending items. *)
From S2P Require Import Prelude GoHeap WorkQueue.
From stdpp Require Import base option list gmap strings.
From Stdlib Require Import ZArith Lia.

Local Open Scope Z_scope.

(** ** [priorityQueue] implements [heap.Interface] lawfully *)
Definition item_key (w : WorkItem) : Z * Z := (wi_Priority w, wi_ScheduledAt w).

Definition key_less (x y : ptr * (Z * Z)) : bool :=
  if negb (x.2.1 =? y.2.1) then y.2.1 <? x.2.1 else x.2.2 <? y.2.2.

Definition pq_view (h : priorityQueue) : list (ptr * (Z * Z)) :=
  (λ p, (p, item_key (pq_store h !!! p))) <$> pq_items h.

Definition pq_valid (h : priorityQueue) : Prop :=
  NoDup (pq_items h) ∧
  ∀ i p, pq_items h !! i = Some p →
    ∃ w, pq_store h !! p = Some w ∧ wi_index w = Z.of_nat i.

(** Nothing but the [index] fields changes. *)
Definition pq_frame (h h' : priorityQueue) : Prop :=
  ∀ p, set_index 0 <$> pq_store h !! p = set_index 0 <$> pq_store h' !! p.

#[export] Instance pq_frame_preorder : PreOrder pq_frame.
Proof. split; [by intros h p|]. intros h1 h2 h3 H12 H23 p. by rewrite H12. Qed.

#[export] Instance key_less_order : StrictWeakOrder key_less.
Proof.
  split; intros [p [a b]] [q [c d]]; unfold key_less; simpl.
  - destruct (Z.eqb_spec a c), (Z.eqb_spec c a); simpl; rewrite !Z.ltb_lt, !Z.ltb_ge; lia.
  - intros [r [e f]]; simpl.
    destruct (Z.eqb_spec a c), (Z.eqb_spec c e), (Z.eqb_spec c a), (Z.eqb_spec e c),
      (Z.eqb_spec e a); simpl; rewrite !Z.ltb_ge; lia.
Qed.

Lemma item_less_key p q w v : item_less w v = key_less (p, item_key w) (q, item_key v).
Proof. done. Qed.

Lemma set_index_key i w : item_key (set_index i w) = item_key w.
Proof. done. Qed.

Lemma set_index_idem i j w : set_index i (set_index j w) = set_index i w.
Proof. done. Qed.

Lemma pq_frame_lookup h h' p w :
  pq_frame h h' → pq_store h !! p = Some w →
  ∃ w', pq_store h' !! p = Some w' ∧ set_index 0 w = set_index 0 w'.
Proof.
  intros Hf Hp. specialize (Hf p). rewrite Hp in Hf.
  destruct (pq_store h' !! p) as [w'|]; [|done]. injection Hf as Hf. exists w'.
  split; [done|]. unfold set_index. congruence.
Qed.

Lemma pq_frame_key h h' p :
  pq_frame h h' → item_key (pq_store h !!! p) = item_key (pq_store h' !!! p).
Proof.
  intros Hf. specialize (Hf p). rewrite !lookup_total_alt.
  destruct (pq_store h !! p), (pq_store h' !! p); simplify_option_eq; [|done].
  unfold item_key. congruence.
Qed.

Lemma pq_view_frame h h' :
  pq_frame h h' → pq_items h' = pq_items h → pq_view h' = pq_view h.
Proof.
  intros Hf Hi. unfold pq_view. rewrite Hi. apply list_fmap_ext. intros i p _.
  f_equal. symmetry. by apply pq_frame_key.
Qed.

Lemma store_index_frame p i st st' items items' :
  store_index p i st = Some st' → pq_frame (PQ st items) (PQ st' items').
Proof.
  unfold store_index. intros (w & Hw & [= <-])%bind_Some q. simpl.
  destruct (decide (p = q)) as [->|]; simplify_map_eq; done.
Qed.

Lemma pq_view_length h : length (pq_view h) = length (pq_items h).
Proof. apply length_fmap. Qed.

Lemma pq_view_lookup_total h i :
  (i < length (pq_items h))%nat →
  ∃ p, pq_items h !! i = Some p ∧ pq_view h !!! i = (p, item_key (pq_store h !!! p)).
Proof.
  intros Hi. destruct (lookup_lt_is_Some_2 _ _ Hi) as [p Hp]. exists p. split; [done|].
  apply list_lookup_total_correct. unfold pq_view. by rewrite list_lookup_fmap, Hp.
Qed.

Lemma pq_Swap_view h i j :
  pq_valid h → (i < length (pq_view h))%nat → (j < length (pq_view h))%nat →
  ∃ h', pq_Swap h i j = Some h' ∧ pq_valid h' ∧ pq_frame h h' ∧
        pq_view h' = list_swap i j (pq_view h).
Proof.
  intros [Hnd Hix] Hi Hj. rewrite pq_view_length in Hi, Hj.
  destruct (pq_view_lookup_total h i Hi) as (pi & Hpi & Hvi).
  destruct (pq_view_lookup_total h j Hj) as (pj & Hpj & Hvj).
  destruct (Hix i pi Hpi) as (wi & Hwi & _). destruct (Hix j pj Hpj) as (wj & Hwj & _).
  set (items := <[i:=pj]> (<[j:=pi]> (pq_items h))).
  set (st1 := <[pj := set_index (Z.of_nat i) wj]> (pq_store h)).
  assert (is_Some (st1 !! pi)) as [wi1 Hwi1].
  { unfold st1. rewrite lookup_insert. case_decide; eauto. }
  set (st2 := <[pi := set_index (Z.of_nat j) wi1]> st1).
  exists (PQ st2 items).
  assert (Hs1 : store_index pj (Z.of_nat i) (pq_store h) = Some st1)
    by (unfold store_index; by rewrite Hwj).
  assert (Hs2 : store_index pi (Z.of_nat j) st1 = Some st2)
    by (unfold store_index; by rewrite Hwi1).
  assert (Hf : pq_frame h (PQ st2 items)).
  { destruct h as [st its]. transitivity (PQ st1 items); eapply store_index_frame; eauto. }
  assert (Hperm : items ≡ₚ pq_items h) by (apply (Permutation_insert_swap _ j i); done).
  assert (Hnd' : NoDup items) by (by rewrite Hperm).
  assert (Hit : items !! i = Some pj).
  { unfold items. apply list_lookup_insert_eq. by rewrite length_insert. }
  assert (Hjt : items !! j = Some pi).
  { unfold items. destruct (decide (i = j)) as [->|].
    - rewrite list_lookup_insert_eq by (by rewrite length_insert). congruence.
    - rewrite list_lookup_insert_ne by done. by apply list_lookup_insert_eq. }
  split_and!; [| |done|].
  - unfold pq_Swap. rewrite Hpi, Hpj. simpl. rewrite Hs1. simpl. by rewrite Hs2.
  - split; [done|]. simpl. intros k p Hk. unfold st2, st1.
    destruct (decide (p = pi)) as [->|Hpi'].
    { assert (k = j) as -> by (eapply NoDup_lookup; eauto). simplify_map_eq. eauto. }
    rewrite lookup_insert_ne by done.
    destruct (decide (p = pj)) as [->|Hpj'].
    { assert (k = i) as -> by (eapply NoDup_lookup; eauto). simplify_map_eq. eauto. }
    rewrite lookup_insert_ne by done. apply Hix.
    assert (i ≠ k) by congruence. assert (j ≠ k) by congruence.
    unfold items in Hk. by rewrite !list_lookup_insert_ne in Hk.
  - transitivity ((λ p, (p, item_key (pq_store h !!! p))) <$> items).
    + apply list_fmap_ext. intros k p _. f_equal. symmetry. by apply pq_frame_key.
    + unfold items, list_swap. rewrite !list_fmap_insert, Hvi, Hvj. done.
Qed.

#[export] Instance priorityQueue_laws :
  HeapLaws priorityQueue ptr (ptr * (Z * Z)) key_less.
Proof.
  refine {| view := pq_view; valid := pq_valid; frame := pq_frame;
            Len_view := _; Swap_view := pq_Swap_view |}.
  - intros h. symmetry. apply pq_view_length.
  - intros h i j [_ Hix] Hi Hj. rewrite pq_view_length in Hi, Hj.
    destruct (pq_view_lookup_total h i Hi) as (pi & Hpi & ->).
    destruct (pq_view_lookup_total h j Hj) as (pj & Hpj & ->).
    destruct (Hix i pi Hpi) as (wi & Hwi & _). destruct (Hix j pj Hpj) as (wj & Hwj & _).
    simpl. unfold pq_Less. rewrite Hpi, Hpj. simpl. rewrite Hwi, Hwj. simpl.
    by rewrite (item_less_key pi pj), (lookup_total_correct _ _ _ Hwi),
      (lookup_total_correct _ _ _ Hwj).
Defined.

(** ** The three heap calls of the queue *)
Definition pq_heap (h : priorityQueue) : Prop := heap_ordered key_less (pq_view h).

Lemma view_items_Permutation h l :
  pq_view h ≡ₚ l → pq_items h ≡ₚ l.*1.
Proof.
  intros Hp. rewrite <- Hp. unfold pq_view. rewrite <- list_fmap_compose.
  by rewrite list_fmap_id.
Qed.

Lemma pq_valid_insert st items p w :
  pq_valid (PQ st items) → p ∉ items → pq_valid (PQ (<[p := w]> st) items).
Proof.
  intros [Hnd Hix] Hp. split; [done|]. simpl. intros i q Hq.
  rewrite lookup_insert_ne; [by apply (Hix i q)|]. intros ->. apply Hp.
  by eapply list_elem_of_lookup_2.
Qed.

Lemma pq_view_insert st items p w :
  p ∉ items → pq_view (PQ (<[p := w]> st) items) = pq_view (PQ st items).
Proof.
  intros Hp. apply list_fmap_ext. simpl. intros i q Hq. f_equal.
  rewrite lookup_total_insert_ne; [done|]. intros ->. apply Hp.
  by eapply list_elem_of_lookup_2.
Qed.

Lemma pq_push_ok st items p w :
  pq_valid (PQ st items) → pq_heap (PQ st items) → p ∉ items →
  ∃ h, heap_Push (PQ (<[p := w]> st) items) p = Some h ∧ pq_valid h ∧ pq_heap h ∧
       pq_items h ≡ₚ p :: items ∧ pq_frame (PQ (<[p := w]> st) items) h.
Proof.
  intros Hv Hh Hp. set (w' := set_index (Z.of_nat (length items)) w).
  set (h1 := PQ (<[p := w']> (<[p := w]> st)) (items ++ [p])).
  assert (HP : Push (PQ (<[p := w]> st) items) p = Some h1).
  { simpl. unfold pq_Push, store_index. simpl. by simplify_map_eq. }
  assert (Hf1 : pq_frame (PQ (<[p := w]> st) items) h1).
  { eapply store_index_frame. unfold store_index. by simplify_map_eq. }
  assert (Hv1 : pq_valid h1).
  { destruct Hv as [Hnd Hix]. split; simpl.
    - apply NoDup_app. split_and!; [done| |apply NoDup_singleton]. set_solver.
    - intros i q [Hq|[Hi Hq]]%lookup_app_Some.
      + rewrite !lookup_insert_ne by (intros ->; apply Hp; by eapply list_elem_of_lookup_2).
        by apply (Hix i q).
      + apply list_lookup_singleton_Some in Hq as [Hz ->].
        simplify_map_eq. exists w'. split; [done|]. simpl. lia. }
  assert (Hw1 : pq_view h1 = pq_view (PQ (<[p := w]> st) items) ++ [(p, item_key w)]).
  { unfold pq_view, h1. simpl. rewrite fmap_app. simpl. rewrite lookup_total_insert_eq.
    f_equal. exact (pq_view_insert (<[p:=w]> st) items p w' Hp). }
  destruct (heap_Push_spec (HL := priorityQueue_laws) _ _ _ _ HP Hv1 Hw1) as (h & Hpush & Hv' & Hf & Hperm & Ho).
  { simpl. rewrite pq_view_insert by done. done. }
  exists h. split_and!; [done..| |by etrans].
  apply view_items_Permutation in Hperm. rewrite Hperm. simpl.
  by rewrite <- (view_items_Permutation _ _ (reflexivity (pq_view (PQ (<[p := w]> st) items)))).
Qed.

(** Removing the last pointer of a valid slice. *)
Lemma pq_Pop_last h items p :
  pq_valid h → pq_items h = items ++ [p] →
  ∃ h', pq_Pop h = Some (h', p) ∧ pq_valid h' ∧ pq_items h' = items ∧ pq_frame h h'.
Proof.
  destruct h as [st its]. intros [Hnd Hix] Hi. simpl in *. subst its.
  assert (Hlast : (items ++ [p]) !! length items = Some p) by (by apply list_lookup_middle).
  destruct (Hix _ _ Hlast) as (w & Hw & _).
  exists (PQ (<[p := set_index (-1) w]> st) items). unfold pq_Pop, store_index.
  simpl. rewrite last_snoc. simpl. rewrite Hw. simpl. split_and!.
  - do 3 f_equal. unfold pq_Len. simpl. rewrite length_app. simpl.
    apply take_app_length'. lia.
  - split; simpl; [by apply NoDup_app in Hnd as [? _]|].
    intros i q Hq. pose proof (lookup_app_l_Some items [p] _ _ Hq) as Hq'.
    rewrite lookup_insert_ne; [by apply Hix|]. intros ->.
    pose proof (NoDup_lookup _ _ _ _ Hnd Hq' Hlast). apply lookup_lt_Some in Hq. lia.
  - done.
  - eapply (store_index_frame p (-1)). unfold store_index. by rewrite Hw.
Qed.

Lemma pq_view_snoc h h' items p k :
  pq_view h = items ++ [k] → pq_items h' = items.*1 → pq_frame h h' → k.1 = p →
  pq_view h' = items ∧ pq_items h = items.*1 ++ [p].
Proof.
  intros Hw Hi Hf Hk.
  assert (Hit : pq_items h = items.*1 ++ [p]).
  { transitivity ((pq_view h).*1); [|by rewrite Hw, fmap_app; simpl; rewrite Hk].
    unfold pq_view. by rewrite <- list_fmap_compose, list_fmap_id. }
  split; [|done]. apply (f_equal (take (length items))) in Hw.
  rewrite take_app_length in Hw. rewrite <- Hw. unfold pq_view.
  rewrite Hi, Hit, fmap_app, take_app_length' by (by rewrite !length_fmap).
  apply list_fmap_ext. intros i q _. f_equal. symmetry. by apply pq_frame_key.
Qed.

Lemma heap_root_item h p q rest :
  pq_heap h → pq_items h = p :: rest → q ∈ pq_items h →
  item_less (pq_store h !!! q) (pq_store h !!! p) = false.
Proof.
  intros Hh Hi [i Hq]%list_elem_of_lookup. pose proof (lookup_lt_Some _ _ _ Hq) as Hlt.
  rewrite (item_less_key q p).
  pose proof (heap_root_min key_less (pq_view h) i Hh) as Hmin.
  rewrite pq_view_length in Hmin. specialize (Hmin Hlt). unfold lek in Hmin.
  destruct (pq_view_lookup_total h i Hlt) as (q' & Hq' & Hv').
  rewrite Hv' in Hmin. unfold pq_view in Hmin. rewrite Hi in Hmin. simpl in Hmin. congruence.
Qed.

Lemma pq_pop_ok h p rest :
  pq_valid h → pq_heap h → pq_items h = p :: rest →
  ∃ h', heap_Pop h = Some (h', p) ∧ pq_valid h' ∧ pq_heap h' ∧
        p :: pq_items h' ≡ₚ pq_items h ∧ pq_frame h h'.
Proof.
  intros Hv Hh Hi.
  assert (Hroot : pq_view h !!! 0%nat = (p, item_key (pq_store h !!! p)))
    by (unfold pq_view; by rewrite Hi).
  destruct (heap_Pop_spec (HL := priorityQueue_laws) h)
    as (h2 & l & Heq & Hv2 & Hf2 & Hw2 & Hp2 & Ho); [done| |done|].
  { simpl. rewrite pq_view_length, Hi. simpl. lia. }
  change (@view _ _ _ _ _ _ priorityQueue_laws) with pq_view in Hw2, Hp2.
  rewrite Hroot in Hw2.
  assert (Hi2 : pq_items h2 = l.*1 ++ [p]).
  { transitivity ((pq_view h2).*1); [|by rewrite Hw2, fmap_app].
    unfold pq_view. by rewrite <- list_fmap_compose, list_fmap_id. }
  destruct (pq_Pop_last h2 l.*1 p Hv2 Hi2) as (h' & Hpop & Hv' & Hi' & Hf').
  destruct (pq_view_snoc h2 h' l p _ Hw2 Hi' Hf' eq_refl) as [Hview _].
  exists h'. split_and!; [by rewrite Heq|done| | |by transitivity h2].
  - unfold pq_heap. by rewrite Hview.
  - rewrite Hi', Permutation_cons_append, <- Hi2, (view_items_Permutation _ _ Hp2).
    by rewrite <- (view_items_Permutation h _ (reflexivity _)).
Qed.

(** Raising the priority of a queued item and restoring the order. *)
Lemma pq_fix_ok st items p w pr :
  pq_valid (PQ st items) → pq_heap (PQ st items) → p ∈ items → st !! p = Some w →
  let h := PQ (<[p := set_Priority pr w]> st) items in
  ∃ h', heap_Fix h (wi_index w) = Some h' ∧ pq_valid h' ∧ pq_heap h' ∧
        pq_items h' ≡ₚ items ∧ pq_frame h h'.
Proof.
  intros [Hnd Hix] Hh [i Hp]%list_elem_of_lookup Hw h. simpl in *.
  destruct (Hix i p Hp) as (w0 & Hw0 & Hidx). rewrite Hw in Hw0. injection Hw0 as <-.
  pose proof (lookup_lt_Some _ _ _ Hp) as Hlt.
  assert (Hv : pq_valid h).
  { split; [done|]. intros k q Hq. simpl in *. destruct (decide (p = q)) as [<-|].
    - rewrite lookup_insert_eq. eexists; split; [done|]. simpl. rewrite Hidx.
      by rewrite (NoDup_lookup _ _ _ _ Hnd Hp Hq).
    - rewrite lookup_insert_ne by done. by apply Hix. }
  assert (Hview : pq_view h = <[i := (p, item_key (set_Priority pr w))]> (pq_view (PQ st items))).
  { apply list_eq_same_length with (length items).
    - by rewrite length_insert, pq_view_length.
    - by rewrite pq_view_length.
    - intros k x y Hk. unfold pq_view. simpl. destruct (decide (i = k)) as [<-|Hne].
      + rewrite list_lookup_insert_eq by (by rewrite length_fmap).
        rewrite list_lookup_fmap, Hp. simpl. rewrite lookup_total_insert_eq. congruence.
      + rewrite list_lookup_insert_ne by done. rewrite !list_lookup_fmap.
        destruct (items !! k) as [q|] eqn:Hq; [|done]. simpl. rewrite lookup_total_insert_ne.
        { congruence. } intros ->. apply Hne. by eapply NoDup_lookup. }
  destruct (heap_Fix_spec (HL := priorityQueue_laws) h i) as (h' & Hfix & ? & ? & Hperm & ?).
  - done.
  - simpl. by rewrite pq_view_length.
  - simpl. rewrite pq_view_length, Hview. simpl.
    apply (heap_insert_hole key_less); [|done|by rewrite pq_view_length].
    unfold pq_heap, heap_ordered in Hh. by rewrite pq_view_length in Hh.
  - exists h'. rewrite Hidx. split_and!; [done..| |done].
    rewrite (view_items_Permutation _ _ Hperm).
    by rewrite <- (view_items_Permutation h _ (reflexivity _)).
Qed.

(** ** Well-formed queues and their abstraction *)
Record wq_wf (wq : WorkQueue) : Prop := {
  wf_valid : pq_valid (wq_items wq);
  wf_heap : pq_heap (wq_items wq);
  wf_map nn p : wq_itemsMap wq !! nn = Some p →
    p ∈ wq_slice wq ∧ wi_NamespacedName <$> wq_store wq !! p = Some nn;
  wf_depth : m_currentDepth (wq_metrics wq) = Z.of_nat (length (wq_slice wq));
  wf_count :
    (m_enqueueCount (wq_metrics wq) + m_retryCount (wq_metrics wq)
       - m_dequeueCount (wq_metrics wq)) mod 2 ^ 64
    = Z.of_nat (length (wq_slice wq)) mod 2 ^ 64
}.

(** What the queue promises: a finite map of pending items, their names, and
    whether the queue was shut down. *)
Record AQueue := {
  aq_pending : gmap ptr WorkItem;
  aq_names : gmap NamespacedName ptr;
  aq_closed : bool
}.

Definition pending (h : priorityQueue) : gmap ptr WorkItem :=
  set_index 0 <$> filter (λ kv, kv.1 ∈ pq_items h) (pq_store h).

Definition abs (wq : WorkQueue) : AQueue :=
  {| aq_pending := pending (wq_items wq); aq_names := wq_itemsMap wq;
     aq_closed := wq_shutdown wq |}.

Definition fresh_item (nn : NamespacedName) (pr t1 t2 : Z) : WorkItem :=
  {| wi_NamespacedName := nn; wi_Priority := pr; wi_RetryCount := 0; wi_RetryCycle := 0;
     wi_EnqueuedAt := t1; wi_ScheduledAt := t2; wi_index := 0 |}.

Inductive spec_Enqueue (a : AQueue) (nn : NamespacedName) (pr t1 t2 : Z) : AQueue → Prop :=
  | spec_Enqueue_new p :
      aq_names a !! nn = None → aq_pending a !! p = None →
      spec_Enqueue a nn pr t1 t2
        {| aq_pending := <[p := fresh_item nn pr t1 t2]> (aq_pending a);
           aq_names := <[nn := p]> (aq_names a); aq_closed := aq_closed a |}
  | spec_Enqueue_raise p w :
      aq_names a !! nn = Some p → aq_pending a !! p = Some w →
      spec_Enqueue a nn pr t1 t2
        {| aq_pending := <[p := set_Priority (Z.max (wi_Priority w) pr) w]> (aq_pending a);
           aq_names := aq_names a; aq_closed := aq_closed a |}.

(** No pending item comes before [w]. *)
Definition first_pending (a : AQueue) (p : ptr) (w : WorkItem) : Prop :=
  aq_pending a !! p = Some w ∧
  ∀ q v, aq_pending a !! q = Some v → item_less v w = false.

Inductive spec_Dequeue (a : AQueue) (now : Z) : DequeueOutcome → AQueue → Prop :=
  | spec_Dequeue_stopped : aq_closed a = true → spec_Dequeue a now Stopped a
  | spec_Dequeue_empty :
      aq_closed a = false → aq_pending a = ∅ → spec_Dequeue a now WaitSignal a
  | spec_Dequeue_early p w :
      aq_closed a = false → first_pending a p w → now < wi_ScheduledAt w →
      spec_Dequeue a now (WaitTimer (Z.min (wi_ScheduledAt w - now) int64_max)) a
  | spec_Dequeue_item p w :
      aq_closed a = false → first_pending a p w → wi_ScheduledAt w ≤ now →
      spec_Dequeue a now (Dequeued p)
        {| aq_pending := delete p (aq_pending a);
           aq_names := delete (wi_NamespacedName w) (aq_names a); aq_closed := false |}.

Lemma pending_lookup h p :
  pending h !! p = if decide (p ∈ pq_items h) then set_index 0 <$> pq_store h !! p else None.
Proof.
  unfold pending. rewrite lookup_fmap. case_decide as Hp.
  - destruct (pq_store h !! p) as [w|] eqn:Hw.
    + by rewrite (map_lookup_filter_Some_2 _ _ _ w).
    + rewrite map_lookup_filter_None_2 by auto. done.
  - rewrite map_lookup_filter_None_2; [done|]. right. by intros w _.
Qed.

Lemma pending_frame h h' :
  pq_items h' ≡ₚ pq_items h → pq_frame h h' → pending h' = pending h.
Proof.
  intros Hp Hf. apply map_eq. intros p. rewrite !pending_lookup, <- (Hf p).
  by repeat case_decide; rewrite ?Hp in *.
Qed.

Lemma pending_insert st items items' p w :
  items' ≡ₚ p :: items ∨ (p ∈ items ∧ items' ≡ₚ items) →
  pending (PQ (<[p := w]> st) items') = <[p := set_index 0 w]> (pending (PQ st items)).
Proof.
  intros Hp. apply map_eq. intros q. rewrite lookup_insert, !pending_lookup. simpl.
  assert (Hin : q ∈ items' ↔ q = p ∨ q ∈ items).
  { destruct Hp as [->|[? ->]]; set_solver. }
  rewrite lookup_insert. by repeat case_decide; simplify_eq; naive_solver.
Qed.

Lemma pending_delete h h' p :
  NoDup (pq_items h) → p :: pq_items h' ≡ₚ pq_items h → pq_frame h h' →
  pending h' = delete p (pending h).
Proof.
  intros Hnd Hp Hf. apply map_eq. intros q. rewrite lookup_delete, !pending_lookup, <- (Hf q).
  rewrite <- Hp in Hnd. apply NoDup_cons in Hnd as [Hpn _].
  assert (Hin : q ∈ pq_items h ↔ q = p ∨ q ∈ pq_items h') by (rewrite <- Hp; set_solver).
  by repeat case_decide; simplify_eq; naive_solver.
Qed.

Lemma frame_name h h' p w :
  pq_frame h h' → pq_store h !! p = Some w →
  wi_NamespacedName <$> pq_store h' !! p = Some (wi_NamespacedName w).
Proof.
  intros Hf Hw. destruct (pq_frame_lookup _ _ _ _ Hf Hw) as (w' & -> & Heq). simpl.
  f_equal. change (wi_NamespacedName (set_index 0 w') = wi_NamespacedName (set_index 0 w)).
  by rewrite Heq.
Qed.

Lemma NewWorkQueueWithConfig_wf a b c d :
  ∃ wq, NewWorkQueueWithConfig a b c d = Some wq ∧ wq_wf wq ∧
        abs wq = {| aq_pending := ∅; aq_names := ∅; aq_closed := false |}.
Proof.
  eexists. split; [done|]. split; [|done]. split; try done.
  split; [constructor|]. done.
Qed.

Lemma wf_pending wq p :
  wq_wf wq → p ∈ wq_slice wq →
  ∃ w, wq_store wq !! p = Some w ∧ pending (wq_items wq) !! p = Some (set_index 0 w).
Proof.
  intros Hwf [i Hi]%list_elem_of_lookup. destruct (wf_valid _ Hwf) as [_ Hix].
  destruct (Hix i p Hi) as (w & Hw & _). exists w. split; [done|].
  rewrite pending_lookup, decide_True by (by eapply list_elem_of_lookup_2). by rewrite Hw.
Qed.

(** ** The operations refine their specifications *)
Definition queued_count (m : QueueMetrics) : Z :=
  m_enqueueCount m + m_retryCount m - m_dequeueCount m.

(** Pushing an item that is not in the slice, shared by [Enqueue] and [Requeue]. *)
Lemma push_wf wq p w :
  wq_wf wq → p ∉ wq_slice wq →
  ∃ h, heap_Push (PQ (<[p := w]> (wq_store wq)) (wq_slice wq)) p = Some h ∧
    pending h = <[p := set_index 0 w]> (pending (wq_items wq)) ∧
    pq_items h ≡ₚ p :: wq_slice wq ∧
    pq_frame (PQ (<[p := w]> (wq_store wq)) (wq_slice wq)) h ∧
    ∀ mt, m_currentDepth mt = Z.of_nat (pq_Len h) →
      queued_count mt mod 2 ^ 64 = (queued_count (wq_metrics wq) + 1) mod 2 ^ 64 →
      wq_wf (with_queue h (<[wi_NamespacedName w := p]> (wq_itemsMap wq)) mt wq).
Proof.
  intros Hwf Hp. destruct wq as [[st items] imap sd mt0 c1 c2 c3 c4].
  unfold wq_store, wq_slice in *. simpl in *.
  destruct (pq_push_ok st items p w (wf_valid _ Hwf) (wf_heap _ Hwf) Hp)
    as (h & Hpush & Hv & Hh & Hperm & Hf).
  exists h. split_and!; [done| |done|done|].
  - rewrite (pending_frame (PQ (<[p:=w]> st) (p :: items)) h) by done.
    apply pending_insert. by left.
  - intros mt Hd Hc. pose proof (Permutation_length Hperm) as Hlen. simpl in Hlen.
    split; simpl; [done|done| |done|].
    + intros nn q. unfold wq_slice, wq_store. simpl. intros Hq. rewrite Hperm.
      apply lookup_insert_Some in Hq as [[<- <-]|[Hne Hq]].
      * split; [set_solver|]. eapply frame_name; [done|]. simpl. apply lookup_insert_eq.
      * destruct (wf_map _ Hwf nn q Hq) as [Hin Hname].
        unfold wq_slice, wq_store in *. simpl in *. split; [set_solver|].
        destruct (st !! q) as [v|] eqn:Hv'; [|done]. injection Hname as <-.
        eapply frame_name; [done|]. simpl. rewrite lookup_insert_ne; [done|]. intros ->. done.
    + pose proof (wf_count _ Hwf) as Hcnt. unfold queued_count, wq_slice in *. simpl in *.
      rewrite Hc, <- Zplus_mod_idemp_l, Hcnt, Zplus_mod_idemp_l, Hlen. f_equal. lia.
Qed.

Lemma wrap64_succ_count a b c : (wrap64 (a + 1) + b - c) mod 2 ^ 64 = (a + b - c + 1) mod 2 ^ 64.
Proof.
  replace (wrap64 (a + 1) + b - c) with (wrap64 (a + 1) + (b - c)) by lia.
  rewrite <- Zplus_mod_idemp_l, wrap64_mod, Zplus_mod_idemp_l. f_equal. lia.
Qed.

(** Raising the priority of a queued item. *)
Lemma raise_wf wq p w pr :
  wq_wf wq → p ∈ wq_slice wq → wq_store wq !! p = Some w →
  ∃ h, heap_Fix (PQ (<[p := set_Priority pr w]> (wq_store wq)) (wq_slice wq)) (wi_index w) = Some h ∧
    pending h = <[p := set_index 0 (set_Priority pr w)]> (pending (wq_items wq)) ∧
    pq_items h ≡ₚ wq_slice wq ∧
    pq_frame (PQ (<[p := set_Priority pr w]> (wq_store wq)) (wq_slice wq)) h ∧
    wq_wf (with_queue h (wq_itemsMap wq) (wq_metrics wq) wq).
Proof.
  intros Hwf Hin Hw. destruct wq as [[st items] imap sd mt0 c1 c2 c3 c4].
  unfold wq_store, wq_slice in *. simpl in *.
  destruct (pq_fix_ok st items p w pr (wf_valid _ Hwf) (wf_heap _ Hwf) Hin Hw)
    as (h & Hfix & Hv & Hh & Hperm & Hf).
  exists h. split_and!; [done| |done|done|].
  { rewrite (pending_frame (PQ _ items) h Hperm Hf). apply pending_insert. auto. }
  pose proof (Permutation_length Hperm) as Hlen.
  pose proof (wf_depth _ Hwf) as Hd. pose proof (wf_count _ Hwf) as Hc.
  unfold wq_slice in Hd, Hc. simpl in Hd, Hc.
  split; unfold wq_store, wq_slice; simpl; rewrite ?Hlen; [done..| |done|done].
  intros nn q Hq. rewrite Hperm. destruct (wf_map _ Hwf nn q Hq) as [Hq1 Hq2].
  split; [done|]. unfold wq_store in Hq2. simpl in Hq2.
  destruct (st !! q) as [v|] eqn:Hvq; [|done]. injection Hq2 as <-.
  destruct (decide (p = q)) as [<-|].
  - rewrite (frame_name _ _ p (set_Priority pr w) Hf (lookup_insert_eq _ _ _)).
    by simplify_eq.
  - eapply frame_name; [done|]. simpl. by rewrite lookup_insert_ne.
Qed.

Lemma Enqueue_refines_spec wq nn pr t1 t2 :
  wq_wf wq →
  ∃ wq' wake, Enqueue wq nn pr t1 t2 = Some (wq', wake) ∧ wq_wf wq' ∧
    spec_Enqueue (abs wq) nn pr t1 t2 (abs wq').
Proof.
  intros Hwf. unfold Enqueue. destruct (wq_itemsMap wq !! nn) as [p|] eqn:Hnn.
  - destruct (wf_map _ Hwf nn p Hnn) as [Hin Hname].
    destruct (wf_pending wq p Hwf Hin) as (w & Hw & Hpd). rewrite Hw. simpl.
    pose proof (spec_Enqueue_raise (abs wq) nn pr t1 t2 p _ Hnn Hpd) as Hspec.
    destruct (Z.ltb_spec (wi_Priority w) pr).
    + destruct (raise_wf wq p w pr Hwf Hin Hw) as (h & -> & Hpend & _ & _ & Hwf'). simpl.
      eexists _, _. split; [done|]. split; [done|]. unfold abs at 2. simpl. rewrite Hpend.
      simpl in Hspec. by rewrite Z.max_r in Hspec by lia.
    + eexists _, _. split; [done|]. split; [done|].
      simpl in Hspec. rewrite Z.max_l in Hspec by done. by rewrite insert_id in Hspec.
  - set (p := fresh (dom (wq_store wq))).
    assert (Hfr : wq_store wq !! p = None) by (apply not_elem_of_dom, is_fresh).
    assert (Hp : p ∉ wq_slice wq).
    { intros Hin. destruct (wf_pending wq p Hwf Hin) as (w & Hw & _). congruence. }
    destruct (push_wf wq p (fresh_item nn pr t1 t2) Hwf Hp) as (h & Hpush & Hpd & _ & _ & Hwf').
    unfold fresh_item in Hpush. rewrite Hpush. simpl. eexists _, _. split; [done|]. split.
    + apply Hwf'; [done|]. apply wrap64_succ_count.
    + unfold abs. simpl. rewrite Hpd. apply (spec_Enqueue_new (abs wq)); [done|].
      simpl. rewrite pending_lookup, decide_False by done. done.
Qed.

Lemma wrap64_pred_count a b c n :
  (a + b - c) mod 2 ^ 64 = (n + 1) mod 2 ^ 64 →
  (a + b - wrap64 (c + 1)) mod 2 ^ 64 = n mod 2 ^ 64.
Proof.
  intros Hc. rewrite <- Zminus_mod_idemp_r, wrap64_mod, Zminus_mod_idemp_r.
  replace (a + b - (c + 1)) with (a + b - c - 1) by lia.
  rewrite <- Zminus_mod_idemp_l, Hc, Zminus_mod_idemp_l. f_equal. lia.
Qed.

(** Taking the first item out of a well-formed queue. *)
Lemma pop_wf wq p rest w :
  wq_wf wq → wq_slice wq = p :: rest → wq_store wq !! p = Some w →
  ∃ h, heap_Pop (wq_items wq) = Some (h, p) ∧
    pending h = delete p (pending (wq_items wq)) ∧
    p :: pq_items h ≡ₚ wq_slice wq ∧ pq_frame (wq_items wq) h ∧
    wq_wf (with_queue h (delete (wi_NamespacedName w) (wq_itemsMap wq))
             (metrics_dequeue (pq_Len h) (wq_metrics wq)) wq).
Proof.
  intros Hwf Hs Hw.
  destruct (pq_pop_ok _ p rest (wf_valid _ Hwf) (wf_heap _ Hwf) Hs)
    as (h & Hpop & Hv & Hh & Hperm & Hf).
  exists h. split_and!; [done| |done|done|].
  { apply pending_delete; [by apply wf_valid|done|done]. }
  pose proof (Permutation_length Hperm) as Hlen. simpl in Hlen.
  split; simpl; [done|done| |done|].
  - intros nn q [Hne Hq]%lookup_delete_Some. destruct (wf_map _ Hwf nn q Hq) as [Hin Hname].
    assert (q ≠ p) by (intros ->; rewrite Hw in Hname; simpl in Hname; congruence).
    unfold wq_slice, wq_store in *. simpl. rewrite <- Hperm in Hin.
    split; [by apply elem_of_cons in Hin as [?|?]|].
    destruct (pq_store (wq_items wq) !! q) as [v|] eqn:Hv'; [|done].
    injection Hname as <-. by eapply frame_name.
  - pose proof (wf_count _ Hwf) as Hc. unfold wq_slice in *. simpl.
    apply wrap64_pred_count. rewrite Hc, <- Hlen. f_equal. lia.
Qed.

Lemma first_pending_root wq p rest w :
  wq_wf wq → wq_slice wq = p :: rest → wq_store wq !! p = Some w →
  first_pending (abs wq) p (set_index 0 w).
Proof.
  intros Hwf Hs Hw. split; simpl.
  - rewrite pending_lookup, decide_True; [|unfold wq_slice in Hs; rewrite Hs; set_solver].
    unfold wq_store in Hw. by rewrite Hw.
  - intros q v. rewrite pending_lookup. case_decide as Hq; [|done].
    intros (v0 & Hv0 & ->)%fmap_Some.
    pose proof (heap_root_item _ p q rest (wf_heap _ Hwf) Hs Hq) as Hless.
    by rewrite (lookup_total_correct _ _ _ Hv0), (lookup_total_correct _ _ _ Hw) in Hless.
Qed.

Lemma Dequeue_refines_spec wq now :
  wq_wf wq →
  ∃ wq' o, Dequeue_pass wq now = Some (wq', o) ∧ wq_wf wq' ∧
    spec_Dequeue (abs wq) now o (abs wq').
Proof.
  intros Hwf. unfold Dequeue_pass. destruct (wq_shutdown wq) eqn:Hsd.
  { eexists _, _. split; [done|]. split; [done|]. by constructor. }
  destruct (wq_slice wq) as [|p rest] eqn:Hs.
  { eexists _, _. split; [done|]. split; [done|]. constructor; [done|]. simpl.
    apply map_eq. intros q. rewrite pending_lookup, decide_False; [done|].
    unfold wq_slice in Hs. rewrite Hs. set_solver. }
  destruct (wf_pending wq p Hwf) as (w & Hw & _); [rewrite Hs; set_solver|].
  rewrite Hw. simpl. pose proof (first_pending_root wq p rest w Hwf Hs Hw) as Hfirst.
  destruct (Z.ltb_spec now (wi_ScheduledAt w)).
  - eexists _, _. split; [done|]. split; [done|]. rewrite time_Sub_pos by done.
    by apply (spec_Dequeue_early (abs wq) now p (set_index 0 w)).
  - destruct (pop_wf wq p rest w Hwf Hs Hw) as (h & -> & Hpd & _ & _ & Hwf'). simpl.
    eexists _, _. split; [done|]. split; [done|].
    unfold abs at 2. simpl. rewrite Hpd, Hsd.
    by apply (spec_Dequeue_item (abs wq) now p (set_index 0 w)).
Qed.

(** ** Retries *)

(** The delay with unbounded integers. *)
Definition ideal_backoff (initial maxDelay retryCount : Z) : Z :=
  Z.min (initial * 2 ^ Z.min (retryCount - 1) 30) maxDelay.

Lemma backoff_ideal_eq initial maxDelay rc :
  1 ≤ rc ≤ int64_max + 1 → 0 ≤ initial → initial * 2 ^ 30 ≤ int64_max →
  backoff initial maxDelay rc = ideal_backoff initial maxDelay rc.
Proof.
  intros Hrc Hi Ho. unfold backoff, ideal_backoff.
  rewrite (wrap64_id (rc - 1)) by (unfold in_int64, int64_min; lia). cbv zeta.
  replace (if 30 <? rc - 1 then 30 else rc - 1) with (Z.min (rc - 1) 30)
    by (destruct (Z.ltb_spec 30 (rc - 1)); lia).
  set (k := Z.min (rc - 1) 30). assert (Hk : 0 ≤ k ≤ 30) by lia.
  rewrite shl1_64_pow by lia.
  assert (H2 : 0 < 2 ^ k ≤ 2 ^ 30) by (split; [|apply Z.pow_le_mono_r]; lia).
  rewrite wrap64_id; [|unfold in_int64, int64_min in *; nia].
  destruct (Z.ltb_spec maxDelay (initial * 2 ^ k)); lia.
Qed.

(** The item after a failed attempt, or nothing when the queue gives up. *)
Definition next_retry (maxRetries maxCycles initial maxDelay now : Z) (w : WorkItem)
    : option WorkItem :=
  let count := wi_RetryCount w + 1 in
  if count <=? maxRetries then
    Some (set_retry count (wi_RetryCycle w) (now + ideal_backoff initial maxDelay count) w)
  else if (0 <? maxCycles) && (maxCycles <=? wi_RetryCycle w) then None
  else Some (set_retry 0 (wrap64 (wi_RetryCycle w + 1)) (now + maxDelay) w).

Definition retry_sane (wq : WorkQueue) (w : WorkItem) : Prop :=
  0 ≤ wi_RetryCount w < int64_max ∧
  0 ≤ wq_InitialRetryDelay wq ∧ wq_InitialRetryDelay wq * 2 ^ 30 ≤ int64_max.

Definition wq_next_retry (wq : WorkQueue) (now : Z) (w : WorkItem) : option WorkItem :=
  next_retry (wq_MaxRetries wq) (wq_MaxRetryCycles wq) (wq_InitialRetryDelay wq)
    (wq_MaxRetryDelay wq) now w.

Lemma requeue_push wq p w w' :
  wq_wf wq → p ∉ wq_slice wq → wi_NamespacedName w' = wi_NamespacedName w →
  ∃ wq' wake,
    (h ← heap_Push (PQ (<[p := w']> (wq_store wq)) (wq_slice wq)) p;
     Some (with_queue h (<[wi_NamespacedName w' := p]> (wq_itemsMap wq))
       (metrics_retry (pq_Len h) (metrics_done (wq_metrics wq))) wq, Signal))
      = Some (wq', wake) ∧ wq_wf wq' ∧ wake = Signal ∧
    abs wq' = {| aq_pending := <[p := set_index 0 w']> (aq_pending (abs wq));
                 aq_names := <[wi_NamespacedName w := p]> (aq_names (abs wq));
                 aq_closed := aq_closed (abs wq) |}.
Proof.
  intros Hwf Hp Hname. destruct (push_wf wq p w' Hwf Hp) as (h & -> & Hpd & _ & _ & Hwf').
  simpl. eexists _, _. split; [done|]. split_and!; [|done|].
  - apply Hwf'; [done|]. unfold queued_count. simpl.
    rewrite (Z.add_comm (m_enqueueCount _)), (Z.add_comm _ (m_retryCount _)).
    apply wrap64_succ_count.
  - unfold abs. simpl. by rewrite Hpd, Hname.
Qed.

(** Writing to an item outside the slice does not concern the queue. *)
Lemma store_write_wf wq p w mt :
  wq_wf wq → p ∉ wq_slice wq →
  m_currentDepth mt = m_currentDepth (wq_metrics wq) →
  queued_count mt = queued_count (wq_metrics wq) →
  let wq' := with_queue (PQ (<[p := w]> (wq_store wq)) (wq_slice wq)) (wq_itemsMap wq) mt wq in
  wq_wf wq' ∧ abs wq' = abs wq.
Proof.
  intros Hwf Hp Hd Hq wq'. destruct wq as [[st items] imap sd mt0 c1 c2 c3 c4].
  unfold wq', wq_store, wq_slice in *. clear wq'. simpl in *. split.
  - split; unfold wq_store, wq_slice, queued_count in *; simpl in *.
    + apply pq_valid_insert; [apply (wf_valid _ Hwf)|done].
    + unfold pq_heap. rewrite pq_view_insert by done. apply (wf_heap _ Hwf).
    + intros nn q Hnn. destruct (wf_map _ Hwf nn q Hnn) as [? ?]. split; [done|].
      rewrite lookup_insert_ne; [done|]. by intros ->.
    + rewrite Hd. apply (wf_depth _ Hwf).
    + rewrite Hq. apply (wf_count _ Hwf).
  - unfold abs. simpl. f_equal. apply map_eq. intros q. rewrite !pending_lookup. simpl.
    case_decide; [|done]. rewrite lookup_insert_ne; [done|]. by intros ->.
Qed.

Lemma Requeue_refines_spec wq p w now :
  wq_wf wq → p ∉ wq_slice wq → wq_store wq !! p = Some w → retry_sane wq w →
  ∃ wq' wake, Requeue wq p now = Some (wq', wake) ∧ wq_wf wq' ∧
    match wq_next_retry wq now w with
    | Some w' =>
        wake = Signal ∧
        abs wq' = {| aq_pending := <[p := set_index 0 w']> (aq_pending (abs wq));
                     aq_names := <[wi_NamespacedName w := p]> (aq_names (abs wq));
                     aq_closed := aq_closed (abs wq) |}
    | None => wake = NoWake ∧ abs wq' = abs wq
    end.
Proof.
  intros Hwf Hp Hw (Hc1 & Hd1 & Hd2). unfold Requeue. rewrite Hw. simpl.
  rewrite (wrap64_id (wi_RetryCount w + 1))
    by (unfold in_int64, int64_min, int64_max in *; lia).
  unfold wq_next_retry, next_retry.
  destruct (Z.ltb_spec (wq_MaxRetries wq) (wi_RetryCount w + 1)),
    (Z.leb_spec (wi_RetryCount w + 1) (wq_MaxRetries wq)); try lia.
  - destruct ((0 <? wq_MaxRetryCycles wq) && (wq_MaxRetryCycles wq <=? wi_RetryCycle w)).
    + eexists _, _. split; [done|].
      by destruct (store_write_wf wq p
        (set_retry (wi_RetryCount w + 1) (wi_RetryCycle w) (wi_ScheduledAt w) w)
        (metrics_done (metrics_done (wq_metrics wq))) Hwf Hp) as [? ?].
    + destruct (requeue_push wq p w
        (set_retry 0 (wrap64 (wi_RetryCycle w + 1)) (now + wq_MaxRetryDelay wq) w))
        as (wq' & wake & ? & ? & ? & ?); [done..|]. eauto 10.
  - rewrite backoff_ideal_eq by lia.
    destruct (requeue_push wq p w (set_retry (wi_RetryCount w + 1) (wi_RetryCycle w)
      (now + ideal_backoff (wq_InitialRetryDelay wq) (wq_MaxRetryDelay wq) (wi_RetryCount w + 1)) w))
        as (wq' & wake & ? & ? & ? & ?); [done..|]. eauto 10.
Qed.

Lemma Done_wf wq p : wq_wf wq → wq_wf (Done wq p) ∧ abs (Done wq p) = abs wq.
Proof. by intros [? ? ? ? ?]. Qed.

Lemma Shutdown_wf wq :
  wq_wf wq → wq_wf (Shutdown wq).1 ∧
  abs (Shutdown wq).1 =
    {| aq_pending := aq_pending (abs wq); aq_names := aq_names (abs wq); aq_closed := true |}.
Proof. by intros [? ? ? ? ?]. Qed.

(** ** Items that a worker holds

    An item outside the slice keeps all its fields but [index] whatever the other
    goroutines do to the queue, and stays outside the slice. *)
Definition holds (wq : WorkQueue) (p : ptr) (w : WorkItem) : Prop :=
  (p ∉ wq_slice wq) ∧ set_index 0 <$> wq_store wq !! p = Some w.

Lemma frame_holds h items' st p w :
  pq_frame (PQ st items') h → st !! p = Some w →
  set_index 0 <$> pq_store h !! p = Some (set_index 0 w).
Proof. intros Hf Hp. rewrite <- (Hf p). simpl. by rewrite Hp. Qed.

Lemma Enqueue_holds wq nn pr t1 t2 wq' wake p w :
  wq_wf wq → Enqueue wq nn pr t1 t2 = Some (wq', wake) → holds wq p w → holds wq' p w.
Proof.
  intros Hwf He [Hp (v & Hv & ->)%fmap_Some]. unfold Enqueue in He.
  destruct (wq_itemsMap wq !! nn) as [q|] eqn:Hnn.
  - destruct (wf_map _ Hwf nn q Hnn) as [Hin _].
    destruct (wf_pending wq q Hwf Hin) as (u & Hu & _). rewrite Hu in He. simpl in He.
    destruct (wi_Priority u <? pr); [|by simplify_eq; split; [|rewrite Hv]].
    destruct (raise_wf wq q u pr Hwf Hin Hu) as (h & Hfix & _ & Hperm & Hf & _).
    rewrite Hfix in He. simplify_eq/=. split; [unfold wq_slice; simpl; by rewrite Hperm|].
    eapply frame_holds; [done|]. rewrite lookup_insert_ne; [done|]. by intros ->.
  - set (q := fresh (dom (wq_store wq))) in *.
    assert (Hfr : q ∉ dom (wq_store wq)) by apply is_fresh.
    assert (Hq : q ∉ wq_slice wq).
    { intros Hin. destruct (wf_pending wq q Hwf Hin) as (u & Hu & _).
      by apply elem_of_dom_2 in Hu. }
    assert (Hne : p ≠ q) by (intros ->; by apply elem_of_dom_2 in Hv).
    destruct (push_wf wq q (fresh_item nn pr t1 t2) Hwf Hq) as (h & Hpush & _ & Hperm & Hf & _).
    unfold fresh_item in Hpush. rewrite Hpush in He. simplify_eq/=.
    split; [unfold wq_slice; simpl; rewrite Hperm; set_solver|].
    eapply frame_holds; [done|]. by rewrite lookup_insert_ne.
Qed.

Lemma Dequeue_holds wq now wq' o p w :
  wq_wf wq → Dequeue_pass wq now = Some (wq', o) → holds wq p w →
  holds wq' p w ∧ o ≠ Dequeued p.
Proof.
  intros Hwf Hd [Hp Hv]. unfold Dequeue_pass in Hd.
  destruct (wq_shutdown wq); [by simplify_eq|].
  destruct (wq_slice wq) as [|q rest] eqn:Hs; [simplify_eq; split; [split; [by rewrite Hs|]|]; done|].
  destruct (wf_pending wq q Hwf) as (u & Hu & _); [rewrite Hs; set_solver|].
  rewrite Hu in Hd. simpl in Hd.
  destruct (now <? wi_ScheduledAt u); [simplify_eq; split; [split; [by rewrite Hs|]|]; done|].
  destruct (pop_wf wq q rest u Hwf Hs Hu) as (h & Hpop & _ & Hperm & Hf & _).
  rewrite Hpop in Hd. simplify_eq/=. rewrite Hs in Hperm.
  split; [|intros [= ->]; set_solver]. split.
  - unfold wq_slice. simpl. intros Hin. apply Hp. rewrite <- Hperm. set_solver.
  - unfold wq_store. simpl. by rewrite <- (Hf p).
Qed.

Lemma Dequeued_holds wq now wq' p :
  wq_wf wq → Dequeue_pass wq now = Some (wq', Dequeued p) →
  ∃ w, aq_pending (abs wq) !! p = Some w ∧ holds wq' p w.
Proof.
  intros Hwf Hd. unfold Dequeue_pass in Hd.
  destruct (wq_shutdown wq); [done|].
  destruct (wq_slice wq) as [|q rest] eqn:Hs; [done|].
  destruct (wf_pending wq q Hwf) as (u & Hu & Hpd); [rewrite Hs; set_solver|].
  rewrite Hu in Hd. simpl in Hd. destruct (now <? wi_ScheduledAt u); [done|].
  destruct (pop_wf wq q rest u Hwf Hs Hu) as (h & Hpop & _ & Hperm & Hf & _).
  rewrite Hpop in Hd. simplify_eq/=. exists (set_index 0 u). split; [done|].
  destruct (wf_valid _ Hwf) as [Hnd _]. unfold wq_slice in *. rewrite <- Hperm in Hnd.
  apply NoDup_cons in Hnd as [Hnin _]. split; [done|].
  unfold wq_store in *. simpl. rewrite <- (Hf p). by rewrite Hu.
Qed.

Lemma Requeue_holds wq p now wq' wake q w :
  wq_wf wq → p ∉ wq_slice wq → Requeue wq p now = Some (wq', wake) →
  q ≠ p → holds wq q w → holds wq' q w.
Proof.
  intros Hwf Hp Hr Hne [Hq (v & Hv & ->)%fmap_Some]. unfold Requeue in Hr.
  apply bind_Some in Hr as (item & Hitem & Hr).
  assert (Hpush : ∀ item' m, (h ← heap_Push (PQ (<[p := item']> (wq_store wq)) (wq_slice wq)) p;
    Some (with_queue h (<[wi_NamespacedName item' := p]> (wq_itemsMap wq)) (metrics_retry (pq_Len h) m) wq,
      Signal)) = Some (wq', wake) → holds wq' q (set_index 0 v)).
  { intros item' m Hh. destruct (push_wf wq p item' Hwf Hp) as (h & Hpush & _ & Hperm & Hf & _).
    rewrite Hpush in Hh. simplify_eq/=.
    split; [unfold wq_slice; simpl; rewrite Hperm; set_solver|].
    eapply frame_holds; [done|]. by rewrite lookup_insert_ne. }
  repeat case_match; eauto. simplify_eq/=. split; [done|].
  unfold wq_store in *. simpl. by rewrite lookup_insert_ne, Hv by done.
Qed.

(** ** Counters and configuration *)
Definition same_config (wq wq' : WorkQueue) : Prop :=
  wq_MaxRetries wq' = wq_MaxRetries wq ∧ wq_InitialRetryDelay wq' = wq_InitialRetryDelay wq ∧
  wq_MaxRetryDelay wq' = wq_MaxRetryDelay wq ∧ wq_MaxRetryCycles wq' = wq_MaxRetryCycles wq.

Lemma Enqueue_metrics wq nn pr t1 t2 wq' wake :
  Enqueue wq nn pr t1 t2 = Some (wq', wake) →
  same_config wq wq' ∧
  m_processingItems (wq_metrics wq') = m_processingItems (wq_metrics wq).
Proof.
  unfold Enqueue. intros He. repeat (case_match || simplify_option_eq); done.
Qed.

Lemma Dequeue_metrics wq now wq' o :
  Dequeue_pass wq now = Some (wq', o) →
  same_config wq wq' ∧
  m_processingItems (wq_metrics wq') =
    match o with
    | Dequeued _ => wrap64 (m_processingItems (wq_metrics wq) + 1)
    | _ => m_processingItems (wq_metrics wq)
    end.
Proof.
  unfold Dequeue_pass. intros He. repeat (case_match || simplify_option_eq); done.
Qed.

Lemma Requeue_metrics wq p now wq' wake :
  Requeue wq p now = Some (wq', wake) →
  same_config wq wq' ∧
  m_processingItems (wq_metrics wq') =
    match wake with
    | Signal => wrap64 (m_processingItems (wq_metrics wq) - 1)
    | _ => wrap64 (wrap64 (m_processingItems (wq_metrics wq) - 1) - 1)
    end.
Proof.
  unfold Requeue. intros He. repeat (case_match || simplify_option_eq); done.
Qed.
