(* ===== verification/WorkQueueSpec.v ===== *)
(** What the work queue guarantees: the theorems about [WorkQueue], each with the
    concrete queue on which its hypotheses hold. *)
From S2P Require Import Prelude GoHeap WorkQueue WorkQueueFacts.
From stdpp Require Import base option list gmap strings.
From Stdlib Require Import ZArith Lia.

Local Open Scope Z_scope.

(** ** Concrete queues for the witnesses *)
Definition empty_wq : WorkQueue := default
  {| wq_items := PQ ∅ []; wq_itemsMap := ∅; wq_shutdown := false; wq_metrics := zero_metrics;
     wq_MaxRetries := 0; wq_InitialRetryDelay := 0; wq_MaxRetryDelay := 0;
     wq_MaxRetryCycles := 0 |} NewWorkQueue.

Definition nnA : NamespacedName := NN "team" "a".
Definition nnB : NamespacedName := NN "team" "b".

Definition or_empty (o : option (WorkQueue * Wake)) : WorkQueue := default empty_wq (fst <$> o).

(** Two items, [nnB] before [nnA]. *)
Definition two_wq : WorkQueue :=
  or_empty (Enqueue (or_empty (Enqueue empty_wq nnA 0 20 20)) nnB 0 10 10).

(** [nnA] dequeued and [nnA] enqueued again while its item is being processed. *)
Definition held_wq : WorkQueue :=
  default empty_wq (fst <$> Dequeue_pass (or_empty (Enqueue empty_wq nnA 0 20 20)) 30).

Definition race_wq : WorkQueue := or_empty (Enqueue held_wq nnA 0 31 31).

Lemma empty_wq_wf : wq_wf empty_wq.
Proof.
  destruct (NewWorkQueueWithConfig_wf DefaultMaxRetries DefaultInitialRetryDelay
    DefaultMaxRetryDelay DefaultMaxRetryCycles) as (wq & Hn & Hwf & _).
  unfold empty_wq, NewWorkQueue. by rewrite Hn.
Qed.

Lemma or_empty_Enqueue_wf wq nn pr t1 t2 : wq_wf wq → wq_wf (or_empty (Enqueue wq nn pr t1 t2)).
Proof.
  intros Hwf. destruct (Enqueue_refines_spec wq nn pr t1 t2 Hwf) as (wq' & wake & He & Hwf' & _).
  unfold or_empty. by rewrite He.
Qed.

Lemma two_wq_wf : wq_wf two_wq.
Proof. by do 2 apply or_empty_Enqueue_wf; apply empty_wq_wf. Qed.

Lemma held_wq_wf : wq_wf held_wq.
Proof.
  destruct (Dequeue_refines_spec (or_empty (Enqueue empty_wq nnA 0 20 20)) 30)
    as (wq' & o & Hd & Hwf' & _); [apply or_empty_Enqueue_wf, empty_wq_wf|].
  unfold held_wq. by rewrite Hd.
Qed.

Lemma race_wq_wf : wq_wf race_wq.
Proof. apply or_empty_Enqueue_wf, held_wq_wf. Qed.

(** ** Refinement *)

(** C4.  On a well-formed queue [Enqueue] never panics, keeps the queue well formed
    (heap order, back-pointers, name index, depth and counters), and does what its
    specification says: a new name adds one item with zeroed retry state, a name
    that is already queued only ever has its priority raised. *)
Theorem Enqueue_refines (wq : WorkQueue) (nn : NamespacedName) (pr t1 t2 : Z) :
  wq_wf wq →
  ∃ wq' wake, Enqueue wq nn pr t1 t2 = Some (wq', wake) ∧ wq_wf wq' ∧
    spec_Enqueue (abs wq) nn pr t1 t2 (abs wq').
Proof. apply Enqueue_refines_spec. Qed.

Lemma Enqueue_refines_witness :
  ∃ wq' wake, Enqueue two_wq nnA 7 40 41 = Some (wq', wake) ∧ wq_wf wq' ∧
    spec_Enqueue (abs two_wq) nnA 7 40 41 (abs wq').
Proof. apply (Enqueue_refines two_wq nnA 7 40 41). apply two_wq_wf. Defined.

(** C3.  One pass of [Dequeue] on a well-formed queue never panics and keeps it well
    formed; it stops only after a shutdown, waits for a signal only when nothing is
    pending, and otherwise looks at an item that no pending item precedes: it
    returns that item exactly when its scheduled time has come, removing it and its
    name, and else waits for the exact remaining time. *)
Theorem Dequeue_refines (wq : WorkQueue) (now : Z) :
  wq_wf wq →
  ∃ wq' o, Dequeue_pass wq now = Some (wq', o) ∧ wq_wf wq' ∧
    spec_Dequeue (abs wq) now o (abs wq').
Proof. apply Dequeue_refines_spec. Qed.

Lemma Dequeue_refines_witness :
  ∃ wq' o, Dequeue_pass two_wq 15 = Some (wq', o) ∧ wq_wf wq' ∧
    spec_Dequeue (abs two_wq) 15 o (abs wq').
Proof. apply (Dequeue_refines two_wq 15). apply two_wq_wf. Defined.

(** C5.  [Requeue] of a dequeued item, within the range in which the delay cannot
    overflow: below the retry limit the item comes back after the capped exponential
    delay; past it a new cycle starts after the cool-down; past the cycle limit the
    item is dropped and the pending items do not change.  It never panics and keeps
    the queue well formed. *)
Theorem Requeue_refines (wq : WorkQueue) (p : ptr) (w : WorkItem) (now : Z) :
  wq_wf wq → p ∉ wq_slice wq → wq_store wq !! p = Some w → retry_sane wq w →
  ∃ wq' wake, Requeue wq p now = Some (wq', wake) ∧ wq_wf wq' ∧
    match wq_next_retry wq now w with
    | Some w' =>
        wake = Signal ∧
        abs wq' = {| aq_pending := <[p := set_index 0 w']> (aq_pending (abs wq));
                     aq_names := <[wi_NamespacedName w := p]> (aq_names (abs wq));
                     aq_closed := aq_closed (abs wq) |}
    | None => wake = NoWake ∧ abs wq' = abs wq
    end.
Proof. apply Requeue_refines_spec. Qed.

Definition held_item : WorkItem :=
  {| wi_NamespacedName := nnA; wi_Priority := 0; wi_RetryCount := 0; wi_RetryCycle := 0;
     wi_EnqueuedAt := 20; wi_ScheduledAt := 20; wi_index := -1 |}.

Lemma Requeue_refines_witness :
  ∃ wq' wake, Requeue held_wq 1%positive 50 = Some (wq', wake) ∧ wq_wf wq' ∧
    wake = Signal ∧
    aq_pending (abs wq') !! 1%positive =
      Some (set_index 0 (set_retry 1 0 (50 + time_Second) held_item)).
Proof.
  destruct (Requeue_refines held_wq 1%positive held_item 50) as (wq' & wake & Hr & Hwf & Hm).
  - apply held_wq_wf.
  - vm_compute. intros H. inversion H.
  - vm_compute. reflexivity.
  - vm_compute. repeat split; discriminate.
  - exists wq', wake. split; [exact Hr|]. split; [exact Hwf|].
    assert (Hnext : wq_next_retry held_wq 50 held_item =
      Some (set_retry 1 0 (50 + time_Second) held_item)) by (vm_compute; reflexivity).
    rewrite Hnext in Hm. destruct Hm as [-> ->]. split; [done|]. by vm_compute.
Defined.

(** ** Delays *)

(** C30.  While [InitialRetryDelay * 2^30] fits in an [int64], the delay of retry
    number [rc] is exactly [min (InitialRetryDelay * 2^(min (rc-1) 30)) MaxRetryDelay]:
    positive, never above the cap, and never shorter than the delay before it. *)
Theorem backoff_capped_exponential (initial maxDelay rc : Z) :
  1 ≤ rc ≤ int64_max → 0 < initial → initial * 2 ^ 30 ≤ int64_max → 0 < maxDelay →
  backoff initial maxDelay rc = Z.min (initial * 2 ^ Z.min (rc - 1) 30) maxDelay ∧
  0 < backoff initial maxDelay rc ≤ maxDelay ∧
  backoff initial maxDelay rc ≤ backoff initial maxDelay (rc + 1).
Proof.
  intros Hrc Hi Ho Hm. rewrite !backoff_ideal_eq by lia. unfold ideal_backoff.
  assert (Hp : 0 < 2 ^ Z.min (rc - 1) 30) by (apply Z.pow_pos_nonneg; lia).
  assert (Hle : 2 ^ Z.min (rc - 1) 30 ≤ 2 ^ Z.min (rc + 1 - 1) 30)
    by (apply Z.pow_le_mono_r; lia).
  split; [done|]. split; [split|]; nia.
Qed.

Lemma backoff_capped_exponential_witness :
  backoff DefaultInitialRetryDelay DefaultMaxRetryDelay 4 = 8 * time_Second.
Proof.
  destruct (backoff_capped_exponential DefaultInitialRetryDelay DefaultMaxRetryDelay 4)
    as [-> _]; [vm_compute; intuition discriminate|reflexivity|vm_compute; discriminate|reflexivity|]. reflexivity.
Defined.

(** The cap of the shift at 30 does not prevent overflow: for an
    [InitialRetryDelay] from 2^33 ns (8.6 s) up to 2^34 ns every retry from the 31st
    on computes a negative delay, so the item is scheduled in the past and the
    maximum delay is not applied. *)
Theorem backoff_overflows (initial maxDelay rc : Z) :
  2 ^ 33 ≤ initial < 2 ^ 34 → 31 ≤ rc ≤ int64_max → 0 ≤ maxDelay →
  backoff initial maxDelay rc < 0.
Proof.
  intros Hi Hrc Hm. unfold backoff.
  rewrite (wrap64_id (rc - 1)) by (unfold in_int64, int64_min; lia). cbv zeta.
  replace (if 30 <? rc - 1 then 30 else rc - 1) with 30
    by (destruct (Z.ltb_spec 30 (rc - 1)); lia).
  replace (wrap64 (initial * shl1_64 30)) with (initial * 2 ^ 30 - 2 ^ 64).
  { destruct (Z.ltb_spec maxDelay (initial * 2 ^ 30 - 2 ^ 64)); lia. }
  rewrite shl1_64_pow by lia. unfold wrap64.
  rewrite <- (Z.mod_add _ (-1)) by lia. rewrite Z.mod_small; lia.
Qed.

Lemma backoff_overflows_witness :
  backoff (9 * time_Second) (300 * time_Second) 31 < 0.
Proof. apply (backoff_overflows (9 * time_Second) (300 * time_Second) 31); vm_compute; intuition discriminate. Defined.





(** ** Deduplication *)
Definition queue_unique (a : AQueue) : Prop :=
  ∀ p w, aq_pending a !! p = Some w → aq_names a !! wi_NamespacedName w = Some p.

Lemma queue_unique_insert a p w nn :
  queue_unique a → wi_NamespacedName w = nn →
  (aq_names a !! nn = None ∨ aq_names a !! nn = Some p) →
  queue_unique {| aq_pending := <[p := w]> (aq_pending a);
                  aq_names := <[nn := p]> (aq_names a); aq_closed := aq_closed a |}.
Proof.
  intros Hu Hn Hfree q v. simpl. intros [[<- <-]|[Hne Hq]]%lookup_insert_Some.
  - rewrite Hn. apply lookup_insert_eq.
  - pose proof (Hu q v Hq). rewrite lookup_insert_ne; [done|]. intros ->.
    destruct Hfree; congruence.
Qed.

(** If every pending item is the one its name refers to, so that no name is
    queued twice, then this still holds after [Enqueue], after a pass of [Dequeue],
    and after a [Requeue] of an item whose name was not enqueued again meanwhile. *)
Theorem dedup_preserved (wq : WorkQueue) :
  wq_wf wq → queue_unique (abs wq) →
  (∀ nn pr t1 t2 wq' wake,
     Enqueue wq nn pr t1 t2 = Some (wq', wake) → queue_unique (abs wq')) ∧
  (∀ now wq' o, Dequeue_pass wq now = Some (wq', o) → queue_unique (abs wq')) ∧
  (∀ p w now wq' wake,
     p ∉ wq_slice wq → wq_store wq !! p = Some w → retry_sane wq w →
     Contains wq (wi_NamespacedName w) = false →
     Requeue wq p now = Some (wq', wake) → queue_unique (abs wq')).
Proof.
  intros Hwf Hu. split_and!.
  - intros nn pr t1 t2 wq' wake He.
    destruct (Enqueue_refines_spec wq nn pr t1 t2 Hwf) as (wq1 & wk & He' & _ & Hspec).
    rewrite He in He'. injection He' as <- <-.
    generalize dependent (abs wq'). intros a' [p Hn Hp|p w Hn Hp].
    + apply queue_unique_insert; auto.
    + pose proof (Hu p w Hp) as Hname. rewrite <- (insert_id _ _ _ Hname) at 1.
      apply queue_unique_insert; auto.
  - intros now wq' o Hd. destruct (Dequeue_refines_spec wq now Hwf) as (wq1 & o1 & Hd' & _ & Hspec).
    rewrite Hd in Hd'. injection Hd' as <- <-.
    generalize dependent (abs wq'). intros a' [|? ?|p w ? ?|p w Hc [Hp _] Hle]; [done..|].
    intros q v. simpl. intros [Hne Hq]%lookup_delete_Some. pose proof (Hu q v Hq) as Hv. pose proof (Hu p w Hp) as Hw.
    simpl. rewrite lookup_delete_ne; [done|]. intros Heq. rewrite Heq in Hw. congruence.
  - intros p w now wq' wake Hp Hw Hsane Hc Hr.
    destruct (Requeue_refines_spec wq p w now Hwf Hp Hw Hsane) as (wq1 & wk & Hr' & _ & Hm).
    rewrite Hr in Hr'. injection Hr' as <- <-.
    destruct (wq_next_retry wq now w) as [w'|] eqn:Hn; destruct Hm as [-> ->]; [|done].
    apply queue_unique_insert; [done| |].
    + unfold wq_next_retry, next_retry in Hn. by repeat case_match; simplify_eq.
    + left. apply bool_decide_eq_false in Hc. by apply eq_None_not_Some.
Qed.

(** [two_wq] after its first item has been dequeued. *)
Definition after_dequeue : WorkQueue := default two_wq (fst <$> Dequeue_pass two_wq 15).

Lemma dedup_preserved_witness : queue_unique (abs after_dequeue).
Proof.
  destruct (dedup_preserved two_wq) as (_ & Hd & _); [exact two_wq_wf| |].
  - assert (Hall : map_Forall (λ p v, aq_names (abs two_wq) !! wi_NamespacedName v = Some p)
                     (aq_pending (abs two_wq)))
      by (refine (bool_decide_unpack _ _); vm_compute; exact I).
    exact Hall.
  - eapply (Hd 15). vm_compute. reflexivity.
Defined.

(** A [Requeue] of an item whose name was enqueued again while it was being
    processed puts a second item for the same template in the queue, and the name
    index refers to only one of them: the deduplication of [Enqueue] no longer holds
    and two workers can process one template at the same time. *)
Theorem Requeue_duplicates (wq : WorkQueue) (p q : ptr) (w : WorkItem) (now : Z) :
  wq_wf wq → p ∉ wq_slice wq → wq_store wq !! p = Some w → retry_sane wq w →
  wq_itemsMap wq !! wi_NamespacedName w = Some q →
  is_Some (wq_next_retry wq now w) →
  ∃ wq' wake v v', Requeue wq p now = Some (wq', wake) ∧ p ≠ q ∧
    aq_pending (abs wq') !! p = Some v ∧ aq_pending (abs wq') !! q = Some v' ∧
    wi_NamespacedName v = wi_NamespacedName v' ∧
    wq_itemsMap wq' !! wi_NamespacedName v = Some p.
Proof.
  intros Hwf Hp Hw Hsane Hq [w' Hn].
  destruct (wf_map _ Hwf _ _ Hq) as [Hin Hname].
  destruct (wf_pending wq q Hwf Hin) as (u & Hu & Hpq). rewrite Hu in Hname.
  injection Hname as Hname.
  destruct (Requeue_refines_spec wq p w now Hwf Hp Hw Hsane) as (wq' & wake & Hr & _ & Hm).
  rewrite Hn in Hm. destruct Hm as [-> Habs].
  assert (Hne : p ≠ q) by (intros ->; done).
  assert (Hw' : wi_NamespacedName w' = wi_NamespacedName w)
    by (unfold wq_next_retry, next_retry in Hn; by repeat case_match; simplify_eq).
  exists wq', Signal, (set_index 0 w'), (set_index 0 u). split_and!; [done..| | | |].
  - rewrite Habs. apply lookup_insert_eq.
  - rewrite Habs. simpl. by rewrite lookup_insert_ne.
  - simpl. congruence.
  - change (wq_itemsMap wq') with (aq_names (abs wq')). rewrite Habs. simpl. rewrite Hw'.
    apply lookup_insert_eq.
Qed.

Lemma Requeue_duplicates_witness :
  ∃ wq' wake v v', Requeue race_wq 1%positive 32 = Some (wq', wake) ∧ 1%positive ≠ 2%positive ∧
    aq_pending (abs wq') !! 1%positive = Some v ∧ aq_pending (abs wq') !! 2%positive = Some v' ∧
    wi_NamespacedName v = wi_NamespacedName v' ∧
    wq_itemsMap wq' !! wi_NamespacedName v = Some 1%positive.
Proof.
  apply (Requeue_duplicates race_wq 1%positive 2%positive held_item 32).
  - apply race_wq_wf.
  - refine (bool_decide_unpack _ _). vm_compute. exact I.
  - vm_compute. reflexivity.
  - vm_compute. repeat split; discriminate.
  - vm_compute. reflexivity.
  - vm_compute. eexists. reflexivity.
Defined.
