(* ===== verification/ApiTypes.v ===== *)
(** The resource types of [api/kubetemplater.io/v1alpha1] with the part of the
    Kubernetes metadata the operator reads or writes, dynamic JSON values, and
    errors as values. *)
From S2P Require Import Prelude.
From stdpp Require Import base option list gmap strings.
From Stdlib Require Import ZArith.

(** ** Errors

    A Go [error] with the status reason that [errors.IsNotFound],
    [errors.IsConflict] and [errors.IsInvalid] look for through wrapping. *)
Inductive Reason := ReasonUnknown | ReasonNotFound | ReasonConflict | ReasonInvalid
  | ReasonAlreadyExists.

#[export] Instance Reason_eq_dec : EqDecision Reason.
Proof. solve_decision. Defined.

Record error := Err { err_reason : Reason; err_msg : string }.

Definition Errorf (msg : string) : error := Err ReasonUnknown msg.

(** [fmt.Errorf("<prefix>: %w", e)] *)
Definition Wrapf (prefix : string) (e : error) : error :=
  Err (err_reason e) (prefix +:+ ": " +:+ err_msg e).

Definition IsNotFound (e : error) : bool := bool_decide (err_reason e = ReasonNotFound).
Definition IsConflict (e : error) : bool := bool_decide (err_reason e = ReasonConflict).
Definition IsInvalid (e : error) : bool := bool_decide (err_reason e = ReasonInvalid).

(** ** JSON values as Go holds them in an [interface{}]

    Integers are [int64]; a [float64] is kept as its 64-bit pattern. *)
#[warnings="-register-all"]
Inductive value :=
  | VNull
  | VBool (b : bool)
  | VInt (z : Z)
  | VFloat (bits : Z)
  | VString (s : string)
  | VList (l : list value)
  | VMap (m : list (string * value)).

(** [map[string]interface{}] *)
Abbreviation object := (list (string * value)).

Record GVK := mkGVK { gvk_Group : string; gvk_Version : string; gvk_Kind : string }.

#[export] Instance GVK_eq_dec : EqDecision GVK.
Proof. solve_decision. Defined.

Record OwnerReference := {
  or_APIVersion : string;
  or_Kind : string;
  or_Name : string;
  or_UID : string
}.

(** ** [KubeTemplate] *)
Record Template := {
  t_Object : string; (* the raw bytes of the embedded object *)
  t_Replace : bool;
  t_Referenced : bool
}.

Record KubeTemplateSpec := { Templates : list Template }.

Record KubeTemplateStatus := {
  s_Status : string;
  s_ProcessingPhase : string;
  s_QueuedAt : option Z;
  s_ProcessedAt : option Z;
  s_RetryCount : Z;
  s_RetryCycle : Z;
  s_LastReconcileTime : option Z;
  s_ResourcesTotal : Z;
  s_ResourcesSynced : Z;
  s_LastDriftDetected : option Z;
  s_DriftDetectionCount : Z;
  s_DryRunChecks : Z;
  s_AppliedSpecHash : string;
  s_PausedReason : string;
  s_PausedAt : option Z
}.

Record ObjectMeta := {
  om_Name : string;
  om_Namespace : string;
  om_UID : string;
  om_ResourceVersion : string;
  om_Annotations : gmap string string;
  om_Labels : gmap string string
}.

Record KubeTemplate := {
  kt_meta : ObjectMeta;
  kt_Spec : KubeTemplateSpec;
  kt_Status : KubeTemplateStatus
}.

Definition kt_Name (kt : KubeTemplate) : string := om_Name (kt_meta kt).
Definition kt_Namespace (kt : KubeTemplate) : string := om_Namespace (kt_meta kt).
Definition kt_key (kt : KubeTemplate) : NamespacedName := NN (kt_Namespace kt) (kt_Name kt).

Definition set_kt_Status (s : KubeTemplateStatus) (kt : KubeTemplate) : KubeTemplate :=
  {| kt_meta := kt_meta kt; kt_Spec := kt_Spec kt; kt_Status := s |}.

Definition kt_phase (kt : KubeTemplate) : string := s_ProcessingPhase (kt_Status kt).

(** ** [KubeTemplatePolicy] *)
Definition FieldValidationType := string.
Definition FieldValidationTypeCEL : FieldValidationType := "cel".
Definition FieldValidationTypeRegex : FieldValidationType := "regex".
Definition FieldValidationTypeRange : FieldValidationType := "range".
Definition FieldValidationTypeRequired : FieldValidationType := "required".
Definition FieldValidationTypeForbidden : FieldValidationType := "forbidden".

Record FieldValidation := {
  fv_Name : string;
  fv_FieldPath : string;
  fv_Type : FieldValidationType;
  fv_CEL : string;
  fv_Regex : string;
  fv_Min : option Z;
  fv_Max : option Z;
  fv_Required : bool;
  fv_Message : string
}.

Record ValidationRule := {
  vr_Kind : string;
  vr_Group : string;
  vr_Version : string;
  vr_Rule : string;
  vr_FieldValidations : list FieldValidation;
  vr_TargetNamespaces : list string
}.

Record KubeTemplatePolicySpec := {
  ps_SourceNamespace : string;
  ps_ValidationRules : list ValidationRule
}.

Record KubeTemplatePolicyStatus := {
  pst_Active : bool;
  pst_TemplatesUsing : Z;
  pst_LastValidationTime : option Z;
  pst_ValidationSuccesses : Z;
  pst_ValidationFailures : Z
}.

Record KubeTemplatePolicy := {
  kp_meta : ObjectMeta;
  kp_Spec : KubeTemplatePolicySpec;
  kp_Status : KubeTemplatePolicyStatus
}.

Definition kp_Name (p : KubeTemplatePolicy) : string := om_Name (kp_meta p).
Definition kp_Namespace (p : KubeTemplatePolicy) : string := om_Namespace (kp_meta p).

(** ** [corev1.Namespace], as far as the namespace controller looks at it *)
Record Namespace := {
  ns_Name : string;
  ns_DeletionTimestamp : option Z;
  ns_Finalizers : list string
}.

(** ** [corev1.Secret] and the webhook configuration, for the certificates *)
Record Secret := {
  sec_Name : string;
  sec_Namespace : string;
  sec_Type : string;
  sec_Data : gmap string string
}.

(** The part of a [ValidatingWebhookConfiguration] that the operator changes: the CA
    bundle of each webhook. *)
Record WebhookConfiguration := {
  wc_Name : string;
  wc_CABundles : list string
}.
