(* ===== verification/Cluster.v ===== *)
(** The interfaces to the code outside the repository: the Kubernetes client and
    the clock ([Client]), the accessors of [unstructured.Unstructured] and the
    YAML decoder ([UnstructuredOps]), the CEL engine ([CelOps]), Go's [regexp]
    ([RegexpOps]) and the digest of a template spec ([DigestOps]); and the monad in
    which the operator's code runs.

    Nothing is assumed of a client beyond the types of its calls, unless a theorem
    names a law below.  A call may change the world arbitrarily, which also stands
    for whatever other goroutines and other clients do between two calls. *)
From S2P Require Import Prelude ApiTypes.
From stdpp Require Import base option list gmap strings.
From Stdlib Require Import ZArith.

(** ** Calls that change the cluster, with their outcome *)
Record PatchOptions := {
  po_FieldOwner : string;
  po_ForceOwnership : bool;
  po_DryRunAll : bool
}.

Inductive Call :=
  | CStatusUpdate (kt : KubeTemplate) (res : option error)
  | CPatch (opts : PatchOptions) (o : object) (res : option error)
  | CDelete (o : object) (res : option error)
  | CEvent (about : NamespacedName) (reason : string) (message : string)
  | CNamespaceUpdate (ns : Namespace) (res : option error)
  | CDeleteKubeTemplate (nn : NamespacedName) (res : option error)
  | CCreateSecret (secret : Secret) (res : option error)
  | CUpdateSecret (secret : Secret) (res : option error)
  | CDeleteSecret (nn : NamespacedName) (res : option error)
  | CUpdateWebhookConfiguration (cfg : WebhookConfiguration) (res : option error).

Class Client (W : Type) := {
  w_Now : W → Z * W;
  w_Get_KubeTemplate : NamespacedName → W → (error + KubeTemplate) * W;
  (** the outcome, and the object as the call leaves it *)
  w_Status_Update : KubeTemplate → W → (option error * KubeTemplate) * W;
  w_List_KubeTemplatePolicies : string → string → W → (error + list KubeTemplatePolicy) * W;
  w_Get_KubeTemplatePolicy : NamespacedName → W → (error + KubeTemplatePolicy) * W;
  w_Get_Object : GVK → NamespacedName → W → (error + object) * W;
  w_Patch_Apply : PatchOptions → object → W → (option error * object) * W;
  w_Delete_Object : object → W → option error * W
}.

(** Documented behaviour of the client: a read returns the object it was asked for;
    a call that fails leaves the object it was given as it was; and a status update
    touches neither the identity nor the spec of the object. *)
Class ClientLaws (W : Type) `{Client W} : Prop := {
  Patch_failed_same opts o w e o' w' :
    w_Patch_Apply opts o w = ((Some e, o'), w') → o' = o;
  Status_Update_failed_same kt w e kt' w' :
    w_Status_Update kt w = ((Some e, kt'), w') → kt' = kt;
  Status_Update_spec kt w r kt' w' :
    w_Status_Update kt w = ((r, kt'), w') → kt_key kt' = kt_key kt ∧ kt_Spec kt' = kt_Spec kt;
  Get_KubeTemplate_key nn w kt w' :
    w_Get_KubeTemplate nn w = (inr kt, w') → kt_key kt = nn
}.

Class UnstructuredOps := {
  yaml_Unmarshal : string → error + object;
  GetNamespace : object → string;
  SetNamespace : string → object → object;
  GetName : object → string;
  GetKind : object → string;
  GroupVersionKind : object → GVK;
  (** [None] is the nil map *)
  GetLabels : object → option (gmap string string);
  SetLabels : gmap string string → object → object;
  GetOwnerReferences : object → list OwnerReference;
  SetOwnerReferences : list OwnerReference → object → object;
  (** the value, [None] when it is absent *)
  NestedFieldCopy : object → list string → error + option value;
  NestedString : object → list string → error + option string;
  NestedInt64 : object → list string → error + option Z;
  gvk_String : GVK → string
}.

(** Documented behaviour of the metadata accessors. *)
Class UnstructuredLaws `{UnstructuredOps} : Prop := {
  GetNamespace_SetNamespace ns o : GetNamespace (SetNamespace ns o) = ns;
  GVK_SetNamespace ns o : GroupVersionKind (SetNamespace ns o) = GroupVersionKind o;
  GetName_SetNamespace ns o : GetName (SetNamespace ns o) = GetName o;
  GetLabels_SetLabels ls o : ls ≠ ∅ → GetLabels (SetLabels ls o) = Some ls;
  GetNamespace_SetLabels ls o : GetNamespace (SetLabels ls o) = GetNamespace o;
  GVK_SetLabels ls o : GroupVersionKind (SetLabels ls o) = GroupVersionKind o;
  GetNamespace_SetOwners rs o : GetNamespace (SetOwnerReferences rs o) = GetNamespace o;
  GVK_SetOwners rs o : GroupVersionKind (SetOwnerReferences rs o) = GroupVersionKind o;
  GetLabels_SetOwners rs o : GetLabels (SetOwnerReferences rs o) = GetLabels o
}.

(** The declared type of a CEL variable: [map(string, dyn)] or [dyn]. *)
Inductive CelType := CelMapStringDyn | CelDyn.

Class CelOps := {
  CelEnv : Type;
  CelAst : Type;
  CelProgram : Type;
  cel_NewEnv : string → CelType → error + CelEnv;
  cel_Parse : CelEnv → string → error + CelAst;
  cel_Check : CelEnv → CelAst → error + CelAst;
  (** with the cost limit, when there is one *)
  cel_Program : CelEnv → CelAst → option Z → error + CelProgram;
  (** with the deadline, when there is one; [out.Value()] *)
  cel_Eval : CelProgram → option Z → string → value → error + value
}.

Class RegexpOps := {
  Regexp : Type;
  regexp_Compile : string → error + Regexp;
  MatchString : Regexp → string → bool
}.

(** [json.Marshal] of a spec, and SHA-256 as a byte string. *)
Class DigestOps := {
  json_Marshal_spec : KubeTemplateSpec → error + string;
  sha256_Sum256 : string → string
}.

(** ** The monad of the operator's code: a world and the log of its calls *)
Record St (W : Type) := mkSt { st_world : W; st_log : list Call }.
Arguments mkSt {W} _ _.
Arguments st_world {W} _.
Arguments st_log {W} _.

Definition M (W A : Type) : Type := St W → A * St W.

Definition retM {W A : Type} (a : A) : M W A := λ s, (a, s).

Definition bindM {W A B : Type} (m : M W A) (k : A → M W B) : M W B :=
  λ s, let '(a, s') := m s in k a s'.

Declare Scope kt_scope.
Delimit Scope kt_scope with kt.
Notation "'let!' x := m 'in' k" := (bindM m (λ x, k))
  (at level 10, x name, m at level 200, k at level 200,
   format "'[v' 'let!'  x  :=  m  'in' '/' k ']'") : kt_scope.
Notation "'let!' ' pat := m 'in' k" := (bindM m (λ x, match x with pat => k end))
  (at level 10, pat pattern, m at level 200, k at level 200,
   format "'[v' 'let!'  ' pat  :=  m  'in' '/' k ']'") : kt_scope.

Section calls.
Context {W : Type} `{Client W}.

Definition liftW {A : Type} (f : W → A * W) : M W A :=
  λ s, let '(a, w) := f (st_world s) in (a, mkSt w (st_log s)).

Definition emit (c : Call) : M W unit := λ s, (tt, mkSt (st_world s) (st_log s ++ [c])).

Definition Now : M W Z := liftW w_Now.
Definition Get_KubeTemplate (nn : NamespacedName) := liftW (w_Get_KubeTemplate nn).
Definition List_KubeTemplatePolicies (ns src : string) :=
  liftW (w_List_KubeTemplatePolicies ns src).
Definition Get_KubeTemplatePolicy (nn : NamespacedName) := liftW (w_Get_KubeTemplatePolicy nn).
Definition Get_Object (gvk : GVK) (nn : NamespacedName) := liftW (w_Get_Object gvk nn).

Definition Status_Update (kt : KubeTemplate) : M W (option error * KubeTemplate) :=
  bindM (liftW (w_Status_Update kt)) (λ r, bindM (emit (CStatusUpdate kt r.1)) (λ _, retM r)).

Definition Patch_Apply (opts : PatchOptions) (o : object) : M W (option error * object) :=
  bindM (liftW (w_Patch_Apply opts o)) (λ r, bindM (emit (CPatch opts o r.1)) (λ _, retM r)).

Definition Delete_Object (o : object) : M W (option error) :=
  bindM (liftW (w_Delete_Object o)) (λ r, bindM (emit (CDelete o r)) (λ _, retM r)).

Definition Event (about : NamespacedName) (reason message : string) : M W unit :=
  emit (CEvent about reason message).
End calls.

(** ** Reasoning about the log

    [m] makes only calls that satisfy [P], and its result satisfies [Q]. *)
Definition emits {W A : Type} (P : Call → Prop) (m : M W A) (Q : A → Prop) : Prop :=
  ∀ s, ∃ tr, st_log (m s).2 = st_log s ++ tr ∧ Forall P tr ∧ Q (m s).1.

Section emits.
Context {W : Type} `{Client W}.
Implicit Types (P : Call → Prop).

Lemma emits_ret {A} P (a : A) (Q : A → Prop) : Q a → emits P (retM (W := W) a) Q.
Proof. intros HQ s. exists []. rewrite app_nil_r. by split_and!. Qed.

Lemma emits_bind {A B} P (m : M W A) (k : A → M W B) (Q : A → Prop) (R : B → Prop) :
  emits P m Q → (∀ a, Q a → emits P (k a) R) → emits P (bindM m k) R.
Proof.
  intros Hm Hk s. unfold bindM. destruct (Hm s) as (tr1 & Hl1 & Hf1 & Hq).
  destruct (m s) as [a s1]. simpl in *. destruct (Hk a Hq s1) as (tr2 & Hl2 & Hf2 & Hr).
  exists (tr1 ++ tr2). rewrite Hl2, Hl1, app_assoc. split_and!; [done| |done].
  by apply Forall_app.
Qed.

Lemma emits_liftW {A} P (f : W → A * W) (Q : A → Prop) :
  (∀ w, Q (f w).1) → emits P (liftW f) Q.
Proof.
  intros HQ s. exists []. unfold liftW. specialize (HQ (st_world s)).
  destruct (f (st_world s)). rewrite app_nil_r. by split_and!.
Qed.

Lemma emits_emit P c (Q : unit → Prop) : P c → Q tt → emits P (emit (W := W) c) Q.
Proof. intros Hc HQ s. exists [c]. split_and!; [done| |done]. by constructor. Qed.

Lemma emits_weaken {A} P P' (m : M W A) (Q Q' : A → Prop) :
  emits P m Q → (∀ c, P c → P' c) → (∀ a, Q a → Q' a) → emits P' m Q'.
Proof.
  intros Hm HP HQ s. destruct (Hm s) as (tr & Hl & Hf & Hq). exists tr.
  split_and!; [done| |auto]. by eapply Forall_impl.
Qed.

(** Two facts about the same calls. *)
Lemma emits_and {A} P P' (m : M W A) (Q Q' : A → Prop) :
  emits P m Q → emits P' m Q' → emits (λ c, P c ∧ P' c) m (λ a, Q a ∧ Q' a).
Proof.
  intros Hm Hm' s. destruct (Hm s) as (tr & Hl & Hf & Hq), (Hm' s) as (tr' & Hl' & Hf' & Hq').
  exists tr. rewrite Hl in Hl'. apply app_inv_head in Hl' as <-.
  split_and!; [done| |done..]. by apply Forall_and.
Qed.

Lemma emits_run {A} P (m : M W A) (Q : A → Prop) s a s' :
  emits P m Q → m s = (a, s') → ∃ tr, st_log s' = st_log s ++ tr ∧ Forall P tr ∧ Q a.
Proof. intros Hm Hs. specialize (Hm s). by rewrite Hs in Hm. Qed.

(** A computation that makes no call that writes. *)
Lemma emits_quiet {A} (m : M W A) (Q : A → Prop) s a s' :
  emits (λ _, False) m Q → m s = (a, s') → st_log s' = st_log s ∧ Q a.
Proof.
  intros Hm Hs. destruct (emits_run _ _ _ _ _ _ Hm Hs) as (tr & Hl & Hf & Hq).
  destruct tr; [|by apply Forall_cons in Hf as [[] _]]. by rewrite app_nil_r in Hl.
Qed.
End emits.

Create HintDb emits.
#[export] Hint Resolve emits_ret emits_emit : emits.
