(* ===== verification/MemCluster.v ===== *)
(** A concrete in-memory cluster, a concrete object representation and small
    concrete engines.  They implement the interfaces of [Cluster], satisfy its laws,
    and serve as the inputs on which the theorems are exercised; no theorem about the
    operator depends on them. *)
From S2P Require Import Prelude ApiTypes Cluster.
From stdpp Require Import base option list gmap strings.
From Stdlib Require Import ZArith.

(** ** Association lists *)
Fixpoint assoc_get {V : Type} (k : string) (l : list (string * V)) : option V :=
  match l with
  | [] => None
  | (k', v) :: r => if bool_decide (k = k') then Some v else assoc_get k r
  end.

Fixpoint assoc_set {V : Type} (k : string) (v : V) (l : list (string * V)) : list (string * V) :=
  match l with
  | [] => [(k, v)]
  | (k', v') :: r => if bool_decide (k = k') then (k, v) :: r else (k', v') :: assoc_set k v r
  end.

Lemma assoc_get_set_eq {V} k (v : V) l : assoc_get k (assoc_set k v l) = Some v.
Proof.
  induction l as [|[k' v'] r IH]; simpl; [by rewrite bool_decide_true|].
  destruct (bool_decide (k = k')) eqn:E; simpl; [by rewrite bool_decide_true|by rewrite E].
Qed.

Lemma assoc_get_set_ne {V} k k' (v : V) l :
  k ≠ k' → assoc_get k (assoc_set k' v l) = assoc_get k l.
Proof.
  intros Hne. induction l as [|[k2 v2] r IH]; simpl; [by rewrite bool_decide_false|].
  destruct (bool_decide (k' = k2)) eqn:E; simpl.
  - apply bool_decide_eq_true in E as <-. by rewrite !bool_decide_false.
  - by rewrite IH.
Qed.

(** ** Objects *)
Definition metadata (o : object) : object :=
  match assoc_get "metadata" o with Some (VMap m) => m | _ => [] end.

Definition set_metadata (k : string) (v : value) (o : object) : object :=
  assoc_set "metadata" (VMap (assoc_set k v (metadata o))) o.

Definition as_string (v : option value) : string :=
  match v with Some (VString s) => s | _ => EmptyString end.

Lemma metadata_set k v o : metadata (set_metadata k v o) = assoc_set k v (metadata o).
Proof. unfold set_metadata. unfold metadata at 1. by rewrite assoc_get_set_eq. Qed.

Lemma get_set_metadata_top k v o k' :
  k' ≠ "metadata" → assoc_get k' (set_metadata k v o) = assoc_get k' o.
Proof. apply assoc_get_set_ne. Qed.

(** ["group/version"] or ["version"] *)
Fixpoint split_slash (s : string) : string * option string :=
  match s with
  | EmptyString => (EmptyString, None)
  | String c r =>
      if bool_decide (c = Ascii.ascii_of_nat 47) then (EmptyString, Some r)
      else let '(a, b) := split_slash r in (String c a, b)
  end.

Definition mem_GVK (o : object) : GVK :=
  match split_slash (as_string (assoc_get "apiVersion" o)) with
  | (g, Some v) => mkGVK g v (as_string (assoc_get "kind" o))
  | (v, None) => mkGVK EmptyString v (as_string (assoc_get "kind" o))
  end.

Definition labels_of_value (v : option value) : option (gmap string string) :=
  match v with
  | Some (VMap m) => Some (list_to_map ((λ kv, (kv.1, as_string (Some kv.2))) <$> m))
  | _ => None
  end.

Definition value_of_labels (ls : gmap string string) : value :=
  VMap ((λ kv, (kv.1, VString kv.2)) <$> map_to_list ls).

Definition owner_of_value (v : value) : OwnerReference :=
  match v with
  | VMap m => {| or_APIVersion := as_string (assoc_get "apiVersion" m);
                 or_Kind := as_string (assoc_get "kind" m);
                 or_Name := as_string (assoc_get "name" m);
                 or_UID := as_string (assoc_get "uid" m) |}
  | _ => {| or_APIVersion := ""; or_Kind := ""; or_Name := ""; or_UID := "" |}
  end.

Definition value_of_owner (r : OwnerReference) : value :=
  VMap [("apiVersion", VString (or_APIVersion r)); ("kind", VString (or_Kind r));
        ("name", VString (or_Name r)); ("uid", VString (or_UID r))].

Fixpoint mem_nested (o : value) (keys : list string) : error + option value :=
  match keys with
  | [] => inr (Some o)
  | k :: rest =>
      match o with
      | VMap m => match assoc_get k m with Some v => mem_nested v rest | None => inr None end
      | _ => inl (Errorf "accessor error")
      end
  end.

Section mem_objects.
Variable decode : string → error + object.

Definition mem_unstructured : UnstructuredOps := {|
  yaml_Unmarshal := decode;
  GetNamespace o := as_string (assoc_get "namespace" (metadata o));
  SetNamespace ns o := set_metadata "namespace" (VString ns) o;
  GetName o := as_string (assoc_get "name" (metadata o));
  GetKind o := as_string (assoc_get "kind" o);
  GroupVersionKind := mem_GVK;
  GetLabels o := labels_of_value (assoc_get "labels" (metadata o));
  SetLabels ls o := set_metadata "labels" (value_of_labels ls) o;
  GetOwnerReferences o :=
    match assoc_get "ownerReferences" (metadata o) with
    | Some (VList l) => owner_of_value <$> l
    | _ => []
    end;
  SetOwnerReferences rs o := set_metadata "ownerReferences" (VList (value_of_owner <$> rs)) o;
  NestedFieldCopy o keys := mem_nested (VMap o) keys;
  NestedString o keys :=
    match mem_nested (VMap o) keys with
    | inl e => inl e
    | inr None => inr None
    | inr (Some (VString s)) => inr (Some s)
    | inr (Some _) => inl (Errorf "not a string")
    end;
  NestedInt64 o keys :=
    match mem_nested (VMap o) keys with
    | inl e => inl e
    | inr None => inr None
    | inr (Some (VInt z)) => inr (Some z)
    | inr (Some _) => inl (Errorf "not an int64")
    end;
  gvk_String g := gvk_Group g +:+ "/" +:+ gvk_Version g +:+ ", Kind=" +:+ gvk_Kind g
|}.

Lemma mem_GVK_set_metadata k v o : mem_GVK (set_metadata k v o) = mem_GVK o.
Proof. unfold mem_GVK. by rewrite !get_set_metadata_top. Qed.

Lemma mem_unstructured_laws : @UnstructuredLaws mem_unstructured.
Proof.
  split; intros; simpl; rewrite ?metadata_set, ?assoc_get_set_eq, ?assoc_get_set_ne,
    ?mem_GVK_set_metadata by done; try done.
  simpl. f_equal. rewrite <- list_fmap_compose. etransitivity; [|apply list_to_map_to_list].
  f_equal. etransitivity; [|apply list_fmap_id]. apply list_fmap_ext. by intros i [] _.
Qed.
End mem_objects.

(** ** Engines *)
Definition mem_cel : CelOps := {|
  CelEnv := unit; CelAst := string; CelProgram := bool;
  cel_NewEnv _ _ := inr tt;
  cel_Parse _ r := inr r;
  cel_Check _ a := inr a;
  cel_Program _ a _ := if bool_decide (a = "true") then inr true
                       else if bool_decide (a = "false") then inr false
                       else inl (Errorf "undeclared reference");
  cel_Eval p _ _ _ := inr (VBool p)
|}.

Definition mem_regexp : RegexpOps := {|
  Regexp := string;
  regexp_Compile p := if bool_decide (p = "(") then inl (Errorf "missing closing )") else inr p;
  MatchString re s := bool_decide (re = s)
|}.

Definition mem_digest : DigestOps := {|
  json_Marshal_spec spec := inr (String.concat "," (t_Object <$> Templates spec));
  sha256_Sum256 s := s
|}.

(** ** The cluster *)
Record mem := {
  mem_clock : Z;
  mem_kts : gmap NamespacedName KubeTemplate;
  mem_policies : list KubeTemplatePolicy;
  mem_objects : list object;
  (** outcomes of the next status updates and patches; success when exhausted *)
  mem_status_errs : list (option error);
  mem_patch_errs : list (option error)
}.

Definition set_clock (t : Z) (m : mem) : mem :=
  {| mem_clock := t; mem_kts := mem_kts m; mem_policies := mem_policies m;
     mem_objects := mem_objects m; mem_status_errs := mem_status_errs m;
     mem_patch_errs := mem_patch_errs m |}.

Definition set_kts (kts : gmap NamespacedName KubeTemplate) (errs : list (option error))
    (m : mem) : mem :=
  {| mem_clock := mem_clock m; mem_kts := kts; mem_policies := mem_policies m;
     mem_objects := mem_objects m; mem_status_errs := errs; mem_patch_errs := mem_patch_errs m |}.

Definition set_objects (os : list object) (errs : list (option error)) (m : mem) : mem :=
  {| mem_clock := mem_clock m; mem_kts := mem_kts m; mem_policies := mem_policies m;
     mem_objects := os; mem_status_errs := mem_status_errs m; mem_patch_errs := errs |}.

Definition not_found (what : string) : error := Err ReasonNotFound (what +:+ " not found").

Definition mem_client : Client mem := {|
  w_Now m := (mem_clock m, set_clock (mem_clock m + 1) m);
  w_Get_KubeTemplate nn m :=
    (match mem_kts m !! nn with
     | Some kt => if bool_decide (kt_key kt = nn) then inr kt else inl (not_found (nn_Name nn))
     | None => inl (not_found (nn_Name nn))
     end, m);
  w_Status_Update kt m :=
    match mem_status_errs m with
    | Some e :: r => ((Some e, kt), set_kts (mem_kts m) r m)
    | errs => ((None, kt), set_kts (<[kt_key kt := kt]> (mem_kts m)) (tail errs) m)
    end;
  w_List_KubeTemplatePolicies ns src m :=
    (inr (filter (λ p, kp_Namespace p = ns ∧ ps_SourceNamespace (kp_Spec p) = src)
            (mem_policies m)), m);
  w_Get_KubeTemplatePolicy nn m :=
    (match filter (λ p, kp_Namespace p = nn_Namespace nn ∧ kp_Name p = nn_Name nn)
             (mem_policies m) with
     | p :: _ => inr p
     | [] => inl (not_found (nn_Name nn))
     end, m);
  w_Get_Object gvk nn m :=
    (match filter (λ o, mem_GVK o = gvk ∧
                        as_string (assoc_get "namespace" (metadata o)) = nn_Namespace nn ∧
                        as_string (assoc_get "name" (metadata o)) = nn_Name nn)
             (mem_objects m) with
     | o :: _ => inr o
     | [] => inl (not_found (nn_Name nn))
     end, m);
  w_Patch_Apply opts o m :=
    match mem_patch_errs m with
    | Some e :: r => ((Some e, o), set_objects (mem_objects m) r m)
    | errs =>
        ((None, o), if po_DryRunAll opts then set_objects (mem_objects m) (tail errs) m
                    else set_objects (o :: mem_objects m) (tail errs) m)
    end;
  w_Delete_Object o m := (None, m)
|}.

Lemma mem_client_laws : @ClientLaws mem mem_client.
Proof.
  split; simpl.
  - intros opts o w e o' w' He. by repeat case_match; simplify_eq.
  - intros kt w e kt' w' He. by repeat case_match; simplify_eq.
  - intros kt w r kt' w' He. by repeat case_match; simplify_eq.
  - intros nn w kt w' He. repeat case_match; simplify_eq. by case_bool_decide; simplify_eq.
Qed.

(** ** Sample resources *)
Definition metaOf (ns name : string) : ObjectMeta :=
  {| om_Name := name; om_Namespace := ns; om_UID := ""; om_ResourceVersion := "";
     om_Annotations := ∅; om_Labels := ∅ |}.

Definition policyOf (ns name src : string) (rules : list ValidationRule) : KubeTemplatePolicy :=
  {| kp_meta := metaOf ns name;
     kp_Spec := {| ps_SourceNamespace := src; ps_ValidationRules := rules |};
     kp_Status := {| pst_Active := true; pst_TemplatesUsing := 0; pst_LastValidationTime := None;
                     pst_ValidationSuccesses := 0; pst_ValidationFailures := 0 |} |}.

Definition clusterOf (clock : Z) (kts : gmap NamespacedName KubeTemplate)
    (ps : list KubeTemplatePolicy) : mem :=
  {| mem_clock := clock; mem_kts := kts; mem_policies := ps; mem_objects := [];
     mem_status_errs := []; mem_patch_errs := [] |}.

Definition zero_status : KubeTemplateStatus :=
  {| s_Status := ""; s_ProcessingPhase := ""; s_QueuedAt := None; s_ProcessedAt := None;
     s_RetryCount := 0; s_RetryCycle := 0; s_LastReconcileTime := None; s_ResourcesTotal := 0;
     s_ResourcesSynced := 0; s_LastDriftDetected := None; s_DriftDetectionCount := 0;
     s_DryRunChecks := 0; s_AppliedSpecHash := ""; s_PausedReason := ""; s_PausedAt := None |}.

Definition templateOf (raw : string) (replace referenced : bool) : Template :=
  {| t_Object := raw; t_Replace := replace; t_Referenced := referenced |}.

Definition kubeTemplateOf (ns name : string) (ts : list Template) : KubeTemplate :=
  {| kt_meta := metaOf ns name; kt_Spec := {| Templates := ts |}; kt_Status := zero_status |}.

Definition config_map : object :=
  [("apiVersion", VString "v1"); ("kind", VString "ConfigMap");
   ("metadata", VMap [("name", VString "settings")]);
   ("data", VMap [("mode", VString "fast"); ("replicas", VInt 3)])].

Definition other_secret : object :=
  [("apiVersion", VString "v1"); ("kind", VString "Secret");
   ("metadata", VMap [("name", VString "keys"); ("namespace", VString "other")])].

Definition sample_decode (raw : string) : error + object :=
  if bool_decide (raw = "config") then inr config_map
  else if bool_decide (raw = "secret") then inr other_secret
  else inl (Errorf "yaml: invalid document").

Definition fieldOf (name path : string) (type : FieldValidationType) (regex : string)
    (lo hi : option Z) : FieldValidation :=
  {| fv_Name := name; fv_FieldPath := path; fv_Type := type; fv_CEL := ""; fv_Regex := regex;
     fv_Min := lo; fv_Max := hi; fv_Required := false; fv_Message := "" |}.

Definition config_rule : ValidationRule :=
  {| vr_Kind := "ConfigMap"; vr_Group := ""; vr_Version := "v1"; vr_Rule := "true";
     vr_FieldValidations :=
       [fieldOf "mode" "data.mode" FieldValidationTypeRegex "fast" None None;
        fieldOf "size" "data.replicas" FieldValidationTypeRange "" (Some 1%Z) (Some 5%Z);
        fieldOf "name" "metadata.name" FieldValidationTypeRequired "" None None;
        fieldOf "spec" "spec" FieldValidationTypeForbidden "" None None];
     vr_TargetNamespaces := ["team"] |}.

Definition team_policy : KubeTemplatePolicy := policyOf "operator" "team-policy" "team" [config_rule].
