(* ===== verification/PolicyCache.v ===== *)
(** The TTL cache of policies of [internal/cache/policy_cache.go] and the two
    controllers that feed it:
    [internal/controller/kubetemplater.io/kubetemplatepolicy_controller.go] and
    [policy_cache_controller.go].

    [Get] threads the cache through the client monad because a miss refreshes it.
    The critical sections of [c.mu] never span a client call; [PolicyCacheSpec]
    interleaves them, with the tail of [refresh] as a step of its own. *)
From S2P Require Import Prelude ApiTypes Cluster.
From stdpp Require Import base option list gmap strings.
From Stdlib Require Import ZArith.

Local Open Scope Z_scope.
Local Open Scope kt_scope.

Definition DefaultTTL : Z := 5 * time_Minute.

(** [ce_policy = None] caches that there is no policy. *)
Record cacheEntry := { ce_policy : option KubeTemplatePolicy; ce_expiresAt : Z }.

Record PolicyCache := { pc_entries : gmap string cacheEntry; pc_ttl : Z }.

Definition NewPolicyCache (ttl : Z) : PolicyCache :=
  {| pc_entries := ∅; pc_ttl := if ttl =? 0 then DefaultTTL else ttl |}.

(** [c.entries[ns] = &cacheEntry{policy, time.Now().Add(c.ttl)}] *)
Definition store_entry (ns : string) (pol : option KubeTemplatePolicy) (now : Z)
    (c : PolicyCache) : PolicyCache :=
  {| pc_entries := <[ns := {| ce_policy := pol; ce_expiresAt := now + pc_ttl c |}]> (pc_entries c);
     pc_ttl := pc_ttl c |}.

Definition err_no_policy (ns : string) : error :=
  Errorf ("no KubeTemplatePolicy found for source namespace " +:+ ns).

Definition err_multiple_policies (ns : string) : error :=
  Errorf ("multiple KubeTemplatePolicies found for source namespace " +:+ ns).

(** What an entry answers. *)
Definition entry_answer (ns : string) (entry : cacheEntry) : error + KubeTemplatePolicy :=
  match ce_policy entry with
  | None => inl (err_no_policy ns)
  | Some policy => inr policy
  end.

(** The tail of [refresh], once the list has arrived; the clock is read when there
    is something to store. *)
Definition refresh_store (c : PolicyCache) (ns : string) (items : list KubeTemplatePolicy)
    (now : Z) : (error + KubeTemplatePolicy) * PolicyCache :=
  match items with
  | [] => (inl (err_no_policy ns), store_entry ns None now c)
  | [policy] => (inr policy, store_entry ns (Some policy) now c)
  | _ => (inl (err_multiple_policies ns), c)
  end.

Section cache.
Context {W : Type} `{Client W}.

Definition refresh (c : PolicyCache) (sourceNamespace operatorNamespace : string)
    : M W ((error + KubeTemplatePolicy) * PolicyCache) :=
  let! r := List_KubeTemplatePolicies operatorNamespace sourceNamespace in
  match r with
  | inl e => retM (inl (Wrapf "failed to list KubeTemplatePolicies" e), c)
  | inr items =>
      if (1 <? length items)%nat then retM (inl (err_multiple_policies sourceNamespace), c)
      else
        let! now := Now in
        retM (refresh_store c sourceNamespace items now)
  end.

Definition Get (c : PolicyCache) (sourceNamespace operatorNamespace : string)
    : M W ((error + KubeTemplatePolicy) * PolicyCache) :=
  match pc_entries c !! sourceNamespace with
  | Some entry =>
      let! now := Now in
      if now <? ce_expiresAt entry then retM (entry_answer sourceNamespace entry, c)
      else refresh c sourceNamespace operatorNamespace
  | None => refresh c sourceNamespace operatorNamespace
  end.
End cache.

Definition Set_ (c : PolicyCache) (sourceNamespace : string)
    (policy : option KubeTemplatePolicy) (now : Z) : PolicyCache :=
  store_entry sourceNamespace policy now c.

Definition Delete (c : PolicyCache) (sourceNamespace : string) : PolicyCache :=
  {| pc_entries := delete sourceNamespace (pc_entries c); pc_ttl := pc_ttl c |}.

Definition Clear (c : PolicyCache) : PolicyCache :=
  {| pc_entries := ∅; pc_ttl := pc_ttl c |}.

Definition Size (c : PolicyCache) : Z := Z.of_nat (size (pc_entries c)).

Definition Invalidate (c : PolicyCache) (sourceNamespace : string) : PolicyCache :=
  {| pc_entries := delete sourceNamespace (pc_entries c); pc_ttl := pc_ttl c |}.

Definition Update (c : PolicyCache) (policy : KubeTemplatePolicy) (now : Z) : PolicyCache :=
  store_entry (ps_SourceNamespace (kp_Spec policy)) (Some policy) now c.

(** ** The controllers

    [ctrl.Result{}] is empty in both, so the result is the error alone. *)
Section controllers.
Context {W : Type} `{Client W}.

(** [KubeTemplatePolicyReconciler.Reconcile]; the cache may be nil. *)
Definition KubeTemplatePolicyReconciler_Reconcile (cache : option PolicyCache)
    (req : NamespacedName) : M W (option error * option PolicyCache) :=
  let! r := Get_KubeTemplatePolicy req in
  match r with
  | inl e =>
      if IsNotFound e then retM (None, Clear <$> cache) else retM (Some e, cache)
  | inr policy =>
      match cache with
      | Some c => let! now := Now in retM (None, Some (Update c policy now))
      | None => retM (None, None)
      end
  end.

(** [PolicyCacheReconciler.Reconcile]: when the policy is gone, [policy] is still
    the zero value, so its source namespace is the empty string. *)
Definition PolicyCacheReconciler_Reconcile (c : PolicyCache) (req : NamespacedName)
    : M W (option error * PolicyCache) :=
  let! r := Get_KubeTemplatePolicy req in
  match r with
  | inl e =>
      if IsNotFound e then retM (None, Delete c EmptyString) else retM (Some e, c)
  | inr policy =>
      let! now := Now in
      retM (None, Set_ c (ps_SourceNamespace (kp_Spec policy)) (Some policy) now)
  end.
End controllers.
