(* ===== verification/PolicyCacheSpec.v ===== *)
(** What the policy cache guarantees: a bound on the age of every answer, however the
    lookups, the refreshes in flight and the two policy controllers interleave; and
    what each controller does to the answers. *)
From stdpp Require Import base option list gmap strings relations.
From S2P Require Import Prelude ApiTypes Cluster MemCluster PolicyCache.
From Stdlib Require Import ZArith Lia.

Local Open Scope Z_scope.

Definition source_of (p : KubeTemplatePolicy) : string := ps_SourceNamespace (kp_Spec p).

(** What a list restricted to the operator's namespace and the index on
    [spec.sourceNamespace] selects. *)
Definition policies_for (op ns : string) (ps : list KubeTemplatePolicy) : list KubeTemplatePolicy :=
  filter (λ p, kp_Namespace p = op ∧ source_of p = ns) ps.

(** ** The cluster over time

    [ph_policies t] are the policies that exist at time [t], and a read through the
    client reflects the cluster at some instant at most [ph_lag] before it returns. *)
Class PolicyHistory (W : Type) := {
  ph_clock : W → Z;
  ph_policies : Z → list KubeTemplatePolicy;
  ph_lag : Z
}.

Class PolicyHistoryLaws (W : Type) `{Client W} `{PolicyHistory W} : Prop := {
  ph_lag_nonneg : 0 ≤ ph_lag;
  ph_Now w t w' : w_Now w = (t, w') → ph_clock w ≤ t ∧ t ≤ ph_clock w';
  ph_List op ns w items w' :
    w_List_KubeTemplatePolicies op ns w = (inr items, w') →
    ph_clock w ≤ ph_clock w' ∧
    ∃ t, ph_clock w' - ph_lag ≤ t ≤ ph_clock w' ∧ items = policies_for op ns (ph_policies t)
}.

(** ** The cache under concurrency

    A refresh in flight has its list, taken at an instant, and has not stored it yet;
    a reconciliation in flight has read its policy. *)
Inductive Flight :=
  | FRefresh (ns : string) (t : Z) (items : list KubeTemplatePolicy)
  | FReconcile (t : Z) (policy : KubeTemplatePolicy).

Record CacheSys := { sys_cache : PolicyCache; sys_flight : list Flight; sys_now : Z }.

Definition flight_time (f : Flight) : Z :=
  match f with FRefresh _ t _ => t | FReconcile t _ => t end.

(** What the critical section of [f] leaves in the cache. *)
Definition flight_land (f : Flight) (now : Z) (c : PolicyCache) : PolicyCache :=
  match f with
  | FRefresh ns _ items => (refresh_store c ns items now).2
  | FReconcile _ policy => Update c policy now
  end.

Section system.
Context {W : Type} `{PolicyHistory W} (op : string).

(** What a flight carries was true at its instant. *)
Definition flight_ok (f : Flight) : Prop :=
  match f with
  | FRefresh ns t items => items = policies_for op ns (ph_policies t)
  | FReconcile t policy => policy ∈ ph_policies t
  end.

(** A read takes off with what the cluster held at an instant at most [ph_lag] ago,
    and lands within [ph_lag] of that instant; meanwhile anything may happen. *)
Inductive cache_step (s : CacheSys) : CacheSys → Prop :=
  | cs_tick t : sys_now s ≤ t →
      cache_step s {| sys_cache := sys_cache s; sys_flight := sys_flight s; sys_now := t |}
  | cs_takeoff f : flight_ok f → flight_time f ≤ sys_now s ≤ flight_time f + ph_lag →
      cache_step s {| sys_cache := sys_cache s; sys_flight := f :: sys_flight s;
                      sys_now := sys_now s |}
  | cs_land pre f post : sys_flight s = pre ++ f :: post →
      sys_now s ≤ flight_time f + ph_lag →
      cache_step s {| sys_cache := flight_land f (sys_now s) (sys_cache s);
                      sys_flight := pre ++ post; sys_now := sys_now s |}
  | cs_delete ns :
      cache_step s {| sys_cache := Delete (sys_cache s) ns; sys_flight := sys_flight s;
                      sys_now := sys_now s |}
  | cs_invalidate ns :
      cache_step s {| sys_cache := Invalidate (sys_cache s) ns; sys_flight := sys_flight s;
                      sys_now := sys_now s |}
  | cs_clear :
      cache_step s {| sys_cache := Clear (sys_cache s); sys_flight := sys_flight s;
                      sys_now := sys_now s |}.

(** The answer for [ns] reflects the cluster at time [t]. *)
Definition true_at (t : Z) (ns : string) (answer : option KubeTemplatePolicy) : Prop :=
  match answer with
  | Some p => p ∈ ph_policies t ∧ source_of p = ns
  | None => policies_for op ns (ph_policies t) = []
  end.

Definition entry_ok (ttl : Z) (ns : string) (e : cacheEntry) : Prop :=
  ∃ t, true_at t ns (ce_policy e) ∧ ce_expiresAt e ≤ t + ph_lag + ttl.

Record sys_inv (ttl : Z) (s : CacheSys) : Prop := {
  si_ttl : pc_ttl (sys_cache s) = ttl;
  si_entries : map_Forall (entry_ok ttl) (pc_entries (sys_cache s));
  si_flight : Forall flight_ok (sys_flight s)
}.

Lemma store_entry_ok ttl ns pol now c t :
  pc_ttl c = ttl → map_Forall (entry_ok ttl) (pc_entries c) →
  true_at t ns pol → now ≤ t + ph_lag →
  map_Forall (entry_ok ttl) (pc_entries (store_entry ns pol now c)).
Proof.
  intros Httl Hc Ht Hn. apply map_Forall_insert_2; [|done]. exists t. simpl. split; [done|lia].
Qed.

Lemma policies_for_elem ns ps p : p ∈ policies_for op ns ps → p ∈ ps ∧ source_of p = ns.
Proof. unfold policies_for. rewrite list_elem_of_filter. tauto. Qed.

Lemma flight_land_ok ttl f now c :
  pc_ttl c = ttl → map_Forall (entry_ok ttl) (pc_entries c) →
  flight_ok f → now ≤ flight_time f + ph_lag →
  pc_ttl (flight_land f now c) = ttl ∧
  map_Forall (entry_ok ttl) (pc_entries (flight_land f now c)).
Proof.
  intros Httl Hc Hf Hn. destruct f as [ns t items|t p]; simpl in *.
  - destruct items as [|p [|q l]]; simpl; [| |done]; (split; [done|]);
      apply store_entry_ok with t; try done.
    apply policies_for_elem. rewrite <- Hf. apply list_elem_of_here.
  - split; [done|]. by apply store_entry_ok with t.
Qed.

Lemma cache_step_inv ttl s s' : sys_inv ttl s → cache_step s s' → sys_inv ttl s'.
Proof.
  intros [Httl Hc Hf] Hstep. destruct Hstep as [| f |pre f post Hs Hn| | |]; split; simpl; try done.
  - by constructor.
  - rewrite Hs in Hf. apply Forall_app in Hf as [_ Hf]. apply Forall_cons in Hf as [Hf _].
    by apply flight_land_ok.
  - rewrite Hs in Hf. apply Forall_app in Hf as [_ Hf]. apply Forall_cons in Hf as [Hf _].
    by apply flight_land_ok.
  - rewrite Hs in Hf. apply Forall_app in Hf as [? Hf]. apply Forall_cons in Hf as [_ ?].
    by apply Forall_app.
  - by apply map_Forall_delete.
  - by apply map_Forall_delete.
Qed.

Definition sys_start (ttl now : Z) : CacheSys :=
  {| sys_cache := NewPolicyCache ttl; sys_flight := []; sys_now := now |}.

Lemma sys_start_inv ttl now : sys_inv (pc_ttl (NewPolicyCache ttl)) (sys_start ttl now).
Proof. by split; [|apply map_Forall_empty|constructor]. Qed.

Lemma sys_reachable_inv ttl now s :
  rtc cache_step (sys_start ttl now) s → sys_inv (pc_ttl (NewPolicyCache ttl)) s.
Proof.
  intros Hr. pose proof (sys_start_inv ttl now) as Hi. revert Hi.
  induction Hr; eauto using cache_step_inv.
Qed.
End system.

(** ** What [Get] answers *)
Section answers.
Context {W : Type} `{Client W} `{PolicyHistory W} `{!PolicyHistoryLaws W}.

(** [r] was right at an instant at most [ttl + lag] before [now]: a policy that
    existed then, or an error that says there was not exactly one. *)
Definition answer_recent (op ns : string) (ttl now : Z) (r : error + KubeTemplatePolicy) : Prop :=
  (∃ t, now ≤ t + ph_lag + ttl ∧
     match r with
     | inr p => true_at op t ns (Some p)
     | inl _ => length (policies_for op ns (ph_policies t)) ≠ 1%nat
     end) ∨
  ∃ e, r = inl (Wrapf "failed to list KubeTemplatePolicies" e).

Lemma refresh_recent op ns ttl c s r c' s' :
  0 ≤ ttl → refresh c ns op s = ((r, c'), s') →
  answer_recent op ns ttl (ph_clock (st_world s)) r.
Proof using All.
  intros Httl. unfold refresh, bindM, List_KubeTemplatePolicies, Now, liftW.
  destruct (w_List_KubeTemplatePolicies op ns (st_world s)) as [[e|items] w1] eqn:Hl.
  { intros [= <- <- <-]. right. eauto. }
  destruct (ph_List _ _ _ _ _ Hl) as (Hc & t & Ht & Hitems).
  assert (Hb : ph_clock (st_world s) ≤ t + ph_lag + ttl) by lia.
  intros Hr. left. exists t. split; [done|]. revert Hr.
  destruct items as [|p [|q l]]; simpl;
    try destruct (w_Now w1); intros [= <- <- <-]; try by rewrite <- Hitems.
  apply (policies_for_elem op). rewrite <- Hitems. apply list_elem_of_here.
Qed.

(** C15.  However lookups, refreshes and policy reconciliations interleave, [Get]
    answers with a policy that existed for that source namespace, or with an error
    when there was not exactly one in the operator's namespace, at an instant at most
    the TTL plus the client's lag ago, unless the list call itself failed. *)
Theorem Get_recent (op ns : string) (ttl now0 : Z) (sys : CacheSys) (s s' : St W)
    (r : error + KubeTemplatePolicy) (c' : PolicyCache) :
  0 ≤ ttl → rtc (cache_step op) (sys_start ttl now0) sys →
  Get (sys_cache sys) ns op s = ((r, c'), s') →
  answer_recent op ns (pc_ttl (NewPolicyCache ttl)) (ph_clock (st_world s)) r.
Proof using All.
  intros Httl Hr. apply sys_reachable_inv in Hr as [Hi Hent _].
  assert (0 ≤ pc_ttl (NewPolicyCache ttl)) by (simpl; case_match; [done|lia]).
  unfold Get. destruct (pc_entries (sys_cache sys) !! ns) as [e|] eqn:He;
    [|by apply refresh_recent].
  unfold bindM at 1, Now, liftW. destruct (w_Now (st_world s)) as [t w1] eqn:Hn.
  apply ph_Now in Hn as [Hn1 Hn2]. destruct (t <? ce_expiresAt e) eqn:Hlt.
  - destruct (Hent ns e He) as (t0 & Htrue & Hexp). bool_simpl.
    intros [= <- <- <-]. left. exists t0. split; [lia|]. unfold entry_answer.
    destruct (ce_policy e); [done|]. simpl in Htrue. by rewrite Htrue.
  - intros Hrf. apply refresh_recent with (ttl := pc_ttl (NewPolicyCache ttl)) in Hrf; [|done].
    destruct Hrf as [(t0 & Ht0 & ?)|?]; [left; exists t0|by right]. cbn [st_world] in Ht0.
    split; [lia|done].
Qed.

(** ** The controllers *)

(** A fresh entry answers without any call to the API server. *)
Lemma Get_hit c ns op e s :
  pc_entries c !! ns = Some e → (w_Now (st_world s)).1 < ce_expiresAt e →
  Get c ns op s = ((entry_answer ns e, c), mkSt (w_Now (st_world s)).2 (st_log s)).
Proof using Type.
  intros He Hlt. unfold Get. rewrite He. unfold bindM, Now, liftW.
  destruct (w_Now (st_world s)) as [t w1]. simpl in *.
  by apply Z.ltb_lt in Hlt as ->.
Qed.

(** C34.  After either controller has reconciled a policy, in whatever namespace it
    lives, every lookup for its source namespace within the TTL is answered with that
    very policy and without a call to the API server. *)
Theorem reconciled_policy_served (c : PolicyCache) (req : NamespacedName) (op : string)
    (policy : KubeTemplatePolicy) (w1 : W) (s s2 : St W) :
  w_Get_KubeTemplatePolicy req (st_world s) = (inr policy, w1) →
  (w_Now (st_world s2)).1 < (w_Now w1).1 + pc_ttl c →
  ∃ c', (KubeTemplatePolicyReconciler_Reconcile (Some c) req s).1 = (None, Some c') ∧
    (PolicyCacheReconciler_Reconcile c req s).1 = (None, c') ∧
    Get c' (source_of policy) op s2
      = ((inr policy, c'), mkSt (w_Now (st_world s2)).2 (st_log s2)).
Proof using Type.
  intros Hg Hlt. exists (Update c policy (w_Now w1).1). split_and!.
  - unfold KubeTemplatePolicyReconciler_Reconcile, bindM, Get_KubeTemplatePolicy, Now, liftW.
    rewrite Hg. simpl. by destruct (w_Now w1).
  - unfold PolicyCacheReconciler_Reconcile, bindM, Get_KubeTemplatePolicy, Now, liftW.
    rewrite Hg. simpl. by destruct (w_Now w1).
  - rewrite (Get_hit _ _ _ {| ce_policy := Some policy; ce_expiresAt := (w_Now w1).1 + pc_ttl c |});
      [done| |done]. apply lookup_insert_eq.
Qed.

(** When a policy is gone, [KubeTemplatePolicyReconciler] empties the cache, so
    that the next lookup of any namespace asks the API server; but
    [PolicyCacheReconciler] keeps the entry of every namespace with a non-empty name,
    and lookups go on being answered with the deleted policy until the entry expires. *)
Theorem deleted_policy_flushed_or_kept (c : PolicyCache) (req : NamespacedName)
    (ns op : string) (e : cacheEntry) (err : error) (w1 : W) (s s2 : St W) :
  w_Get_KubeTemplatePolicy req (st_world s) = (inl err, w1) → IsNotFound err = true →
  pc_entries c !! ns = Some e → ns ≠ EmptyString →
  (w_Now (st_world s2)).1 < ce_expiresAt e →
  (∃ c', (KubeTemplatePolicyReconciler_Reconcile (Some c) req s).1 = (None, Some c') ∧
    Size c' = 0 ∧ ∀ ns', Get c' ns' op = refresh c' ns' op) ∧
  (∃ c', (PolicyCacheReconciler_Reconcile c req s).1 = (None, c') ∧
    Get c' ns op s2 = ((entry_answer ns e, c'), mkSt (w_Now (st_world s2)).2 (st_log s2))).
Proof using Type.
  intros Hg Hnf He Hns Hlt. split.
  - exists (Clear c). split_and!.
    + unfold KubeTemplatePolicyReconciler_Reconcile, bindM, Get_KubeTemplatePolicy, liftW.
      rewrite Hg. simpl. by rewrite Hnf.
    + done.
    + intros ns'. unfold Get. simpl. by rewrite lookup_empty.
  - exists (PolicyCache.Delete c EmptyString). split.
    + unfold PolicyCacheReconciler_Reconcile, bindM, Get_KubeTemplatePolicy, liftW.
      rewrite Hg. simpl. by rewrite Hnf.
    + apply Get_hit; [|done]. simpl. by rewrite lookup_delete_ne.
Qed.
End answers.

(** ** Witnesses *)
#[local] Existing Instance mem_client.

Definition own_policy : KubeTemplatePolicy := policyOf "operator" "own" "team" [].
Definition foreign_policy : KubeTemplatePolicy := policyOf "elsewhere" "foreign" "team" [].

(** A cluster that holds one policy at all times. *)
#[local] Instance still_history : PolicyHistory mem := {|
  ph_clock := mem_clock; ph_policies := λ _, [own_policy]; ph_lag := 3
|}.

(** The in-memory client, with the list call reading that cluster. *)
Definition still_client : Client mem := {|
  w_Now := @w_Now mem mem_client;
  w_Get_KubeTemplate := @w_Get_KubeTemplate mem mem_client;
  w_Status_Update := @w_Status_Update mem mem_client;
  w_List_KubeTemplatePolicies op ns w := (inr (policies_for op ns [own_policy]), w);
  w_Get_KubeTemplatePolicy := @w_Get_KubeTemplatePolicy mem mem_client;
  w_Get_Object := @w_Get_Object mem mem_client;
  w_Patch_Apply := @w_Patch_Apply mem mem_client;
  w_Delete_Object := @w_Delete_Object mem mem_client
|}.

Lemma still_laws : @PolicyHistoryLaws mem still_client still_history.
Proof.
  split; simpl.
  - lia.
  - intros w t w' [= <- <-]. simpl. lia.
  - intros op ns w items w' [= <- <-]. split; [lia|]. exists (mem_clock w). split; [lia|done].
Qed.

Definition cached_sys : CacheSys :=
  {| sys_cache := store_entry "team" (Some own_policy) 12 (NewPolicyCache 100);
     sys_flight := []; sys_now := 12 |}.

Lemma cached_sys_reachable : rtc (cache_step (W := mem) "operator") (sys_start 100 10) cached_sys.
Proof.
  eapply rtc_l; [apply (cs_takeoff _ _ (FRefresh "team" 10 [own_policy]));
    [done|simpl; lia]|].
  eapply rtc_l; [apply (cs_tick _ _ 12); simpl; lia|].
  eapply rtc_l; [apply (cs_land _ _ [] (FRefresh "team" 10 [own_policy]) []); simpl; [done|lia]|].
  apply rtc_refl.
Qed.

Lemma Get_recent_witness :
  answer_recent (W := mem) "operator" "team" 100 50 (inr own_policy).
Proof.
  apply (Get_recent (W := mem) (H := still_client) (PolicyHistoryLaws0 := still_laws)
    "operator" "team" 100 10 cached_sys (mkSt (clusterOf 50 ∅ [own_policy]) [])
    (mkSt (clusterOf 51 ∅ [own_policy]) []) (inr own_policy) (sys_cache cached_sys)).
  - lia.
  - apply cached_sys_reachable.
  - vm_compute. reflexivity.
Defined.

(** A policy of a namespace that is not the operator's is served as well. *)
Lemma reconciled_policy_served_witness :
  ∃ c', (KubeTemplatePolicyReconciler_Reconcile (Some (NewPolicyCache 100))
           (NN "elsewhere" "foreign") (mkSt (clusterOf 10 ∅ [own_policy; foreign_policy]) [])).1
          = (None, Some c') ∧
    (PolicyCacheReconciler_Reconcile (NewPolicyCache 100)
       (NN "elsewhere" "foreign") (mkSt (clusterOf 10 ∅ [own_policy; foreign_policy]) [])).1
      = (None, c') ∧
    Get c' "team" "operator" (mkSt (clusterOf 50 ∅ [own_policy; foreign_policy]) [])
      = ((inr foreign_policy, c'), mkSt (clusterOf 51 ∅ [own_policy; foreign_policy]) []).
Proof.
  refine (reconciled_policy_served (NewPolicyCache 100) (NN "elsewhere" "foreign") "operator"
    foreign_policy (clusterOf 10 ∅ [own_policy; foreign_policy])
    (mkSt (clusterOf 10 ∅ [own_policy; foreign_policy]) [])
    (mkSt (clusterOf 50 ∅ [own_policy; foreign_policy]) []) _ _).
  - vm_compute. reflexivity.
  - vm_compute. reflexivity.
Defined.

Lemma deleted_policy_flushed_or_kept_witness :
  (∃ c', (KubeTemplatePolicyReconciler_Reconcile (Some (sys_cache cached_sys))
           (NN "operator" "own") (mkSt (clusterOf 20 ∅ []) [])).1 = (None, Some c') ∧
    Size c' = 0 ∧ ∀ ns', Get (W := mem) c' ns' "operator" = refresh c' ns' "operator") ∧
  (∃ c', (PolicyCacheReconciler_Reconcile (sys_cache cached_sys)
           (NN "operator" "own") (mkSt (clusterOf 20 ∅ []) [])).1 = (None, c') ∧
    Get c' "team" "operator" (mkSt (clusterOf 50 ∅ []) [])
      = ((inr own_policy, c'), mkSt (clusterOf 51 ∅ []) [])).
Proof.
  refine (deleted_policy_flushed_or_kept (sys_cache cached_sys) (NN "operator" "own") "team"
    "operator" {| ce_policy := Some own_policy; ce_expiresAt := 112 |} (not_found "own")
    (clusterOf 20 ∅ []) (mkSt (clusterOf 20 ∅ []) []) (mkSt (clusterOf 50 ∅ []) []) _ _ _ _ _).
  - vm_compute. reflexivity.
  - vm_compute. reflexivity.
  - vm_compute. reflexivity.
  - discriminate.
  - vm_compute. reflexivity.
Defined.
