(* ===== verification/Webhook.v ===== *)
(** The admission webhook of [internal/webhook/kubetemplate_webhook.go].

    The validator's own state is its regex cache, threaded through the checks; the
    policy cache and the client are those of [PolicyCache].  Error texts are built
    as the source builds them. *)
From S2P Require Import Prelude ApiTypes Cluster PolicyCache.
From stdpp Require Import base option list gmap strings pretty.
From Stdlib Require Import ZArith Ascii.

Local Open Scope kt_scope.

Definition maxTemplatesPerKubeTemplate : nat := 50.
Definition maxTemplateSizeBytes : N := 1 * 1024 * 1024.
Definition celEvaluationTimeout : Z := 100 * time_Millisecond.
Definition celCostLimit : Z := 1000000.

(** ** Helpers *)

(** [contains] *)
Fixpoint contains (slice : list string) (str : string) : bool :=
  match slice with
  | [] => false
  | v :: rest => if bool_decide (v = str) then true else contains rest str
  end.

(** [strings.Split(s, ".")]: the fields between the dots, at least one. *)
Fixpoint split_dot (s : string) : list string :=
  match s with
  | EmptyString => [EmptyString]
  | String c rest =>
      if bool_decide (c = "."%char) then EmptyString :: split_dot rest
      else
        match split_dot rest with
        | [] => [String c EmptyString]
        | f :: fs => String c f :: fs
        end
  end.

Definition fieldPathToKeys (fieldPath : string) : list string := split_dot fieldPath.

(** Number of bytes of a raw object, in binary so that limits compute. *)
Fixpoint byte_length (s : string) : N :=
  match s with EmptyString => 0 | String _ r => N.succ (byte_length r) end.

Definition tmpl_prefix (idx : nat) : string := "template[" +:+ pretty idx +:+ "]".

Definition fv_prefix (idx : nat) (name : string) : string :=
  tmpl_prefix idx +:+ ": fieldValidation (" +:+ name +:+ ")".

(** [errPrefix] of [validateCELRule] *)
Definition cel_prefix (idx : nat) (name : string) : string :=
  if bool_decide (name = EmptyString) then tmpl_prefix idx else fv_prefix idx name.

Definition fv_error (idx : nat) (fv : FieldValidation) (msg : string) : error :=
  Errorf (fv_prefix idx (fv_Name fv) +:+ ": " +:+ msg).

(** The custom message when the policy gives one. *)
Definition fv_failure (idx : nat) (fv : FieldValidation) (msg : string) : error :=
  fv_error idx fv (if bool_decide (fv_Message fv = EmptyString) then msg else fv_Message fv).

Definition fv_get_error (idx : nat) (fv : FieldValidation) (what : string) (e : error) : error :=
  Wrapf (fv_prefix idx (fv_Name fv) +:+ ": failed to get field " +:+ fv_FieldPath fv +:+ what) e.

(** The first rule for the kind of the object, as the loop with [break] finds it. *)
Definition rule_matches (gvk : GVK) (r : ValidationRule) : bool :=
  bool_decide (vr_Kind r = gvk_Kind gvk) && bool_decide (vr_Group r = gvk_Group gvk)
  && bool_decide (vr_Version r = gvk_Version gvk).

Fixpoint find_rule (rules : list ValidationRule) (gvk : GVK) : option ValidationRule :=
  match rules with
  | [] => None
  | r :: rest => if rule_matches gvk r then Some r else find_rule rest gvk
  end.

Section webhook.
Context {W : Type} `{Client W} `{UnstructuredOps} `{CelOps} `{RegexpOps}.

Definition regexCache := gmap string Regexp.

(** [validateCELRule]; [extra] is the optional pair of variable name and value. *)
Definition validateCELRule (rule : string) (obj : object) (templateIdx : nat)
    (validationName : string) (extra : option (string * value)) : option error :=
  let varName :=
    match extra with
    | Some (name, _) => if bool_decide (name = EmptyString) then "object"%string else name
    | None => "object"%string
    end in
  let varValue := match extra with Some (_, v) => v | None => VMap obj end in
  let varType :=
    match extra with
    | Some _ => if bool_decide (varName = "value"%string) then CelDyn else CelMapStringDyn
    | None => CelMapStringDyn
    end in
  let errPrefix := cel_prefix templateIdx validationName in
  match cel_NewEnv varName varType with
  | inl e => Some (Wrapf (errPrefix +:+ ": failed to create CEL environment") e)
  | inr env =>
  match cel_Parse env rule with
  | inl e => Some (Wrapf (errPrefix +:+ ": failed to parse CEL rule") e)
  | inr parsed =>
  match cel_Check env parsed with
  | inl e => Some (Wrapf (errPrefix +:+ ": failed to check CEL rule") e)
  | inr checked =>
  match cel_Program env checked (Some celCostLimit) with
  | inl e => Some (Wrapf (errPrefix +:+ ": failed to create CEL program") e)
  | inr prg =>
  match cel_Eval prg (Some celEvaluationTimeout) varName varValue with
  | inl e => Some (Wrapf (errPrefix +:+ ": failed to evaluate CEL rule") e)
  | inr (VBool true) => None
  | inr _ =>
      Some (Errorf (errPrefix +:+ ": resource " +:+ gvk_String (GroupVersionKind obj) +:+ "/"
              +:+ GetName obj +:+ " failed CEL validation rule: " +:+ rule))
  end end end end end.

(** The last step of [validateFieldCEL]: the custom message replaces the error. *)
Definition run_field_cel (fv : FieldValidation) (obj : object) (templateIdx : nat)
    (varName : string) (varValue : value) : option error :=
  match validateCELRule (fv_CEL fv) obj templateIdx (fv_Name fv) (Some (varName, varValue)) with
  | Some e =>
      if bool_decide (fv_Message fv = EmptyString) then Some e
      else Some (fv_error templateIdx fv (fv_Message fv))
  | None => None
  end.

Definition validateFieldCEL (fv : FieldValidation) (obj : object) (templateIdx : nat)
    : option error :=
  if bool_decide (fv_CEL fv = EmptyString) then
    Some (fv_error templateIdx fv "CEL expression is required for type 'cel'")
  else if bool_decide (fv_FieldPath fv = EmptyString) || bool_decide (fv_FieldPath fv = "object"%string)
  then run_field_cel fv obj templateIdx "object" (VMap obj)
  else
    match NestedFieldCopy obj (fieldPathToKeys (fv_FieldPath fv)) with
    | inl e => Some (fv_get_error templateIdx fv "" e)
    | inr None => run_field_cel fv obj templateIdx "value" VNull
    | inr (Some v) => run_field_cel fv obj templateIdx "value" v
    end.

Definition validateFieldRegex (rc : regexCache) (fv : FieldValidation) (obj : object)
    (templateIdx : nat) : option error * regexCache :=
  if bool_decide (fv_Regex fv = EmptyString) then
    (Some (fv_error templateIdx fv "regex pattern is required for type 'regex'"), rc)
  else if bool_decide (fv_FieldPath fv = EmptyString) then
    (Some (fv_error templateIdx fv "fieldPath is required for type 'regex'"), rc)
  else
    match NestedString obj (fieldPathToKeys (fv_FieldPath fv)) with
    | inl e => (Some (fv_get_error templateIdx fv "" e), rc)
    | inr None =>
        (Some (fv_error templateIdx fv ("field " +:+ fv_FieldPath fv +:+ " not found")), rc)
    | inr (Some fieldValue) =>
        let check re :=
          if MatchString re fieldValue then None
          else Some (fv_failure templateIdx fv
                 ("field " +:+ fv_FieldPath fv +:+ " value '" +:+ fieldValue
                  +:+ "' does not match regex pattern '" +:+ fv_Regex fv +:+ "'")) in
        match rc !! fv_Regex fv with
        | Some re => (check re, rc)
        | None =>
            match regexp_Compile (fv_Regex fv) with
            | inl e =>
                (Some (Wrapf (fv_prefix templateIdx (fv_Name fv) +:+ ": invalid regex pattern "
                         +:+ fv_Regex fv) e), rc)
            | inr re => (check re, <[fv_Regex fv := re]> rc)
            end
        end
    end.

Definition validateFieldRange (fv : FieldValidation) (obj : object) (templateIdx : nat)
    : option error :=
  if bool_decide (fv_FieldPath fv = EmptyString) then
    Some (fv_error templateIdx fv "fieldPath is required for type 'range'")
  else if bool_decide (fv_Min fv = None) && bool_decide (fv_Max fv = None) then
    Some (fv_error templateIdx fv "at least one of min or max must be specified for type 'range'")
  else
    match NestedInt64 obj (fieldPathToKeys (fv_FieldPath fv)) with
    | inl e => Some (fv_get_error templateIdx fv " as int64" e)
    | inr None =>
        Some (fv_error templateIdx fv ("field " +:+ fv_FieldPath fv +:+ " not found"))
    | inr (Some fieldValue) =>
        let below := match fv_Min fv with Some m => (fieldValue <? m)%Z | None => false end in
        let above := match fv_Max fv with Some m => (m <? fieldValue)%Z | None => false end in
        let value_is := "field " +:+ fv_FieldPath fv +:+ " value " +:+ pretty fieldValue in
        if below then
          Some (fv_failure templateIdx fv
            (value_is +:+ " is less than minimum " +:+ pretty (default 0%Z (fv_Min fv))))
        else if above then
          Some (fv_failure templateIdx fv
            (value_is +:+ " is greater than maximum " +:+ pretty (default 0%Z (fv_Max fv))))
        else None
    end.

(** [!found || fieldValue == nil || fieldValue == ""] *)
Definition missing_or_empty (v : option value) : bool :=
  match v with
  | None | Some VNull | Some (VString EmptyString) => true
  | _ => false
  end.

Definition validateFieldRequired (fv : FieldValidation) (obj : object) (templateIdx : nat)
    : option error :=
  if bool_decide (fv_FieldPath fv = EmptyString) then
    Some (fv_error templateIdx fv "fieldPath is required for type 'required'")
  else
    match NestedFieldCopy obj (fieldPathToKeys (fv_FieldPath fv)) with
    | inl e => Some (fv_get_error templateIdx fv "" e)
    | inr v =>
        if missing_or_empty v then
          Some (fv_failure templateIdx fv
            ("required field " +:+ fv_FieldPath fv +:+ " is missing or empty"))
        else None
    end.

Definition validateFieldForbidden (fv : FieldValidation) (obj : object) (templateIdx : nat)
    : option error :=
  if bool_decide (fv_FieldPath fv = EmptyString) then
    Some (fv_error templateIdx fv "fieldPath is required for type 'forbidden'")
  else
    match NestedFieldCopy obj (fieldPathToKeys (fv_FieldPath fv)) with
    | inl e => Some (fv_get_error templateIdx fv "" e)
    | inr None => None
    | inr (Some _) =>
        Some (fv_failure templateIdx fv
          ("forbidden field " +:+ fv_FieldPath fv +:+ " is present"))
    end.

(** The [switch] of one iteration of [validateFieldValidations]. *)
Definition validate_one (rc : regexCache) (fv : FieldValidation) (obj : object)
    (templateIdx validationIdx : nat) : option error * regexCache :=
  if bool_decide (fv_Type fv = FieldValidationTypeCEL) then
    (validateFieldCEL fv obj templateIdx, rc)
  else if bool_decide (fv_Type fv = FieldValidationTypeRegex) then
    validateFieldRegex rc fv obj templateIdx
  else if bool_decide (fv_Type fv = FieldValidationTypeRange) then
    (validateFieldRange fv obj templateIdx, rc)
  else if bool_decide (fv_Type fv = FieldValidationTypeRequired) then
    (validateFieldRequired fv obj templateIdx, rc)
  else if bool_decide (fv_Type fv = FieldValidationTypeForbidden) then
    (validateFieldForbidden fv obj templateIdx, rc)
  else
    (Some (Errorf (tmpl_prefix templateIdx +:+ ": fieldValidation[" +:+ pretty validationIdx
             +:+ "] (" +:+ fv_Name fv +:+ "): unknown validation type: " +:+ fv_Type fv)), rc).

Fixpoint validateFieldValidations (rc : regexCache) (fvs : list FieldValidation)
    (obj : object) (templateIdx validationIdx : nat) : option error * regexCache :=
  match fvs with
  | [] => (None, rc)
  | fv :: rest =>
      match validate_one rc fv obj templateIdx validationIdx with
      | (Some e, rc') => (Some e, rc')
      | (None, rc') => validateFieldValidations rc' rest obj templateIdx (S validationIdx)
      end
  end.

(** The object of a template with its namespace defaulted to the template's. *)
Definition default_namespace (ns : string) (obj : object) : object :=
  if bool_decide (GetNamespace obj = EmptyString) then SetNamespace ns obj else obj.

(** The checks of one template, in the order of the source. *)
Definition validate_template (rc : regexCache) (policy : KubeTemplatePolicy) (ns : string)
    (idx : nat) (t : Template) : (error + list string) * regexCache :=
  let prefix := tmpl_prefix idx in
  if (maxTemplateSizeBytes <? byte_length (t_Object t))%N then
    (inl (Errorf (prefix +:+ ": size " +:+ pretty (byte_length (t_Object t))
       +:+ " bytes exceeds maximum allowed size of " +:+ pretty maxTemplateSizeBytes +:+ " bytes")), rc)
  else
  match yaml_Unmarshal (t_Object t) with
  | inl e => (inl (Wrapf (prefix +:+ ": failed to unmarshal object") e), rc)
  | inr obj0 =>
  let obj := default_namespace ns obj0 in
  let gvk := GroupVersionKind obj in
  match find_rule (ps_ValidationRules (kp_Spec policy)) gvk with
  | None =>
      (inl (Errorf (prefix +:+ ": resource type " +:+ gvk_String gvk
         +:+ " is not allowed by policy " +:+ kp_Name policy)), rc)
  | Some rule =>
  if bool_decide (vr_TargetNamespaces rule = []) then
    (inl (Errorf (prefix +:+ ": resource type " +:+ gvk_String gvk
       +:+ " has no target namespaces defined in policy " +:+ kp_Name policy
       +:+ ". At least one target namespace must be specified")), rc)
  else if negb (contains (vr_TargetNamespaces rule) (GetNamespace obj)) then
    (inl (Errorf (prefix +:+ ": resource namespace " +:+ GetNamespace obj
       +:+ " is not in the allowed target namespaces ["
       +:+ String.concat " " (vr_TargetNamespaces rule)
       +:+ "] for resource type " +:+ gvk_String gvk)), rc)
  else
  match (if bool_decide (vr_Rule rule = EmptyString) then None
         else validateCELRule (vr_Rule rule) obj idx EmptyString None) with
  | Some e => (inl e, rc)
  | None =>
  match validateFieldValidations rc (vr_FieldValidations rule) obj idx 0 with
  | (Some e, rc') => (inl e, rc')
  | (None, rc') =>
      (inr (if t_Replace t then
              [prefix +:+ ": replace is enabled for " +:+ gvk_String gvk +:+ "/" +:+ GetName obj
                 +:+ ". The resource will be deleted and recreated if immutable fields are changed"]
            else []), rc')
  end end end end.

(** The loop over the templates; the warnings collected so far accompany an error. *)
Fixpoint validate_templates (rc : regexCache) (policy : KubeTemplatePolicy) (ns : string)
    (idx : nat) (ts : list Template) (warnings : list string)
    : list string * option error * regexCache :=
  match ts with
  | [] => (warnings, None, rc)
  | t :: rest =>
      match validate_template rc policy ns idx t with
      | (inl e, rc') => (warnings, Some e, rc')
      | (inr ws, rc') => validate_templates rc' policy ns (S idx) rest (warnings ++ ws)
      end
  end.

Record KubeTemplateValidator := {
  v_OperatorNamespace : string;
  v_Cache : PolicyCache;
  v_regexCache : regexCache
}.

Definition validateKubeTemplate (v : KubeTemplateValidator) (kt : KubeTemplate)
    : M W (list string * option error * KubeTemplateValidator) :=
  let! '(r, cache') := Get (v_Cache v) (kt_Namespace kt) (v_OperatorNamespace v) in
  let with_regex rc :=
    {| v_OperatorNamespace := v_OperatorNamespace v; v_Cache := cache'; v_regexCache := rc |} in
  match r with
  | inl e => retM ([], Some (Wrapf "failed to get policy" e), with_regex (v_regexCache v))
  | inr policy =>
      let ts := Templates (kt_Spec kt) in
      if (maxTemplatesPerKubeTemplate <? length ts)%nat then
        retM ([], Some (Errorf ("too many templates: " +:+ pretty (length ts) +:+ " (max allowed: "
                +:+ pretty maxTemplatesPerKubeTemplate +:+ ")")), with_regex (v_regexCache v))
      else
        let '(ws, e, rc) :=
          validate_templates (v_regexCache v) policy (kt_Namespace kt) 0 ts [] in
        retM (ws, e, with_regex rc)
  end.

(** A [runtime.Object] of some dynamic type. *)
Inductive RuntimeObject :=
  | ROKubeTemplate (kt : KubeTemplate)
  | ROOther (typeName : string).

Definition ValidateCreate (v : KubeTemplateValidator) (obj : RuntimeObject)
    : M W (list string * option error * KubeTemplateValidator) :=
  match obj with
  | ROKubeTemplate kt => validateKubeTemplate v kt
  | ROOther t => retM ([], Some (Errorf ("expected a KubeTemplate but got a " +:+ t)), v)
  end.

Definition ValidateUpdate (v : KubeTemplateValidator) (oldObj newObj : RuntimeObject)
    : M W (list string * option error * KubeTemplateValidator) :=
  match newObj with
  | ROKubeTemplate kt => validateKubeTemplate v kt
  | ROOther t => retM ([], Some (Errorf ("expected a KubeTemplate but got a " +:+ t)), v)
  end.

Definition ValidateDelete (v : KubeTemplateValidator) (obj : RuntimeObject)
    : M W (list string * option error * KubeTemplateValidator) :=
  retM ([], None, v).
End webhook.
