(* ===== verification/WebhookSpec.v ===== *)
(** What the admission webhook guarantees: it admits exactly the templates that the
    policy of their namespace allows, and names the first violation otherwise. *)
From stdpp Require Import base option list gmap strings pretty.
From S2P Require Import Prelude ApiTypes Cluster MemCluster PolicyCache PolicyCacheSpec Webhook.
From Stdlib Require Import ZArith Ascii Lia.

Section specification.
Context `{UnstructuredOps} `{CelOps} `{RegexpOps}.

(** ** The declarative reading of a policy *)

(** The rule compiles and evaluates to [true] under the given limits. *)
Definition cel_holds (cost deadline : option Z) (rule var : string) (ty : CelType) (v : value)
    : Prop :=
  ∃ env parsed checked prg,
    cel_NewEnv var ty = inr env ∧ cel_Parse env rule = inr parsed ∧
    cel_Check env parsed = inr checked ∧ cel_Program env checked cost = inr prg ∧
    cel_Eval prg deadline var v = inr (VBool true).

Definition admission_cel : string → string → CelType → value → Prop :=
  cel_holds (Some celCostLimit) (Some celEvaluationTimeout).

Definition keys_of (fv : FieldValidation) : list string := fieldPathToKeys (fv_FieldPath fv).

Definition in_range (lo hi : option Z) (z : Z) : Prop :=
  (∀ m, lo = Some m → m ≤ z)%Z ∧ (∀ m, hi = Some m → z ≤ m)%Z.

Inductive field_ok (obj : object) (fv : FieldValidation) : Prop :=
  | fok_cel_object :
      fv_Type fv = FieldValidationTypeCEL → fv_CEL fv ≠ EmptyString →
      fv_FieldPath fv = EmptyString ∨ fv_FieldPath fv = "object"%string →
      admission_cel (fv_CEL fv) "object" CelMapStringDyn (VMap obj) → field_ok obj fv
  | fok_cel_value v :
      fv_Type fv = FieldValidationTypeCEL → fv_CEL fv ≠ EmptyString →
      fv_FieldPath fv ≠ EmptyString → fv_FieldPath fv ≠ "object"%string →
      NestedFieldCopy obj (keys_of fv) = inr v →
      admission_cel (fv_CEL fv) "value" CelDyn (default VNull v) → field_ok obj fv
  | fok_regex re s :
      fv_Type fv = FieldValidationTypeRegex → fv_Regex fv ≠ EmptyString →
      fv_FieldPath fv ≠ EmptyString → NestedString obj (keys_of fv) = inr (Some s) →
      regexp_Compile (fv_Regex fv) = inr re → MatchString re s = true → field_ok obj fv
  | fok_range z :
      fv_Type fv = FieldValidationTypeRange → fv_FieldPath fv ≠ EmptyString →
      fv_Min fv ≠ None ∨ fv_Max fv ≠ None →
      NestedInt64 obj (keys_of fv) = inr (Some z) →
      in_range (fv_Min fv) (fv_Max fv) z → field_ok obj fv
  | fok_required v :
      fv_Type fv = FieldValidationTypeRequired → fv_FieldPath fv ≠ EmptyString →
      NestedFieldCopy obj (keys_of fv) = inr (Some v) →
      v ≠ VNull → v ≠ VString EmptyString → field_ok obj fv
  | fok_forbidden :
      fv_Type fv = FieldValidationTypeForbidden → fv_FieldPath fv ≠ EmptyString →
      NestedFieldCopy obj (keys_of fv) = inr None → field_ok obj fv.

(** [rule] is the first rule for the kind of the object. *)
Definition first_rule (policy : KubeTemplatePolicy) (gvk : GVK) (rule : ValidationRule) : Prop :=
  ∃ pre post, ps_ValidationRules (kp_Spec policy) = pre ++ rule :: post ∧
    gvk = mkGVK (vr_Group rule) (vr_Version rule) (vr_Kind rule) ∧
    Forall (λ r, gvk ≠ mkGVK (vr_Group r) (vr_Version r) (vr_Kind r)) pre.

(** The policy has a rule for the object that allows its namespace. *)
Definition placed_ok (policy : KubeTemplatePolicy) (obj : object) (rule : ValidationRule) : Prop :=
  first_rule policy (GroupVersionKind obj) rule ∧
  GetNamespace obj ∈ vr_TargetNamespaces rule.

Definition template_ok (policy : KubeTemplatePolicy) (ns : string) (t : Template) : Prop :=
  (byte_length (t_Object t) ≤ maxTemplateSizeBytes)%N ∧
  ∃ obj0 rule, yaml_Unmarshal (t_Object t) = inr obj0 ∧
    let obj := default_namespace ns obj0 in
    placed_ok policy obj rule ∧
    (vr_Rule rule = EmptyString ∨ admission_cel (vr_Rule rule) "object" CelMapStringDyn (VMap obj)) ∧
    Forall (field_ok obj) (vr_FieldValidations rule).

(** The warning that a template with [replace] gets. *)
Definition replace_warning (ns : string) (idx : nat) (t : Template) : list string :=
  match yaml_Unmarshal (t_Object t) with
  | inl _ => []
  | inr obj0 =>
      let obj := default_namespace ns obj0 in
      if t_Replace t then
        [tmpl_prefix idx +:+ ": replace is enabled for " +:+ gvk_String (GroupVersionKind obj)
           +:+ "/" +:+ GetName obj
           +:+ ". The resource will be deleted and recreated if immutable fields are changed"]
      else []
  end.

Definition replace_warnings (ns : string) (idx : nat) (ts : list Template) : list string :=
  mjoin (imap (λ i t, replace_warning ns (idx + i) t) ts).

(** The cache of compiled patterns holds what compiling them gives. *)
Definition rc_coherent (rc : regexCache) : Prop :=
  map_Forall (λ pat re, regexp_Compile pat = inr re) rc.
End specification.

(** ** The checks against the specification *)
Lemma contains_elem slice str : contains slice str = true ↔ str ∈ slice.
Proof.
  induction slice as [|v l IH]; simpl; [set_solver|].
  case_bool_decide; set_solver.
Qed.

Lemma rule_matches_gvk gvk r :
  rule_matches gvk r = true ↔ gvk = mkGVK (vr_Group r) (vr_Version r) (vr_Kind r).
Proof.
  unfold rule_matches. rewrite !andb_true_iff, !bool_decide_eq_true.
  destruct gvk; simpl. split; [by intros [[-> ->] ->]|by intros [= -> -> ->]].
Qed.

Lemma find_rule_first policy gvk :
  match find_rule (ps_ValidationRules (kp_Spec policy)) gvk with
  | Some rule => first_rule policy gvk rule ∧ ∀ r, first_rule policy gvk r → r = rule
  | None => ∀ r, ¬ first_rule policy gvk r
  end.
Proof.
  unfold first_rule.
  induction (ps_ValidationRules (kp_Spec policy)) as [|r l IH]; simpl.
  { intros r (pre & post & Hl & _). by destruct pre. }
  destruct (rule_matches gvk r) eqn:Hr.
  { apply rule_matches_gvk in Hr. split; [by exists [], l|].
    intros r' (pre & post & Hl & _ & Hf). destruct pre; simplify_eq/=; [done|].
    by apply Forall_cons in Hf as [? _]. }
  assert (Hne : gvk ≠ mkGVK (vr_Group r) (vr_Version r) (vr_Kind r))
    by (intros Hg%rule_matches_gvk; congruence).
  assert (Hcons : ∀ r', (∃ pre post, r :: l = pre ++ r' :: post ∧
      gvk = mkGVK (vr_Group r') (vr_Version r') (vr_Kind r') ∧
      Forall (λ r, gvk ≠ mkGVK (vr_Group r) (vr_Version r) (vr_Kind r)) pre) →
    ∃ pre post, l = pre ++ r' :: post ∧ gvk = mkGVK (vr_Group r') (vr_Version r') (vr_Kind r') ∧
      Forall (λ r, gvk ≠ mkGVK (vr_Group r) (vr_Version r) (vr_Kind r)) pre).
  { intros r' (pre & post & Hl & Hg & Hf). destruct pre as [|x pre]; simplify_eq/=.
    exists pre, post. by apply Forall_cons in Hf as [_ ?]. }
  destruct (find_rule l gvk) as [rule|].
  - destruct IH as [(pre & post & -> & Hg & Hf) Huniq]. split; [|by auto].
    exists (r :: pre), post. by rewrite Forall_cons.
  - intros r' Hr'. by apply (IH r'), Hcons.
Qed.

(** The outcome of a check of template [idx] that stands for the property [P]: no
    error when [P] holds, and otherwise an error that names the template. *)
Definition checks (P : Prop) (idx : nat) (r : option error) : Prop :=
  match r with
  | None => P
  | Some e => ¬ P ∧ has_prefix (tmpl_prefix idx) (err_msg e)
  end.

Lemma checks_iff P Q idx r : (P ↔ Q) → checks P idx r → checks Q idx r.
Proof. intros HPQ. destruct r; simpl; tauto. Qed.

Lemma checks_pass P idx : P → checks P idx None.
Proof. done. Qed.

Lemma checks_error P idx msg :
  ¬ P → has_prefix (tmpl_prefix idx) msg → checks P idx (Some (Errorf msg)).
Proof. done. Qed.

Lemma checks_wrap P idx msg e :
  ¬ P → has_prefix (tmpl_prefix idx) msg → checks P idx (Some (Wrapf msg e)).
Proof. intros ??. split; [done|]. by apply has_prefix_app. Qed.

Lemma fv_prefix_prefix idx name : has_prefix (tmpl_prefix idx) (fv_prefix idx name).
Proof. eexists. reflexivity. Qed.

Lemma cel_prefix_prefix idx name : has_prefix (tmpl_prefix idx) (cel_prefix idx name).
Proof. unfold cel_prefix. case_bool_decide; auto using fv_prefix_prefix with kt_string. Qed.

#[local] Hint Resolve fv_prefix_prefix cel_prefix_prefix : kt_string.

Lemma checks_fv P idx fv msg : ¬ P → checks P idx (Some (fv_error idx fv msg)).
Proof. intros ?. apply checks_error; auto with kt_string. Qed.

Lemma checks_fv_failure P idx fv msg : ¬ P → checks P idx (Some (fv_failure idx fv msg)).
Proof. apply checks_fv. Qed.

Lemma checks_fv_get P idx fv what e : ¬ P → checks P idx (Some (fv_get_error idx fv what e)).
Proof. intros ?. apply checks_wrap; auto with kt_string. Qed.

(** Closes a branch of a check: the values that led to the branch refute the
    property of the goal, or prove it. *)
Ltac decompose_hyps :=
  repeat match goal with
    | H : ex _ |- _ => destruct H
    | H : _ ∧ _ |- _ => destruct H
    | H : _ ∨ _ |- _ => destruct H
    end.

Ltac refute := intros ?; decompose_hyps; simplify_eq/=; try done; try congruence; try lia.

Ltac solve_check :=
  repeat case_bool_decide; bool_simpl; simplify_eq/=;
  first [ apply checks_pass; eauto 10; naive_solver
        | (apply checks_error || apply checks_wrap); [refute|auto with kt_string]
        | (apply checks_fv || apply checks_fv_failure || apply checks_fv_get); refute ].

Section checks.
Context `{UnstructuredOps} `{CelOps} `{RegexpOps}.

Lemma validateCELRule_checks rule obj idx name extra var ty v :
  (match extra with
   | None => var = "object"%string ∧ ty = CelMapStringDyn ∧ v = VMap obj
   | Some (n, x) => n ≠ EmptyString ∧ var = n ∧ v = x ∧
       ty = if bool_decide (n = "value"%string) then CelDyn else CelMapStringDyn
   end) →
  checks (admission_cel rule var ty v) idx (validateCELRule rule obj idx name extra).
Proof.
  intros Hx. unfold validateCELRule.
  assert (Hvar : match extra with
    | Some (n, _) => if bool_decide (n = EmptyString) then "object"%string else n
    | None => "object"%string end = var).
  { destruct extra as [[n x]|]; [|by destruct Hx as [-> _]].
    destruct Hx as (Hn & -> & _). by rewrite bool_decide_false. }
  rewrite Hvar.
  assert (Hv : match extra with Some (_, v) => v | None => VMap obj end = v)
    by (destruct extra as [[n x]|]; naive_solver).
  rewrite Hv.
  assert (Hty : match extra with
    | Some _ => if bool_decide (var = "value"%string) then CelDyn else CelMapStringDyn
    | None => CelMapStringDyn end = ty)
    by (destruct extra as [[n x]|]; naive_solver).
  rewrite Hty. clear Hx Hvar Hv Hty. unfold admission_cel, cel_holds.
  destruct (cel_NewEnv var ty) as [e|env] eqn:?; [solve_check|].
  destruct (cel_Parse env rule) as [e|parsed] eqn:?; [solve_check|].
  destruct (cel_Check env parsed) as [e|checked] eqn:?; [solve_check|].
  destruct (cel_Program env checked (Some celCostLimit)) as [e|prg] eqn:?; [solve_check|].
  destruct (cel_Eval prg (Some celEvaluationTimeout) var v) as [e|[| [] | | | | | ]] eqn:?;
    solve_check.
Qed.

(** *** Each kind of validation against its clause of [field_ok] *)

(** Refutes a [field_ok] of another kind, or with other values. *)
Ltac field_inv :=
  intros [];
  unfold FieldValidationTypeCEL, FieldValidationTypeRegex, FieldValidationTypeRange,
    FieldValidationTypeRequired, FieldValidationTypeForbidden, keys_of in *;
  try congruence; simplify_eq.

Lemma run_field_cel_checks P fv obj idx n v ty :
  n ≠ EmptyString →
  ty = (if bool_decide (n = "value"%string) then CelDyn else CelMapStringDyn) →
  (P ↔ admission_cel (fv_CEL fv) n ty v) → checks P idx (run_field_cel fv obj idx n v).
Proof.
  intros Hn Ht HP. apply (checks_iff _ _ _ _ (iff_sym HP)). unfold run_field_cel.
  pose proof (validateCELRule_checks (fv_CEL fv) obj idx (fv_Name fv) (Some (n, v)) n ty v
    (conj Hn (conj eq_refl (conj eq_refl Ht)))) as Hc.
  destruct (validateCELRule _ _ _ _ _); [|done].
  destruct (bool_decide (fv_Message fv = EmptyString)); [done|]. apply checks_fv. by apply Hc.
Qed.

Lemma validateFieldCEL_checks fv obj idx :
  fv_Type fv = FieldValidationTypeCEL →
  checks (field_ok obj fv) idx (validateFieldCEL fv obj idx).
Proof.
  intros Hty. unfold validateFieldCEL. case_bool_decide; [apply checks_fv; by field_inv|]. 
  destruct (bool_decide _ || bool_decide _) eqn:Ho.
  - apply orb_true_iff in Ho. rewrite !bool_decide_eq_true in Ho.
    apply run_field_cel_checks with CelMapStringDyn; [done..|]. split.
    + field_inv. by destruct Ho.
    + by apply fok_cel_object.
  - apply orb_false_iff in Ho as [Ho1 Ho2]. rewrite !bool_decide_eq_false in Ho1, Ho2.
    destruct (NestedFieldCopy obj (fieldPathToKeys (fv_FieldPath fv))) as [e|v] eqn:Hv.
    { apply checks_fv_get. field_inv. tauto. }
    assert (Hiff : field_ok obj fv ↔ admission_cel (fv_CEL fv) "value" CelDyn (default VNull v)).
    { split; [|intros; by apply fok_cel_value with v]. field_inv; tauto. }
    destruct v as [v|]; by apply run_field_cel_checks with CelDyn.
Qed.

Lemma validateFieldRegex_checks rc fv obj idx :
  rc_coherent rc → fv_Type fv = FieldValidationTypeRegex →
  rc_coherent (validateFieldRegex rc fv obj idx).2 ∧
  checks (field_ok obj fv) idx (validateFieldRegex rc fv obj idx).1.
Proof.
  intros Hrc Hty. unfold validateFieldRegex.
  case_bool_decide; [split; [done|]; apply checks_fv; by field_inv|].
  case_bool_decide; [split; [done|]; apply checks_fv; by field_inv|].
  destruct (NestedString obj (fieldPathToKeys (fv_FieldPath fv))) as [e|[s|]] eqn:Hs;
    [split; [done|]; apply checks_fv_get; by field_inv|
    |split; [done|]; apply checks_fv; by field_inv].
  assert (Hre : ∀ re, regexp_Compile (fv_Regex fv) = inr re →
    (field_ok obj fv ↔ MatchString re s = true)).
  { intros re Hre. split; [|intros; by apply fok_regex with re s].
    by field_inv. }
  destruct (rc !! fv_Regex fv) as [re|] eqn:Hl;
    [|destruct (regexp_Compile (fv_Regex fv)) as [e|re] eqn:Hre']; simpl.
  - split; [done|]. specialize (Hre re (Hrc _ _ Hl)).
    destruct (MatchString re s); [by apply Hre|]. apply checks_fv. rewrite Hre. done.
  - split; [done|]. apply checks_wrap; [by field_inv|auto with kt_string].
  - split; [by apply (map_Forall_insert_2 (M := gmap string))|]. specialize (Hre re eq_refl).
    destruct (MatchString re s); [by apply Hre|]. apply checks_fv. rewrite Hre. done.
Qed.

Lemma validateFieldRange_checks fv obj idx :
  fv_Type fv = FieldValidationTypeRange →
  checks (field_ok obj fv) idx (validateFieldRange fv obj idx).
Proof.
  intros Hty. unfold validateFieldRange.
  case_bool_decide; [apply checks_fv; by field_inv|].
  destruct (bool_decide _ && bool_decide _) eqn:Hb.
  { apply andb_true_iff in Hb as [Hb1%bool_decide_eq_true Hb2%bool_decide_eq_true].
    apply checks_fv. field_inv. tauto. }
  apply andb_false_iff in Hb. rewrite !bool_decide_eq_false in Hb.
  destruct (NestedInt64 obj (fieldPathToKeys (fv_FieldPath fv))) as [e|[z|]] eqn:Hz;
    [apply checks_fv_get; by field_inv| |apply checks_fv; by field_inv].
  assert (Hiff : field_ok obj fv ↔ in_range (fv_Min fv) (fv_Max fv) z).
  { split; [by field_inv|intros; by apply fok_range with z]. }
  destruct (match fv_Min fv with Some m => _ | None => _ end) eqn:Hlo;
    [|destruct (match fv_Max fv with Some m => _ | None => _ end) eqn:Hhi].
  - apply checks_fv. rewrite Hiff. intros [Hmin _].
    destruct (fv_Min fv) as [m|]; [|done]. specialize (Hmin m eq_refl). bool_simpl. lia.
  - apply checks_fv. rewrite Hiff. intros [_ Hmax].
    destruct (fv_Max fv) as [m|]; [|done]. specialize (Hmax m eq_refl). bool_simpl. lia.
  - apply Hiff. split; intros m Hm; rewrite Hm in *; bool_simpl; lia.
Qed.

Lemma validateFieldRequired_checks fv obj idx :
  fv_Type fv = FieldValidationTypeRequired →
  checks (field_ok obj fv) idx (validateFieldRequired fv obj idx).
Proof.
  intros Hty. unfold validateFieldRequired.
  case_bool_decide; [apply checks_fv; by field_inv|].
  destruct (NestedFieldCopy obj (fieldPathToKeys (fv_FieldPath fv))) as [e|v] eqn:Hv;
    [apply checks_fv_get; by field_inv|].
  destruct (missing_or_empty v) eqn:Hm.
  - apply checks_fv. field_inv. assert (v = Some v0) as -> by congruence.
    destruct v0 as [| | | |[]| |]; simpl in *; congruence.
  - destruct v as [v|]; [|done]. apply fok_required with v; try done; by intros ->.
Qed.

Lemma validateFieldForbidden_checks fv obj idx :
  fv_Type fv = FieldValidationTypeForbidden →
  checks (field_ok obj fv) idx (validateFieldForbidden fv obj idx).
Proof.
  intros Hty. unfold validateFieldForbidden.
  case_bool_decide; [apply checks_fv; by field_inv|].
  destruct (NestedFieldCopy obj (fieldPathToKeys (fv_FieldPath fv))) as [e|[v|]] eqn:Hv;
    [apply checks_fv_get; by field_inv|apply checks_fv; by field_inv|by apply fok_forbidden].
Qed.

Lemma validate_one_checks rc fv obj idx j :
  rc_coherent rc →
  rc_coherent (validate_one rc fv obj idx j).2 ∧
  checks (field_ok obj fv) idx (validate_one rc fv obj idx j).1.
Proof.
  intros Hrc. unfold validate_one.
  case_bool_decide; [auto using validateFieldCEL_checks|].
  case_bool_decide; [auto using validateFieldRegex_checks|].
  case_bool_decide; [auto using validateFieldRange_checks|].
  case_bool_decide; [auto using validateFieldRequired_checks|].
  case_bool_decide; [auto using validateFieldForbidden_checks|].
  split; [done|]. apply checks_error; [by intros []|auto with kt_string].
Qed.

Lemma validateFieldValidations_checks fvs rc obj idx j :
  rc_coherent rc →
  rc_coherent (validateFieldValidations rc fvs obj idx j).2 ∧
  checks (Forall (field_ok obj) fvs) idx (validateFieldValidations rc fvs obj idx j).1.
Proof.
  revert rc j. induction fvs as [|fv fvs IH]; intros rc j Hrc; simpl; [by split; [|constructor]|].
  destruct (validate_one_checks rc fv obj idx j Hrc) as [Hrc' Hc].
  destruct (validate_one rc fv obj idx j) as [[e|] rc']; simpl in *.
  - split; [done|]. split; [|apply Hc]. rewrite Forall_cons. tauto.
  - destruct (IH rc' (S j) Hrc') as [? Hf]. split; [done|].
    eapply checks_iff; [|exact Hf]. rewrite Forall_cons. tauto.
Qed.

(** With the decoded object and its rule at hand. *)
Lemma template_ok_rule policy ns t obj0 rule :
  (byte_length (t_Object t) ≤ maxTemplateSizeBytes)%N →
  yaml_Unmarshal (t_Object t) = inr obj0 →
  find_rule (ps_ValidationRules (kp_Spec policy)) (GroupVersionKind (default_namespace ns obj0))
    = Some rule →
  let obj := default_namespace ns obj0 in
  template_ok policy ns t ↔
    GetNamespace obj ∈ vr_TargetNamespaces rule ∧
    (vr_Rule rule = EmptyString ∨
     admission_cel (vr_Rule rule) "object" CelMapStringDyn (VMap obj)) ∧
    Forall (field_ok obj) (vr_FieldValidations rule).
Proof.
  intros Hsz Hy Hr obj. unfold template_ok, placed_ok.
  pose proof (find_rule_first policy (GroupVersionKind (default_namespace ns obj0))) as Hfirst.
  rewrite Hr in Hfirst. destruct Hfirst as [Hfirst Huniq]. split.
  - intros (_ & obj1 & r & Hy' & [Hr' ?] & ?). rewrite Hy in Hy'. injection Hy' as <-.
    by rewrite <- (Huniq r Hr').
  - intros (? & ? & ?). split; [done|]. by exists obj0, rule.
Qed.

Lemma validate_rule_cel_checks rule obj idx :
  checks (vr_Rule rule = EmptyString ∨
          admission_cel (vr_Rule rule) "object" CelMapStringDyn (VMap obj)) idx
    (if bool_decide (vr_Rule rule = EmptyString) then None
     else validateCELRule (vr_Rule rule) obj idx EmptyString None).
Proof.
  case_bool_decide as Hr; [by left|].
  eapply checks_iff; [|by apply (validateCELRule_checks _ _ _ _ None)]. tauto.
Qed.

(** What one template contributes: nothing to complain of and its warning, or the
    error of the first check it fails. *)
Lemma validate_template_checks rc policy ns idx t :
  rc_coherent rc →
  rc_coherent (validate_template rc policy ns idx t).2 ∧
  match (validate_template rc policy ns idx t).1 with
  | inr ws => template_ok policy ns t ∧ ws = replace_warning ns idx t
  | inl e => checks (template_ok policy ns t) idx (Some e)
  end.
Proof.
  intros Hrc. unfold validate_template, replace_warning.
  destruct (maxTemplateSizeBytes <? byte_length (t_Object t))%N eqn:Hsz.
  { apply N.ltb_lt in Hsz. split; [done|]. apply checks_error; [|auto with kt_string].
    intros [? _]. lia. }
  apply N.ltb_ge in Hsz.
  destruct (yaml_Unmarshal (t_Object t)) as [e|obj0] eqn:Hy.
  { split; [done|]. apply checks_wrap; [|auto with kt_string]. unfold template_ok. rewrite Hy.
    by intros (_ & ? & ? & [=] & _). }
  destruct (find_rule _ _) as [rule|] eqn:Hr.
  2:{ split; [done|]. apply checks_error; [|auto with kt_string]. unfold template_ok, placed_ok.
      rewrite Hy. intros (_ & obj1 & r & [= <-] & [Hf _] & _).
      pose proof (find_rule_first policy (GroupVersionKind (default_namespace ns obj0))) as Hno.
      rewrite Hr in Hno. by apply (Hno r). }
  pose proof (template_ok_rule policy ns t obj0 rule Hsz Hy Hr) as Hiff.
  generalize dependent (template_ok policy ns t). cbv zeta.
  generalize dependent (default_namespace ns obj0). intros obj Hr P HP.
  case_bool_decide as Hempty.
  { split; [done|]. apply checks_error; [|auto with kt_string]. rewrite HP, Hempty. set_solver. }
  destruct (contains (vr_TargetNamespaces rule) (GetNamespace obj)) eqn:Hct; cbn [negb fst snd].
  2:{ split; [done|]. apply checks_error; [|auto with kt_string].
      rewrite HP, <- contains_elem, Hct. by intros [? _]. }
  apply contains_elem in Hct. pose proof (validate_rule_cel_checks rule obj idx) as Hcel.
  destruct (if bool_decide _ then _ else _) as [e|].
  { split; [done|]. destruct Hcel. split; [tauto|done]. }
  destruct (validateFieldValidations_checks (vr_FieldValidations rule) rc obj idx 0 Hrc) as [Hrc' Hf].
  destruct (validateFieldValidations _ _ _ _ _) as [[e|] rc']; simpl in *; (split; [done|]).
  - split; [tauto|apply Hf].
  - split; [tauto|done].
Qed.

Lemma validate_templates_checks ts rc policy ns idx warnings :
  rc_coherent rc →
  let '(ws, err, rc') := validate_templates rc policy ns idx ts warnings in
  rc_coherent rc' ∧
  match err with
  | None => Forall (template_ok policy ns) ts ∧ ws = warnings ++ replace_warnings ns idx ts
  | Some e => ∃ pre t post, ts = pre ++ t :: post ∧ Forall (template_ok policy ns) pre ∧
      ¬ template_ok policy ns t ∧ has_prefix (tmpl_prefix (idx + length pre)) (err_msg e) ∧
      ws = warnings ++ replace_warnings ns idx pre
  end.
Proof.
  revert rc idx warnings. induction ts as [|t ts IH]; intros rc idx ws Hrc; simpl.
  { by rewrite app_nil_r. }
  destruct (validate_template_checks rc policy ns idx t Hrc) as [Hrc' Hc].
  destruct (validate_template rc policy ns idx t) as [[e|w] rc']; simpl in *.
  { split; [done|]. exists [], t, ts. destruct Hc as [Hno Hp]. simpl.
    rewrite Nat.add_0_r, app_nil_r. done. }
  destruct Hc as [Hok Hw]. specialize (IH rc' (S idx) (ws ++ w) Hrc').
  assert (Hwarn : ∀ l, replace_warnings ns idx (t :: l) = w ++ replace_warnings ns (S idx) l).
  { intros l. unfold replace_warnings. simpl. rewrite Nat.add_0_r, <- Hw. f_equal. f_equal.
    apply imap_ext. intros i x _. simpl. by rewrite Nat.add_succ_r. }
  destruct (validate_templates rc' policy ns (S idx) ts (ws ++ w)) as [[ws' err] rc''].
  destruct IH as [Hrc'' IH]. split; [done|]. destruct err as [e|].
  - destruct IH as (pre & t' & post & -> & Hpre & Hno & Hp & ->). exists (t :: pre), t', post.
    rewrite Forall_cons, Hwarn, <- app_assoc. simpl. rewrite Nat.add_succ_r. done.
  - destruct IH as [? ->]. by rewrite Forall_cons, Hwarn, <- app_assoc.
Qed.
End checks.

(** ** Admission *)
Section admission.
Context {W : Type} `{Client W} `{UnstructuredOps} `{CelOps} `{RegexpOps}.

Definition admissible (policy : KubeTemplatePolicy) (kt : KubeTemplate) : Prop :=
  (length (Templates (kt_Spec kt)) ≤ maxTemplatesPerKubeTemplate)%nat ∧
  Forall (template_ok policy (kt_Namespace kt)) (Templates (kt_Spec kt)).

(** Everything [validateKubeTemplate] does, in terms of the lookup it makes. *)
Lemma validateKubeTemplate_spec v kt s :
  rc_coherent (v_regexCache v) →
  let '((r, cache'), s1) := Get (v_Cache v) (kt_Namespace kt) (v_OperatorNamespace v) s in
  let '((ws, err, v'), s') := validateKubeTemplate v kt s in
  s' = s1 ∧ v_Cache v' = cache' ∧ rc_coherent (v_regexCache v') ∧
  match r with
  | inl e => err = Some (Wrapf "failed to get policy" e)
  | inr policy =>
      match err with
      | None => admissible policy kt ∧ ws = replace_warnings (kt_Namespace kt) 0 (Templates (kt_Spec kt))
      | Some e =>
          (maxTemplatesPerKubeTemplate < length (Templates (kt_Spec kt)))%nat ∨
          ∃ pre t post, Templates (kt_Spec kt) = pre ++ t :: post ∧
            Forall (template_ok policy (kt_Namespace kt)) pre ∧
            ¬ template_ok policy (kt_Namespace kt) t ∧
            has_prefix (tmpl_prefix (length pre)) (err_msg e)
      end
  end.
Proof.
  intros Hrc. unfold validateKubeTemplate, bindM.
  destruct (Get _ _ _ s) as [[[e|policy] cache'] s1]; [done|].
  destruct (_ <? _)%nat eqn:Hn; bool_simpl.
  { split_and!; [done..|]. by left. }
  pose proof (validate_templates_checks (Templates (kt_Spec kt)) (v_regexCache v) policy
    (kt_Namespace kt) 0 [] Hrc) as Hv.
  destruct (validate_templates _ _ _ _ _ _) as [[ws err] rc'].
  destruct Hv as [Hrc' Hv]. split_and!; [done..|]. destruct err as [e|].
  - right. destruct Hv as (pre & t & post & ? & ? & ? & ? & _). by exists pre, t, post.
  - destruct Hv as [? ->]. by split; [split; [lia|]|].
Qed.

(** C2.  The webhook admits a created or updated KubeTemplate exactly when the
    policy of its namespace is found and allows it: at most 50 templates, each of at
    most 1 MiB, decodable, of a kind whose first rule lists its namespace (defaulted
    to the template's), satisfying that rule's CEL expression and each of its field
    validations. *)
Theorem admission_exact (v : KubeTemplateValidator) (old : RuntimeObject) (kt : KubeTemplate)
    (s : St W) :
  rc_coherent (v_regexCache v) →
  ValidateUpdate v old (ROKubeTemplate kt) s = ValidateCreate v (ROKubeTemplate kt) s ∧
  let '((_, err, v'), _) := ValidateCreate v (ROKubeTemplate kt) s in
  rc_coherent (v_regexCache v') ∧
  (err = None ↔ ∃ policy,
     (Get (v_Cache v) (kt_Namespace kt) (v_OperatorNamespace v) s).1.1 = inr policy ∧
     admissible policy kt).
Proof.
  intros Hrc. split; [done|]. pose proof (validateKubeTemplate_spec v kt s Hrc) as Hspec.
  destruct (Get _ _ _ s) as [[r cache'] s1]. simpl.
  destruct (validateKubeTemplate v kt s) as [[[ws err] v'] s'].
  destruct Hspec as (_ & _ & Hrc' & Hr). split; [done|]. destruct r as [e|policy].
  { rewrite Hr. split; [done|]. by intros (? & [=] & _). }
  destruct err as [e|].
  - split; [done|]. intros (p & [= <-] & Hlen & Hall).
    destruct Hr as [?|(pre & t & post & Ht & _ & Hno & _)]; [lia|].
    rewrite Ht in Hall. apply Forall_app in Hall as [_ Hall]. by apply Forall_cons in Hall as [? _].
  - destruct Hr as [Had _]. split; [|done]. intros _. by exists policy.
Qed.

(** C19.  A rejection is about the first template that the policy does not allow and
    names its index; and an admission carries exactly one warning for each template
    with [replace], in order. *)
Theorem verdict_precise (v : KubeTemplateValidator) (kt : KubeTemplate)
    (policy : KubeTemplatePolicy) (s : St W) :
  rc_coherent (v_regexCache v) →
  (Get (v_Cache v) (kt_Namespace kt) (v_OperatorNamespace v) s).1.1 = inr policy →
  (length (Templates (kt_Spec kt)) ≤ maxTemplatesPerKubeTemplate)%nat →
  let '((ws, err, _), _) := ValidateCreate v (ROKubeTemplate kt) s in
  match err with
  | None => ws = replace_warnings (kt_Namespace kt) 0 (Templates (kt_Spec kt))
  | Some e => ∃ pre t post, Templates (kt_Spec kt) = pre ++ t :: post ∧
      Forall (template_ok policy (kt_Namespace kt)) pre ∧
      ¬ template_ok policy (kt_Namespace kt) t ∧
      has_prefix (tmpl_prefix (length pre)) (err_msg e)
  end.
Proof.
  intros Hrc Hget Hlen. pose proof (validateKubeTemplate_spec v kt s Hrc) as Hspec. simpl.
  destruct (Get _ _ _ s) as [[r cache'] s1]. simpl in Hget. subst r.
  destruct (validateKubeTemplate v kt s) as [[[ws err] v'] s'].
  destruct Hspec as (_ & _ & _ & Hr). destruct err as [e|].
  - destruct Hr as [?|?]; [lia|done].
  - by destruct Hr.
Qed.

(** ** The cache of compiled patterns is transparent *)
Lemma validate_one_cold rc fv obj idx j :
  rc_coherent rc → (validate_one rc fv obj idx j).1 = (validate_one ∅ fv obj idx j).1.
Proof.
  intros Hrc. unfold validate_one. repeat (case_bool_decide; [done || idtac|]); try done.
  unfold validateFieldRegex. repeat (case_bool_decide; [done|]).
  destruct (NestedString _ _) as [?|[s|]]; [done| |done].
  unfold regexCache in *. rewrite lookup_empty.
  destruct (rc !! fv_Regex fv) as [re|] eqn:Hl.
  - by rewrite (Hrc _ _ Hl).
  - by destruct (regexp_Compile (fv_Regex fv)).
Qed.

Lemma validateFieldValidations_same fvs rc1 rc2 obj idx j :
  rc_coherent rc1 → rc_coherent rc2 →
  (validateFieldValidations rc1 fvs obj idx j).1 = (validateFieldValidations rc2 fvs obj idx j).1.
Proof.
  revert rc1 rc2 j. induction fvs as [|fv fvs IH]; intros rc1 rc2 j Hrc1 Hrc2; [done|]. simpl.
  pose proof (proj1 (validate_one_checks rc1 fv obj idx j Hrc1)) as Hc1.
  pose proof (proj1 (validate_one_checks rc2 fv obj idx j Hrc2)) as Hc2.
  pose proof (validate_one_cold rc1 fv obj idx j Hrc1) as He.
  rewrite <- (validate_one_cold rc2 fv obj idx j Hrc2) in He.
  destruct (validate_one rc1 fv obj idx j) as [e1 rc1'],
    (validate_one rc2 fv obj idx j) as [e2 rc2']. simpl in *. subst e2.
  destruct e1; [done|]. by apply IH.
Qed.

Lemma validate_template_same rc1 rc2 policy ns idx t :
  rc_coherent rc1 → rc_coherent rc2 →
  (validate_template rc1 policy ns idx t).1 = (validate_template rc2 policy ns idx t).1.
Proof.
  intros Hrc1 Hrc2. unfold validate_template. case_match; [done|]. case_match; [done|].
  case_match; [|done]. case_match; [done|]. case_match; [done|]. case_match; [done|].
  match goal with |- (match validateFieldValidations _ ?fvs ?o _ _ with _ => _ end).1 = _ =>
    pose proof (validateFieldValidations_same fvs rc1 rc2 o idx 0 Hrc1 Hrc2) as He end.
  destruct (validateFieldValidations rc1 _ _ _ _) as [e1 ?],
    (validateFieldValidations rc2 _ _ _ _) as [e2 ?]. simpl in He. subst e2. by destruct e1.
Qed.

Lemma validate_templates_same ts rc1 rc2 policy ns idx ws :
  rc_coherent rc1 → rc_coherent rc2 →
  (validate_templates rc1 policy ns idx ts ws).1 = (validate_templates rc2 policy ns idx ts ws).1.
Proof.
  revert rc1 rc2 idx ws. induction ts as [|t ts IH]; intros rc1 rc2 idx ws Hrc1 Hrc2; [done|]. simpl.
  pose proof (proj1 (validate_template_checks rc1 policy ns idx t Hrc1)) as Hc1.
  pose proof (proj1 (validate_template_checks rc2 policy ns idx t Hrc2)) as Hc2.
  pose proof (validate_template_same rc1 rc2 policy ns idx t Hrc1 Hrc2) as He.
  destruct (validate_template rc1 policy ns idx t) as [e1 rc1'],
    (validate_template rc2 policy ns idx t) as [e2 rc2']. simpl in *. subst e2.
  destruct e1; [done|]. by apply IH.
Qed.

(** C29.  The patterns the validator has compiled before never change a verdict: with
    any cache it can have, the warnings and the error, its text included, are those of
    a validator that starts with an empty one. *)
Theorem regex_cache_transparent (v : KubeTemplateValidator) (obj : RuntimeObject) (s : St W) :
  rc_coherent (v_regexCache v) →
  let cold := {| v_OperatorNamespace := v_OperatorNamespace v; v_Cache := v_Cache v;
                 v_regexCache := ∅ |} in
  (ValidateCreate v obj s).1.1 = (ValidateCreate cold obj s).1.1 ∧
  (ValidateCreate v obj s).2 = (ValidateCreate cold obj s).2.
Proof.
  intros Hrc cold. destruct obj as [kt|]; [|done]. simpl. unfold validateKubeTemplate, bindM. simpl.
  destruct (Get _ _ _ s) as [[[e|policy] cache'] s1]; [done|]. case_match; [done|].
  pose proof (validate_templates_same (Templates (kt_Spec kt)) (v_regexCache v) ∅ policy
    (kt_Namespace kt) 0 [] Hrc (map_Forall_empty _)) as He.
  destruct (validate_templates (v_regexCache v) _ _ _ _ _) as [[ws1 e1] ?],
    (validate_templates ∅ _ _ _ _ _) as [[ws2 e2] ?]. simpl in *. by simplify_eq.
Qed.
End admission.

(** ** Field paths *)
Definition no_dot (s : string) : Prop := "."%char ∉ String.list_ascii_of_string s.

(** [strings.Join(keys, ".")] *)
Definition join_dot (keys : list string) : string := String.concat "." keys.

Lemma join_dot_cons k k' keys : join_dot (k :: k' :: keys) = k +:+ "." +:+ join_dot (k' :: keys).
Proof. done. Qed.

Lemma split_dot_no_dot s : no_dot s → split_dot s = [s].
Proof.
  unfold no_dot. induction s as [|c s IH]; intros Hs; simpl; [done|].
  rewrite bool_decide_false by (simpl in Hs; set_solver).
  rewrite IH by (simpl in Hs; set_solver). done.
Qed.

Lemma split_dot_app s rest :
  no_dot s → split_dot (s +:+ String "." rest) = s :: split_dot rest.
Proof.
  unfold no_dot. induction s as [|c s IH]; intros Hs; [done|].
  change (String c s +:+ String "." rest) with (String c (s +:+ String "." rest)). simpl in *.
  rewrite bool_decide_false by set_solver. by rewrite IH by set_solver.
Qed.

Lemma split_dot_nonempty s : split_dot s ≠ [].
Proof. destruct s as [|c s]; simpl; [done|]. case_bool_decide; [done|]. by destruct (split_dot s). Qed.

(** [fieldPathToKeys] is the inverse of joining with dots: it loses nothing of
    a path and yields keys without dots, and it recovers every non-empty list of such
    keys. *)
Theorem fieldPathToKeys_roundtrip (path : string) (keys : list string) :
  join_dot (fieldPathToKeys path) = path ∧ Forall no_dot (fieldPathToKeys path) ∧
  (keys ≠ [] → Forall no_dot keys → fieldPathToKeys (join_dot keys) = keys).
Proof.
  unfold fieldPathToKeys. split_and!.
  - induction path as [|c s IH]; [done|]. simpl.
    pose proof (split_dot_nonempty s) as Hne. case_bool_decide as Hc.
    + destruct (split_dot s) as [|f fs] eqn:Hs; [done|]. rewrite join_dot_cons, IH. by subst c.
    + destruct (split_dot s) as [|f [|f' fs]]; [done| |]; rewrite <- IH; done.
  - induction path as [|c s IH]; simpl; [repeat constructor; unfold no_dot; set_solver|].
    case_bool_decide as Hc; [constructor; [unfold no_dot; set_solver|done]|].
    destruct (split_dot s) as [|f fs]; [repeat constructor; unfold no_dot; simpl; set_solver|].
    apply Forall_cons in IH as [Hf Hfs]. constructor; [|done]. unfold no_dot in *. simpl. set_solver.
  - intros Hne Hf. induction keys as [|k [|k' keys] IH]; [done| |].
    + apply Forall_cons in Hf as [Hk _]. by apply split_dot_no_dot.
    + apply Forall_cons in Hf as [Hk Hf]. rewrite join_dot_cons.
      change ("." +:+ join_dot (k' :: keys)) with (String "." (join_dot (k' :: keys))).
      rewrite split_dot_app by done. by rewrite IH.
Qed.

Lemma fieldPathToKeys_roundtrip_witness :
  join_dot (fieldPathToKeys "spec.replicas") = "spec.replicas"%string ∧
  Forall no_dot ["spec"; "replicas"]%string ∧
  fieldPathToKeys "spec.replicas" = ["spec"; "replicas"]%string.
Proof.
  destruct (fieldPathToKeys_roundtrip "spec.replicas" ["spec"; "replicas"]%string)
    as (Hjoin & Hdots & Hsplit).
  split; [exact Hjoin|]. split; [exact Hdots|]. exact (Hsplit ltac:(discriminate) Hdots).
Defined.

(** ** Witnesses *)
#[local] Existing Instance mem_client.
#[local] Existing Instance mem_cel.
#[local] Existing Instance mem_regexp.
#[local] Instance sample_unstructured : UnstructuredOps := mem_unstructured sample_decode.

Definition sample_validator : KubeTemplateValidator :=
  {| v_OperatorNamespace := "operator"; v_Cache := NewPolicyCache 0;
     v_regexCache := {["fast"%string := "fast"%string]} |}.

Lemma sample_validator_coherent : rc_coherent (v_regexCache sample_validator).
Proof. apply (map_Forall_singleton (M := gmap string)). by vm_compute. Qed.

Definition sample_cluster : St mem := mkSt (clusterOf 10 ∅ [team_policy]) [].
Definition good_template : KubeTemplate := kubeTemplateOf "team" "app" [templateOf "config" true false].
Definition mixed_template : KubeTemplate :=
  kubeTemplateOf "team" "app" [templateOf "config" true false; templateOf "secret" false false].

(** The webhook admits [good_template], so it satisfies the declarative policy. *)
Lemma admission_exact_witness :
  ∃ policy, (Get (v_Cache sample_validator) "team" "operator" sample_cluster).1.1 = inr policy ∧
    admissible policy good_template.
Proof.
  pose proof (admission_exact sample_validator (ROOther "Pod") good_template sample_cluster
    sample_validator_coherent) as [_ Hex].
  destruct (ValidateCreate sample_validator (ROKubeTemplate good_template) sample_cluster)
    as [[[ws err] v'] s'] eqn:Hrun.
  destruct Hex as [_ Hiff]. apply Hiff. vm_compute in Hrun. congruence.
Defined.

Lemma sample_lookup :
  (Get (v_Cache sample_validator) "team" "operator" sample_cluster).1.1 = inr team_policy.
Proof. by vm_compute. Qed.

(** The second template of [mixed_template] is the one the rejection names. *)
Lemma verdict_precise_witness :
  ∃ pre t post, Templates (kt_Spec mixed_template) = pre ++ t :: post ∧
    Forall (template_ok team_policy "team") pre ∧ ¬ template_ok team_policy "team" t.
Proof.
  pose proof (verdict_precise sample_validator mixed_template team_policy sample_cluster
    sample_validator_coherent sample_lookup (proj1 (Nat.leb_le 2 50) eq_refl)) as Hex.
  destruct (ValidateCreate sample_validator (ROKubeTemplate mixed_template) sample_cluster)
    as [[[ws err] v'] s'] eqn:Hrun.
  destruct err as [e|]; [|vm_compute in Hrun; congruence].
  destruct Hex as (pre & t & post & ? & ? & ? & _). by exists pre, t, post.
Defined.

Lemma regex_cache_transparent_witness :
  (ValidateCreate sample_validator (ROKubeTemplate good_template) sample_cluster).1.1
    = (["template[0]: replace is enabled for /v1, Kind=ConfigMap/settings. The resource will be deleted and recreated if immutable fields are changed"]%string, None).
Proof.
  rewrite (proj1 (regex_cache_transparent sample_validator (ROKubeTemplate good_template)
    sample_cluster sample_validator_coherent)).
  vm_compute. reflexivity.
Defined.
