(* ===== verification/Worker.v ===== *)
(** The asynchronous template processor of [internal/worker/template_processor.go].

    [processItem] runs in the client monad and threads the policy cache and the
    variable [kubeTemplate], which every status update fetches anew.  The loop of
    [Start] is split where the worker does not hold the queue: [handle_item] is what
    it does with a dequeued item, [finish_item] the queue operation it ends with. *)
From S2P Require Import Prelude ApiTypes Cluster PolicyCache GoHeap WorkQueue Webhook.
From stdpp Require Import base option list gmap strings pretty.
From Stdlib Require Import ZArith Ascii.

Local Open Scope kt_scope.

Record TemplateProcessor := { tp_OperatorNamespace : string; tp_WorkerID : Z }.

(** ** The status updates *)
Definition status_Processing (kt : KubeTemplate) : KubeTemplate :=
  let s := kt_Status kt in
  set_kt_Status
    {| s_Status := s_Status s; s_ProcessingPhase := "Processing"; s_QueuedAt := s_QueuedAt s;
       s_ProcessedAt := None; s_RetryCount := s_RetryCount s; s_RetryCycle := s_RetryCycle s;
       s_LastReconcileTime := s_LastReconcileTime s; s_ResourcesTotal := s_ResourcesTotal s;
       s_ResourcesSynced := s_ResourcesSynced s; s_LastDriftDetected := s_LastDriftDetected s;
       s_DriftDetectionCount := s_DriftDetectionCount s; s_DryRunChecks := s_DryRunChecks s;
       s_AppliedSpecHash := s_AppliedSpecHash s; s_PausedReason := s_PausedReason s;
       s_PausedAt := s_PausedAt s |} kt.

Definition status_Failed (msg : string) (now : Z) (kt : KubeTemplate) : KubeTemplate :=
  let s := kt_Status kt in
  set_kt_Status
    {| s_Status := msg; s_ProcessingPhase := "Failed"; s_QueuedAt := s_QueuedAt s;
       s_ProcessedAt := Some now; s_RetryCount := s_RetryCount s; s_RetryCycle := s_RetryCycle s;
       s_LastReconcileTime := s_LastReconcileTime s; s_ResourcesTotal := s_ResourcesTotal s;
       s_ResourcesSynced := s_ResourcesSynced s; s_LastDriftDetected := s_LastDriftDetected s;
       s_DriftDetectionCount := s_DriftDetectionCount s; s_DryRunChecks := s_DryRunChecks s;
       s_AppliedSpecHash := s_AppliedSpecHash s; s_PausedReason := s_PausedReason s;
       s_PausedAt := s_PausedAt s |} kt.

Definition status_Completed (specHash : string) (now : Z) (kt : KubeTemplate) : KubeTemplate :=
  let s := kt_Status kt in
  set_kt_Status
    {| s_Status := "Completed"; s_ProcessingPhase := "Completed"; s_QueuedAt := s_QueuedAt s;
       s_ProcessedAt := Some now; s_RetryCount := s_RetryCount s; s_RetryCycle := s_RetryCycle s;
       s_LastReconcileTime := s_LastReconcileTime s; s_ResourcesTotal := s_ResourcesTotal s;
       s_ResourcesSynced := s_ResourcesSynced s; s_LastDriftDetected := s_LastDriftDetected s;
       s_DriftDetectionCount := s_DriftDetectionCount s; s_DryRunChecks := s_DryRunChecks s;
       s_AppliedSpecHash := specHash; s_PausedReason := s_PausedReason s;
       s_PausedAt := s_PausedAt s |} kt.

Definition status_Paused (reason : string) (now : Z) (kt : KubeTemplate) : KubeTemplate :=
  let s := kt_Status kt in
  set_kt_Status
    {| s_Status := "Paused due to repeated failures"; s_ProcessingPhase := "Paused";
       s_QueuedAt := s_QueuedAt s;
       s_ProcessedAt := s_ProcessedAt s; s_RetryCount := s_RetryCount s; s_RetryCycle := s_RetryCycle s;
       s_LastReconcileTime := s_LastReconcileTime s; s_ResourcesTotal := s_ResourcesTotal s;
       s_ResourcesSynced := s_ResourcesSynced s; s_LastDriftDetected := s_LastDriftDetected s;
       s_DriftDetectionCount := s_DriftDetectionCount s; s_DryRunChecks := s_DryRunChecks s;
       s_AppliedSpecHash := s_AppliedSpecHash s; s_PausedReason := reason;
       s_PausedAt := Some now |} kt.

(** ** [hex.EncodeToString] *)
Definition hex_digit (n : N) : ascii :=
  if (n <? 10)%N then ascii_of_N (48 + n) else ascii_of_N (87 + n).

Fixpoint hex_EncodeToString (s : string) : string :=
  match s with
  | EmptyString => EmptyString
  | String c rest =>
      String (hex_digit (N_of_ascii c / 16))
        (String (hex_digit (N_of_ascii c mod 16)) (hex_EncodeToString rest))
  end.

Definition fieldManager : string := "kubetemplater".
Definition label_template_name : string := "kubetemplater.io/template-name".
Definition label_template_namespace : string := "kubetemplater.io/template-namespace".

Section worker.
Context {W : Type} `{Client W} `{UnstructuredOps} `{CelOps} `{DigestOps}.

Definition calculateSpecHash (spec : KubeTemplateSpec) : string :=
  match json_Marshal_spec spec with
  | inl _ => EmptyString
  | inr specJSON => hex_EncodeToString (sha256_Sum256 specJSON)
  end.

(** The body of the retry loop with [n] iterations left, [retries] done. *)
Fixpoint update_status_loop (n retries : nat) (kubeTemplate : KubeTemplate)
    (updateFn : KubeTemplate → KubeTemplate) : M W (option error * KubeTemplate) :=
  match n with
  | 0 => retM (Some (Errorf "failed to update status after 3 retries"), kubeTemplate)
  | S n =>
      let! g := Get_KubeTemplate (kt_key kubeTemplate) in
      match g with
      | inl e => retM (Some e, kubeTemplate)
      | inr latest =>
          let! '(res, updated) := Status_Update (updateFn latest) in
          match res with
          | None => retM (None, updated)
          | Some e =>
              if IsConflict e && (retries <? 2)%nat
              then update_status_loop n (S retries) updated updateFn
              else retM (Some e, updated)
          end
      end
  end.

Definition updateStatusWithRetry (kubeTemplate : KubeTemplate)
    (updateFn : KubeTemplate → KubeTemplate) : M W (option error * KubeTemplate) :=
  update_status_loop 3 0 kubeTemplate updateFn.

(** [now := metav1.Now()] and a status update whose error is only logged. *)
Definition fail_status (kt : KubeTemplate) (msg : string) : M W KubeTemplate :=
  let! now := Now in
  let! '(_, kt') := updateStatusWithRetry kt (status_Failed msg now) in
  retM kt'.

Definition validateWithCEL (rule : string) (obj : object) : error + bool :=
  match cel_NewEnv "object" CelMapStringDyn with
  | inl e => inl (Wrapf "failed to create CEL environment" e)
  | inr env =>
  match cel_Parse env rule with
  | inl e => inl (Wrapf "failed to parse CEL rule" e)
  | inr parsed =>
  match cel_Check env parsed with
  | inl e => inl (Wrapf "failed to check CEL rule" e)
  | inr checked =>
  match cel_Program env checked None with
  | inl e => inl (Wrapf "failed to create CEL program" e)
  | inr prg =>
  match cel_Eval prg None "object" (VMap obj) with
  | inl e => inl (Wrapf "failed to evaluate CEL rule" e)
  | inr (VBool true) => inr true
  | inr _ => inr false
  end end end end end.

(** The tracking labels and, when asked for, the owner reference. *)
Definition decorate (kt : KubeTemplate) (t : Template) (obj : object) : object :=
  let labels := default ∅ (GetLabels obj) in
  let obj := SetLabels (<[label_template_namespace := kt_Namespace kt]>
                         (<[label_template_name := kt_Name kt]> labels)) obj in
  if t_Referenced t then
    SetOwnerReferences
      (GetOwnerReferences obj ++
       [{| or_APIVersion := "kubetemplater.io/v1alpha1"; or_Kind := "KubeTemplate";
           or_Name := kt_Name kt; or_UID := om_UID (kt_meta kt) |}]) obj
  else obj.

Definition apply_opts : PatchOptions :=
  {| po_FieldOwner := fieldManager; po_ForceOwnership := false; po_DryRunAll := false |}.

(** "Apply the resource": [Some err] is an early return of [processItem]. *)
Definition apply_resource (kt : KubeTemplate) (t : Template) (gvk : GVK) (obj : object)
    : M W (option error * KubeTemplate) :=
  let! '(err, obj1) := Patch_Apply apply_opts obj in
  match err with
  | None => retM (None, kt)
  | Some e =>
      if IsInvalid e && t_Replace t then
        let! deleteErr := Delete_Object obj1 in
        match deleteErr with
        | Some _ => retM (None, kt)
        | None =>
            let! '(applyErr, _) := Patch_Apply apply_opts obj1 in
            retM (None, kt)
        end
      else
        let! kt' := fail_status kt ("Error: Failed to apply " +:+ gvk_String gvk +:+ "/"
                      +:+ GetName obj1 +:+ ": " +:+ err_msg e) in
        retM (Some e, kt')
  end.

(** One iteration of "Process each template"; the variable [kubeTemplate] is
    returned because a status update replaces its contents. *)
Definition process_template (policy : KubeTemplatePolicy) (kt : KubeTemplate) (t : Template)
    : M W (option error * KubeTemplate) :=
  match yaml_Unmarshal (t_Object t) with
  | inl _ => retM (None, kt)
  | inr obj0 =>
  let obj := default_namespace (kt_Namespace kt) obj0 in
  let gvk := GroupVersionKind obj in
  let skip msg := let! kt' := fail_status kt msg in retM (None, kt') in
  match find_rule (ps_ValidationRules (kp_Spec policy)) gvk with
  | None => skip ("Error: Resource " +:+ gvk_String gvk +:+ " is not allowed by policy")
  | Some rule =>
  if bool_decide (vr_TargetNamespaces rule = []) then
    skip ("Error: Resource " +:+ gvk_String gvk +:+ " has no target namespaces")
  else if negb (contains (vr_TargetNamespaces rule) (GetNamespace obj)) then
    skip ("Error: namespace " +:+ GetNamespace obj +:+ " not allowed for " +:+ gvk_String gvk)
  else
  match (if bool_decide (vr_Rule rule = EmptyString) then inr true
         else validateWithCEL (vr_Rule rule) obj) with
  | inl e =>
      skip ("Error: CEL validation failed for " +:+ gvk_String gvk +:+ ": " +:+ err_msg e)
  | inr false => skip ("Error: Resource " +:+ gvk_String gvk +:+ " failed CEL validation")
  | inr true => apply_resource kt t gvk (decorate kt t obj)
  end end end.

Fixpoint process_templates (policy : KubeTemplatePolicy) (kt : KubeTemplate)
    (ts : list Template) : M W (option error * KubeTemplate) :=
  match ts with
  | [] => retM (None, kt)
  | t :: rest =>
      let! '(err, kt') := process_template policy kt t in
      match err with
      | Some e => retM (Some e, kt')
      | None => process_templates policy kt' rest
      end
  end.

Definition processItem (p : TemplateProcessor) (cache : PolicyCache) (item : WorkItem)
    : M W (option error * PolicyCache) :=
  let! g := Get_KubeTemplate (wi_NamespacedName item) in
  match g with
  | inl e =>
      if IsNotFound e then retM (None, cache)
      else retM (Some (Wrapf "failed to get KubeTemplate" e), cache)
  | inr kt0 =>
  let! '(_, kt) := updateStatusWithRetry kt0 status_Processing in
  let! '(r, cache') := Get cache (kt_Namespace kt) (tp_OperatorNamespace p) in
  match r with
  | inl e =>
      let! _ := fail_status kt ("Error: " +:+ err_msg e) in
      retM (Some e, cache')
  | inr policy =>
  let! '(err, kt') := process_templates policy kt (Templates (kt_Spec kt)) in
  match err with
  | Some e => retM (Some e, cache')
  | None =>
      let specHash := calculateSpecHash (kt_Spec kt') in
      let! now := Now in
      let! '(res, _) := updateStatusWithRetry kt' (status_Completed specHash now) in
      retM (res, cache')
  end end end.

(** ** The loop of [Start] *)
Inductive Decision := DecideDone | DecideRequeue (e : error).

(** [p.Queue.MaxRetryCycles > 0 && item.RetryCycle >= p.Queue.MaxRetryCycles] *)
Definition cycles_exhausted (maxCycles : Z) (item : WorkItem) : bool :=
  ((0 <? maxCycles) && (maxCycles <=? wi_RetryCycle item))%Z.

Definition pause_template (maxCycles : Z) (item : WorkItem) (err : error) : M W unit :=
  let! g := Get_KubeTemplate (wi_NamespacedName item) in
  match g with
  | inl _ => retM tt
  | inr kt =>
      let! now := Now in
      let pausedReason := "Max retry cycles (" +:+ pretty maxCycles
                            +:+ ") exceeded. Last error: " +:+ err_msg err in
      let! '(statusErr, kt') := updateStatusWithRetry kt (status_Paused pausedReason now) in
      match statusErr with
      | Some _ => retM tt
      | None =>
          Event (kt_key kt') "TemplatePaused"
            ("Template automatically paused after " +:+ pretty maxCycles
             +:+ " failed retry cycles. Manual intervention required. " +:+ pausedReason)
      end
  end.

Definition handle_item (p : TemplateProcessor) (maxCycles : Z) (cache : PolicyCache)
    (item : WorkItem) : M W (Decision * PolicyCache) :=
  let! '(res, cache') := processItem p cache item in
  match res with
  | None => retM (DecideDone, cache')
  | Some err =>
      if cycles_exhausted maxCycles item then
        let! _ := pause_template maxCycles item err in
        retM (DecideDone, cache')
      else retM (DecideRequeue err, cache')
  end.

Definition finish_item (wq : WorkQueue) (p : ptr) (d : Decision) (now : Z)
    : option (WorkQueue * Wake) :=
  match d with
  | DecideDone => Some (Done wq p, NoWake)
  | DecideRequeue _ => Requeue wq p now
  end.
End worker.

Definition StartWorkers (operatorNamespace : string) (numWorkers : Z) : list TemplateProcessor :=
  (λ i, {| tp_OperatorNamespace := operatorNamespace; tp_WorkerID := Z.of_nat i |})
    <$> seq 0 (Z.to_nat numWorkers).

Definition EnqueueKubeTemplate (queue : WorkQueue) (nn : NamespacedName) (now1 now2 : Z)
    : option (WorkQueue * Wake) :=
  Enqueue queue nn 0 now1 now2.
