(* ===== verification/WorkerSpec.v ===== *)
(** What a worker guarantees while it processes one template: it touches nothing but
    what the policy allows and the template's own status; what it reports; and when
    it gives up. *)
From stdpp Require Import base option list gmap strings pretty.
From S2P Require Import Prelude ApiTypes Cluster MemCluster PolicyCache WorkQueue.
From S2P Require Import PolicyCacheSpec Webhook WebhookSpec Worker.
From Stdlib Require Import ZArith Ascii Lia.

(** ** The CEL check of the worker, which has no limits *)
Section worker_cel.
Context `{CelOps}.

Definition worker_cel (rule : string) (obj : object) : Prop :=
  cel_holds None None rule "object" CelMapStringDyn (VMap obj).

Lemma validateWithCEL_holds rule obj : validateWithCEL rule obj = inr true ↔ worker_cel rule obj.
Proof.
  unfold validateWithCEL, worker_cel, cel_holds.
  destruct (cel_NewEnv _ _) as [?|env]; [split; [done|refute]|].
  destruct (cel_Parse env rule) as [?|parsed] eqn:?; [split; [done|refute]|].
  destruct (cel_Check env parsed) as [?|checked] eqn:?; [split; [done|refute]|].
  destruct (cel_Program env checked None) as [?|prg] eqn:?; [split; [done|refute]|].
  destruct (cel_Eval prg None "object" (VMap obj)) as [?|[| [] | | | | |]] eqn:?;
    (split; [try done|refute]). intros _. by exists env, parsed, checked, prg.
Qed.
End worker_cel.

Section worker.
Context {W : Type} `{Client W} `{!ClientLaws W} `{UnstructuredOps} `{!UnstructuredLaws}
  `{CelOps} `{DigestOps}.

(** ** What the worker writes

    [kt] is the template [nn] with the spec that some read of it returned. *)
Definition fetched (nn : NamespacedName) (kt : KubeTemplate) : Prop :=
  kt_key kt = nn ∧
  ∃ kt0 w w', w_Get_KubeTemplate nn w = (inr kt0, w') ∧ kt_Spec kt = kt_Spec kt0.

(** [t] is one of the templates that such a read returned. *)
Definition template_of (nn : NamespacedName) (t : Template) : Prop :=
  ∃ kt, fetched nn kt ∧ t ∈ Templates (kt_Spec kt).

(** The policy is what a lookup for the namespace answers. *)
Definition policy_found (cache : PolicyCache) (ns op : string) (policy : KubeTemplatePolicy)
    : Prop := ∃ s : St W, (Get cache ns op s).1.1 = inr policy.

(** [o] is one of the template's resources, allowed by the policy and labelled. *)
Definition resource_allowed (policy : KubeTemplatePolicy) (nn : NamespacedName) (o : object)
    : Prop :=
  ∃ kt t obj0 rule, fetched nn kt ∧ template_of nn t ∧
    yaml_Unmarshal (t_Object t) = inr obj0 ∧
    o = decorate kt t (default_namespace (nn_Namespace nn) obj0) ∧
    placed_ok policy o rule ∧
    (vr_Rule rule = EmptyString ∨
     worker_cel (vr_Rule rule) (default_namespace (nn_Namespace nn) obj0)) ∧
    ∃ labels, GetLabels o = Some labels ∧ labels !! label_template_name = Some (nn_Name nn) ∧
      labels !! label_template_namespace = Some (nn_Namespace nn).

(** A call the worker may make for [nn] under [policy]. *)
Definition call_allowed (policy : KubeTemplatePolicy) (nn : NamespacedName) (c : Call) : Prop :=
  match c with
  | CStatusUpdate kt _ => fetched nn kt
  | CPatch opts o _ => opts = apply_opts ∧ resource_allowed policy nn o
  | CDelete o _ => resource_allowed policy nn o
  | _ => False
  end.

Definition status_only (nn : NamespacedName) (c : Call) : Prop :=
  match c with CStatusUpdate kt _ => fetched nn kt | _ => False end.

Lemma status_only_allowed policy nn c : status_only nn c → call_allowed policy nn c.
Proof. by destruct c. Qed.

Lemma set_status_fetched nn s kt : fetched nn kt → fetched nn (set_kt_Status s kt).
Proof. done. Qed.

Lemma Get_KubeTemplate_emits P nn :
  emits P (Get_KubeTemplate (W := W) nn) (λ r, ∀ kt, r = inr kt → fetched nn kt).
Proof using All.
  apply emits_liftW. intros w kt Hr. destruct (w_Get_KubeTemplate nn w) as [r w'] eqn:Hg.
  simpl in Hr. subst r. split; [by eapply Get_KubeTemplate_key|]. by exists kt, w, w'.
Qed.

Lemma Status_Update_emits nn kt :
  fetched nn kt →
  emits (status_only nn) (Status_Update (W := W) kt) (λ r, fetched nn r.2).
Proof using All.
  intros Hf. apply emits_bind with (Q := λ r, fetched nn r.2).
  - apply emits_liftW. intros w. destruct (w_Status_Update kt w) as [[r kt'] w'] eqn:Hu.
    destruct (Status_Update_spec _ _ _ _ _ Hu) as [Hk Hs]. destruct Hf as [Hk' (kt0 & ?)].
    simpl. unfold fetched. rewrite Hk, Hs. eauto.
  - intros [r kt'] Hr. eapply emits_bind; [by apply emits_emit with (Q := λ _, True)|].
    intros _ _. by apply emits_ret.
Qed.

Lemma update_status_loop_emits nn fn n retries kt :
  (∀ kt, fetched nn kt → fetched nn (fn kt)) → fetched nn kt →
  emits (status_only nn) (update_status_loop n retries kt fn) (λ r, fetched nn r.2).
Proof using All.
  intros Hfn. revert retries kt. induction n as [|n IH]; intros retries kt Hkt; simpl.
  { by apply emits_ret. }
  assert (kt_key kt = nn) as Hkey by apply Hkt. rewrite Hkey.
  eapply emits_bind; [apply Get_KubeTemplate_emits|].
  intros [e|latest] Hg; [by apply emits_ret|].
  eapply emits_bind; [apply Status_Update_emits, Hfn, Hg, eq_refl|].
  intros [[e|] updated] Hu; [|by apply emits_ret]. case_match; [by apply IH|by apply emits_ret].
Qed.

Lemma updateStatusWithRetry_emits nn fn kt :
  (∀ kt, fetched nn kt → fetched nn (fn kt)) → fetched nn kt →
  emits (status_only nn) (updateStatusWithRetry kt fn) (λ r, fetched nn r.2).
Proof using All. apply update_status_loop_emits. Qed.

Lemma Now_emits P : emits P (Now (W := W)) (λ _, True).
Proof using Type. by apply emits_liftW. Qed.

Lemma fail_status_emits nn kt msg :
  fetched nn kt → emits (status_only nn) (fail_status kt msg) (fetched nn).
Proof using All.
  intros Hkt. eapply emits_bind; [apply Now_emits|]. intros now _.
  eapply emits_bind; [by apply updateStatusWithRetry_emits|].
  intros [r kt'] Hr. by apply emits_ret.
Qed.

(** Decorating keeps what the policy looks at, and sets the labels. *)
Lemma decorate_gvk kt t o : GroupVersionKind (decorate kt t o) = GroupVersionKind o.
Proof using All. unfold decorate. case_match; by rewrite ?GVK_SetOwners, GVK_SetLabels. Qed.

Lemma decorate_namespace kt t o : GetNamespace (decorate kt t o) = GetNamespace o.
Proof using All.
  unfold decorate. case_match; by rewrite ?GetNamespace_SetOwners, GetNamespace_SetLabels.
Qed.

Lemma decorate_labels kt t o :
  GetLabels (decorate kt t o) =
    Some (<[label_template_namespace := kt_Namespace kt]>
           (<[label_template_name := kt_Name kt]> (default ∅ (GetLabels o)))).
Proof using All.
  unfold decorate. case_match; rewrite ?GetLabels_SetOwners, GetLabels_SetLabels;
    try done; apply insert_non_empty.
Qed.

(** A client call whose object was allowed leaves an allowed object. *)
Lemma Patch_Apply_emits policy nn o :
  resource_allowed policy nn o →
  emits (call_allowed policy nn) (Patch_Apply (W := W) apply_opts o)
    (λ r, r.1 ≠ None → r.2 = o).
Proof using All.
  intros Ho. apply emits_bind with (Q := λ r, r.1 ≠ None → r.2 = o).
  - apply emits_liftW. intros w Hr. destruct (w_Patch_Apply apply_opts o w) as [[[e|] o'] w'] eqn:Hp;
      [|done]. simpl. by eapply Patch_failed_same.
  - intros [r o'] Hr. eapply emits_bind; [by apply emits_emit with (Q := λ _, True)|].
    intros _ _. by apply emits_ret.
Qed.

Lemma Delete_Object_emits policy nn o :
  resource_allowed policy nn o →
  emits (call_allowed policy nn) (Delete_Object (W := W) o) (λ _, True).
Proof using All.
  intros Ho. eapply emits_bind; [by apply emits_liftW with (Q := λ _, True)|].
  intros r _. eapply emits_bind; [by apply emits_emit with (Q := λ _, True)|].
  intros _ _. by apply emits_ret.
Qed.

Lemma status_emits policy nn {A} (m : M W A) Q :
  emits (status_only nn) m Q → emits (call_allowed policy nn) m Q.
Proof using All. intros Hm. eapply emits_weaken; eauto using status_only_allowed. Qed.

Lemma apply_resource_emits policy nn kt t gvk o :
  fetched nn kt → resource_allowed policy nn o →
  emits (call_allowed policy nn) (apply_resource kt t gvk o) (λ r, fetched nn r.2).
Proof using All.
  intros Hkt Ho. eapply emits_bind; [by apply Patch_Apply_emits|].
  intros [[e|] o1] Ho1; [|by apply emits_ret]. simpl in Ho1. rewrite (Ho1 ltac:(done)).
  case_match.
  - eapply emits_bind; [by apply Delete_Object_emits|]. intros [de|] _; [by apply emits_ret|].
    eapply emits_bind; [by apply Patch_Apply_emits|]. intros [ae o2] _. by apply emits_ret.
  - eapply emits_bind; [by apply status_emits, fail_status_emits|].
    intros kt' Hkt'. by apply emits_ret.
Qed.

(** What the checks of [process_template] establish before it applies anything. *)
Lemma decorate_allowed policy nn kt t obj0 rule :
  fetched nn kt → template_of nn t → yaml_Unmarshal (t_Object t) = inr obj0 →
  let obj := default_namespace (nn_Namespace nn) obj0 in
  find_rule (ps_ValidationRules (kp_Spec policy)) (GroupVersionKind obj) = Some rule →
  contains (vr_TargetNamespaces rule) (GetNamespace obj) = true →
  (vr_Rule rule = EmptyString ∨ worker_cel (vr_Rule rule) obj) →
  resource_allowed policy nn (decorate kt t obj).
Proof using All.
  intros Hkt Ht Hy obj Hr Hc Hcel. exists kt, t, obj0, rule. split_and!; [done..| |done|].
  - unfold placed_ok. rewrite decorate_gvk, decorate_namespace. split.
    + pose proof (find_rule_first policy (GroupVersionKind obj)) as Hf. rewrite Hr in Hf. apply Hf.
    + by apply contains_elem.
  - eexists. split; [apply decorate_labels|]. destruct Hkt as [Hkey _].
    unfold kt_key in Hkey. subst nn. simpl. split.
    + rewrite lookup_insert_ne by done. apply lookup_insert_eq.
    + apply lookup_insert_eq.
Qed.

Lemma process_template_emits policy nn kt t :
  fetched nn kt → template_of nn t →
  emits (call_allowed policy nn) (process_template policy kt t) (λ r, fetched nn r.2).
Proof using All.
  intros Hkt Ht. unfold process_template.
  destruct (yaml_Unmarshal (t_Object t)) as [e|obj0] eqn:Hy; [by apply emits_ret|].
  assert (Hskip : ∀ msg, emits (call_allowed policy nn)
    (bindM (fail_status kt msg) (λ kt', retM (@None error, kt'))) (λ r, fetched nn r.2)).
  { intros msg. eapply emits_bind; [by apply status_emits, fail_status_emits|].
    intros kt' ?. by apply emits_ret. }
  assert (kt_Namespace kt = nn_Namespace nn) as -> by (destruct Hkt as [<- _]; done).
  destruct (find_rule _ _) as [rule|] eqn:Hr; [|apply Hskip].
  case_bool_decide; [apply Hskip|].
  destruct (contains _ _) eqn:Hc; [|apply Hskip]. cbn [negb].
  assert (Hcel : (if bool_decide (vr_Rule rule = EmptyString) then inr true
      else validateWithCEL (vr_Rule rule) (default_namespace (nn_Namespace nn) obj0)) = inr true →
    vr_Rule rule = EmptyString ∨ worker_cel (vr_Rule rule) (default_namespace (nn_Namespace nn) obj0)).
  { case_bool_decide; [by left|]. intros ?. right. by apply validateWithCEL_holds. }
  destruct (if bool_decide _ then _ else _) as [e|[]]; [apply Hskip| |apply Hskip].
  apply apply_resource_emits; [done|]. by eapply decorate_allowed; eauto.
Qed.

Lemma process_templates_emits policy nn ts kt :
  fetched nn kt → Forall (template_of nn) ts →
  emits (call_allowed policy nn) (process_templates policy kt ts) (λ r, fetched nn r.2).
Proof using All.
  revert kt. induction ts as [|t ts IH]; intros kt Hkt Hts; simpl; [by apply emits_ret|].
  apply Forall_cons in Hts as [Ht Hts]. eapply emits_bind; [by apply process_template_emits|].
  intros [[e|] kt'] Hkt'; [by apply emits_ret|by apply IH].
Qed.

(** What processing may write: status updates of the template [nn] itself, and
    resources allowed by a policy that a lookup for its namespace answers. *)
Definition write_allowed (cache : PolicyCache) (op : string) (nn : NamespacedName) (c : Call) : Prop :=
  status_only nn c ∨
  ∃ policy, policy_found cache (nn_Namespace nn) op policy ∧ call_allowed policy nn c.

Lemma Get_emits P cache ns op :
  emits P (Get (W := W) cache ns op) (λ r, ∀ policy, r.1 = inr policy →
    policy_found cache ns op policy).
Proof using All.
  intros s. assert (Hlog : st_log (Get cache ns op s).2 = st_log s).
  { unfold Get, refresh, bindM, Now, List_KubeTemplatePolicies, liftW.
    repeat (case_match; simplify_eq/=); done. }
  exists []. rewrite Hlog, app_nil_r. split_and!; [done|done|]. intros policy Hp. by exists s.
Qed.

(** C1.  Whatever the cluster answers, processing an item writes nothing but the
    status of that template and resources that are allowed: each patched or deleted
    object is a decoded resource of the template, of a kind whose first rule in the
    policy of its namespace lists the object's namespace and whose CEL rule it
    satisfies, carrying the labels that track it back to the template. *)
Theorem processItem_writes_allowed (p : TemplateProcessor) (cache : PolicyCache)
    (item : WorkItem) (s : St W) :
  ∃ tr, st_log (processItem p cache item s).2 = st_log s ++ tr ∧
    Forall (write_allowed cache (tp_OperatorNamespace p) (wi_NamespacedName item)) tr.
Proof using All.
  set (nn := wi_NamespacedName item). set (op := tp_OperatorNamespace p).
  assert (Hst : ∀ A (m : M W A) Q, emits (status_only nn) m Q →
    emits (write_allowed cache op nn) m Q).
  { intros A m Q Hm. eapply emits_weaken; [exact Hm|by left|done]. }
  assert (Hmain : emits (write_allowed cache op nn) (processItem p cache item) (λ _, True)).
  { unfold processItem. fold nn op. eapply emits_bind; [apply Get_KubeTemplate_emits|].
    intros [e|kt0] Hkt0; [by case_match; apply emits_ret|].
    eapply emits_bind; [by apply Hst, updateStatusWithRetry_emits; [|apply Hkt0]|].
    intros [r kt] Hkt. simpl in Hkt.
    assert (kt_Namespace kt = nn_Namespace nn) as -> by (destruct Hkt as [<- _]; done).
    eapply emits_bind; [apply Get_emits|]. intros [[e|policy] cache'] Hp.
    { eapply emits_bind; [by apply Hst, fail_status_emits|]. intros. by apply emits_ret. }
    eapply emits_bind.
    { assert (Forall (template_of nn) (Templates (kt_Spec kt)))
        by (apply Forall_forall; intros t Ht; by exists kt).
      eapply emits_weaken; [by apply (process_templates_emits policy nn)| |by intros ? Hq; exact Hq].
      intros c Hc. right. exists policy. split; [by apply Hp|done]. }
    intros [[e|] kt'] Hkt'; [by apply emits_ret|].
    eapply emits_bind; [apply Now_emits|]. intros now _.
    eapply emits_bind; [by apply Hst, updateStatusWithRetry_emits|].
    intros [res kt''] _. by apply emits_ret. }
  destruct (Hmain s) as (tr & Hl & Hf & _). by exists tr.
Qed.
End worker.

(** ** Status updates *)
Section status.
Context {W : Type} `{Client W}.

Definition is_conflict (c : Call) : Prop :=
  ∃ kt e, c = CStatusUpdate kt (Some e) ∧ IsConflict e = true.

(** The calls of a status update that ends with [res]: conflicts, then a call that
    decides; or a read that fails. *)
Definition update_trace (fn : KubeTemplate → KubeTemplate) (n : nat) (res : option error)
    (tr : list Call) : Prop :=
  (∃ pre kt, tr = pre ++ [CStatusUpdate (fn kt) res] ∧ Forall is_conflict pre ∧
     (length pre < n)%nat ∧ (∀ e, res = Some e → IsConflict e = true → S (length pre) = n)) ∨
  (∃ e nn w w', res = Some e ∧ w_Get_KubeTemplate nn w = (inl e, w') ∧
     Forall is_conflict tr ∧ (length tr < n)%nat).

Lemma update_status_loop_trace fn n retries kt s res kt' s' :
  (n + retries = 3)%nat → (0 < n)%nat →
  update_status_loop n retries kt fn s = ((res, kt'), s') →
  ∃ tr, st_log s' = st_log s ++ tr ∧ update_trace fn n res tr.
Proof.
  revert retries kt s. induction n as [|n IH]; intros retries kt s Hn Hpos; [lia|].
  simpl. unfold bindM, Get_KubeTemplate, liftW.
  destruct (w_Get_KubeTemplate (kt_key kt) (st_world s)) as [[e|latest] w1] eqn:Hg.
  { intros [= <- <- <-]. exists []. simpl. rewrite app_nil_r. split; [done|]. right.
    exists e, (kt_key kt), (st_world s), w1. split_and!; [done|done|constructor|simpl; lia]. }
  unfold Status_Update, bindM, liftW, emit, retM. simpl.
  destruct (w_Status_Update (fn latest) w1) as [[r kt2] w2]. simpl.
  destruct r as [e|].
  2:{ intros [= <- <- <-]. eexists. split; [done|]. left. exists [], latest.
      split_and!; [done|constructor|simpl; lia|done]. }
  destruct (IsConflict e && (retries <? 2)%nat) eqn:Hc.
  - apply andb_true_iff in Hc as [Hc Hr]. bool_simpl. intros Hloop.
    destruct (IH (S retries) _ _ ltac:(lia) ltac:(lia) Hloop) as (tr & Hl & Ht).
    exists (CStatusUpdate (fn latest) (Some e) :: tr). rewrite Hl. simpl.
    rewrite <- app_assoc. split; [done|].
    assert (is_conflict (CStatusUpdate (fn latest) (Some e))) by by repeat eexists.
    destruct Ht as [(pre & k & -> & Hp & Hlen & Hlast)|(e' & nn & w & w' & Hr' & Hg' & Hp & Hlen)].
    + left. exists (CStatusUpdate (fn latest) (Some e) :: pre), k.
      split_and!; [done|by constructor|simpl; lia|]. intros e' He Hce. simpl. f_equal. eauto.
    + right. exists e', nn, w, w'. split_and!; [done..|by constructor|simpl; lia].
  - intros [= <- <- <-]. eexists. split; [done|]. left. exists [], latest.
    split_and!; [done|constructor|simpl; lia|].
    intros e' [= <-] Hce. rewrite Hce in Hc. bool_simpl. simpl. destruct Hc; [done|lia].
Qed.

(** C26.  A status update makes at most three attempts: it goes on only after a conflict, it reports success exactly when the
    last attempt succeeded, and it reports a conflict only after the third attempt
    (or as the error of a read). *)
Theorem updateStatusWithRetry_attempts (kt : KubeTemplate) (fn : KubeTemplate → KubeTemplate)
    (s : St W) :
  ∃ tr, st_log (updateStatusWithRetry kt fn s).2 = st_log s ++ tr ∧
    update_trace fn 3 (updateStatusWithRetry kt fn s).1.1 tr.
Proof.
  destruct (updateStatusWithRetry kt fn s) as [[res kt'] s'] eqn:Hu.
  by apply update_status_loop_trace in Hu; [|lia..].
Qed.
End status.

(** ** Outcomes *)
Section outcomes.
Context {W : Type} `{Client W} `{UnstructuredOps} `{CelOps} `{DigestOps}.

(** The resource of [t] does not decode, or violates the policy. *)
Definition violates (policy : KubeTemplatePolicy) (ns : string) (t : Template) : Prop :=
  ∀ obj0 rule, yaml_Unmarshal (t_Object t) = inr obj0 →
    let obj := default_namespace ns obj0 in
    placed_ok policy obj rule → vr_Rule rule ≠ EmptyString ∧ ¬ worker_cel (vr_Rule rule) obj.

Definition failed_status (c : Call) : Prop :=
  ∃ kt res, c = CStatusUpdate kt res ∧ kt_phase kt = "Failed"%string.

Lemma update_failed_emits n retries kt msg now :
  emits failed_status (update_status_loop (W := W) n retries kt (status_Failed msg now)) (λ _, True).
Proof.
  revert retries kt. induction n as [|n IH]; intros retries kt; simpl; [by apply emits_ret|].
  eapply emits_bind; [by apply emits_liftW with (Q := λ _, True)|].
  intros [e|latest] _; [by apply emits_ret|].
  eapply emits_bind with (Q := λ _, True).
  { eapply emits_bind; [by apply emits_liftW with (Q := λ _, True)|]. intros r _.
    eapply emits_bind; [apply emits_emit with (Q := λ _, True); [by repeat eexists|done]|].
    intros _ _. by apply emits_ret. }
  intros [[e|] updated] _; [|by apply emits_ret]. case_match; [by apply IH|by apply emits_ret].
Qed.

Lemma fail_status_failed kt msg : emits failed_status (fail_status (W := W) kt msg) (λ _, True).
Proof.
  eapply emits_bind; [by apply emits_liftW with (Q := λ _, True)|]. intros now _.
  eapply emits_bind; [by apply update_failed_emits|]. intros [r kt'] _. by apply emits_ret.
Qed.

Lemma violating_template policy kt t :
  violates policy (kt_Namespace kt) t →
  emits failed_status (process_template (W := W) policy kt t) (λ r, r.1 = None).
Proof.
  intros Hno. unfold process_template.
  destruct (yaml_Unmarshal (t_Object t)) as [e|obj0] eqn:Hy; [by apply emits_ret|]. cbv zeta.
  assert (Hskip : ∀ msg, emits failed_status
    (bindM (fail_status (W := W) kt msg) (λ kt', retM (@None error, kt'))) (λ r, r.1 = None)).
  { intros msg. eapply emits_bind; [by apply fail_status_failed|]. intros. by apply emits_ret. }
  specialize (λ rule, Hno obj0 rule Hy). simpl in Hno.
  generalize dependent (default_namespace (kt_Namespace kt) obj0). intros obj Hno.
  pose proof (find_rule_first policy (GroupVersionKind obj)) as Hf.
  destruct (find_rule _ _) as [rule|]; [|apply Hskip]. case_bool_decide; [apply Hskip|].
  destruct (contains _ _) eqn:Hc; [|apply Hskip]. cbn [negb].
  destruct (Hno rule) as [Hr Hcel]; [split; [apply Hf|by apply contains_elem]|].
  rewrite bool_decide_false by done.
  rewrite <- validateWithCEL_holds in Hcel.
  destruct (validateWithCEL (vr_Rule rule) obj) as [e|[]]; [apply Hskip|done|apply Hskip].
Qed.

Lemma violating_templates `{!ClientLaws W, !UnstructuredLaws} policy nn ts kt :
  fetched (W := W) nn kt → Forall (template_of (W := W) nn) ts →
  Forall (violates policy (nn_Namespace nn)) ts →
  emits failed_status (process_templates (W := W) policy kt ts)
    (λ r, r.1 = None ∧ fetched (W := W) nn r.2).
Proof.
  revert kt. induction ts as [|t ts IH]; intros kt Hkt Hts Hv; simpl; [by apply emits_ret|].
  apply Forall_cons in Hts as [Ht Hts], Hv as [Hv1 Hv].
  assert (kt_Namespace kt = nn_Namespace nn) as Hns by (destruct Hkt as [<- _]; done).
  rewrite <- Hns in Hv1.
  pose proof (emits_and _ _ _ _ _ (violating_template policy kt t Hv1)
    (process_template_emits policy nn kt t Hkt Ht)) as Hone.
  eapply emits_bind; [eapply emits_weaken; [exact Hone|by intros ? []|intros ? Hq; exact Hq]|].
  intros [err kt'] [Herr Hkt']. simpl in *. subst err. by apply IH.
Qed.

Definition is_write (c : Call) : Prop :=
  match c with CPatch _ _ _ | CDelete _ _ => True | _ => False end.

(** The end of [processItem], when no template returned an error. *)
Lemma completion_trace `{!ClientLaws W, !UnstructuredLaws} nn kt hash (cache : PolicyCache) s res cache' s' :
  fetched (W := W) nn kt →
  bindM Now (λ now, bindM (updateStatusWithRetry (W := W) kt (status_Completed hash now))
    (λ '(res, _), retM (res, cache))) s = ((res, cache'), s') →
  ∃ tr, st_log s' = st_log s ++ tr ∧ Forall (status_only (W := W) nn) tr ∧
    ((∃ pre kt, tr = pre ++ [CStatusUpdate kt res] ∧ kt_phase kt = "Completed"%string) ∨
     ∃ e nn w w', res = Some e ∧ w_Get_KubeTemplate (W := W) nn w = (inl e, w')).
Proof.
  intros Hkt. unfold bindM, Now, liftW. destruct (w_Now (st_world s)) as [now w1].
  destruct (updateStatusWithRetry kt _ (mkSt w1 (st_log s))) as [[res' kt'] s1] eqn:Hc.
  intros [= <- <- <-]. pose proof Hc as Hc'.
  apply update_status_loop_trace in Hc' as (tr & Hl & Ht); [|lia..].
  destruct (emits_run _ _ _ _ _ _ (updateStatusWithRetry_emits nn (status_Completed hash now) kt
    (λ k Hk, Hk) Hkt) Hc)
    as (tr' & Hl' & Ht' & _).
  rewrite Hl in Hl'. apply app_inv_head in Hl' as <-. exists tr. split_and!; [done..|].
  destruct Ht as [(pre & k & -> & _)|(e & nn' & w & w' & ? & ? & _)]; [left|right; eauto 10].
  by exists pre, (status_Completed hash now k).
Qed.

(** How a run of [processItem] on [nn] that has made the calls [tr] can end when the
    template and the policy do not matter: the template could not be read, or is gone;
    no policy was found; or the phase "Completed" was to be recorded. *)
Definition neutral_end (cache : PolicyCache) (op : string) (nn : NamespacedName)
    (res : option error) (tr : list Call) : Prop :=
  (∃ e nn' w w', w_Get_KubeTemplate (W := W) nn' w = (inl e, w') ∧
     (res = Some e ∨ res = Some (Wrapf "failed to get KubeTemplate" e) ∨
      (res = None ∧ IsNotFound e = true ∧ tr = []))) ∨
  (∃ e (st : St W), res = Some e ∧ (Get cache (nn_Namespace nn) op st).1.1 = inl e) ∨
  (∃ pre kt, tr = pre ++ [CStatusUpdate kt res] ∧ kt_phase kt = "Completed"%string).

Lemma violations_neutral `{!ClientLaws W, !UnstructuredLaws} (p : TemplateProcessor)
    (cache cache' : PolicyCache) (item : WorkItem) (s s' : St W) (res : option error) :
  (∀ kt policy, fetched (W := W) (wi_NamespacedName item) kt →
     policy_found (W := W) cache (nn_Namespace (wi_NamespacedName item)) (tp_OperatorNamespace p) policy →
     Forall (violates policy (nn_Namespace (wi_NamespacedName item))) (Templates (kt_Spec kt))) →
  processItem p cache item s = ((res, cache'), s') →
  ∃ tr, st_log s' = st_log s ++ tr ∧ Forall (λ c, ¬ is_write c) tr ∧
    neutral_end cache (tp_OperatorNamespace p) (wi_NamespacedName item) res tr.
Proof.
  set (nn := wi_NamespacedName item). intros Hall. unfold processItem. fold nn.
  assert (Hnw : ∀ tr, Forall (status_only (W := W) nn) tr → Forall (λ c, ¬ is_write c) tr).
  { intros tr Htr. eapply Forall_impl; [exact Htr|]. by intros [] ? ?. }
  unfold bindM at 1. destruct (Get_KubeTemplate nn s) as [g s1] eqn:Hg.
  destruct (emits_quiet _ _ _ _ _ (Get_KubeTemplate_emits _ nn) Hg) as [Hl1 Hk].
  destruct g as [e|kt0].
  { intros Hr. exists []. rewrite app_nil_r.
    unfold Get_KubeTemplate, liftW in Hg.
    destruct (w_Get_KubeTemplate nn (st_world s)) as [g' w1] eqn:Hg'. injection Hg as -> <-.
    case_match; injection Hr as <- <- <-; (split_and!; [done|constructor|]);
      left; exists e, nn, (st_world s), w1; by auto 10. }
  unfold bindM at 1.
  destruct (updateStatusWithRetry kt0 status_Processing s1) as [[r kt] s2] eqn:Hu.
  destruct (emits_run _ _ _ _ _ _ (updateStatusWithRetry_emits nn status_Processing kt0
    (λ k Hk, Hk) (Hk kt0 eq_refl)) Hu) as (tr2 & Hl2 & Ht2 & Hkt). simpl in Hkt.
  assert (kt_Namespace kt = nn_Namespace nn) as -> by (destruct Hkt as [<- _]; done).
  unfold bindM at 1.
  destruct (Get cache (nn_Namespace nn) (tp_OperatorNamespace p) s2) as [[gr c'] s3] eqn:Hget.
  destruct (emits_quiet _ _ _ _ _ (Get_emits _ _ _ _) Hget) as [Hl3 Hp].
  destruct gr as [e|policy].
  { unfold bindM at 1. destruct (fail_status kt ("Error: " +:+ err_msg e) s3) as [kt' s4] eqn:Hfs.
    destruct (emits_run _ _ _ _ _ _ (fail_status_emits nn kt _ Hkt) Hfs) as (tr4 & Hl4 & Ht4 & _).
    intros [= <- <- <-]. exists (tr2 ++ tr4). rewrite Hl4, Hl3, Hl2, Hl1, app_assoc.
    split_and!; [done|apply Forall_app; auto|]. right. left. exists e, s2. by rewrite Hget. }
  unfold bindM at 1.
  destruct (process_templates policy kt (Templates (kt_Spec kt)) s3) as [[err kt'] s4] eqn:Hpt.
  assert (Hts : Forall (template_of (W := W) nn) (Templates (kt_Spec kt)))
    by (apply Forall_forall; by exists kt).
  destruct (emits_run _ _ _ _ _ _ (violating_templates policy nn (Templates (kt_Spec kt)) kt Hkt
    Hts (Hall kt policy Hkt (Hp _ eq_refl))) Hpt) as (tr4 & Hl4 & Ht4 & Herr & Hkt').
  simpl in Herr, Hkt'. subst err. intros Hend.
  destruct (completion_trace _ _ _ _ _ _ _ _ Hkt' Hend) as (tr6 & Hl6 & Ht6 & Hlast).
  exists (tr2 ++ tr4 ++ tr6). rewrite Hl6, Hl4, Hl3, Hl2, Hl1, <- !app_assoc. split_and!; [done| |].
  - rewrite !Forall_app. split_and!; [by auto| |by auto].
    eapply Forall_impl; [exact Ht4|]. by intros c (? & ? & -> & _) ?.
  - destruct Hlast as [(pre & k & -> & Hph)|(e & nn' & w & w' & -> & Hg')].
    + right. right. exists (tr2 ++ tr4 ++ pre), k. by rewrite <- !app_assoc.
    + left. exists e, nn', w, w'. by auto.
Qed.

(** C35.  When every resource of the template is undecodable or violates the policy, no
    resource is written, deleted or patched; but the violation is never reported as a
    failure.  Whatever [processItem] returns, it is either the error of a read of a
    template (none when the template is gone), or that no policy was found, or the
    outcome of the last call, which records the phase "Completed".  So when reads and
    status updates succeed and a policy is found, there is no error and the template
    ends in the phase "Completed". *)
Theorem violations_end_completed `{!ClientLaws W, !UnstructuredLaws} (p : TemplateProcessor)
    (cache cache' : PolicyCache) (item : WorkItem) (s s' : St W) (res : option error) :
  (∀ kt policy, fetched (W := W) (wi_NamespacedName item) kt →
     policy_found (W := W) cache (nn_Namespace (wi_NamespacedName item)) (tp_OperatorNamespace p) policy →
     Forall (violates policy (nn_Namespace (wi_NamespacedName item))) (Templates (kt_Spec kt))) →
  processItem p cache item s = ((res, cache'), s') →
  ∃ tr, st_log s' = st_log s ++ tr ∧ Forall (λ c, ¬ is_write c) tr ∧
    neutral_end cache (tp_OperatorNamespace p) (wi_NamespacedName item) res tr ∧
    ((∀ nn w, ∃ kt w', w_Get_KubeTemplate nn w = (inr kt, w')) →
     (∀ st, ∃ policy, (Get cache (nn_Namespace (wi_NamespacedName item)) (tp_OperatorNamespace p) st).1.1
        = inr policy) →
     (∀ kt e, CStatusUpdate kt (Some e) ∉ tr) →
     res = None ∧ ∃ pre kt, tr = pre ++ [CStatusUpdate kt None] ∧ kt_phase kt = "Completed"%string).
Proof.
  intros Hall Hrun. destruct (violations_neutral _ _ _ _ _ _ _ Hall Hrun) as (tr & Hl & Hnw & Hend).
  exists tr. split_and!; [done..|]. intros Hread Hpol Hupd.
  destruct Hend as [(e & nn' & w & w' & Hg & _)|[(e & st & _ & Hg)|(pre & kt & Htr & Hph)]].
  - destruct (Hread nn' w) as (? & ? & Hg'). congruence.
  - destruct (Hpol st) as (? & Hg'). congruence.
  - destruct res as [e|]; [|by eauto]. destruct (Hupd kt e). rewrite Htr. set_solver.
Qed.
End outcomes.

(** ** The worker's checks against the webhook's *)

(** Documented behaviour of the CEL engine: a cost limit and a deadline can only make
    an evaluation fail, they do not change its value. *)
Class CelLaws `{CelOps} : Prop := {
  cel_unlimited cost deadline rule var ty v :
    cel_holds (Some cost) (Some deadline) rule var ty v → cel_holds None None rule var ty v
}.

Section agreement.
Context {W : Type} `{Client W} `{UnstructuredOps} `{CelOps} `{RegexpOps}.

Lemma process_template_applies policy (kt : KubeTemplate) t obj0 rule :
  yaml_Unmarshal (t_Object t) = inr obj0 →
  let obj := default_namespace (kt_Namespace kt) obj0 in
  placed_ok policy obj rule → (vr_Rule rule = EmptyString ∨ worker_cel (vr_Rule rule) obj) →
  process_template (W := W) policy kt t
    = apply_resource kt t (GroupVersionKind obj) (decorate kt t obj).
Proof.
  intros Hy obj [Hfirst Hns] Hcel. unfold process_template. rewrite Hy. fold obj. cbv zeta.
  pose proof (find_rule_first policy (GroupVersionKind obj)) as Hf.
  destruct (find_rule _ _) as [r|]; [|by destruct (Hf rule)].
  destruct Hf as [_ Huniq]. rewrite <- (Huniq rule Hfirst).
  rewrite bool_decide_false by (intros He; rewrite He in Hns; set_solver).
  apply contains_elem in Hns as ->. cbn [negb]. case_bool_decide as Hr; [done|].
  destruct Hcel as [?|Hcel]; [done|]. by apply validateWithCEL_holds in Hcel as ->.
Qed.

(** C17.  Every template that the webhook admits is applied in full by a worker that
    holds the policy under which it was admitted: whatever has become of its status and
    metadata by then, each of its resources decodes and goes to the apply step, and none
    is skipped. *)
Theorem admitted_is_applied `{!CelLaws} (v v' : KubeTemplateValidator) (kt : KubeTemplate)
    (ws : list string) (s s' : St W) :
  rc_coherent (v_regexCache v) →
  ValidateCreate v (ROKubeTemplate kt) s = ((ws, None, v'), s') →
  ∃ policy, (Get (v_Cache v) (kt_Namespace kt) (v_OperatorNamespace v) s).1.1 = inr policy ∧
    ∀ kt', kt_Namespace kt' = kt_Namespace kt → kt_Spec kt' = kt_Spec kt →
      Forall (λ t, ∃ obj0, yaml_Unmarshal (t_Object t) = inr obj0 ∧
        let obj := default_namespace (kt_Namespace kt) obj0 in
        process_template (W := W) policy kt' t
          = apply_resource kt' t (GroupVersionKind obj) (decorate kt' t obj))
        (Templates (kt_Spec kt')).
Proof.
  intros Hrc Hrun. simpl in Hrun. pose proof (validateKubeTemplate_spec v kt s Hrc) as Hspec.
  rewrite Hrun in Hspec. destruct (Get _ _ _ s) as [[[e|policy] cache'] s1]; [by destruct Hspec as (_ & _ & _ & ?)|].
  destruct Hspec as (_ & _ & _ & [_ Hall] & _). exists policy. split; [done|]. intros kt' Hns Hsp.
  rewrite Hsp, <- Hns. rewrite <- Hns in Hall. eapply Forall_impl; [exact Hall|].
  intros t (_ & obj0 & rule & Hy & Hplaced & Hcel & _). exists obj0. split; [done|].
  eapply process_template_applies; [done|exact Hplaced|].
  destruct Hcel as [?|Hcel]; [by left|right]. by eapply cel_unlimited.
Qed.

(** C36.  The worker enforces the placement and the CEL rule only: a resource that
    passes these is applied whatever the field validations of its rule say, so also
    when the webhook would reject it. *)
Theorem field_validations_not_enforced (policy : KubeTemplatePolicy) (kt : KubeTemplate)
    (t : Template) (obj0 : object) (rule : ValidationRule) :
  yaml_Unmarshal (t_Object t) = inr obj0 →
  placed_ok policy (default_namespace (kt_Namespace kt) obj0) rule →
  vr_Rule rule = EmptyString →
  ¬ Forall (field_ok (default_namespace (kt_Namespace kt) obj0)) (vr_FieldValidations rule) →
  ¬ template_ok policy (kt_Namespace kt) t ∧
  process_template (W := W) policy kt t
    = apply_resource kt t (GroupVersionKind (default_namespace (kt_Namespace kt) obj0))
        (decorate kt t (default_namespace (kt_Namespace kt) obj0)).
Proof.
  intros Hy Hplaced Hr Hno. split.
  - intros (_ & obj1 & rule' & Hy' & [Hf' _] & _ & Hall). rewrite Hy in Hy'. injection Hy' as <-.
    destruct Hplaced as [Hf _]. pose proof (find_rule_first policy
      (GroupVersionKind (default_namespace (kt_Namespace kt) obj0))) as Hfirst.
    destruct (find_rule _ _) as [r|]; [|by destruct (Hfirst rule)].
    destruct Hfirst as [_ Huniq]. apply Hno. by rewrite (Huniq _ Hf), <- (Huniq _ Hf').
  - eapply process_template_applies; [done|exact Hplaced|by left].
Qed.
End agreement.

(** ** Giving up *)
Section giving_up.
Context {W : Type} `{Client W} `{UnstructuredOps} `{CelOps} `{DigestOps}.

Definition paused_reason (maxCycles : Z) (e : error) : string :=
  "Max retry cycles (" +:+ pretty maxCycles +:+ ") exceeded. Last error: " +:+ err_msg e.

Definition paused_message (maxCycles : Z) (e : error) : string :=
  "Template automatically paused after " +:+ pretty maxCycles
  +:+ " failed retry cycles. Manual intervention required. " +:+ paused_reason maxCycles e.

(** The update to "Paused" for this reason at this time. *)
Definition pauses (reason : string) (now : Z) (fn : KubeTemplate → KubeTemplate) : Prop :=
  ∀ kt, kt_meta (fn kt) = kt_meta kt ∧ kt_Spec (fn kt) = kt_Spec kt ∧
    kt_phase (fn kt) = "Paused"%string ∧ s_PausedReason (kt_Status (fn kt)) = reason ∧
    s_PausedAt (kt_Status (fn kt)) = Some now.

(** The calls of the pause of the template [nn] that starts in the world [w]: none
    exactly when the template cannot be read; else those of an update of this template
    to "Paused", and the warning event about it exactly when the update succeeded. *)
Definition pause_trace (maxCycles : Z) (nn : NamespacedName) (e : error) (w : W) (tr : list Call) : Prop :=
  match w_Get_KubeTemplate nn w with
  | (inl _, _) => tr = []
  | (inr kt, w1) =>
      ∃ fn res upd, pauses (paused_reason maxCycles e) (w_Now w1).1 fn ∧
        update_trace (W := W) fn 3 res upd ∧ Forall (status_only (W := W) nn) upd ∧
        tr = upd ++ match res with
                    | Some _ => []
                    | None => [CEvent nn "TemplatePaused" (paused_message maxCycles e)]
                    end
  end.

Lemma pause_template_trace `{!ClientLaws W, !UnstructuredLaws} maxCycles item e s :
  ∃ tr, st_log (pause_template (W := W) maxCycles item e s).2 = st_log s ++ tr ∧
    pause_trace maxCycles (wi_NamespacedName item) e (st_world s) tr.
Proof.
  set (nn := wi_NamespacedName item). unfold pause_template, pause_trace. fold nn.
  unfold bindM at 1. pose proof (Get_KubeTemplate_emits (λ _, False) nn s) as (_ & _ & _ & Hkt).
  unfold Get_KubeTemplate, liftW in *.
  destruct (w_Get_KubeTemplate nn (st_world s)) as [[?|kt] w1].
  { exists []. simpl. by rewrite app_nil_r. }
  specialize (Hkt kt eq_refl). unfold bindM at 1, Now, liftW. cbn [st_world st_log].
  destruct (w_Now w1) as [now w2]. cbn [fst]. fold (paused_reason maxCycles e).
  unfold bindM. destruct (updateStatusWithRetry kt _ _) as [[res kt'] s3] eqn:Hu. pose proof Hu as Hu'.
  apply update_status_loop_trace in Hu as (upd & Hl & Ht); [|lia..].
  destruct (emits_run _ _ _ _ _ _ (updateStatusWithRetry_emits nn
    (status_Paused (paused_reason maxCycles e) now) kt (λ k Hk, Hk) Hkt) Hu') as (upd' & Hl' & Hst & Hkt').
  rewrite Hl in Hl'. apply app_inv_head in Hl' as <-. cbn [st_log] in Hl. simpl in Hkt'.
  destruct res as [err|].
  - exists upd. split; [done|]. exists (status_Paused (paused_reason maxCycles e) now), (Some err), upd.
    by rewrite app_nil_r.
  - eexists. unfold Event, emit. cbn [st_log snd]. rewrite Hl, <- app_assoc. split; [done|].
    exists (status_Paused (paused_reason maxCycles e) now), None, upd. destruct Hkt' as [-> _]. by split_and!.
Qed.

(** C23.  What a worker does with a dequeued item: it is done with it when processing
    succeeded; it requeues it, without further calls, when processing failed and cycles
    are unlimited or the item's cycle is below their number; else it is done with it
    after recording the pause: an update of the template to "Paused" with the last error
    in the reason, left out only when the template cannot be read, and then a warning
    event about it exactly when that update went through. *)
Theorem handle_item_outcome `{!ClientLaws W, !UnstructuredLaws} (p : TemplateProcessor) (maxCycles : Z)
    (cache : PolicyCache) (item : WorkItem) (s : St W) :
  let '((res, cache1), s1) := processItem p cache item s in
  let '((d, cache2), s2) := handle_item p maxCycles cache item s in
  cache2 = cache1 ∧
  match res with
  | None => d = DecideDone ∧ s2 = s1
  | Some e =>
      ((maxCycles ≤ 0 ∨ wi_RetryCycle item < maxCycles)%Z → d = DecideRequeue e ∧ s2 = s1) ∧
      ((0 < maxCycles ≤ wi_RetryCycle item)%Z →
       d = DecideDone ∧ ∃ tr, st_log s2 = st_log s1 ++ tr ∧
         pause_trace maxCycles (wi_NamespacedName item) e (st_world s1) tr)
  end.
Proof.
  unfold handle_item, bindM. destruct (processItem p cache item s) as [[[e|] cache1] s1]; [|done].
  pose proof (pause_template_trace maxCycles item e s1) as Hp. unfold cycles_exhausted.
  destruct (Z.ltb_spec 0 maxCycles), (Z.leb_spec maxCycles (wi_RetryCycle item)); simpl;
    [destruct (pause_template maxCycles item e s1) as [u s2]; simpl|..];
    (split; [done|split; intros ?; [try lia; done|try lia; done]]).
Qed.
End giving_up.

(** ** Witnesses *)
#[local] Existing Instance mem_client.
#[local] Existing Instance mem_client_laws.
#[local] Existing Instance mem_cel.
#[local] Existing Instance mem_regexp.
#[local] Existing Instance mem_digest.
#[local] Instance sample_objects : UnstructuredOps := mem_unstructured sample_decode.
#[local] Instance sample_objects_laws : UnstructuredLaws := mem_unstructured_laws sample_decode.

#[local] Instance mem_cel_laws : CelLaws.
Proof.
  split. intros cost deadline rule var ty v (env & parsed & checked & prg & He & Hp & Hc & Hg & Hv).
  by exists env, parsed, checked, prg.
Qed.

Definition sample_worker : TemplateProcessor := {| tp_OperatorNamespace := "operator"; tp_WorkerID := 0 |}.

Definition sample_item : WorkItem :=
  {| wi_NamespacedName := NN "team" "app"; wi_Priority := 0; wi_RetryCount := 0;
     wi_RetryCycle := 0; wi_EnqueuedAt := 0; wi_ScheduledAt := 0; wi_index := -1 |}.

(** The cluster that holds one template and the given policies. *)
Definition cluster_with (kt : KubeTemplate) (ps : list KubeTemplatePolicy) : St mem :=
  mkSt (clusterOf 10 {[kt_key kt := kt]} ps) [].

Definition phase_of (s : St mem) (nn : NamespacedName) : option string :=
  kt_phase <$> mem_kts (st_world s) !! nn.

(** Processing [good_template] writes one resource, and it is an allowed one. *)
Lemma processItem_writes_allowed_witness :
  ∃ o, (∃ a b c, st_log (processItem sample_worker (NewPolicyCache 0) sample_item
          (cluster_with good_template [team_policy])).2 = [a; CPatch apply_opts o b; c]) ∧
    write_allowed (W := mem) (NewPolicyCache 0) "operator" (NN "team" "app") (CPatch apply_opts o None).
Proof.
  destruct (processItem_writes_allowed sample_worker (NewPolicyCache 0) sample_item
    (cluster_with good_template [team_policy])) as (tr & Hl & Hf).
  eexists. split; [do 3 eexists; vm_compute; reflexivity|].
  assert (Htr : tr = st_log (processItem sample_worker (NewPolicyCache 0) sample_item
    (cluster_with good_template [team_policy])).2) by (rewrite Hl; reflexivity).
  eapply (Forall_lookup_1 _ tr 1 _ Hf). rewrite Htr. vm_compute. reflexivity.
Defined.

(** A template whose only resource no rule allows. *)
Definition bad_template : KubeTemplate := kubeTemplateOf "team" "app" [templateOf "secret" false false].

(** A cluster that never changes: the template and a policy without rules. *)
Definition empty_policy : KubeTemplatePolicy := policyOf "operator" "empty" "team" [].

Definition frozen : Client Z := {|
  w_Now t := (t, t + 1)%Z;
  w_Get_KubeTemplate nn t :=
    (if bool_decide (kt_key bad_template = nn) then inr bad_template else inl (not_found "template"), t);
  w_Status_Update kt t := ((None, kt), t);
  w_List_KubeTemplatePolicies op ns t := (inr [empty_policy], t);
  w_Get_KubeTemplatePolicy nn t := (inr empty_policy, t);
  w_Get_Object gvk nn t := (inl (not_found "object"), t);
  w_Patch_Apply opts o t := ((None, o), t);
  w_Delete_Object o t := (None, t)
|}.

Lemma frozen_laws : @ClientLaws Z frozen.
Proof.
  split; simpl; intros; simplify_eq; try done. by case_bool_decide; simplify_eq.
Qed.

Lemma frozen_violates kt policy :
  fetched (H := frozen) (NN "team" "app") kt →
  policy_found (H := frozen) (NewPolicyCache 0) "team" "operator" policy →
  Forall (violates policy "team") (Templates (kt_Spec kt)).
Proof.
  intros [_ (kt0 & w & w' & Hg & ->)] [st Hp]. vm_compute in Hp. injection Hp as <-.
  simpl in Hg. injection Hg as <- _. apply Forall_singleton.
  intros obj0 rule _ obj [(pre & post & Hl & _) _]. by destruct pre.
Qed.

(** The run of [bad_template] violates the policy, returns no error and ends in the
    phase "Completed". *)
Lemma violations_end_completed_witness :
  ∃ pre kt, st_log (processItem (H := frozen) sample_worker (NewPolicyCache 0) sample_item (mkSt 10%Z [])).2
    = pre ++ [CStatusUpdate kt None] ∧ kt_phase kt = "Completed"%string.
Proof.
  destruct (processItem (H := frozen) sample_worker (NewPolicyCache 0) sample_item (mkSt 10%Z []))
    as [[res cache'] s'] eqn:Hrun.
  destruct (violations_end_completed (H := frozen) (ClientLaws0 := frozen_laws) sample_worker
    (NewPolicyCache 0) cache' sample_item (mkSt 10%Z []) s' res frozen_violates Hrun)
    as (tr & Hl & _ & Hend & _).
  vm_compute in Hrun. injection Hrun as <- <- <-. vm_compute in Hl. subst tr.
  destruct Hend as [(e & nn & w & w' & _ & [?|[?|(_ & _ & ?)]])|[(e & st & ? & _)|(pre & kt & Htr & Hph)]];
    try discriminate.
  by exists pre, kt.
Defined.

(** The webhook admits [good_template] under [team_policy], so a worker applies it. *)
Lemma admitted_is_applied_witness :
  ∃ policy, (Get (v_Cache sample_validator) "team" "operator" sample_cluster).1.1 = inr policy ∧
    Forall (λ t, ∃ obj0, yaml_Unmarshal (t_Object t) = inr obj0 ∧
      let obj := default_namespace "team" obj0 in
      process_template (W := mem) policy good_template t
        = apply_resource good_template t (GroupVersionKind obj) (decorate good_template t obj))
      [templateOf "config" true false].
Proof.
  destruct (ValidateCreate sample_validator (ROKubeTemplate good_template) sample_cluster)
    as [[[ws err] v'] s'] eqn:Hrun.
  assert (err = None) as -> by (vm_compute in Hrun; congruence).
  destruct (admitted_is_applied sample_validator v' good_template ws sample_cluster s'
    sample_validator_coherent Hrun) as (policy & Hget & Hall).
  exists policy. split; [exact Hget|]. exact (Hall good_template eq_refl eq_refl).
Defined.

(** Without a policy, processing fails; an item in its last cycle is then paused. *)
Lemma handle_item_outcome_witness :
  let item := set_retry 0 3 0 sample_item in
  let '((res, _), s1) := processItem sample_worker (NewPolicyCache 0) item (cluster_with good_template []) in
  let '((d, _), s2) := handle_item sample_worker 3 (NewPolicyCache 0) item (cluster_with good_template []) in
  ∃ e tr, res = Some e ∧ d = DecideDone ∧ st_log s2 = st_log s1 ++ tr ∧
    pause_trace 3 (NN "team" "app") e (st_world s1) tr.
Proof.
  cbv zeta. pose proof (handle_item_outcome (W := mem) sample_worker 3 (NewPolicyCache 0)
    (set_retry 0 3 0 sample_item) (cluster_with good_template [])) as Hout.
  destruct (processItem _ _ _ _) as [[[e|] cache1] s1] eqn:Hrun; [|vm_compute in Hrun; discriminate].
  destruct (handle_item _ _ _ _ _) as [[d cache2] s2]. destruct Hout as [_ [_ Hout]].
  destruct Hout as (Hd & tr & Hl & Hp); [vm_compute; split; [reflexivity|discriminate]|].
  exists e, tr. split_and!; [reflexivity|exact Hd|exact Hl|exact Hp].
Defined.

(** A rule whose field validation the resource fails. *)
Definition strict_rule : ValidationRule :=
  {| vr_Kind := "ConfigMap"; vr_Group := ""; vr_Version := "v1"; vr_Rule := "";
     vr_FieldValidations := [fieldOf "size" "data.replicas" FieldValidationTypeRange "" None (Some 2%Z)];
     vr_TargetNamespaces := ["team"]%string |}.

Definition strict_policy : KubeTemplatePolicy := policyOf "operator" "strict" "team" [strict_rule].

Lemma field_validations_not_enforced_witness :
  ¬ template_ok strict_policy "team" (templateOf "config" true false) ∧
  process_template (W := mem) strict_policy good_template (templateOf "config" true false)
    = apply_resource good_template (templateOf "config" true false)
        (GroupVersionKind (default_namespace "team" config_map))
        (decorate good_template (templateOf "config" true false) (default_namespace "team" config_map)).
Proof.
  apply (field_validations_not_enforced strict_policy good_template (templateOf "config" true false)
    config_map strict_rule).
  - reflexivity.
  - split; [exists [], []; split; [reflexivity|split; [reflexivity|constructor]]|].
    vm_compute. constructor.
  - reflexivity.
  - intros Hall. apply Forall_cons in Hall as [Hok _].
    pose proof (validateFieldRange_checks (fieldOf "size" "data.replicas" FieldValidationTypeRange
      "" None (Some 2%Z)) (default_namespace "team" config_map) 0 eq_refl) as Hc.
    vm_compute in Hc. by destruct Hc.
Defined.
