(* ===== verification/WorkerPool.v ===== *)
(** The worker pool as a transition system: the reconcilers enqueue, idle workers
    dequeue, busy workers finish their item with the queue operation that the loop
    of [Start] chooses, idle ones leave when their context is done or [Dequeue] has
    returned false, and the queue may be shut down.  Each transition is one
    critical section of the queue's mutex, so the traces of the system are the
    interleavings of the goroutines. *)
From S2P Require Import Prelude ApiTypes Cluster PolicyCache GoHeap WorkQueue WorkQueueFacts.
From S2P Require Import Webhook Worker.
From stdpp Require Import base option list gmap strings relations.
From Stdlib Require Import ZArith Lia.

Local Open Scope Z_scope.

(** [pl_workers] has one entry for each goroutine of [StartWorkers] that has not left its
    loop: the item it is processing, if any. *)
Record Pool := { pl_wq : WorkQueue; pl_workers : list (option ptr) }.

Definition busy (pl : Pool) : list ptr := omap id (pl_workers pl).

Section pool.
Context {W : Type} `{Client W} `{UnstructuredOps} `{CelOps} `{DigestOps}.

Inductive pool_step : Pool → Pool → Prop :=
  | step_enqueue pl nn pr t1 t2 wq' wake :
      Enqueue (pl_wq pl) nn pr t1 t2 = Some (wq', wake) →
      pool_step pl {| pl_wq := wq'; pl_workers := pl_workers pl |}
  | step_dequeue pl i now wq' p :
      pl_workers pl !! i = Some None →
      Dequeue_pass (pl_wq pl) now = Some (wq', Dequeued p) →
      pool_step pl {| pl_wq := wq'; pl_workers := <[i := Some p]> (pl_workers pl) |}
  | step_finish pl i p item tp cache (s : St W) d cache' s' now wq' wake :
      pl_workers pl !! i = Some (Some p) →
      wq_store (pl_wq pl) !! p = Some item →
      handle_item tp (wq_MaxRetryCycles (pl_wq pl)) cache item s = ((d, cache'), s') →
      finish_item (pl_wq pl) p d now = Some (wq', wake) →
      pool_step pl {| pl_wq := wq'; pl_workers := <[i := None]> (pl_workers pl) |}
  | step_exit pl i :
      pl_workers pl !! i = Some None →
      pool_step pl {| pl_wq := pl_wq pl; pl_workers := delete i (pl_workers pl) |}
  | step_shutdown pl :
      pool_step pl {| pl_wq := (Shutdown (pl_wq pl)).1; pl_workers := pl_workers pl |}.

(** [main]: a fresh queue and [n] idle workers. *)
Definition pool_init (n : nat) (maxRetries initialDelay maxDelay maxCycles : Z) (pl : Pool) : Prop :=
  NewWorkQueueWithConfig maxRetries initialDelay maxDelay maxCycles = Some (pl_wq pl) ∧
  pl_workers pl = replicate n None.

(** ** The invariant *)
Definition config_ok (wq : WorkQueue) : Prop :=
  0 ≤ wq_MaxRetries wq < int64_max ∧ wq_MaxRetryCycles wq < int64_max ∧
  0 ≤ wq_InitialRetryDelay wq ∧ wq_InitialRetryDelay wq * 2 ^ 30 ≤ int64_max.

(** The retry state of an item stays within the configured limits. *)
Definition item_ok (wq : WorkQueue) (w : WorkItem) : Prop :=
  0 ≤ wi_RetryCount w ≤ wq_MaxRetries wq ∧
  (0 < wq_MaxRetryCycles wq → 0 ≤ wi_RetryCycle w ≤ wq_MaxRetryCycles wq).

Record pool_inv (pl : Pool) : Prop := {
  pi_wf : wq_wf (pl_wq pl);
  pi_config : config_ok (pl_wq pl);
  pi_pending p w : aq_pending (abs (pl_wq pl)) !! p = Some w → item_ok (pl_wq pl) w;
  pi_busy p : p ∈ busy pl → ∃ w, holds (pl_wq pl) p w ∧ item_ok (pl_wq pl) w;
  pi_nodup : NoDup (busy pl);
  pi_processing :
    m_processingItems (wq_metrics (pl_wq pl)) = wrap64 (Z.of_nat (length (busy pl)))
}.

Lemma item_ok_config wq wq' w : same_config wq wq' → item_ok wq w → item_ok wq' w.
Proof. intros (E1 & _ & _ & E4). unfold item_ok. by rewrite E1, E4. Qed.

Lemma config_ok_same wq wq' : same_config wq wq' → config_ok wq → config_ok wq'.
Proof. intros (E1 & E2 & _ & E4). unfold config_ok. by rewrite E1, E2, E4. Qed.

Lemma retry_sane_ok wq w i : config_ok wq → item_ok wq w → retry_sane wq (set_index i w).
Proof. unfold config_ok, item_ok, retry_sane. simpl. lia. Qed.

(** An idle worker takes an item; a busy one gives it back. *)
Lemma busy_take pl i p :
  pl_workers pl !! i = Some None →
  omap id (<[i := Some p]> (pl_workers pl)) ≡ₚ p :: busy pl.
Proof.
  intros Hi. unfold busy. rewrite insert_take_drop by (by eapply lookup_lt_Some).
  rewrite <- (take_drop_middle _ _ _ Hi) at 3. rewrite !omap_app. simpl.
  by rewrite Permutation_middle.
Qed.

Lemma busy_release pl i p :
  pl_workers pl !! i = Some (Some p) →
  p :: omap id (<[i := None]> (pl_workers pl)) ≡ₚ busy pl.
Proof.
  intros Hi. unfold busy. rewrite insert_take_drop by (by eapply lookup_lt_Some).
  rewrite <- (take_drop_middle _ _ _ Hi) at 3. rewrite !omap_app. simpl.
  by rewrite Permutation_middle.
Qed.

Lemma handle_item_requeue tp maxCycles cache item (s : St W) e cache' s' :
  handle_item tp maxCycles cache item s = ((DecideRequeue e, cache'), s') →
  cycles_exhausted maxCycles item = false.
Proof.
  unfold handle_item, bindM, retM. intros Hh.
  destruct (processItem tp cache item s) as [[[err|] c] s1]; [|done].
  destruct (cycles_exhausted maxCycles item); [|done].
  by destruct (pause_template maxCycles item err s1).
Qed.

(** While the cycles are not exhausted the queue never gives an item up, and the
    new retry state is within the limits. *)
Lemma next_retry_ok wq now w :
  config_ok wq → item_ok wq w → cycles_exhausted (wq_MaxRetryCycles wq) w = false →
  ∃ w', wq_next_retry wq now w = Some w' ∧ item_ok wq w' ∧
        wi_NamespacedName w' = wi_NamespacedName w.
Proof.
  unfold cycles_exhausted, wq_next_retry, next_retry, config_ok, item_ok.
  intros Hc Hi Hex. rewrite Hex.
  destruct (Z.leb_spec (wi_RetryCount w + 1) (wq_MaxRetries wq));
    eexists; (split; [done|]); simpl.
  - split; [|done]. lia.
  - split; [|done]. split; [lia|]. intros Hpos.
    destruct (Z.ltb_spec 0 (wq_MaxRetryCycles wq)); [|lia]. simpl in Hex.
    apply Z.leb_gt in Hex. rewrite wrap64_id; [lia|].
    unfold in_int64, int64_min in *. lia.
Qed.

Lemma pool_init_inv n a b c d pl :
  pool_init n a b c d pl → config_ok (pl_wq pl) → pool_inv pl.
Proof.
  intros [Hnew Hws] Hc. destruct (NewWorkQueueWithConfig_wf a b c d) as (wq & Hn & Hwf & Habs).
  rewrite Hn in Hnew. injection Hnew as Hwq.
  assert (Hbusy : busy pl = []).
  { unfold busy. rewrite Hws. clear. by induction n. }
  assert (Hm : m_processingItems (wq_metrics (pl_wq pl)) = 0).
  { rewrite <- Hwq. unfold NewWorkQueueWithConfig in Hn.
    rewrite heap_Init_empty in Hn by done. by injection Hn as <-. }
  split; rewrite <- ?Hwq, ?Hbusy; try done.
  - by rewrite Hwq.
  - rewrite Habs. by intros p w ?.
  - by intros p ?%elem_of_nil.
  - constructor.
  - by rewrite Hwq, Hm.
Qed.

Lemma pool_inv_enqueue pl nn pr t1 t2 wq' wake :
  pool_inv pl → Enqueue (pl_wq pl) nn pr t1 t2 = Some (wq', wake) →
  pool_inv {| pl_wq := wq'; pl_workers := pl_workers pl |}.
Proof.
  intros Hinv He. pose proof (pi_wf _ Hinv) as Hwf.
  destruct (Enqueue_refines_spec (pl_wq pl) nn pr t1 t2 Hwf) as (wq1 & wk & He' & Hwf' & Hspec).
  rewrite He in He'. injection He' as <- <-.
  destruct (Enqueue_metrics _ _ _ _ _ _ _ He) as [Hcfg Hm].
  split; cbn [pl_wq pl_workers]; [done|by eapply config_ok_same, pi_config| | |apply (pi_nodup _ Hinv)|].
  - intros p w Hp. eapply item_ok_config; [done|].
    generalize dependent (abs wq'). intros a' [q Hn Hq|q v Hn Hq]; simpl;
      intros [[<- <-]|[_ Hp]]%lookup_insert_Some; try by eapply pi_pending.
    + pose proof (pi_config _ Hinv) as (? & _). unfold item_ok. simpl. lia.
    + apply (pi_pending _ Hinv _ _ Hq).
  - intros p Hp. destruct (pi_busy _ Hinv p Hp) as (w & Hh & Hok). exists w.
    split; [by eapply (Enqueue_holds (pl_wq pl))|by eapply item_ok_config].
  - rewrite Hm. apply (pi_processing _ Hinv).
Qed.

Lemma pool_inv_dequeue pl i now wq' p :
  pool_inv pl → pl_workers pl !! i = Some None →
  Dequeue_pass (pl_wq pl) now = Some (wq', Dequeued p) →
  pool_inv {| pl_wq := wq'; pl_workers := <[i := Some p]> (pl_workers pl) |}.
Proof.
  intros Hinv Hi Hd. pose proof (pi_wf _ Hinv) as Hwf.
  destruct (Dequeue_refines_spec (pl_wq pl) now Hwf) as (wq1 & o & Hd' & Hwf' & Hspec).
  rewrite Hd in Hd'. injection Hd' as <- <-.
  destruct (Dequeue_metrics _ _ _ _ Hd) as [Hcfg Hm].
  destruct (Dequeued_holds _ _ _ _ Hwf Hd) as (w & Hw & Hh).
  pose proof (busy_take pl i p Hi) as Hbusy.
  assert (Hnew : ∀ q, q ∈ busy pl → q ≠ p).
  { intros q Hq ->. destruct (pi_busy _ Hinv p Hq) as (v & Hv & _).
    by destruct (Dequeue_holds _ _ _ _ _ _ Hwf Hd Hv) as [_ ?]. }
  split; unfold busy; cbn [pl_wq pl_workers]; [done|by eapply config_ok_same, pi_config| | | |].
  - intros q v Hq. eapply item_ok_config; [done|].
    generalize dependent (abs wq'). intros a' Hspec. inversion Hspec; subst; simpl.
    intros [_ Hq]%lookup_delete_Some. by eapply pi_pending.
  - intros q Hq. rewrite Hbusy in Hq. apply elem_of_cons in Hq as [->|Hq].
    + exists w. split; [done|]. eapply item_ok_config; [done|]. by eapply pi_pending.
    + destruct (pi_busy _ Hinv q Hq) as (v & Hv & Hok). exists v.
      split; [by eapply (Dequeue_holds (pl_wq pl))|by eapply item_ok_config].
  - rewrite Hbusy. constructor; [|apply (pi_nodup _ Hinv)]. intros Hp. by apply (Hnew p Hp).
  - rewrite Hm, (pi_processing _ Hinv), wrap64_wrap64_add, Hbusy. f_equal. simpl. lia.
Qed.

Lemma holds_item wq p w item :
  holds wq p w → wq_store wq !! p = Some item →
  (p ∉ wq_slice wq) ∧ ∃ j, item = set_index j w.
Proof.
  intros [Hp Hw] Hi. split; [done|]. rewrite Hi in Hw. injection Hw as <-.
  exists (wi_index item). by destruct item.
Qed.

Lemma pool_inv_requeue pl i p item now wq' wake :
  pool_inv pl → pl_workers pl !! i = Some (Some p) →
  wq_store (pl_wq pl) !! p = Some item →
  cycles_exhausted (wq_MaxRetryCycles (pl_wq pl)) item = false →
  Requeue (pl_wq pl) p now = Some (wq', wake) →
  pool_inv {| pl_wq := wq'; pl_workers := <[i := None]> (pl_workers pl) |}.
Proof.
  intros Hinv Hi Hitem Hex Hr. pose proof (pi_wf _ Hinv) as Hwf.
  pose proof (busy_release pl i p Hi) as Hbusy.
  destruct (pi_busy _ Hinv p) as (w & Hh & Hok); [rewrite <- Hbusy; set_solver|].
  destruct (holds_item _ _ _ _ Hh Hitem) as (Hp & j & ->).
  pose proof (pi_config _ Hinv) as Hc.
  destruct (Requeue_refines_spec _ p _ now Hwf Hp Hitem (retry_sane_ok _ _ j Hc Hok))
    as (wq1 & wk & Hr' & Hwf' & Hm). rewrite Hr in Hr'. injection Hr' as <- <-.
  destruct (next_retry_ok (pl_wq pl) now (set_index j w) Hc Hok Hex) as (w' & Hn & Hok' & _).
  rewrite Hn in Hm. destruct Hm as [-> Habs].
  destruct (Requeue_metrics _ _ _ _ _ Hr) as [Hcfg Hpr].
  pose proof (pi_nodup _ Hinv) as Hnd. rewrite <- Hbusy in Hnd.
  apply NoDup_cons in Hnd as [Hpn Hnd].
  split; unfold busy; cbn [pl_wq pl_workers]; [done|by eapply config_ok_same| | |done|].
  - rewrite Habs. simpl. intros q v [[<- <-]|[_ Hq]]%lookup_insert_Some;
      (eapply item_ok_config; [done|]); [done|by eapply pi_pending].
  - intros q Hq. destruct (pi_busy _ Hinv q) as (v & Hv & Hvok); [rewrite <- Hbusy; set_solver|].
    exists v. split; [|by eapply item_ok_config].
    eapply (Requeue_holds (pl_wq pl) p); [done..| |done]. by intros ->.
  - rewrite Hpr, (pi_processing _ Hinv), <- Z.add_opp_r, wrap64_wrap64_add, <- Hbusy.
    f_equal. simpl. lia.
Qed.

Lemma pool_inv_done pl i p :
  pool_inv pl → pl_workers pl !! i = Some (Some p) →
  pool_inv {| pl_wq := Done (pl_wq pl) p; pl_workers := <[i := None]> (pl_workers pl) |}.
Proof.
  intros Hinv Hi. pose proof (busy_release pl i p Hi) as Hbusy.
  destruct (Done_wf (pl_wq pl) p (pi_wf _ Hinv)) as [Hwf Habs].
  pose proof (pi_nodup _ Hinv) as Hnd. rewrite <- Hbusy in Hnd.
  apply NoDup_cons in Hnd as [_ Hnd].
  split; unfold busy; cbn [pl_wq pl_workers]; [done|apply (pi_config _ Hinv)| | |done|].
  - apply (pi_pending _ Hinv).
  - intros q Hq. apply (pi_busy _ Hinv). rewrite <- Hbusy. set_solver.
  - unfold Done, with_queue, metrics_done. cbn [wq_metrics m_processingItems].
    rewrite (pi_processing _ Hinv), <- Z.add_opp_r, wrap64_wrap64_add, <- Hbusy.
    f_equal. simpl. lia.
Qed.

(** A worker that leaves holds nothing. *)
Lemma busy_exit pl i : pl_workers pl !! i = Some None → omap id (delete i (pl_workers pl)) = busy pl.
Proof.
  intros Hi. unfold busy. rewrite <- (take_drop_middle _ _ _ Hi) at 2.
  by rewrite delete_take_drop, !omap_app.
Qed.

Lemma pool_inv_exit pl i :
  pool_inv pl → pl_workers pl !! i = Some None →
  pool_inv {| pl_wq := pl_wq pl; pl_workers := delete i (pl_workers pl) |}.
Proof.
  intros [? ? ? Hb Hnd Hpr] Hi. pose proof (busy_exit pl i Hi) as Heq.
  by split; unfold busy; cbn [pl_wq pl_workers]; rewrite ?Heq.
Qed.

Lemma pool_step_inv pl pl' : pool_inv pl → pool_step pl pl' → pool_inv pl'.
Proof.
  intros Hinv Hstep.
  destruct Hstep as [pl nn pr t1 t2 wq' wake He|pl i now wq' p Hi Hd
    |pl i p item tp cache s d cache' s' now wq' wake Hi Hitem Hh Hf|pl i Hi|pl].
  - by eapply pool_inv_enqueue.
  - by eapply pool_inv_dequeue.
  - destruct d as [|e]; simpl in Hf.
    + simplify_eq. by apply pool_inv_done.
    + eapply pool_inv_requeue; eauto. by eapply handle_item_requeue.
  - by apply pool_inv_exit.
  - destruct (Shutdown_wf (pl_wq pl) (pi_wf _ Hinv)) as [Hwf Habs].
    destruct Hinv. by split.
Qed.

Lemma pool_reachable_inv pl pl' : pool_inv pl → rtc pool_step pl pl' → pool_inv pl'.
Proof. intros Hinv. induction 1; eauto using pool_step_inv. Qed.

Lemma pool_step_workers pl pl' :
  pool_step pl pl' → (length (pl_workers pl') ≤ length (pl_workers pl))%nat.
Proof.
  destruct 1 as [| | |pl i Hi|]; simpl; rewrite ?length_insert; try done.
  rewrite length_delete by done. lia.
Qed.

Lemma pool_reachable_workers pl pl' :
  rtc pool_step pl pl' → (length (pl_workers pl') ≤ length (pl_workers pl))%nat.
Proof. induction 1 as [|a b c Hs _ IH]; [done|]. pose proof (pool_step_workers _ _ Hs). lia. Qed.

Lemma busy_length pl : (length (busy pl) ≤ length (pl_workers pl))%nat.
Proof.
  unfold busy. induction (pl_workers pl) as [|[p|] ws IH]; csimpl; lia.
Qed.

(** In every state of the invariant each operation succeeds. *)
Lemma pool_inv_total pl :
  pool_inv pl →
  (∀ nn pr t1 t2, is_Some (Enqueue (pl_wq pl) nn pr t1 t2)) ∧
  (∀ now, is_Some (Dequeue_pass (pl_wq pl) now)) ∧
  (∀ p d now, p ∈ busy pl → is_Some (finish_item (pl_wq pl) p d now)).
Proof.
  intros Hinv. pose proof (pi_wf _ Hinv) as Hwf. split_and!.
  - intros nn pr t1 t2. destruct (Enqueue_refines_spec _ nn pr t1 t2 Hwf) as (wq' & wake & -> & _).
    eauto.
  - intros now. destruct (Dequeue_refines_spec _ now Hwf) as (wq' & o & -> & _). eauto.
  - intros p [|e] now Hp; simpl; [eauto|].
    destruct (pi_busy _ Hinv p Hp) as (w & Hh & Hok).
    destruct (wq_store (pl_wq pl) !! p) as [item|] eqn:Hitem; [|by destruct Hh as [_ Hh]; rewrite Hitem in Hh].
    destruct (holds_item _ _ _ _ Hh Hitem) as (Hnin & j & ->).
    destruct (Requeue_refines_spec _ p _ now Hwf Hnin Hitem (retry_sane_ok _ _ j (pi_config _ Hinv) Hok))
      as (wq' & wake & -> & _). eauto.
Qed.
End pool.
