(* ===== verification/PoolSpec.v ===== *)
(** What the worker pool guarantees: no panic, exclusive ownership of items and exact
    metrics. *)
From S2P Require Import Prelude ApiTypes Cluster MemCluster PolicyCache GoHeap WorkQueue.
From S2P Require Import WorkQueueFacts WorkQueueSpec Webhook Worker WorkerPool.
From stdpp Require Import base option list gmap strings relations.
From Stdlib Require Import ZArith Lia.

Local Open Scope Z_scope.

(** ** Concrete instances for the witnesses *)
#[local] Existing Instance mem_client.
#[local] Existing Instance mem_cel.
#[local] Existing Instance mem_digest.
#[local] Instance no_objects : UnstructuredOps := mem_unstructured (λ _, inl (Errorf "no yaml")).

Definition pool0 : Pool := {| pl_wq := empty_wq; pl_workers := replicate 2 None |}.

(** One template enqueued, then taken by the first worker. *)
Definition pool1 : Pool :=
  {| pl_wq := or_empty (Enqueue empty_wq nnA 0 20 20); pl_workers := replicate 2 None |}.
Definition pool2 : Pool := {| pl_wq := held_wq; pl_workers := [Some 1%positive; None] |}.

Lemma pool0_init : pool_init 2 DefaultMaxRetries DefaultInitialRetryDelay
  DefaultMaxRetryDelay DefaultMaxRetryCycles pool0.
Proof. by vm_compute. Qed.

Lemma pool0_config : config_ok (pl_wq pool0).
Proof. vm_compute. intuition discriminate. Qed.

Lemma pool2_reachable : rtc (pool_step (W := mem)) pool0 pool2.
Proof.
  eapply (rtc_l _ pool0 pool1).
  { by apply (step_enqueue pool0 nnA 0 20 20 (or_empty (Enqueue empty_wq nnA 0 20 20)) Signal). }
  eapply rtc_l; [|apply rtc_refl].
  by apply (step_dequeue pool1 0%nat 30 held_wq 1%positive).
Qed.

Section pool_theorems.
Context {W : Type} `{Client W} `{UnstructuredOps} `{CelOps} `{DigestOps}.

(** C6.  However enqueues, workers and the shutdown interleave, no two workers hold
    the same item, no held item is in the queue, and the metric [processingItems] is
    exactly the number of busy workers. *)
Theorem pool_exclusive (n : nat) (maxRetries initialDelay maxDelay maxCycles : Z) (pl pl' : Pool) :
  pool_init n maxRetries initialDelay maxDelay maxCycles pl → config_ok (pl_wq pl) →
  Z.of_nat n ≤ int64_max → rtc (pool_step (W := W)) pl pl' →
  NoDup (busy pl') ∧ (∀ p, p ∈ busy pl' → p ∉ wq_slice (pl_wq pl')) ∧
  m_processingItems (GetMetrics (pl_wq pl')) = Z.of_nat (length (busy pl')).
Proof.
  intros Hi Hc Hn Hr. pose proof (pool_init_inv _ _ _ _ _ _ Hi Hc) as Hinv0.
  pose proof (pool_reachable_inv _ _ Hinv0 Hr) as Hinv. split_and!.
  - apply (pi_nodup _ Hinv).
  - intros p Hp. by destruct (pi_busy _ Hinv p Hp) as (w & [? _] & _).
  - unfold GetMetrics. rewrite (pi_processing _ Hinv). apply wrap64_id.
    pose proof (busy_length pl') as Hb. pose proof (pool_reachable_workers _ _ Hr) as Hw.
    destruct Hi as [_ Hws]. rewrite Hws, length_replicate in Hw.
    unfold in_int64, int64_min. lia.
Qed.

(** C7.  No reachable state panics: every [Enqueue] and every pass of [Dequeue]
    returns, and so does [Done] or [Requeue] for every item a worker holds. *)
Theorem pool_never_panics (n : nat) (maxRetries initialDelay maxDelay maxCycles : Z) (pl pl' : Pool) :
  pool_init n maxRetries initialDelay maxDelay maxCycles pl → config_ok (pl_wq pl) →
  rtc (pool_step (W := W)) pl pl' →
  (∀ nn pr t1 t2, is_Some (Enqueue (pl_wq pl') nn pr t1 t2)) ∧
  (∀ now, is_Some (Dequeue_pass (pl_wq pl') now)) ∧
  (∀ p d now, p ∈ busy pl' → is_Some (finish_item (pl_wq pl') p d now)).
Proof.
  intros Hi Hc Hr. apply pool_inv_total. eapply pool_reachable_inv; [|done].
  by eapply pool_init_inv.
Qed.
End pool_theorems.

Lemma pool_exclusive_witness :
  NoDup (busy pool2) ∧ (∀ p, p ∈ busy pool2 → p ∉ wq_slice (pl_wq pool2)) ∧
  m_processingItems (GetMetrics (pl_wq pool2)) = 1.
Proof.
  apply (pool_exclusive (W := mem) 2 DefaultMaxRetries DefaultInitialRetryDelay
    DefaultMaxRetryDelay DefaultMaxRetryCycles pool0 pool2 pool0_init pool0_config).
  - vm_compute. discriminate.
  - apply pool2_reachable.
Defined.

Lemma pool_never_panics_witness :
  (∀ nn pr t1 t2, is_Some (Enqueue held_wq nn pr t1 t2)) ∧
  (∀ now, is_Some (Dequeue_pass held_wq now)) ∧
  (∀ p d now, p ∈ [1%positive] → is_Some (finish_item held_wq p d now)).
Proof.
  apply (pool_never_panics (W := mem) 2 DefaultMaxRetries DefaultInitialRetryDelay
    DefaultMaxRetryDelay DefaultMaxRetryCycles pool0 pool2 pool0_init pool0_config).
  apply pool2_reachable.
Defined.

Lemma pending_store h p v :
  pending h !! p = Some v → ∃ w, pq_store h !! p = Some w ∧ v = set_index 0 w.
Proof. rewrite pending_lookup. case_decide; [|done]. by intros (w & ? & ->)%fmap_Some; eauto. Qed.
