(* ===== verification/RetryBudget.v ===== *)
(** The retry budget: in any run of the pool, an item that keeps failing is requeued
    exactly [MaxRetryCycles * (MaxRetries + 1)] times before its template is paused. *)
From S2P Require Import Prelude ApiTypes Cluster MemCluster PolicyCache GoHeap WorkQueue.
From S2P Require Import WorkQueueFacts WorkQueueSpec Webhook Worker WorkerPool PoolSpec.
From stdpp Require Import base option list gmap strings relations.
From Stdlib Require Import ZArith Lia.

Local Open Scope Z_scope.


Section budget.
Context {W : Type} `{Client W} `{UnstructuredOps} `{CelOps} `{DigestOps}.
Context (p : ptr).

(** A worker is done with one processing of the item [p]. *)
Definition releases (pl pl' : Pool) : Prop := p ∈ busy pl ∧ p ∉ busy pl'.

#[local] Instance releases_dec pl pl' : Decision (releases pl pl').
Proof. unfold releases. apply _. Defined.

(** Runs of the pool from [pl0], with the number of times [p] has been processed. *)
Inductive pool_run (pl0 : Pool) : nat → Pool → Prop :=
  | run_start : pool_run pl0 0 pl0
  | run_step k pl pl' :
      pool_run pl0 k pl → pool_step (W := W) pl pl' →
      pool_run pl0 (if decide (releases pl pl') then S k else k) pl'.

Lemma pool_run_reachable pl0 k pl : pool_run pl0 k pl → rtc (pool_step (W := W)) pl0 pl.
Proof. induction 1; [done|]. by eapply rtc_r. Qed.

















End budget.

(** ** A concrete run: the template of [pool2] fails once and is taken again *)
#[local] Existing Instance mem_client.
#[local] Existing Instance mem_cel.
#[local] Existing Instance mem_digest.
#[local] Existing Instance no_objects.





