(* ===== verification/Wakeup.v ===== *)
(** The condition variable of the work queue: which worker sleeps in [cond.Wait], which
    timers are armed, and who is woken by [Signal] and [Broadcast].

    The transition system refines that of [WorkerPool]: there an idle worker may take an
    item at any time, here it has to be awake.  A worker that finds the first item not
    due arms a timer and then waits; the two are separate steps, because the function of
    [time.AfterFunc] runs in a goroutine of its own and signals without the lock, so that
    its signal may be lost. *)
From S2P Require Import Prelude ApiTypes Cluster PolicyCache GoHeap WorkQueue WorkQueueFacts.
From S2P Require Import Webhook Worker WorkerPool.
From stdpp Require Import base option list gmap strings relations.
From Stdlib Require Import ZArith Lia.

Local Open Scope Z_scope.

(** [timer] is the deadline of the timer that the worker has armed and that has not
    fired yet. *)
Inductive Worker :=
  | Running (timer : option Z)   (* starts a pass of [Dequeue], or was woken and needs the lock *)
  | Busy (p : ptr)               (* in [processItem] *)
  | Parking (timer : option Z)   (* holds the lock between [AfterFunc] and [Wait] *)
  | Waiting (timer : option Z)   (* in [cond.Wait] *)
  | Exited.                      (* [Dequeue] returned false, or the context is done *)

#[export] Instance Worker_eq_dec : EqDecision Worker.
Proof. solve_decision. Defined.

Definition timer_of (w : Worker) : option Z :=
  match w with Running t | Parking t | Waiting t => t | Busy _ | Exited => None end.

(** The timer has fired. *)
Definition disarm (w : Worker) : Worker :=
  match w with
  | Running _ => Running None
  | Parking _ => Parking None
  | Waiting _ => Waiting None
  | w => w
  end.

(** A woken worker stops its timer only when it has the lock again. *)
Definition wake_up (w : Worker) : Worker := match w with Waiting t => Running t | w => w end.

Definition is_waiting (w : Worker) : Prop := ∃ t, w = Waiting t.
Definition is_parking (w : Worker) : Prop := ∃ t, w = Parking t.

#[export] Instance is_waiting_dec w : Decision (is_waiting w).
Proof. destruct w; try (right; by intros [? ?]); left; by eexists. Defined.

#[export] Instance is_parking_dec w : Decision (is_parking w).
Proof. destruct w; try (right; by intros [? ?]); left; by eexists. Defined.

(** [cond.Signal] wakes one waiting worker, any of them, if there is one;
    [cond.Broadcast] wakes all. *)
Inductive woken : Wake → list Worker → list Worker → Prop :=
  | woken_none ws : woken NoWake ws ws
  | woken_one ws i t : ws !! i = Some (Waiting t) → woken Signal ws (<[i := Running t]> ws)
  | woken_nobody ws : Forall (λ w, ¬ is_waiting w) ws → woken Signal ws ws
  | woken_all ws : woken Broadcast ws (wake_up <$> ws).

Lemma woken_exists wake ws : ∃ ws', woken wake ws ws'.
Proof.
  destruct wake; [by eexists; constructor| |by eexists; constructor].
  destruct (decide (Exists is_waiting ws)) as [Hw|Hn].
  - apply Exists_exists in Hw as (w & (i & Hi)%list_elem_of_lookup & t & ->).
    eexists. by eapply woken_one.
  - exists ws. apply woken_nobody. by apply not_Exists_Forall; [apply _|].
Qed.

(** [cp_fired] counts the timer goroutines that have started and not yet signalled. *)
Record CPool := {
  cp_wq : WorkQueue;
  cp_workers : list Worker;
  cp_fired : nat;
  cp_clock : Z
}.

(** Nobody holds the lock. *)
Definition unlocked (cp : CPool) : Prop := Forall (λ w, ¬ is_parking w) (cp_workers cp).

(** Where a pass of [Dequeue] leaves a worker; its previous timer is stopped. *)
Definition after_pass (now : Z) (o : DequeueOutcome) : Worker :=
  match o with
  | Stopped => Exited
  | Dequeued p => Busy p
  | WaitTimer d => Parking (Some (now + d))
  | WaitSignal => Waiting None
  end.

Section wakeup.
Context {W : Type} `{Client W} `{UnstructuredOps} `{CelOps} `{DigestOps}.

(** The steps of the workers and timers.  [ctx] is the time at which the context of the
    workers is cancelled, [None] for [context.Background()]; a worker looks at it at the
    top of its loop (and here whenever it has no timer, which allows more).  The function
    of a timer signals without the lock, at any time after it has fired. *)
Inductive quiet_step (ctx : option Z) : CPool → CPool → Prop :=
  | q_pass cp i t now wq' o :
      cp_workers cp !! i = Some (Running t) → unlocked cp → cp_clock cp ≤ now →
      Dequeue_pass (cp_wq cp) now = Some (wq', o) →
      quiet_step ctx cp {| cp_wq := wq'; cp_workers := <[i := after_pass now o]> (cp_workers cp);
                            cp_fired := cp_fired cp; cp_clock := now |}
  | q_park cp i t :
      cp_workers cp !! i = Some (Parking t) →
      quiet_step ctx cp {| cp_wq := cp_wq cp; cp_workers := <[i := Waiting t]> (cp_workers cp);
                            cp_fired := cp_fired cp; cp_clock := cp_clock cp |}
  | q_expire cp i w d now :
      cp_workers cp !! i = Some w → timer_of w = Some d → d ≤ now → cp_clock cp ≤ now →
      quiet_step ctx cp {| cp_wq := cp_wq cp; cp_workers := <[i := disarm w]> (cp_workers cp);
                            cp_fired := S (cp_fired cp); cp_clock := now |}
  | q_signal cp k ws :
      cp_fired cp = S k → woken Signal (cp_workers cp) ws →
      quiet_step ctx cp {| cp_wq := cp_wq cp; cp_workers := ws; cp_fired := k;
                            cp_clock := cp_clock cp |}
  | q_leave cp i d now :
      cp_workers cp !! i = Some (Running None) → ctx = Some d → d ≤ now → cp_clock cp ≤ now →
      quiet_step ctx cp {| cp_wq := cp_wq cp; cp_workers := <[i := Exited]> (cp_workers cp);
                           cp_fired := cp_fired cp; cp_clock := now |}
  | q_finish cp i p item tp cache (s : St W) d cache' s' now wq' wake ws :
      cp_workers cp !! i = Some (Busy p) → unlocked cp → cp_clock cp ≤ now →
      wq_store (cp_wq cp) !! p = Some item →
      handle_item tp (wq_MaxRetryCycles (cp_wq cp)) cache item s = ((d, cache'), s') →
      finish_item (cp_wq cp) p d now = Some (wq', wake) →
      woken wake (cp_workers cp) ws →
      quiet_step ctx cp {| cp_wq := wq'; cp_workers := <[i := Running None]> ws;
                            cp_fired := cp_fired cp; cp_clock := now |}.

(** With the reconcilers, which enqueue with priority 0, and the shutdown. *)
Inductive cp_step (ctx : option Z) : CPool → CPool → Prop :=
  | c_quiet cp cp' : quiet_step ctx cp cp' → cp_step ctx cp cp'
  | c_enqueue cp nn t1 t2 wq' wake ws :
      unlocked cp → cp_clock cp ≤ t1 → t1 ≤ t2 →
      EnqueueKubeTemplate (cp_wq cp) nn t1 t2 = Some (wq', wake) →
      woken wake (cp_workers cp) ws →
      cp_step ctx cp {| cp_wq := wq'; cp_workers := ws; cp_fired := cp_fired cp; cp_clock := t2 |}
  | c_shutdown cp ws :
      unlocked cp → woken (Shutdown (cp_wq cp)).2 (cp_workers cp) ws →
      cp_step ctx cp {| cp_wq := (Shutdown (cp_wq cp)).1; cp_workers := ws;
                         cp_fired := cp_fired cp; cp_clock := cp_clock cp |}.

(** The step is a signal that nobody hears, sent while a worker is between arming its
    timer and waiting.  Only a signal of a timer reduces [cp_fired]. *)
Definition signal_lost (cp cp' : CPool) : Prop :=
  cp_fired cp = S (cp_fired cp') ∧ Exists is_parking (cp_workers cp) ∧
  Forall (λ w, ¬ is_waiting w) (cp_workers cp).

(** The steps without such a loss. *)
Definition heard_step (ctx : option Z) (cp cp' : CPool) : Prop :=
  cp_step ctx cp cp' ∧ ¬ signal_lost cp cp'.

(** [main]: a fresh queue and [n] workers that start. *)
Definition cp_init (n : nat) (maxRetries initialDelay maxDelay maxCycles : Z) (cp : CPool) : Prop :=
  NewWorkQueueWithConfig maxRetries initialDelay maxDelay maxCycles = Some (cp_wq cp) ∧
  cp_workers cp = replicate n (Running None) ∧ cp_fired cp = 0%nat.

(** ** The pool without the condition variable *)
Definition held (w : Worker) : option ptr := match w with Busy p => Some p | _ => None end.

Definition forget (cp : CPool) : Pool :=
  {| pl_wq := cp_wq cp; pl_workers := held <$> cp_workers cp |}.

Lemma held_wake_up w : held (wake_up w) = held w.
Proof. by destruct w. Qed.

Lemma woken_held wake ws ws' : woken wake ws ws' → held <$> ws' = held <$> ws.
Proof.
  destruct 1 as [|ws i t Hi| |ws]; [done| |done|].
  - rewrite list_fmap_insert. apply list_insert_id. by rewrite list_lookup_fmap, Hi.
  - rewrite <- list_fmap_compose. apply list_fmap_ext. intros. apply held_wake_up.
Qed.

Lemma woken_length wake ws ws' : woken wake ws ws' → length ws' = length ws.
Proof. by destruct 1; rewrite ?length_insert, ?length_fmap. Qed.

Lemma forget_insert cp i w w' :
  cp_workers cp !! i = Some w → held w' = held w →
  held <$> <[i := w']> (cp_workers cp) = held <$> cp_workers cp.
Proof.
  intros Hi Hw. rewrite list_fmap_insert. apply list_insert_id.
  rewrite list_lookup_fmap, Hi. simpl. by rewrite Hw.
Qed.

(** A pass that does not return an item leaves the queue as it is. *)
Lemma Dequeue_pass_stay wq now wq' o :
  Dequeue_pass wq now = Some (wq', o) → (∀ p, o ≠ Dequeued p) → wq' = wq.
Proof.
  unfold Dequeue_pass. intros Hd Ho. repeat (case_match || simplify_option_eq); try done.
  by destruct (Ho p).
Qed.

(** Every step is a step of the pool or does not concern it. *)
Lemma quiet_step_forget ctx cp cp' :
  quiet_step ctx cp cp' → rtc (pool_step (W := W)) (forget cp) (forget cp').
Proof.
  destruct 1 as [cp i t now wq' o Hi _ _ Hd|cp i t Hi|cp i w d now Hi Ht _ _|cp k ws _ Hw|cp i d now Hi _ _ _
    |cp i p item tp cache s d cache' s' now wq' wake ws Hi _ _ Hitem Hh Hf Hw].
  - pose proof (Dequeue_pass_stay _ _ _ _ Hd) as Hstay. unfold forget at 2. simpl.
    destruct o as [|p|d|].
    2:{ apply rtc_once. rewrite list_fmap_insert. simpl.
        eapply (step_dequeue (forget cp)); [|done]. simpl. by rewrite list_lookup_fmap, Hi. }
    all: rewrite Hstay by done; by erewrite forget_insert.
  - unfold forget at 2. simpl. by erewrite forget_insert.
  - unfold forget at 2. simpl. erewrite forget_insert; [done|done|]. by destruct w.
  - unfold forget at 2. simpl. by rewrite (woken_held _ _ _ Hw).
  - unfold forget at 2. simpl. by erewrite forget_insert.
  - apply rtc_once. unfold forget at 2. simpl. rewrite list_fmap_insert, (woken_held _ _ _ Hw).
    eapply (step_finish (forget cp)); try done. simpl. by rewrite list_lookup_fmap, Hi.
Qed.

Lemma cp_step_forget ctx cp cp' :
  cp_step ctx cp cp' → rtc (pool_step (W := W)) (forget cp) (forget cp').
Proof.
  destruct 1 as [cp cp' Hq|cp nn t1 t2 wq' wake ws _ _ _ He Hw|cp ws _ Hw].
  - by eapply quiet_step_forget.
  - apply rtc_once. unfold forget at 2. simpl. rewrite (woken_held _ _ _ Hw).
    by eapply (step_enqueue (forget cp)).
  - apply rtc_once. unfold forget at 2. simpl. rewrite (woken_held _ _ _ Hw).
    by apply (step_shutdown (forget cp)).
Qed.

Lemma cp_reachable_forget ctx cp cp' :
  rtc (cp_step ctx) cp cp' → rtc (pool_step (W := W)) (forget cp) (forget cp').
Proof. induction 1 as [|a b c Hs _ IH]; [done|]. etrans; [by eapply cp_step_forget|done]. Qed.

Lemma cp_init_inv n a b c d cp :
  cp_init n a b c d cp → config_ok (cp_wq cp) → pool_inv (forget cp).
Proof.
  intros (Hq & Hws & _) Hc. apply (pool_init_inv n a b c d); [|done]. split; [done|].
  unfold forget. simpl. rewrite Hws. by rewrite fmap_replicate.
Qed.

Lemma cp_reachable_inv ctx cp cp' :
  pool_inv (forget cp) → rtc (cp_step ctx) cp cp' → pool_inv (forget cp').
Proof. intros Hinv Hr. eapply pool_reachable_inv; [done|by eapply cp_reachable_forget]. Qed.
End wakeup.
