(* ===== verification/WakeupFacts.v ===== *)
(** The invariant of the pool with its condition variable, and that somebody is awake, or
    will be by the time a pending item is due, as long as no signal of a timer is lost. *)
From S2P Require Import Prelude ApiTypes Cluster MemCluster PolicyCache GoHeap WorkQueue.
From S2P Require Import WorkQueueFacts WorkQueueSpec Webhook Worker WorkerPool PoolSpec Wakeup.
From stdpp Require Import base option list gmap strings relations.
From Stdlib Require Import ZArith Lia.

Local Open Scope Z_scope.

(** ** The items of the pool

    They all have priority 0, and none is due later than a duration from now. *)
Definition item_sane (clock : Z) (w : WorkItem) : Prop :=
  wi_Priority w = 0 ∧ wi_ScheduledAt w ≤ clock + int64_max.

Definition store_ok (clock : Z) (st : gmap ptr WorkItem) : Prop := map_Forall (λ _, item_sane clock) st.

Lemma store_ok_later clock clock' st : clock ≤ clock' → store_ok clock st → store_ok clock' st.
Proof. intros Hc Hs. eapply map_Forall_impl; [exact Hs|]. intros _ w []. split; [done|lia]. Qed.

Lemma frame_ok clock h h' : pq_frame h h' → store_ok clock (pq_store h) → store_ok clock (pq_store h').
Proof.
  intros Hf Hs p w Hw. specialize (Hf p). rewrite Hw in Hf.
  destruct (pq_store h !! p) as [v|] eqn:Hv; [|done]. injection Hf as Hn Hp Hc Hy He Hsch.
  specialize (Hs p v Hv). unfold item_sane in *. by rewrite <- Hp, <- Hsch.
Qed.

Lemma push_ok clock wq p w h :
  wq_wf wq → p ∉ wq_slice wq → store_ok clock (wq_store wq) → item_sane clock w →
  heap_Push (PQ (<[p := w]> (wq_store wq)) (wq_slice wq)) p = Some h → store_ok clock (pq_store h).
Proof.
  intros Hwf Hp Hs Hw Hh. destruct (push_wf wq p w Hwf Hp) as (h' & Hh' & _ & _ & Hf & _).
  rewrite Hh in Hh'. injection Hh' as <-. apply (frame_ok _ _ _ Hf). simpl. by apply map_Forall_insert_2.
Qed.

Lemma pending_ok clock wq p w :
  store_ok clock (wq_store wq) → aq_pending (abs wq) !! p = Some w → item_sane clock w.
Proof. intros Hs Hp. destruct (pending_store _ _ _ Hp) as (v & Hv & ->). exact (Hs p v Hv). Qed.

(** The outcomes of an enqueue with priority 0: nothing, or a new item and a signal. *)
Lemma Enqueue0_cases clock wq nn t1 t2 wq' wake :
  wq_wf wq → store_ok clock (wq_store wq) → clock ≤ t2 →
  EnqueueKubeTemplate wq nn t1 t2 = Some (wq', wake) →
  (wake = NoWake ∧ wq' = wq) ∨
  (wake = Signal ∧ store_ok t2 (wq_store wq') ∧ wq_shutdown wq' = wq_shutdown wq).
Proof.
  intros Hwf Hs Ht He. unfold EnqueueKubeTemplate, Enqueue in He.
  destruct (wq_itemsMap wq !! nn) as [p|] eqn:Hnn.
  - destruct (wf_map _ Hwf nn p Hnn) as [Hin _].
    destruct (wf_pending wq p Hwf Hin) as (w & Hw & _). rewrite Hw in He. simpl in He.
    destruct (Hs p w Hw) as [Hpr _]. rewrite Hpr in He. simpl in He. injection He as <- <-. by left.
  - right. apply bind_Some in He as (h & Hh & [= <- <-]). split_and!; [done| |done].
    eapply push_ok in Hh; [exact Hh|done| |by eapply store_ok_later|].
    + intros Hin. destruct (wf_pending _ _ Hwf Hin) as (w & Hw%elem_of_dom_2 & _). by apply is_fresh in Hw.
    + split; [done|]. simpl. unfold int64_max. lia.
Qed.

Lemma Dequeue_ok clock wq now wq' o :
  wq_wf wq → store_ok clock (wq_store wq) → Dequeue_pass wq now = Some (wq', o) →
  store_ok clock (wq_store wq') ∧ wq_shutdown wq' = wq_shutdown wq.
Proof.
  intros Hwf Hs Hd. unfold Dequeue_pass in Hd.
  destruct (wq_shutdown wq) eqn:Hsd; [by injection Hd as <- <-|].
  destruct (wq_slice wq) as [|p rest] eqn:Hsl; [by injection Hd as <- <-|].
  destruct (wf_pending wq p Hwf) as (w & Hw & _); [rewrite Hsl; set_solver|].
  rewrite Hw in Hd. simpl in Hd. destruct (now <? wi_ScheduledAt w); [by injection Hd as <- <-|].
  destruct (pop_wf wq p rest w Hwf Hsl Hw) as (h & Hpop & _ & _ & Hf & _).
  rewrite Hpop in Hd. simplify_eq/=. split; [|done]. by apply (frame_ok _ _ _ Hf).
Qed.

Lemma backoff_le initial maxDelay rc : backoff initial maxDelay rc ≤ int64_max.
Proof.
  unfold backoff. cbv zeta. set (x := wrap64 (initial * _)).
  pose proof (wrap64_range _ : in_int64 x) as [_ Hr].
  destruct (maxDelay <? x) eqn:Hlt; [apply Z.ltb_lt in Hlt; lia|done].
Qed.

Lemma finish_ok clock wq p d now wq' wake :
  wq_wf wq → p ∉ wq_slice wq → store_ok clock (wq_store wq) → clock ≤ now →
  wq_MaxRetryDelay wq ≤ int64_max → finish_item wq p d now = Some (wq', wake) →
  store_ok now (wq_store wq') ∧ wq_shutdown wq' = wq_shutdown wq.
Proof.
  intros Hwf Hp Hs Hnow Hmax Hf. apply (store_ok_later _ _ _ Hnow) in Hs.
  destruct d as [|e]; simpl in Hf; [by injection Hf as <- <-|].
  unfold Requeue in Hf. apply bind_Some in Hf as (item & Hitem & Hf). destruct (Hs p item Hitem) as [Hpr Hsch].
  repeat case_match; [injection Hf as <- <-; split; [|done]; by apply map_Forall_insert_2|..];
    apply bind_Some in Hf as (h & Hh & [= <- <-]); (split; [|done]); eapply push_ok in Hh; try done;
    (split; [done|]); simpl; [lia|].
  match goal with |- context [backoff ?a ?b ?c] => pose proof (backoff_le a b c) end. lia.
Qed.

(** ** Somebody is awake, or will be *)
Definition awake (w : Worker) : Prop :=
  match w with Running _ | Busy _ => True | _ => False end.

(** A timer goroutine is about to signal, a worker is awake, or a timer fires by [t]. *)
Definition covers (cp : CPool) (t : Z) : Prop :=
  (0 < cp_fired cp)%nat ∨
  ∃ i w, cp_workers cp !! i = Some w ∧ (awake w ∨ ∃ d, timer_of w = Some d ∧ d ≤ t).

Record cp_inv (cp : CPool) : Prop := {
  ci_pool : pool_inv (forget cp);
  ci_store : store_ok (cp_clock cp) (wq_store (cp_wq cp));
  ci_delay : wq_MaxRetryDelay (cp_wq cp) ≤ int64_max;
  ci_some : cp_workers cp ≠ [];
  ci_exited : wq_shutdown (cp_wq cp) = false → Exited ∉ cp_workers cp
}.

(** Nobody sleeps through a pending item. *)
Definition covered (cp : CPool) : Prop :=
  ∀ p w, wq_shutdown (cp_wq cp) = false →
    aq_pending (abs (cp_wq cp)) !! p = Some w → covers cp (wi_ScheduledAt w).

Section wakeup.
Context {W : Type} `{Client W} `{UnstructuredOps} `{CelOps} `{DigestOps}.

Lemma covers_awake cp i w t : cp_workers cp !! i = Some w → awake w → covers cp t.
Proof. intros. right. eauto. Qed.

(** After a signal to an unlocked pool somebody is awake. *)
Lemma woken_awake ws ws' :
  woken Signal ws ws' → ws ≠ [] → Forall (λ w, ¬ is_parking w) ws → Exited ∉ ws →
  ∃ i w, ws' !! i = Some w ∧ awake w.
Proof.
  intros Hw Hne Hun Hex. inversion Hw as [|? i t Hi|? Hnw|]; subst.
  - exists i, (Running t). split; [|done]. apply list_lookup_insert_eq. by eapply lookup_lt_Some.
  - destruct ws' as [|w ws]; [done|]. exists 0%nat, w. split; [done|].
    apply Forall_cons in Hun as [Hp _]. apply Forall_cons in Hnw as [Hn _].
    destruct w; try done; [destruct Hp; by eexists|destruct Hn; by eexists|set_solver].
Qed.

Lemma woken_exited wake ws ws' : woken wake ws ws' → Exited ∉ ws → Exited ∉ ws'.
Proof.
  intros Hw Hex. destruct Hw as [|ws i t Hi| |ws]; [done| |done|].
  - intros (j & Hj)%list_elem_of_lookup.
    apply list_lookup_insert_Some in Hj as [(_ & ? & _)|[_ Hj]]; [done|].
    by apply Hex, list_elem_of_lookup_2 with j.
  - intros ([] & ? & ?)%list_elem_of_fmap; done.
Qed.

Lemma insert_exited (ws : list Worker) i w : Exited ∉ ws → w ≠ Exited → Exited ∉ <[i := w]> ws.
Proof.
  intros Hex Hw (j & Hj)%list_elem_of_lookup.
  apply list_lookup_insert_Some in Hj as [(_ & ? & _)|[_ Hj]]; [done|].
  by apply Hex, list_elem_of_lookup_2 with j.
Qed.

Lemma insert_some (ws : list Worker) i w : ws ≠ [] → <[i := w]> ws ≠ [].
Proof. intros Hne Hnil%(f_equal length). rewrite length_insert in Hnil. by destruct ws. Qed.

Lemma woken_some wake ws ws' : woken wake ws ws' → ws ≠ [] → ws' ≠ [].
Proof. intros Hw%woken_length Hne ->. by destruct ws. Qed.

(** With one priority, the first item is due first. *)
Lemma first_pending_earliest clock wq p w q v :
  store_ok clock (wq_store wq) → first_pending (abs wq) p w → aq_pending (abs wq) !! q = Some v →
  wi_ScheduledAt w ≤ wi_ScheduledAt v.
Proof.
  intros Hs [Hp Hfirst] Hq. specialize (Hfirst q v Hq). unfold item_less in Hfirst.
  destruct (pending_ok _ _ _ _ Hs Hp) as [Hpr _], (pending_ok _ _ _ _ Hs Hq) as [Hpr' _].
  rewrite Hpr, Hpr' in Hfirst. simpl in Hfirst. by apply Z.ltb_ge in Hfirst.
Qed.

Lemma busy_worker cp i p : cp_workers cp !! i = Some (Busy p) → p ∈ busy (forget cp).
Proof.
  intros Hi. unfold busy, forget. simpl. apply list_elem_of_omap. exists (Some p). split; [|done].
  apply list_elem_of_fmap. exists (Busy p). split; [done|]. by eapply list_elem_of_lookup_2.
Qed.

Lemma busy_not_pending cp i p :
  cp_inv cp → cp_workers cp !! i = Some (Busy p) → p ∉ wq_slice (cp_wq cp).
Proof.
  intros Hinv Hi. by destruct (pi_busy _ (ci_pool _ Hinv) p (busy_worker _ _ _ Hi)) as (v & [? _] & _).
Qed.

(** ** The invariant is kept *)
Lemma quiet_step_inv cp cp' : cp_inv cp → quiet_step (W := W) None cp cp' → cp_inv cp'.
Proof.
  intros Hinv Hstep.
  assert (Hpool : pool_inv (forget cp')).
  { eapply pool_reachable_inv; [apply (ci_pool _ Hinv)|by eapply quiet_step_forget]. }
  pose proof (pi_wf _ (ci_pool _ Hinv)) as Hwf. simpl in Hwf. pose proof (ci_store _ Hinv) as Hst.
  destruct Hstep as [cp i t now wq' o Hi _ Hnow Hd|cp i t Hi|cp i w d now Hi Ht _ Hnow
    |cp k ws Hk Hw|cp i d now _ ? _ _|cp i p item tp cache s d cache' s' now wq' wake ws Hi Hun Hnow Hitem Hh Hf Hw].
  - destruct (Dequeue_ok _ _ _ _ _ Hwf Hst Hd) as [Hok Hsd].
    destruct (Dequeue_metrics _ _ _ _ Hd) as [(_ & _ & Hmax & _) _].
    destruct (Dequeue_refines_spec _ now Hwf) as (wq1 & o1 & Hd1 & _ & Hspec).
    rewrite Hd in Hd1. injection Hd1 as <- <-.
    split; simpl; rewrite ?Hmax, ?Hsd; [done|by eapply store_ok_later|apply (ci_delay _ Hinv)
      |by apply insert_some, ci_some|].
    intros Hopen. apply insert_exited; [by apply ci_exited|].
    destruct o; try done. inversion Hspec. simpl in *. congruence.
  - destruct Hinv. split; simpl; [done..|by apply insert_some|]. intros. apply insert_exited; by auto.
  - destruct Hinv. split; simpl; [done|by eapply store_ok_later|done|by apply insert_some|].
    intros. apply insert_exited; [by auto|by destruct w].
  - destruct Hinv. split; simpl; [done..|by eapply woken_some|]. intros. eapply woken_exited; by eauto.
  - done.
  - pose proof (busy_not_pending _ _ _ Hinv Hi) as Hp.
    destruct (finish_ok _ _ _ _ _ _ _ Hwf Hp Hst Hnow (ci_delay _ Hinv) Hf) as [Hok Hsd].
    assert (Hmax : wq_MaxRetryDelay wq' = wq_MaxRetryDelay (cp_wq cp)).
    { destruct d; simpl in Hf; [by injection Hf as <- <-|]. by apply Requeue_metrics in Hf as [(_ & _ & ? & _) _]. }
    split; simpl; rewrite ?Hmax, ?Hsd; [done|done|apply (ci_delay _ Hinv)
      |by apply insert_some; eapply woken_some, ci_some|].
    intros Hopen. apply insert_exited; [|done]. eapply woken_exited; [done|by apply ci_exited].
Qed.

Lemma cp_step_inv cp cp' : cp_inv cp → cp_step (W := W) None cp cp' → cp_inv cp'.
Proof.
  intros Hinv Hstep.
  assert (Hpool : pool_inv (forget cp')).
  { eapply pool_reachable_inv; [apply (ci_pool _ Hinv)|by eapply cp_step_forget]. }
  pose proof (pi_wf _ (ci_pool _ Hinv)) as Hwf. simpl in Hwf.
  destruct Hstep as [cp cp' Hq|cp nn t1 t2 wq' wake ws Hun Ht1 Ht2 He Hw|cp ws _ Hw].
  - by eapply quiet_step_inv.
  - destruct (Enqueue_metrics _ _ _ _ _ _ _ He) as [(_ & _ & Hmax & _) _].
    assert (Hlater : cp_clock cp ≤ t2) by lia.
    destruct (Enqueue0_cases _ _ _ _ _ _ _ Hwf (ci_store _ Hinv) Hlater He) as [[-> ->]|(-> & Hok & Hsd)].
    { inversion Hw; subst. destruct Hinv. split; try done. by eapply store_ok_later. }
    split; simpl; rewrite ?Hmax, ?Hsd; [done|done|apply (ci_delay _ Hinv)|by eapply woken_some, ci_some|].
    intros Hopen. eapply woken_exited; [done|by apply ci_exited].
  - destruct Hinv. split; simpl; [done..|by eapply woken_some|done].
Qed.

Lemma cp_init_cinv n a b c d cp :
  (0 < n)%nat → c ≤ int64_max → cp_init n a b c d cp → config_ok (cp_wq cp) → cp_inv cp ∧ covered cp.
Proof.
  intros Hn Hdelay Hi Hc. pose proof (cp_init_inv _ _ _ _ _ _ Hi Hc) as Hpool.
  destruct Hi as (Hq & Hws & Hf). destruct (NewWorkQueueWithConfig_wf a b c d) as (wq & Hn' & _ & Habs).
  rewrite Hq in Hn'. injection Hn' as <-. split.
  - unfold NewWorkQueueWithConfig in Hq. rewrite heap_Init_empty in Hq by done. injection Hq as Hq.
    split; rewrite <- ?Hq; [done|apply map_Forall_empty|done| |].
    + rewrite Hws. destruct n; [lia|done].
    + rewrite Hws. intros _ (? & _)%elem_of_replicate. done.
  - intros p w _. rewrite Habs. simpl. by intros ?%lookup_empty_Some.
Qed.

Lemma cp_reachable_cinv cp cp' : cp_inv cp → rtc (cp_step (W := W) None) cp cp' → cp_inv cp'.
Proof. intros Hinv. induction 1; eauto using cp_step_inv. Qed.

(** ** Steps without a lost signal keep everything covered *)
Lemma q_pass_covered cp i t now wq' o :
  cp_inv cp → cp_workers cp !! i = Some (Running t) → cp_clock cp ≤ now →
  Dequeue_pass (cp_wq cp) now = Some (wq', o) →
  covered {| cp_wq := wq'; cp_workers := <[i := after_pass now o]> (cp_workers cp);
             cp_fired := cp_fired cp; cp_clock := now |}.
Proof.
  intros Hinv Hi Hnow Hd p w. simpl. pose proof (pi_wf _ (ci_pool _ Hinv)) as Hwf. simpl in Hwf.
  destruct (Dequeue_ok _ _ _ _ _ Hwf (ci_store _ Hinv) Hd) as [_ Hsd]. rewrite Hsd. intros Hopen Hp.
  assert (Hi' : <[i := after_pass now o]> (cp_workers cp) !! i = Some (after_pass now o))
    by (apply list_lookup_insert_eq; by eapply lookup_lt_Some).
  destruct (Dequeue_refines_spec _ now Hwf) as (wq1 & o1 & Hd1 & _ & Hspec).
  rewrite Hd in Hd1. injection Hd1 as <- <-. destruct o as [|q|d|].
  - inversion Hspec. simpl in *. congruence.
  - by eapply covers_awake.
  - pose proof (Dequeue_pass_stay _ _ _ _ Hd) as Hstay. rewrite Hstay in Hp by done.
    inversion Hspec as [| |q v _ Hfirst Hlt Hdd|]; subst.
    right. eexists i, _. split; [exact Hi'|]. right. eexists. split; [done|].
    pose proof (first_pending_earliest _ _ _ _ _ _ (ci_store _ Hinv) Hfirst Hp). lia.
  - pose proof (Dequeue_pass_stay _ _ _ _ Hd) as Hstay. rewrite Hstay in Hp by done.
    inversion Hspec as [|_ He| |]; subst. simpl in He. rewrite He in Hp. by apply lookup_empty_Some in Hp.
Qed.

Lemma quiet_step_covered cp cp' :
  cp_inv cp → covered cp → quiet_step (W := W) None cp cp' → ¬ signal_lost cp cp' → covered cp'.
Proof.
  intros Hinv Hcov Hstep Hheard. pose proof (ci_some _ Hinv) as Hsome.
  destruct Hstep as [cp i t now wq' o Hi _ Hnow Hd|cp i t Hi|cp i w d now Hi Ht _ _
    |cp k ws Hk Hw|cp i d now _ ? _ _|cp i p item tp cache s d cache' s' now wq' wake ws Hi Hun _ Hitem Hh Hf Hw].
  - by eapply q_pass_covered.
  - intros p w Hopen Hp. destruct (Hcov p w Hopen Hp) as [?|(j & v & Hj & Hv)]; [by left|].
    right. destruct (decide (i = j)) as [<-|].
    + exists i, (Waiting t). rewrite Hj in Hi. injection Hi as ->.
      split; [apply list_lookup_insert_eq; by eapply lookup_lt_Some|]. by destruct Hv; [|right].
    + exists j, v. split; [|done]. simpl. by rewrite list_lookup_insert_ne.
  - intros p v _ _. left. simpl. lia.
  - intros p w Hopen Hp. simpl in Hopen. inversion Hw as [|? i t Hi|? Hnw|]; subst.
    + eapply (covers_awake _ i (Running t)); [|done]. simpl. apply list_lookup_insert_eq. by eapply lookup_lt_Some.
    + destruct (decide (Exists is_parking (cp_workers cp))) as [Hpk|Hun].
      { destruct Hheard. split_and!; [done..|]. done. }
      apply not_Exists_Forall in Hun; [|apply _].
      destruct (woken_awake _ _ Hw Hsome Hun (ci_exited _ Hinv Hopen)) as (j & v & Hj & Hv).
      by eapply covers_awake.
  - done.
  - intros q w _ _. eapply (covers_awake _ i (Running None)); [|done]. simpl. apply list_lookup_insert_eq.
    rewrite (woken_length _ _ _ Hw). by eapply lookup_lt_Some.
Qed.

Lemma heard_step_covered cp cp' :
  cp_inv cp → covered cp → heard_step (W := W) None cp cp' → covered cp'.
Proof.
  intros Hinv Hcov [Hstep Hheard]. pose proof (pi_wf _ (ci_pool _ Hinv)) as Hwf. simpl in Hwf.
  destruct Hstep as [cp cp' Hq|cp nn t1 t2 wq' wake ws Hun Ht1 Ht2 He Hw|cp ws _ Hw].
  - by eapply quiet_step_covered.
  - assert (Hlater : cp_clock cp ≤ t2) by lia.
    destruct (Enqueue0_cases _ _ _ _ _ _ _ Hwf (ci_store _ Hinv) Hlater He) as [[-> ->]|(-> & _ & Hsd)].
    { inversion Hw; subst. exact Hcov. }
    intros p w Hopen Hp. simpl in Hopen. rewrite Hsd in Hopen.
    destruct (woken_awake _ _ Hw (ci_some _ Hinv) Hun (ci_exited _ Hinv Hopen)) as (j & v & Hj & Hv).
    by eapply covers_awake.
  - by intros p w ?.
Qed.

Lemma heard_reachable cp cp' :
  cp_inv cp → covered cp → rtc (heard_step (W := W) None) cp cp' → cp_inv cp' ∧ covered cp'.
Proof.
  intros Hinv Hcov Hr. revert Hinv Hcov. induction Hr as [|a b c Hs _ IH]; intros Hinv Hcov; [done|].
  apply IH; [by eapply cp_step_inv, Hs|by eapply heard_step_covered].
Qed.
End wakeup.
