(* ===== verification/WakeupProgress.v ===== *)
(** A measure that every step of the workers and timers decreases: first the attempts
    that are left for the items, then, while those do not change, what is left to happen
    before all workers sleep. *)
From S2P Require Import Prelude ApiTypes Cluster MemCluster PolicyCache GoHeap WorkQueue.
From S2P Require Import WorkQueueFacts Webhook Worker WorkerPool PoolSpec Wakeup WakeupFacts.
From stdpp Require Import base option list gmap strings relations list_numbers.
From Stdlib Require Import ZArith Lia.

Local Open Scope Z_scope.

(** ** Sums *)
Lemma sum_list_with_ext {A} (f g : A → nat) l :
  (∀ x, x ∈ l → f x = g x) → sum_list_with f l = sum_list_with g l.
Proof.
  induction l as [|x l IH]; intros Hfg; simpl; [done|].
  rewrite (Hfg x), IH by set_solver. done.
Qed.

Lemma sum_list_with_le {A} (f g : A → nat) l :
  (∀ x, (f x ≤ g x)%nat) → (sum_list_with f l ≤ sum_list_with g l)%nat.
Proof. intros Hfg. induction l as [|x l IH]; simpl; [done|]. specialize (Hfg x). lia. Qed.

Lemma sum_list_with_insert {A} (f : A → nat) l i x y :
  l !! i = Some x → (sum_list_with f (<[i := y]> l) + f x = sum_list_with f l + f y)%nat.
Proof.
  intros Hi. rewrite insert_take_drop by (by eapply lookup_lt_Some).
  rewrite <- (take_drop_middle l i x Hi) at 3. rewrite !sum_list_with_app. simpl. lia.
Qed.

Lemma sum_list_with_cons {A} (f : A → nat) x l :
  sum_list_with f (x :: l) = (f x + sum_list_with f l)%nat.
Proof. done. Qed.

Definition map_sum {A} (f : A → nat) (m : gmap ptr A) : nat :=
  sum_list_with (λ kv, f kv.2) (map_to_list m).

Lemma map_sum_insert {A} (f : A → nat) (m : gmap ptr A) p x :
  m !! p = None → map_sum f (<[p := x]> m) = (f x + map_sum f m)%nat.
Proof. intros Hp. unfold map_sum. by rewrite map_to_list_insert. Qed.

Lemma map_sum_delete {A} (f : A → nat) (m : gmap ptr A) p x :
  m !! p = Some x → map_sum f m = (f x + map_sum f (delete p m))%nat.
Proof.
  intros Hp. rewrite <- (insert_delete_id m p x Hp) at 1.
  apply map_sum_insert, lookup_delete_eq.
Qed.

(** ** Attempts left *)
Definition attempts (wq : WorkQueue) (w : WorkItem) : nat :=
  Z.to_nat ((wq_MaxRetryCycles wq + 1) * (wq_MaxRetries wq + 1)
            - (wi_RetryCycle w * (wq_MaxRetries wq + 1) + wi_RetryCount w)).

Lemma attempts_config wq wq' w : same_config wq wq' → attempts wq' w = attempts wq w.
Proof. intros (E1 & _ & _ & E4). unfold attempts. by rewrite E1, E4. Qed.

(** A failed attempt uses one up. *)
Lemma attempts_next wq now w w' :
  config_ok wq → 0 < wq_MaxRetryCycles wq → item_ok wq w →
  cycles_exhausted (wq_MaxRetryCycles wq) w = false → wq_next_retry wq now w = Some w' →
  (attempts wq w' < attempts wq w)%nat.
Proof.
  intros Hc HC [Hcount Hcycle] Hex Hn. specialize (Hcycle HC).
  unfold cycles_exhausted in Hex. unfold wq_next_retry, next_retry in Hn. rewrite Hex in Hn.
  apply andb_false_iff in Hex as [Hex|Hex]; [apply Z.ltb_ge in Hex; lia|apply Z.leb_gt in Hex].
  unfold attempts. destruct Hc as (HR & HC' & _).
  destruct (Z.leb_spec (wi_RetryCount w + 1) (wq_MaxRetries wq)); injection Hn as <-; simpl.
  - apply Z2Nat.inj_lt; nia.
  - rewrite wrap64_id by (unfold in_int64, int64_min, int64_max in *; lia).
    apply Z2Nat.inj_lt; nia.
Qed.

(** A pending item will be taken and then finished; a busy one only finished. *)
Definition work_left (pl : Pool) : nat :=
  map_sum (λ w, 2 * attempts (pl_wq pl) w + 2)%nat (aq_pending (abs (pl_wq pl))) +
  sum_list_with (λ p, 2 * attempts (pl_wq pl) (wq_store (pl_wq pl) !!! p) + 1)%nat (busy pl).

Lemma holds_attempts wq p w : holds wq p w → attempts wq (wq_store wq !!! p) = attempts wq w.
Proof. intros [_ (v & Hv & ->)%fmap_Some]. by rewrite (lookup_total_correct _ _ _ Hv). Qed.

(** Items that stay in the hands of their workers count the same. *)
Lemma busy_sum_same wq wq' l :
  same_config wq wq' → (∀ p, p ∈ l → ∃ w, holds wq p w ∧ holds wq' p w) →
  sum_list_with (λ p, 2 * attempts wq' (wq_store wq' !!! p) + 1)%nat l =
  sum_list_with (λ p, 2 * attempts wq (wq_store wq !!! p) + 1)%nat l.
Proof.
  intros Hcfg Hl. apply sum_list_with_ext. intros p Hp. destruct (Hl p Hp) as (w & Hw & Hw').
  by rewrite (holds_attempts _ _ _ Hw), (holds_attempts _ _ _ Hw'), (attempts_config _ _ _ Hcfg).
Qed.

Lemma map_sum_config wq wq' m :
  same_config wq wq' →
  map_sum (λ w, 2 * attempts wq' w + 2)%nat m = map_sum (λ w, 2 * attempts wq w + 2)%nat m.
Proof.
  intros Hcfg. apply sum_list_with_ext. intros kv _. by rewrite (attempts_config _ _ _ Hcfg).
Qed.

Lemma work_left_dequeue pl i now wq' p :
  pool_inv pl → pl_workers pl !! i = Some None →
  Dequeue_pass (pl_wq pl) now = Some (wq', Dequeued p) →
  (work_left {| pl_wq := wq'; pl_workers := <[i := Some p]> (pl_workers pl) |} < work_left pl)%nat.
Proof.
  intros Hinv Hi Hd. pose proof (pi_wf _ Hinv) as Hwf.
  destruct (Dequeue_refines_spec (pl_wq pl) now Hwf) as (wq1 & o & Hd' & _ & Hspec).
  rewrite Hd in Hd'. injection Hd' as <- <-.
  destruct (Dequeue_metrics _ _ _ _ Hd) as [Hcfg _].
  destruct (Dequeued_holds _ _ _ _ Hwf Hd) as (w & Hw & Hh).
  assert (Hpend : aq_pending (abs wq') = delete p (aq_pending (abs (pl_wq pl)))).
  { generalize dependent (abs wq'). intros a' Hspec. by inversion Hspec. }
  unfold work_left. cbn [pl_wq]. unfold busy at 1. cbn [pl_workers].
  rewrite (busy_take pl i p Hi), Hpend, sum_list_with_cons.
  rewrite (busy_sum_same (pl_wq pl) wq' (busy pl) Hcfg), (holds_attempts _ _ _ Hh),
    (attempts_config _ _ _ Hcfg), (map_sum_config _ _ _ Hcfg), (map_sum_delete _ _ _ _ Hw); [lia|].
  intros q Hq. destruct (pi_busy _ Hinv q Hq) as (v & Hv & _). exists v.
  split; [done|]. by eapply (Dequeue_holds (pl_wq pl)).
Qed.

Lemma work_left_finish pl i p item d now wq' wake :
  pool_inv pl → 0 < wq_MaxRetryCycles (pl_wq pl) → pl_workers pl !! i = Some (Some p) →
  wq_store (pl_wq pl) !! p = Some item →
  (∀ e, d = DecideRequeue e → cycles_exhausted (wq_MaxRetryCycles (pl_wq pl)) item = false) →
  finish_item (pl_wq pl) p d now = Some (wq', wake) →
  (work_left {| pl_wq := wq'; pl_workers := <[i := None]> (pl_workers pl) |} < work_left pl)%nat.
Proof.
  intros Hinv HC Hi Hitem Hex Hf. pose proof (pi_wf _ Hinv) as Hwf.
  pose proof (busy_release pl i p Hi) as Hbusy. pose proof (pi_nodup _ Hinv) as Hnd.
  rewrite <- Hbusy in Hnd. apply NoDup_cons in Hnd as [Hpn _].
  assert (Hsum := sum_list_with_Permutation_proper
    (λ p, 2 * attempts (pl_wq pl) (wq_store (pl_wq pl) !!! p) + 1)%nat _ _ Hbusy).
  rewrite sum_list_with_cons in Hsum.
  unfold work_left. cbn [pl_wq]. unfold busy at 1. cbn [pl_workers]. rewrite <- Hsum.
  assert (Hothers : ∀ q, q ∈ omap id (<[i := None]> (pl_workers pl)) → ∃ v, holds (pl_wq pl) q v).
  { intros q Hq. destruct (pi_busy _ Hinv q) as (v & Hv & _); [rewrite <- Hbusy; set_solver|by exists v]. }
  destruct d as [|e]; simpl in Hf.
  { injection Hf as <- <-. rewrite (map_sum_config (pl_wq pl)) by done.
    rewrite (busy_sum_same (pl_wq pl)); [|done|intros q Hq; destruct (Hothers q Hq) as [v ?]; by exists v].
    change (aq_pending (abs (Done (pl_wq pl) p))) with (aq_pending (abs (pl_wq pl))). lia. }
  destruct (pi_busy _ Hinv p) as (w & Hh & Hok); [rewrite <- Hbusy; set_solver|].
  rewrite (holds_attempts _ _ _ Hh). destruct (holds_item _ _ _ _ Hh Hitem) as (Hp & j & ->).
  pose proof (pi_config _ Hinv) as Hc. specialize (Hex e eq_refl).
  destruct (Requeue_refines_spec _ p _ now Hwf Hp Hitem (retry_sane_ok _ _ j Hc Hok))
    as (wq1 & wk & Hr & _ & Hm). rewrite Hf in Hr. injection Hr as <- <-.
  destruct (next_retry_ok (pl_wq pl) now (set_index j w) Hc Hok Hex) as (w' & Hn & _ & _).
  rewrite Hn in Hm. destruct Hm as [-> Habs]. destruct (Requeue_metrics _ _ _ _ _ Hf) as [Hcfg _].
  pose proof (attempts_next _ now (set_index j w) w' Hc HC Hok Hex Hn) as Hlt.
  change (attempts (pl_wq pl) (set_index j w)) with (attempts (pl_wq pl) w) in Hlt.
  rewrite Habs. cbn [aq_pending]. rewrite map_sum_insert.
  2:{ cbn [aq_pending abs]. rewrite pending_lookup, decide_False by done. done. }
  rewrite (map_sum_config _ _ _ Hcfg), (attempts_config _ _ _ Hcfg).
  change (attempts (pl_wq pl) (set_index 0 w')) with (attempts (pl_wq pl) w').
  rewrite (busy_sum_same (pl_wq pl) wq' _ Hcfg); [lia|].
  intros q Hq. destruct (Hothers q Hq) as [v Hv].
  exists v. split; [done|]. eapply (Requeue_holds (pl_wq pl) p); [done..| |done]. by intros ->.
Qed.

(** ** Timers and signals to come *)

(** The pending items that are due after [t]. *)
Definition later (m : gmap ptr WorkItem) (t : Z) : nat :=
  size (filter (λ kv : ptr * WorkItem, t < wi_ScheduledAt kv.2) m).

Lemma later_mono m t t' : t ≤ t' → (later m t' ≤ later m t)%nat.
Proof.
  intros Ht. apply map_subseteq_size, map_filter_subseteq_ext. intros p w _ ?. simpl in *. lia.
Qed.

Lemma later_strict m p w t :
  m !! p = Some w → t < wi_ScheduledAt w → (later m (wi_ScheduledAt w) < later m t)%nat.
Proof.
  intros Hp Ht. apply map_subset_size. split.
  - apply map_filter_subseteq_ext. intros q v _ ?. simpl in *. lia.
  - intros Hsub. assert (Hin : filter (λ kv : ptr * WorkItem, t < wi_ScheduledAt kv.2) m !! p = Some w)
      by (by apply map_lookup_filter_Some).
    eapply lookup_weaken in Hin; [|done]. apply map_lookup_filter_Some in Hin as [_ Hlt].
    simpl in Hlt. lia.
Qed.

Definition timer_weight (m : gmap ptr WorkItem) (timer : option Z) : nat :=
  match timer with Some d => 4 * (1 + later m d) | None => 0 end.

(** A timer outweighs the goroutine it starts, which outweighs the worker it wakes,
    which outweighs the timer that worker may arm. *)
Definition worker_weight (m : gmap ptr WorkItem) (clock : Z) (w : Worker) : nat :=
  match w with
  | Running t => timer_weight m t + (4 * later m clock + 2)
  | Parking t => timer_weight m t + 1
  | Waiting t => timer_weight m t
  | Busy _ | Exited => 0
  end.

Definition unrest (cp : CPool) : nat :=
  let m := aq_pending (abs (cp_wq cp)) in
  sum_list_with (worker_weight m (cp_clock cp)) (cp_workers cp) +
  cp_fired cp * (4 * later m (cp_clock cp) + 3).

(** The passing of time alone never adds to it. *)
Lemma worker_weight_clock m c c' w : c ≤ c' → (worker_weight m c' w ≤ worker_weight m c w)%nat.
Proof. intros Hc%(later_mono m). destruct w; simpl; lia. Qed.

Lemma unrest_clock m c c' ws k :
  c ≤ c' →
  (sum_list_with (worker_weight m c') ws + k * (4 * later m c' + 3) ≤
   sum_list_with (worker_weight m c) ws + k * (4 * later m c + 3))%nat.
Proof.
  intros Hc. pose proof (later_mono m _ _ Hc).
  pose proof (sum_list_with_le (worker_weight m c') (worker_weight m c) ws
    (λ w, worker_weight_clock m c c' w Hc)). nia.
Qed.

(** A timer is set for the time the first item is due, since no item is due later than a
    duration from now. *)
Lemma unrest_pass cp i t now o :
  wq_wf (cp_wq cp) → store_ok (cp_clock cp) (wq_store (cp_wq cp)) → cp_workers cp !! i = Some (Running t) → cp_clock cp ≤ now →
  Dequeue_pass (cp_wq cp) now = Some (cp_wq cp, o) → (∀ p, o ≠ Dequeued p) →
  (unrest {| cp_wq := cp_wq cp; cp_workers := <[i := after_pass now o]> (cp_workers cp);
             cp_fired := cp_fired cp; cp_clock := now |} < unrest cp)%nat.
Proof.
  intros Hwf Hst Hi Hnow Hd Ho. unfold unrest. cbn [cp_wq cp_workers cp_fired cp_clock].
  set (m := aq_pending (abs (cp_wq cp))).
  pose proof (sum_list_with_insert (worker_weight m now) _ _ _ (after_pass now o) Hi) as Hsum.
  pose proof (unrest_clock m (cp_clock cp) now (cp_workers cp) (cp_fired cp) Hnow) as Hclock.
  assert (worker_weight m now (after_pass now o) < worker_weight m now (Running t))%nat; [|lia].
  destruct (Dequeue_refines_spec _ now Hwf) as (wq1 & o1 & Hd1 & _ & Hspec).
  rewrite Hd in Hd1. injection Hd1 as <- <-.
  destruct o as [|p|d|]; [simpl; lia|by destruct (Ho p)| |simpl; lia].
  inversion Hspec as [| |q v _ [Hq _] Hlt Hdd|]; subst.
  pose proof (later_strict m q v now Hq Hlt) as Hs.
  destruct (pending_ok _ _ _ _ Hst Hq) as [_ Hmax]. rewrite Z.min_l by lia.
  cbn [after_pass worker_weight timer_weight].
  replace (now + (wi_ScheduledAt v - now)) with (wi_ScheduledAt v) by lia. lia.
Qed.

Lemma unrest_expire cp i w d now :
  cp_workers cp !! i = Some w → timer_of w = Some d → d ≤ now → cp_clock cp ≤ now →
  (unrest {| cp_wq := cp_wq cp; cp_workers := <[i := disarm w]> (cp_workers cp);
             cp_fired := S (cp_fired cp); cp_clock := now |} < unrest cp)%nat.
Proof.
  intros Hi Ht Hd Hnow. unfold unrest. cbn [cp_wq cp_workers cp_fired cp_clock].
  set (m := aq_pending (abs (cp_wq cp))).
  pose proof (sum_list_with_insert (worker_weight m now) _ _ _ (disarm w) Hi) as Hsum.
  pose proof (unrest_clock m (cp_clock cp) now (cp_workers cp) (cp_fired cp) Hnow) as Hclock.
  pose proof (later_mono m d now Hd) as Hl.
  assert (worker_weight m now w = worker_weight m now (disarm w) + 4 * (1 + later m d))%nat; [|lia].
  destruct w; simpl in Ht; try discriminate; subst; simpl; lia.
Qed.

Lemma unrest_signal m c ws ws' k :
  woken Signal ws ws' →
  (sum_list_with (worker_weight m c) ws' + k * (4 * later m c + 3) <
   sum_list_with (worker_weight m c) ws + S k * (4 * later m c + 3))%nat.
Proof.
  intros Hw. inversion Hw as [|? i t Hi| |]; subst; [|lia].
  pose proof (sum_list_with_insert (worker_weight m c) _ _ _ (Running t) Hi) as Hsum.
  simpl worker_weight in Hsum. lia.
Qed.

Section wakeup.
Context {W : Type} `{Client W} `{UnstructuredOps} `{CelOps} `{DigestOps}.

Lemma quiet_step_progress cp cp' :
  cp_inv cp → 0 < wq_MaxRetryCycles (cp_wq cp) → quiet_step (W := W) None cp cp' →
  (work_left (forget cp') < work_left (forget cp))%nat ∨
  (work_left (forget cp') = work_left (forget cp) ∧ unrest cp' < unrest cp)%nat.
Proof.
  intros Hcp HC Hstep. pose proof (ci_pool _ Hcp) as Hinv.
  destruct Hstep as [cp i t now wq' o Hi _ Hnow Hd|cp i t Hi|cp i w d now Hi Ht Hd Hnow|cp k ws Hk Hw|cp i d now _ ? _ _
    |cp i p item tp cache s d cache' s' now wq' wake ws Hi _ _ Hitem Hh Hf Hw].
  - pose proof (Dequeue_pass_stay _ _ _ _ Hd) as Hstay. destruct o as [|p|d|].
    2:{ left. unfold forget at 1. simpl. rewrite list_fmap_insert.
        eapply (work_left_dequeue (forget cp)); [done| |done]. simpl. by rewrite list_lookup_fmap, Hi. }
    all: right; rewrite Hstay in Hd |- * by done; split;
      [unfold forget at 1; simpl; by erewrite forget_insert|
       eapply unrest_pass; [apply (pi_wf _ Hinv)|apply (ci_store _ Hcp)|done..]].
  - right. split; [unfold forget at 1; simpl; by erewrite forget_insert|].
    unfold unrest. cbn [cp_wq cp_workers cp_fired cp_clock]. set (m := aq_pending (abs (cp_wq cp))).
    pose proof (sum_list_with_insert (worker_weight m (cp_clock cp)) _ _ _ (Waiting t) Hi) as Hsum.
    cbn [worker_weight] in Hsum. lia.
  - right. split; [|by eapply unrest_expire].
    unfold forget at 1. simpl. erewrite forget_insert; [done|done|]. by destruct w.
  - right. split; [unfold forget at 1; simpl; by rewrite (woken_held _ _ _ Hw)|].
    unfold unrest at 2. rewrite Hk. by apply unrest_signal.
  - done.
  - left. unfold forget at 1. simpl. rewrite list_fmap_insert, (woken_held _ _ _ Hw).
    eapply (work_left_finish (forget cp)); [done|done| |done| |done].
    + simpl. by rewrite list_lookup_fmap, Hi.
    + intros e ->. by eapply handle_item_requeue.
Qed.

Lemma quiet_step_cycles cp cp' :
  quiet_step (W := W) None cp cp' → wq_MaxRetryCycles (cp_wq cp') = wq_MaxRetryCycles (cp_wq cp).
Proof.
  destruct 1 as [? ? ? ? ? ? _ _ _ Hd| | | | |? ? ? ? ? ? ? d ? ? ? ? ? ? _ _ _ _ _ Hf _]; try done; simpl.
  - by apply Dequeue_metrics in Hd as [(_ & _ & _ & ?) _].
  - destruct d; simpl in Hf; [by injection Hf as <- <-|].
    by apply Requeue_metrics in Hf as [(_ & _ & _ & ?) _].
Qed.

(** No run of the workers and timers alone is infinite. *)
Lemma quiet_acc cp :
  cp_inv cp → 0 < wq_MaxRetryCycles (cp_wq cp) →
  Acc (λ a b, quiet_step (W := W) None b a) cp.
Proof.
  remember (work_left (forget cp)) as n eqn:Hn. revert cp Hn.
  induction n as [n IHn] using lt_wf_ind. intros cp.
  remember (unrest cp) as k eqn:Hk. revert cp Hk.
  induction k as [k IHk] using lt_wf_ind. intros cp -> -> Hinv HC. constructor. intros cp' Hs.
  pose proof (quiet_step_inv _ _ Hinv Hs) as Hinv'.
  assert (HC' : 0 < wq_MaxRetryCycles (cp_wq cp')) by (by rewrite (quiet_step_cycles _ _ Hs)).
  destruct (quiet_step_progress _ _ Hinv HC Hs) as [Hlt|[Heq Hlt]].
  - by eapply IHn.
  - by eapply IHk.
Qed.
End wakeup.
