(* ===== verification/WakeupSpec.v ===== *)
(** As long as no signal of a timer is lost no pending item is forgotten, and once the
    reconcilers are quiet the pool comes to rest.  The loss is real: after it, a due item
    can be left in the queue with all workers asleep. *)
From S2P Require Import Prelude ApiTypes Cluster MemCluster PolicyCache GoHeap WorkQueue.
From S2P Require Import WorkQueueFacts WorkQueueSpec Webhook Worker WorkerPool PoolSpec.
From S2P Require Import Wakeup WakeupFacts WakeupProgress.
From stdpp Require Import base option list gmap strings relations.
From Stdlib Require Import ZArith Lia.

Local Open Scope Z_scope.

(** [P] holds on every run, after finitely many steps and without getting stuck before. *)
Inductive inevitably {S : Type} (step : S → S → Prop) (P : S → Prop) (s : S) : Prop :=
  | inevitably_now : P s → inevitably step P s
  | inevitably_later : (∃ s', step s s') → (∀ s', step s s' → inevitably step P s') →
      inevitably step P s.

(** Every worker waits, without a timer, for the next item. *)
Definition asleep (cp : CPool) : Prop :=
  Forall (λ w, w = Waiting None) (cp_workers cp) ∧ cp_fired cp = 0%nat.

Section wakeup.
Context {W : Type} `{Client W} `{UnstructuredOps} `{CelOps} `{DigestOps}.

(** C10.  In every run of the pool in which no signal of a timer is lost, for each
    pending item of the open queue a worker is awake (it runs, or is busy and comes
    back), or a timer goroutine is about to signal, or a timer is armed that fires no
    later than the item is due.  A signal is lost when it is sent while a worker is
    between arming its timer and waiting, and nobody waits.  The workers have the context
    [context.Background()]. *)
Theorem sleepers_covered (n : nat) (maxRetries initialDelay maxDelay maxCycles : Z) (cp cp' : CPool)
    (p : ptr) (w : WorkItem) :
  (0 < n)%nat → maxDelay ≤ int64_max →
  cp_init n maxRetries initialDelay maxDelay maxCycles cp → config_ok (cp_wq cp) →
  rtc (heard_step (W := W) None) cp cp' → wq_shutdown (cp_wq cp') = false →
  aq_pending (abs (cp_wq cp')) !! p = Some w → covers cp' (wi_ScheduledAt w).
Proof.
  intros Hn Hmax Hi Hc Hr. destruct (cp_init_cinv _ _ _ _ _ _ Hn Hmax Hi Hc) as [Hinv Hcov].
  destruct (heard_reachable _ _ Hinv Hcov Hr) as [_ Hcov']. apply Hcov'.
Qed.

(** A busy worker can finish. *)
Lemma busy_enabled (w0 : W) cp i p :
  cp_inv cp → unlocked cp → cp_workers cp !! i = Some (Busy p) →
  ∃ cp', quiet_step (W := W) None cp cp'.
Proof.
  intros Hinv Hun Hi. pose proof (busy_worker _ _ _ Hi) as Hb.
  destruct (pi_busy _ (ci_pool _ Hinv) p Hb) as (v & [_ (item & Hitem & _)%fmap_Some] & _).
  set (tp := {| tp_OperatorNamespace := ""; tp_WorkerID := 0 |}).
  destruct (handle_item tp (wq_MaxRetryCycles (cp_wq cp)) (NewPolicyCache 0) item (mkSt w0 []))
    as [[d cache'] s'] eqn:Hh.
  destruct (pool_inv_total _ (ci_pool _ Hinv)) as (_ & _ & Hfin).
  destruct (Hfin p d (cp_clock cp) Hb) as [[wq' wake] Hf].
  destruct (woken_exists wake (cp_workers cp)) as [ws Hw].
  eexists. by eapply q_finish.
Qed.

(** Whoever is not asleep without a timer can take a step. *)
Lemma quiet_step_enabled (w0 : W) cp :
  cp_inv cp → wq_shutdown (cp_wq cp) = false →
  (∃ cp', quiet_step (W := W) None cp cp') ∨
  asleep cp.
Proof.
  intros Hinv Hopen. pose proof (pi_wf _ (ci_pool _ Hinv)) as Hwf. simpl in Hwf.
  destruct (decide (Exists is_parking (cp_workers cp))) as [Hp|Hun].
  { apply Exists_exists in Hp as (w & (i & Hi)%list_elem_of_lookup & t & ->). left. eexists.
    by eapply q_park. }
  apply not_Exists_Forall in Hun; [|apply _]. change (unlocked cp) in Hun.
  destruct (decide (Forall (λ w, w = Waiting None) (cp_workers cp))) as [Hall|Hnot].
  { destruct (cp_fired cp) as [|k] eqn:Hk; [by right|]. left.
    destruct (cp_workers cp) as [|w ws] eqn:Hws; [by destruct (ci_some _ Hinv)|].
    apply Forall_cons in Hall as [-> _]. eexists. eapply q_signal; [done|].
    apply (woken_one _ 0). by rewrite Hws. }
  apply not_Forall_Exists in Hnot; [|apply _].
  apply Exists_exists in Hnot as (w & Hin & Hne). left.
  pose proof Hin as (i & Hi)%list_elem_of_lookup. destruct w as [t|p|t|[d|]|].
  - destruct (Dequeue_refines_spec _ (cp_clock cp) Hwf) as (wq' & o & Hd & _).
    eexists. by eapply q_pass.
  - by eapply busy_enabled.
  - unfold unlocked in Hun. rewrite Forall_forall in Hun. destruct (Hun _ Hin). by eexists.
  - eexists. eapply (q_expire _ _ i _ d (Z.max d (cp_clock cp))); [done|done|lia..].
  - by destruct Hne.
  - by destruct (ci_exited _ Hinv Hopen).
Qed.

Lemma quiet_step_open cp cp' :
  cp_inv cp → quiet_step (W := W) None cp cp' → wq_shutdown (cp_wq cp') = wq_shutdown (cp_wq cp).
Proof.
  intros Hinv Hs. pose proof (pi_wf _ (ci_pool _ Hinv)) as Hwf. simpl in Hwf.
  destruct Hs as [cp i t now wq' o Hi _ _ Hd| | | | |cp i p item tp cache s d c s' now wq' wake ws Hi _ Hnow _ _ Hf _];
    try done; simpl.
  - by destruct (Dequeue_ok _ _ _ _ _ Hwf (ci_store _ Hinv) Hd).
  - by destruct (finish_ok _ _ _ _ _ _ _ Hwf (busy_not_pending _ _ _ Hinv Hi) (ci_store _ Hinv) Hnow
      (ci_delay _ Hinv) Hf).
Qed.

(** A pool that is asleep, and in which nobody sleeps through a pending item, has none. *)
Lemma asleep_empty cp :
  cp_inv cp → covered cp → wq_shutdown (cp_wq cp) = false → asleep cp → wq_slice (cp_wq cp) = [].
Proof.
  intros Hinv Hcov Hopen [Hall Hk].
  destruct (wq_slice (cp_wq cp)) as [|p rest] eqn:Hs; [done|exfalso].
  destruct (wf_pending _ p (pi_wf _ (ci_pool _ Hinv))) as (w & _ & Hp); [simpl; rewrite Hs; set_solver|].
  destruct (Hcov _ _ Hopen Hp) as [?|(i & v & Hi & Hv)]; [lia|].
  rewrite Forall_lookup in Hall. rewrite (Hall i v Hi) in Hv. by destruct Hv as [|(? & ? & _)].
Qed.

(** C9.  Once the reconcilers are quiet, the pool inevitably comes to rest: on every run
    of the workers, timers and signals, whatever the outcome of the processing and
    whether or not a signal is lost, after finitely many steps and without getting stuck
    before, all workers wait for a new item and no timer is armed or about to signal; and
    if no signal of a timer was lost on the way there since [main] made the pool, the
    queue is then empty.  Retries are bounded ([0 < MaxRetryCycles]), the queue is open,
    and the workers have the context [context.Background()]. *)
Theorem pool_settles (w0 : W) (n : nat) (maxRetries initialDelay maxDelay maxCycles : Z)
    (cp cp' : CPool) :
  (0 < n)%nat → maxDelay ≤ int64_max →
  cp_init n maxRetries initialDelay maxDelay maxCycles cp → config_ok (cp_wq cp) →
  rtc (cp_step (W := W) None) cp cp' →
  0 < wq_MaxRetryCycles (cp_wq cp') → wq_shutdown (cp_wq cp') = false →
  inevitably (quiet_step (W := W) None)
    (λ cp'', asleep cp'' ∧ (rtc (heard_step (W := W) None) cp cp'' → wq_slice (cp_wq cp'') = []))
    cp'.
Proof.
  intros Hn Hmax Hi Hc Hr HC Hopen. destruct (cp_init_cinv _ _ _ _ _ _ Hn Hmax Hi Hc) as [Hinv0 Hcov].
  pose proof (cp_reachable_cinv _ _ Hinv0 Hr) as Hinv. clear Hr Hi Hc.
  pose proof (quiet_acc cp' Hinv HC) as Hacc. clear HC. induction Hacc as [cp1 _ IH].
  destruct (quiet_step_enabled w0 cp1 Hinv Hopen) as [Hstep|Hsleep].
  - apply inevitably_later; [done|]. intros cp2 Hs. apply IH; [done| |by eapply quiet_step_inv].
    by rewrite (quiet_step_open _ _ Hinv Hs).
  - apply inevitably_now. split; [done|]. intros Hheard.
    destruct (heard_reachable _ _ Hinv0 Hcov Hheard). by apply asleep_empty.
Qed.
End wakeup.

(** ** A concrete run: one worker, one template without a policy *)
#[local] Existing Instance mem_client.
#[local] Existing Instance mem_cel.
#[local] Existing Instance mem_digest.
#[local] Existing Instance no_objects.

Definition ex_world : St mem :=
  mkSt (clusterOf 0 {[nnA := kubeTemplateOf "team" "a" []]} []) [].
Definition ex_processor : TemplateProcessor := {| tp_OperatorNamespace := "operator"; tp_WorkerID := 0 |}.
Definition retried_wq : WorkQueue := or_empty (Requeue held_wq 1%positive 40).

(** The item is due again at [40 + time_Second]; the worker looks one nanosecond before. *)
Definition due : Z := 40 + time_Second.

Definition lone_worker (wq : WorkQueue) (w : Worker) (fired : nat) (clock : Z) : CPool :=
  {| cp_wq := wq; cp_workers := [w]; cp_fired := fired; cp_clock := clock |}.

Definition ex_start : CPool := lone_worker empty_wq (Running None) 0 0.
Definition ex_parking : CPool := lone_worker retried_wq (Parking (Some due)) 0 (due - 1).

Lemma ex_start_init : cp_init 1 DefaultMaxRetries DefaultInitialRetryDelay
  DefaultMaxRetryDelay DefaultMaxRetryCycles ex_start.
Proof. by vm_compute. Qed.

Lemma lone_unlocked wq w fired clock : ¬ is_parking w → unlocked (lone_worker wq w fired clock).
Proof. intros Hw. by apply Forall_singleton. Qed.

Lemma lone_woken w : ¬ is_waiting w → woken Signal [w] [w].
Proof. intros Hw. by apply woken_nobody, Forall_singleton. Qed.

Lemma ex_requeued :
  quiet_step (W := mem) None (lone_worker held_wq (Busy 1%positive) 0 30)
    (lone_worker retried_wq (Running None) 0 40).
Proof.
  eapply (q_finish None (lone_worker held_wq (Busy 1%positive) 0 30) 0%nat 1%positive held_item ex_processor (NewPolicyCache 60) ex_world
    (DecideRequeue _) _ _ 40 retried_wq Signal [Busy 1%positive]).
  1: reflexivity.
  1: apply lone_unlocked; by intros [? ?].
  1: vm_compute; discriminate.
  1: vm_compute; reflexivity.
  1: vm_compute; reflexivity.
  1: vm_compute; reflexivity.
  apply lone_woken. by intros [? ?].
Qed.

Lemma no_signal_heard cp cp' :
  cp_fired cp = 0%nat → cp_step (W := mem) None cp cp' → heard_step (W := mem) None cp cp'.
Proof. intros Hk Hs. split; [done|]. intros (Hk' & _). congruence. Qed.

(** The template is enqueued, fails, and the worker arms its timer. *)
Lemma ex_parking_heard : rtc (heard_step (W := mem) None) ex_start ex_parking.
Proof.
  eapply rtc_l; [|eapply rtc_l; [|eapply rtc_l; [|eapply rtc_l; [|apply rtc_refl]]]].
  - apply no_signal_heard; [done|].
    apply (c_enqueue None ex_start nnA 20 20 (or_empty (Enqueue empty_wq nnA 0 20 20)) Signal [Running None]).
    + apply lone_unlocked. by intros [? ?].
    + by vm_compute.
    + done.
    + by vm_compute.
    + apply lone_woken. by intros [? ?].
  - apply no_signal_heard; [done|].
    apply c_quiet, (q_pass None _ 0%nat None 30 held_wq (Dequeued 1%positive)).
    + reflexivity.
    + apply lone_unlocked. by intros [? ?].
    + by vm_compute.
    + by vm_compute.
  - apply no_signal_heard; [done|].
    apply c_quiet, ex_requeued.
  - apply no_signal_heard; [done|].
    apply c_quiet, (q_pass None (lone_worker retried_wq (Running None) 0 40) 0%nat None (due - 1) retried_wq (WaitTimer 1)).
    + reflexivity.
    + apply lone_unlocked. by intros [? ?].
    + by vm_compute.
    + by vm_compute.
Qed.

Lemma ex_parking_reachable : rtc (cp_step (W := mem) None) ex_start ex_parking.
Proof. eapply rtc_subrel; [|apply ex_parking_heard]. by intros ? ? []. Qed.

Lemma sleepers_covered_witness : covers ex_parking due.
Proof.
  refine (sleepers_covered (W := mem) 1 DefaultMaxRetries DefaultInitialRetryDelay DefaultMaxRetryDelay
    DefaultMaxRetryCycles ex_start ex_parking 1%positive
    (set_index 0 (set_retry 1 0 due held_item)) _ _ ex_start_init pool0_config
    ex_parking_heard _ _).
  - lia.
  - vm_compute. discriminate.
  - vm_compute. reflexivity.
  - vm_compute. reflexivity.
Defined.

Lemma pool_settles_witness :
  inevitably (quiet_step (W := mem) None)
    (λ cp, asleep cp ∧ (rtc (heard_step (W := mem) None) ex_start cp → wq_slice (cp_wq cp) = []))
    ex_parking.
Proof.
  refine (pool_settles (W := mem) (st_world ex_world) 1 DefaultMaxRetries DefaultInitialRetryDelay
    DefaultMaxRetryDelay DefaultMaxRetryCycles ex_start ex_parking _ _ ex_start_init pool0_config
    ex_parking_reachable _ _).
  - lia.
  - vm_compute. discriminate.
  - vm_compute. reflexivity.
  - vm_compute. reflexivity.
Defined.

(** C39.  The timer of [Dequeue] can signal before its worker waits, and the wake-up is
    then lost: there is a reachable state of a pool of one worker in which an item is
    due, the worker sleeps without a timer, and nothing but a new enqueue or the shutdown
    will ever wake it. *)
Theorem wakeup_can_be_lost :
  ∃ cp p w, rtc (cp_step (W := mem) None) ex_start cp ∧ wq_shutdown (cp_wq cp) = false ∧
    aq_pending (abs (cp_wq cp)) !! p = Some w ∧ wi_ScheduledAt w ≤ cp_clock cp ∧
    cp_workers cp = [Waiting None] ∧ ¬ ∃ cp', quiet_step (W := mem) None cp cp'.
Proof.
  exists (lone_worker retried_wq (Waiting None) 0 due), 1%positive,
    (set_index 0 (set_retry 1 0 due held_item)).
  split_and!; [|by vm_compute..|].
  - etrans; [apply ex_parking_reachable|].
    eapply rtc_l; [|eapply rtc_l; [|eapply rtc_l; [|apply rtc_refl]]]; apply c_quiet.
    + apply (q_expire None ex_parking 0%nat (Parking (Some due)) due due); by vm_compute.
    + apply (q_signal None (lone_worker retried_wq (Parking None) 1 due) 0%nat [Parking None]); [done|].
      apply lone_woken. by intros [? ?].
    + by apply (q_park None (lone_worker retried_wq (Parking None) 0 due) 0%nat None).
  - intros [cp' Hs]. inversion Hs as [? i ? ? ? ? Hi|? i ? Hi|? i ? ? ? Hi Ht|? ? ? Hk|? i ? ? Hi ?|? i ? ? ? ? ? ? ? ? ? ? ? ? Hi];
      subst; try discriminate; destruct i; simplify_eq/=.
Qed.
