(* ===== verification/Controller.v ===== *)
(** The controllers of templates: [KubeTemplateReconciler] of
    [internal/controller/kubetemplater.io/kubetemplate_controller.go] and the watcher
    of the resources they produce, [resource_watcher_controller.go].

    [Reconcile] runs in the client monad.  It asks the work queue whether it holds
    the template, and its last action is at most one [Enqueue]; the queue it sees is
    an argument and the enqueue it ends with is part of its result. *)
From stdpp Require Import base option list gmap strings.
From S2P Require Import Prelude ApiTypes Cluster WorkQueue Webhook Worker.
From Stdlib Require Import ZArith.

Local Open Scope kt_scope.

(** ** Code outside the repository *)

(** [apiequality.Semantic.DeepEqual] at the types the code compares. *)
Class EqualityOps := {
  DeepEqual_value : value → value → bool;
  DeepEqual_spec : KubeTemplateSpec → KubeTemplateSpec → bool;
  DeepEqual_strings : gmap string string → gmap string string → bool
}.

(** Documented behaviour: it is an equality, coarser than identity on values, where
    nil and empty collections are equal; on specs and string maps it is equality. *)
Class EqualityLaws `{EqualityOps} : Prop := {
  DeepEqual_value_refl v : DeepEqual_value v v = true;
  DeepEqual_spec_eq a b : DeepEqual_spec a b = true ↔ a = b;
  DeepEqual_strings_eq a b : DeepEqual_strings a b = true ↔ a = b
}.

(** [retry.RetryOnConflict(retry.DefaultBackoff, fn)]. *)
Class RetryOps (W : Type) := {
  RetryOnConflict : M W (option error) → M W (option error)
}.

(** ** Status updates of the controller *)
Definition status_Queued (resetCycle clearPause clearProcessed : bool) (hash : option string)
    (now : Z) (kt : KubeTemplate) : KubeTemplate :=
  let s := kt_Status kt in
  set_kt_Status
    {| s_Status := s_Status s; s_ProcessingPhase := "Queued"; s_QueuedAt := Some now;
       s_ProcessedAt := if clearProcessed then None else s_ProcessedAt s; s_RetryCount := 0;
       s_RetryCycle := if resetCycle then 0%Z else s_RetryCycle s;
       s_LastReconcileTime := s_LastReconcileTime s; s_ResourcesTotal := s_ResourcesTotal s;
       s_ResourcesSynced := s_ResourcesSynced s; s_LastDriftDetected := s_LastDriftDetected s;
       s_DriftDetectionCount := s_DriftDetectionCount s; s_DryRunChecks := s_DryRunChecks s;
       s_AppliedSpecHash := default (s_AppliedSpecHash s) hash;
       s_PausedReason := if clearPause then EmptyString else s_PausedReason s;
       s_PausedAt := if clearPause then None else s_PausedAt s |} kt.

(** After a resume annotation. *)
Definition status_Resumed : Z → KubeTemplate → KubeTemplate := status_Queued false true false None.
(** After a spec change of a failed template. *)
Definition status_Retried (hash : string) : Z → KubeTemplate → KubeTemplate :=
  status_Queued true false false (Some hash).
(** After a spec change of a completed template. *)
Definition status_Changed (hash : string) : Z → KubeTemplate → KubeTemplate :=
  status_Queued false false false (Some hash).
(** A new template. *)
Definition status_New : Z → KubeTemplate → KubeTemplate := status_Queued false false true None.

Definition status_Hashed (hash : string) (kt : KubeTemplate) : KubeTemplate :=
  let s := kt_Status kt in
  set_kt_Status
    {| s_Status := s_Status s; s_ProcessingPhase := s_ProcessingPhase s; s_QueuedAt := s_QueuedAt s;
       s_ProcessedAt := s_ProcessedAt s; s_RetryCount := s_RetryCount s; s_RetryCycle := s_RetryCycle s;
       s_LastReconcileTime := s_LastReconcileTime s; s_ResourcesTotal := s_ResourcesTotal s;
       s_ResourcesSynced := s_ResourcesSynced s; s_LastDriftDetected := s_LastDriftDetected s;
       s_DriftDetectionCount := s_DriftDetectionCount s; s_DryRunChecks := s_DryRunChecks s;
       s_AppliedSpecHash := hash; s_PausedReason := s_PausedReason s; s_PausedAt := s_PausedAt s |} kt.

Definition status_Reconciled (now : Z) (total synced : nat) (drift : bool) (kt : KubeTemplate)
    : KubeTemplate :=
  let s := kt_Status kt in
  set_kt_Status
    {| s_Status := s_Status s; s_ProcessingPhase := s_ProcessingPhase s; s_QueuedAt := s_QueuedAt s;
       s_ProcessedAt := s_ProcessedAt s; s_RetryCount := s_RetryCount s; s_RetryCycle := s_RetryCycle s;
       s_LastReconcileTime := Some now; s_ResourcesTotal := Z.of_nat total;
       s_ResourcesSynced := Z.of_nat synced;
       s_LastDriftDetected := if drift then Some now else s_LastDriftDetected s;
       s_DriftDetectionCount :=
         if drift then wrap64 (s_DriftDetectionCount s + 1) else s_DriftDetectionCount s;
       s_DryRunChecks := wrap64 (s_DryRunChecks s + Z.of_nat total);
       s_AppliedSpecHash := s_AppliedSpecHash s; s_PausedReason := s_PausedReason s;
       s_PausedAt := s_PausedAt s |} kt.

Definition resume_annotation : string := "kubetemplater.io/resume".

Section controller.
Context {W : Type} `{Client W} `{RetryOps W} `{UnstructuredOps} `{DigestOps} `{EqualityOps}.

(** ** Drift detection *)

(** [v, found, _ := unstructured.NestedFieldCopy(o, k)]: an error is not found. *)
Definition top_field (o : object) (k : string) : option value :=
  match NestedFieldCopy o [k] with inr v => v | inl _ => None end.

Definition hasDrift (current desired : object) : bool :=
  match top_field current "spec", top_field desired "spec" with
  | Some cs, Some ds => negb (DeepEqual_value cs ds)
  | Some _, None | None, Some _ => true
  | None, None =>
      match top_field current "data", top_field desired "data" with
      | Some cd, Some dd => negb (DeepEqual_value cd dd)
      | Some _, None | None, Some _ => true
      | None, None => false
      end
  end.

Definition drift_opts (dryRun : bool) : PatchOptions :=
  {| po_FieldOwner := fieldManager; po_ForceOwnership := true; po_DryRunAll := dryRun |}.

(** One iteration of the loop of [applyTemplateResources]: whether the resource
    counts as synced, and whether drift was detected. *)
Definition reconcile_resource (t : Template) : M W (bool * bool) :=
  match yaml_Unmarshal (t_Object t) with
  | inl _ => retM (false, false)
  | inr obj =>
      let! current := Get_Object (GroupVersionKind obj) (NN (GetNamespace obj) (GetName obj)) in
      let! '(dryRunErr, dryRunObj) := Patch_Apply (drift_opts true) obj in
      match dryRunErr with
      | Some _ => retM (false, false)
      | None =>
          let apply drift :=
            let! '(err, _) := Patch_Apply (drift_opts false) obj in
            retM (bool_decide (err = None), drift) in
          match current with
          | inr currentObj =>
              if hasDrift currentObj dryRunObj then apply true else retM (true, false)
          | inl getErr => if IsNotFound getErr then apply false else retM (false, false)
          end
      end
  end.

Fixpoint reconcile_resources (ts : list Template) (synced : nat) (drift : bool) : M W (nat * bool) :=
  match ts with
  | [] => retM (synced, drift)
  | t :: rest =>
      let! '(ok, drifted) := reconcile_resource t in
      reconcile_resources rest (if ok then S synced else synced) (drift || drifted)
  end.

Definition applyTemplateResources (kt : KubeTemplate) : M W (option error) :=
  let ts := Templates (kt_Spec kt) in
  let! '(synced, drift) := reconcile_resources ts 0 false in
  let! now := Now in
  if drift || bool_decide (s_LastReconcileTime (kt_Status kt) = None) then
    let! '(err, _) := Status_Update (status_Reconciled now (length ts) synced drift kt) in
    retM err
  else retM None.

(** ** [Reconcile] *)
Record Outcome := {
  out_RequeueAfter : Z;
  out_err : option error;
  out_Enqueue : option NamespacedName
}.

Definition stop : Outcome := {| out_RequeueAfter := 0; out_err := None; out_Enqueue := None |}.
Definition fail (e : error) : Outcome :=
  {| out_RequeueAfter := 0; out_err := Some e; out_Enqueue := None |}.
Definition enqueue (nn : NamespacedName) : Outcome :=
  {| out_RequeueAfter := 0; out_err := None; out_Enqueue := Some nn |}.
Definition after (d : Z) : Outcome :=
  {| out_RequeueAfter := d; out_err := None; out_Enqueue := None |}.

(** A status update, then [WorkQueue.Enqueue]; only an error that is not a conflict
    gets in the way. *)
Definition update_and_enqueue (fn : Z → KubeTemplate → KubeTemplate) (kt : KubeTemplate)
    : M W Outcome :=
  let! now := Now in
  let! '(err, kt') := Status_Update (fn now kt) in
  match err with
  | Some e => if IsConflict e then retM (enqueue (kt_key kt')) else retM (fail e)
  | None => retM (enqueue (kt_key kt'))
  end.

Definition reconcile_Paused (kt : KubeTemplate) : M W Outcome :=
  match om_Annotations (kt_meta kt) !! resume_annotation with
  | Some v =>
      if bool_decide (v = "true"%string) then update_and_enqueue status_Resumed kt else retM stop
  | None => retM stop
  end.

Definition reconcile_Failed (kt : KubeTemplate) : M W Outcome :=
  let currentHash := calculateSpecHash (kt_Spec kt) in
  let applied := s_AppliedSpecHash (kt_Status kt) in
  if negb (bool_decide (applied = EmptyString)) && negb (bool_decide (currentHash = applied))
  then update_and_enqueue (status_Retried currentHash) kt
  else retM stop.

(** "Skip if recently reconciled"; the clock is read when there is a last time. *)
Definition recently_reconciled (interval : Z) (kt : KubeTemplate) : M W bool :=
  match s_LastReconcileTime (kt_Status kt) with
  | None => retM false
  | Some last =>
      let! now := Now in
      retM (time_Sub now last <? Z.quot interval 2)%Z
  end.

Definition reconcile_Completed (interval : Z) (queue : WorkQueue) (kt : KubeTemplate)
    : M W Outcome :=
  let currentHash := calculateSpecHash (kt_Spec kt) in
  let applied := s_AppliedSpecHash (kt_Status kt) in
  if bool_decide (applied = EmptyString) then
    let! _ := Status_Update (status_Hashed currentHash kt) in
    retM (after interval)
  else if negb (bool_decide (currentHash = applied)) then
    update_and_enqueue (status_Changed currentHash) kt
  else if Contains queue (kt_key kt) then retM (after interval)
  else
    let! recent := recently_reconciled interval kt in
    if recent then retM (after interval)
    else
      let! _ := applyTemplateResources kt in
      retM (after interval).

(** The function given to [RetryOnConflict]. *)
Definition queue_new (req : NamespacedName) : M W (option error) :=
  let! g := Get_KubeTemplate req in
  match g with
  | inl e => retM (Some e)
  | inr latest =>
      let! now := Now in
      let! '(err, _) := Status_Update (status_New now latest) in
      retM err
  end.

Definition Reconcile (interval : Z) (queue : WorkQueue) (req : NamespacedName) : M W Outcome :=
  let! g := Get_KubeTemplate req in
  match g with
  | inl e => if IsNotFound e then retM stop else retM (fail e)
  | inr kt =>
      if bool_decide (kt_phase kt = "Paused"%string) then reconcile_Paused kt
      else if bool_decide (kt_phase kt = "Failed"%string) then reconcile_Failed kt
      else if bool_decide (kt_phase kt = "Completed"%string) then
        reconcile_Completed interval queue kt
      else if bool_decide (kt_phase kt = EmptyString) then
        let! err := RetryOnConflict (queue_new req) in
        match err with
        | Some _ => retM (after (1 * time_Second))
        | None => retM (enqueue (kt_key kt))
        end
      else retM (enqueue (kt_key kt))
  end.

(** [r.WorkQueue.Enqueue(.., 0)], on the queue as it is then. *)
Definition finish_reconcile (queue : WorkQueue) (o : Outcome) (now1 now2 : Z)
    : option (WorkQueue * Wake) :=
  match out_Enqueue o with
  | Some nn => Enqueue queue nn 0 now1 now2
  | None => Some (queue, NoWake)
  end.

(** ** The update predicate of [SetupWithManager] *)
Definition UpdateFunc (oldObj newObj : option RuntimeObject) : bool :=
  match oldObj, newObj with
  | Some (ROKubeTemplate o), Some (ROKubeTemplate n) =>
      negb (DeepEqual_spec (kt_Spec o) (kt_Spec n))
      || negb (DeepEqual_strings (om_Annotations (kt_meta o)) (om_Annotations (kt_meta n)))
      || negb (DeepEqual_strings (om_Labels (kt_meta o)) (om_Labels (kt_meta n)))
  | _, _ => true
  end.

(** ** The resource watcher *)
Definition watch_predicate (obj : object) : bool :=
  match GetLabels obj with
  | None => false
  | Some objLabels =>
      bool_decide (is_Some (objLabels !! label_template_name))
      && bool_decide (is_Some (objLabels !! label_template_namespace))
  end.

Definition mapToKubeTemplate (obj : object) : list NamespacedName :=
  match GetLabels obj with
  | None => []
  | Some labels =>
      match labels !! label_template_name, labels !! label_template_namespace with
      | Some templateName, Some templateNamespace => [NN templateNamespace templateName]
      | _, _ => []
      end
  end.

Definition ResourceWatcherReconciler_Reconcile (req : NamespacedName) : M W Outcome := retM stop.
End controller.
