(* ===== verification/ControllerSpec.v ===== *)
(** What the template controller guarantees: when a template is queued, when it is
    left alone, and what the periodic reconciliation does to the cluster. *)
From stdpp Require Import base option list gmap strings.
From S2P Require Import Prelude ApiTypes Cluster MemCluster PolicyCache WorkQueue.
From S2P Require Import WorkQueueFacts WorkQueueSpec Webhook WebhookSpec Worker WorkerSpec.
From S2P Require Import Controller.
From Stdlib Require Import ZArith Ascii Lia.

(** Documented behaviour of [RetryOnConflict]: it runs the function one or more times,
    with pauses in which the world goes on, and returns the outcome of the last run;
    every earlier run ended in a conflict. *)
Inductive retried {W : Type} (fn : M W (option error)) : St W → option error → St W → Prop :=
  | retried_last s r s' : fn s = (r, s') → retried fn s r s'
  | retried_again s e s1 w r s' : fn s = (Some e, s1) → IsConflict e = true →
      retried fn (mkSt w (st_log s1)) r s' → retried fn s r s'.

Class RetryLaws (W : Type) `{RetryOps W} : Prop := {
  RetryOnConflict_retried fn s r s' : RetryOnConflict fn s = (r, s') → retried fn s r s'
}.

Section reconcile.
Context {W : Type} `{Client W} `{!ClientLaws W} `{RetryOps W} `{!RetryLaws W} `{UnstructuredOps}
  `{DigestOps} `{EqualityOps}.

(** The spec differs from the one whose hash is recorded. *)
Definition changed (kt : KubeTemplate) : Prop :=
  s_AppliedSpecHash (kt_Status kt) ≠ EmptyString ∧
  calculateSpecHash (kt_Spec kt) ≠ s_AppliedSpecHash (kt_Status kt).

Lemma changed_bool kt :
  (negb (bool_decide (s_AppliedSpecHash (kt_Status kt) = EmptyString)) &&
   negb (bool_decide (calculateSpecHash (kt_Spec kt) = s_AppliedSpecHash (kt_Status kt)))) = true
  ↔ changed kt.
Proof using Type. by rewrite andb_true_iff, !negb_true_iff, !bool_decide_eq_false. Qed.

(** A template that reconciliation puts in the queue. *)
Definition wants_queue (kt : KubeTemplate) : Prop :=
  if bool_decide (kt_phase kt = "Paused"%string) then
    om_Annotations (kt_meta kt) !! resume_annotation = Some "true"%string
  else if bool_decide (kt_phase kt = "Failed"%string ∨ kt_phase kt = "Completed"%string) then
    changed kt
  else True.

(** The one call of a status update to "Queued" that records the spec's hash when it
    changed. *)
Definition queued_trace (kt : KubeTemplate) (res : option error) (tr : list Call) : Prop :=
  ∃ kt', tr = [CStatusUpdate kt' res] ∧ kt_key kt' = kt_key kt ∧
    kt_phase kt' = "Queued"%string ∧ s_RetryCount (kt_Status kt') = 0%Z ∧
    (changed kt → kt_phase kt ≠ "Paused"%string →
     s_AppliedSpecHash (kt_Status kt') = calculateSpecHash (kt_Spec kt)).

(** The template is queued after that call, unless it fails without a conflict. *)
Definition queues (kt : KubeTemplate) (log : list Call) (s' : St W) (o : Outcome) : Prop :=
  ∃ tr res, st_log s' = log ++ tr ∧ queued_trace kt res tr ∧
    match res with
    | Some e => if IsConflict e then o = enqueue (kt_key kt) else o = fail e
    | None => o = enqueue (kt_key kt)
    end.

Definition leaves (o : Outcome) : Prop := out_Enqueue o = None ∧ out_err o = None.

Lemma update_and_enqueue_queues fn kt s o s' :
  (∀ now, kt_key (fn now kt) = kt_key kt ∧ kt_phase (fn now kt) = "Queued"%string ∧
     s_RetryCount (kt_Status (fn now kt)) = 0%Z ∧
     (changed kt → kt_phase kt ≠ "Paused"%string →
      s_AppliedSpecHash (kt_Status (fn now kt)) = calculateSpecHash (kt_Spec kt))) →
  update_and_enqueue (W := W) fn kt s = (o, s') → queues kt (st_log s) s' o.
Proof using All.
  intros Hfn Hrun. unfold update_and_enqueue, bindM, Now, Status_Update, bindM, liftW, emit, retM in Hrun.
  destruct (w_Now (st_world s)) as [now w1]. cbn [st_world st_log] in Hrun.
  destruct (w_Status_Update (fn now kt) w1) as [[res kt'] w2] eqn:Hu.
  destruct (Status_Update_spec _ _ _ _ _ Hu) as [Hk _].
  pose proof (Hfn now) as Hnow. destruct Hnow as (Hkey & _). rewrite Hkey in Hk.
  exists [CStatusUpdate (fn now kt) res], res. cbn [st_world st_log fst snd] in Hrun.
  rewrite Hk in Hrun. split_and!.
  - destruct res as [e|]; [destruct (IsConflict e)|]; injection Hrun as <- <-; done.
  - by exists (fn now kt).
  - destruct res as [e|]; [destruct (IsConflict e)|]; injection Hrun as <- <-; done.
Qed.

Lemma reconcile_Paused_spec kt s o s' :
  kt_phase kt = "Paused"%string → reconcile_Paused (W := W) kt s = (o, s') →
  let resumed := om_Annotations (kt_meta kt) !! resume_annotation = Some "true"%string in
  (¬ resumed → leaves o) ∧ (resumed → queues kt (st_log s) s' o).
Proof using All.
  intros Hp Hrun. unfold reconcile_Paused in Hrun.
  destruct (om_Annotations (kt_meta kt) !! resume_annotation) as [v|]; [case_bool_decide as Hv|].
  - subst v. split; [by intros []|intros _]. apply update_and_enqueue_queues with status_Resumed; [|done].
    intros now. split_and!; done.
  - injection Hrun as <- <-. split; [done|]. by intros [= ->].
  - injection Hrun as <- <-. split; [done|]. by intros [=].
Qed.

Lemma reconcile_Failed_spec kt s o s' :
  reconcile_Failed (W := W) kt s = (o, s') →
  (¬ changed kt → leaves o) ∧ (changed kt → queues kt (st_log s) s' o).
Proof using All.
  intros Hrun. unfold reconcile_Failed in Hrun.
  pose proof (changed_bool kt) as Hch. destruct (negb _ && negb _).
  - split; [by intros []; apply Hch|intros _].
    apply update_and_enqueue_queues with (status_Retried (calculateSpecHash (kt_Spec kt))); [|done].
    intros now. split_and!; done.
  - injection Hrun as <- <-. split; [done|]. by intros ?%Hch.
Qed.

Lemma reconcile_Completed_spec interval queue kt s o s' :
  reconcile_Completed (W := W) interval queue kt s = (o, s') →
  (¬ changed kt → leaves o) ∧ (changed kt → queues kt (st_log s) s' o).
Proof using All.
  intros Hrun. unfold reconcile_Completed in Hrun. case_bool_decide as He.
  { unfold bindM, Status_Update, bindM, liftW, emit, retM in Hrun. repeat case_match; simplify_eq/=.
    split; [done|]. by intros [? _]. }
  case_bool_decide as Hch; cbn [negb] in Hrun.
  - split; [|by intros [_ ?]]. intros _.
    destruct (Contains queue (kt_key kt)); [by injection Hrun as <- <-|].
    unfold bindM in Hrun. destruct (recently_reconciled _ _ _) as [[] s2];
      [by injection Hrun as <- <-|].
    destruct (applyTemplateResources kt s2). by injection Hrun as <- <-.
  - split; [by intros []|intros _].
    apply update_and_enqueue_queues with (status_Changed (calculateSpecHash (kt_Spec kt))); [|done].
    intros now. split_and!; done.
Qed.

(** One run of the function that is retried. *)
Lemma queue_new_run req s r s' :
  queue_new (W := W) req s = (r, s') →
  ∃ tr, st_log s' = st_log s ++ tr ∧
    ((tr = [] ∧ ∃ e w w', r = Some e ∧ w_Get_KubeTemplate req w = (inl e, w')) ∨
     ∃ kt, tr = [CStatusUpdate kt r] ∧ kt_phase kt = "Queued"%string ∧ kt_key kt = req).
Proof using All.
  unfold queue_new, bindM, Get_KubeTemplate, Now, Status_Update, bindM, liftW, emit, retM.
  destruct (w_Get_KubeTemplate req (st_world s)) as [[e|latest] w1] eqn:Hg.
  { intros [= <- <-]. exists []. simpl. rewrite app_nil_r. split; [done|]. left.
    split; [done|]. by exists e, (st_world s), w1. }
  cbn [st_world st_log]. destruct (w_Now w1) as [now w2]. cbn [st_world st_log].
  destruct (w_Status_Update (status_New now latest) w2) as [[res kt'] w3].
  intros [= <- <-]. eexists. split; [done|]. right. exists (status_New now latest).
  split_and!; [done..|]. by eapply Get_KubeTemplate_key in Hg.
Qed.

Lemma queue_new_retried req s r s' :
  retried (queue_new (W := W) req) s r s' →
  ∃ pre tr, st_log s' = st_log s ++ pre ++ tr ∧
    Forall is_conflict pre ∧
    (r = None → ∃ kt, tr = [CStatusUpdate kt None] ∧ kt_phase kt = "Queued"%string ∧
       kt_key kt = req).
Proof using All.
  induction 1 as [s r s' Hr|s e s1 w r s' Hr Hc Hrest IH].
  - apply queue_new_run in Hr as (tr & Hl & Ht). exists [], tr. split_and!; [done|constructor|].
    intros ->. destruct Ht as [(_ & ? & ? & ? & ? & _)|(kt & -> & ?)]; [done|by exists kt].
  - apply queue_new_run in Hr as (tr & Hl & Ht). destruct IH as (pre & tr' & Hl' & Hp & Hlast).
    cbn [st_log] in Hl'. exists (tr ++ pre), tr'. rewrite Hl', Hl, <- !app_assoc.
    split_and!; [done| |done]. apply Forall_app. split; [|done].
    destruct Ht as [(-> & _)|(kt & -> & _)]; [constructor|]. constructor; [|constructor].
    by exists kt, e.
Qed.

(** The template has been handed to the queue right after an update of it to "Queued"
    has succeeded, with only conflicts before. *)
Definition recorded (req : NamespacedName) (log : list Call) (s' : St W) : Prop :=
  ∃ pre kt', st_log s' = log ++ pre ++ [CStatusUpdate kt' None] ∧
    Forall is_conflict pre ∧ kt_phase kt' = "Queued"%string ∧ kt_key kt' = req.

Lemma queue_new_recorded req (s s' : St W) r :
  RetryOnConflict (queue_new (W := W) req) s = (r, s') → r = None → recorded req (st_log s) s'.
Proof using All.
  intros Hr%RetryOnConflict_retried ->. apply queue_new_retried in Hr as (pre & tr & Hl & Hp & Hlast).
  destruct (Hlast eq_refl) as (kt' & -> & ?). by exists pre, kt'.
Qed.

(** C16.  Reconciliation hands a template to the queue exactly when it is paused and
    annotated to resume, has failed or completed with a spec that differs from the one
    whose hash is recorded, or is in any other phase, and it is then the requested
    template.  What comes before depends on the phase.  Paused, failed and completed
    templates: one attempt to update the template to "Queued", with the new hash; the
    template is queued when the update succeeds and also when it meets a conflict, and
    any other error is returned instead.  Templates without a phase: the update to
    "Queued" has succeeded, or reconciliation is repeated after a second.  Templates in
    any other phase ("Queued", "Processing"): nothing, they are queued without a call. *)
Theorem Reconcile_queues (interval : Z) (queue : WorkQueue) (req : NamespacedName)
    (kt : KubeTemplate) (w1 : W) (s s' : St W) (o : Outcome) :
  w_Get_KubeTemplate req (st_world s) = (inr kt, w1) →
  Reconcile interval queue req s = (o, s') →
  kt_key kt = req ∧ (¬ wants_queue kt → leaves o) ∧
  (wants_queue kt →
   if bool_decide (kt_phase kt ∈ ["Paused"; "Failed"; "Completed"]%string)
   then queues kt (st_log s) s' o
   else if bool_decide (kt_phase kt = EmptyString)
   then (o = enqueue req ∧ recorded req (st_log s) s') ∨ o = after time_Second
   else o = enqueue req ∧ st_log s' = st_log s).
Proof using All.
  intros Hget Hrun. unfold Reconcile in Hrun. unfold bindM at 1, Get_KubeTemplate, liftW in Hrun.
  rewrite Hget in Hrun. assert (kt_key kt = req) as Hkey by (by eapply Get_KubeTemplate_key).
  split; [done|]. unfold wants_queue.
  case_bool_decide as Hp; [|case_bool_decide as Hf; [|case_bool_decide as Hc]].
  - rewrite (bool_decide_true (_ ∈ _)) by set_solver. by apply reconcile_Paused_spec in Hrun.
  - rewrite (bool_decide_true (_ ∨ _)), (bool_decide_true (_ ∈ _)) by set_solver.
    by apply reconcile_Failed_spec in Hrun.
  - rewrite (bool_decide_true (_ ∨ _)), (bool_decide_true (_ ∈ _)) by set_solver.
    by apply reconcile_Completed_spec in Hrun.
  - rewrite (bool_decide_false (_ ∨ _)), (bool_decide_false (_ ∈ _)) by set_solver.
    split; [done|intros _]. case_bool_decide as He.
    + unfold bindM in Hrun. destruct (RetryOnConflict _ _) as [[e|] s2] eqn:Hr; injection Hrun as <- <-.
      * by right.
      * left. split; [by rewrite Hkey|]. by apply (queue_new_recorded _ _ _ _ Hr).
    + injection Hrun as <- <-. by rewrite Hkey.
Qed.

End reconcile.

(** ** Spec hashes *)
Lemma hex_digit_inj a b : (a < 16)%N → (b < 16)%N → hex_digit a = hex_digit b → a = b.
Proof.
  intros Ha Hb Heq. unfold hex_digit in Heq.
  apply (f_equal N_of_ascii) in Heq.
  destruct (a <? 10)%N eqn:Ea, (b <? 10)%N eqn:Eb;
    rewrite ?N.ltb_lt, ?N.ltb_ge in *; rewrite !N_ascii_embedding in Heq by lia; lia.
Qed.

Lemma hex_EncodeToString_inj a b : hex_EncodeToString a = hex_EncodeToString b → a = b.
Proof.
  revert b. induction a as [|c a IH]; intros [|d b] Heq; [done..|]. simpl in Heq.
  injection Heq as Hhi Hlo Hrest. f_equal; [|by apply IH].
  pose proof (N_ascii_bounded c) as Hc. pose proof (N_ascii_bounded d) as Hd.
  apply hex_digit_inj in Hhi; [|apply N.Div0.div_lt_upper_bound; lia..].
  apply hex_digit_inj in Hlo; [|apply N.mod_lt; lia..].
  rewrite <- (ascii_N_embedding c), <- (ascii_N_embedding d). f_equal.
  rewrite (N.div_mod (N_of_ascii c) 16), (N.div_mod (N_of_ascii d) 16) by lia. congruence.
Qed.

Lemma hex_EncodeToString_length a :
  String.length (hex_EncodeToString a) = 2 * String.length a.
Proof. induction a as [|c a IH]; simpl; lia. Qed.

Section hashes.
Context `{DigestOps}.

(** The recorded hash distinguishes specs exactly as far as the digest of their
    encoding does: two specs that encode have the same hash if and only if the digests
    agree, a hash has two characters for each byte of the digest, and only a spec that
    does not encode (or an empty digest) has the empty hash. *)
Theorem calculateSpecHash_exact (a b : KubeTemplateSpec) (ja jb : string) :
  json_Marshal_spec a = inr ja → json_Marshal_spec b = inr jb →
  (calculateSpecHash a = calculateSpecHash b ↔ sha256_Sum256 ja = sha256_Sum256 jb) ∧
  String.length (calculateSpecHash a) = 2 * String.length (sha256_Sum256 ja) ∧
  (calculateSpecHash a = EmptyString ↔ sha256_Sum256 ja = EmptyString).
Proof.
  intros Ha Hb. unfold calculateSpecHash. rewrite Ha, Hb. split_and!.
  - split; [apply hex_EncodeToString_inj|congruence].
  - apply hex_EncodeToString_length.
  - split; [|by intros ->]. apply (hex_EncodeToString_inj _ EmptyString).
Qed.
End hashes.

(** ** The periodic reconciliation *)
Section drift.
Context {W : Type} `{Client W} `{UnstructuredOps} `{EqualityOps}.














(** Two objects with the same top-level [spec] and [data] never count as drift,
    whatever else differs: labels, annotations, [stringData], the rules of a role. *)
Theorem hasDrift_only_spec_and_data `{!EqualityLaws} (current desired : object) :
  top_field current "spec" = top_field desired "spec" →
  top_field current "data" = top_field desired "data" →
  hasDrift current desired = false.
Proof.
  intros Hs Hd. unfold hasDrift. rewrite Hs, Hd.
  destruct (top_field desired "spec"); [by rewrite DeepEqual_value_refl|].
  destruct (top_field desired "data"); [by rewrite DeepEqual_value_refl|done].
Qed.

(** The update predicate lets an update of a template through exactly when its
    spec, annotations or labels changed; no status update, by whomever, triggers a
    reconciliation. *)
Theorem UpdateFunc_exact `{!EqualityLaws} (old new : KubeTemplate) :
  (UpdateFunc (Some (ROKubeTemplate old)) (Some (ROKubeTemplate new)) = false ↔
   kt_Spec old = kt_Spec new ∧ om_Annotations (kt_meta old) = om_Annotations (kt_meta new) ∧
   om_Labels (kt_meta old) = om_Labels (kt_meta new)) ∧
  ∀ st, UpdateFunc (Some (ROKubeTemplate old)) (Some (ROKubeTemplate (set_kt_Status st old))) = false.
Proof.
  assert (Hiff : ∀ n : KubeTemplate,
    UpdateFunc (Some (ROKubeTemplate old)) (Some (ROKubeTemplate n)) = false ↔
    kt_Spec old = kt_Spec n ∧ om_Annotations (kt_meta old) = om_Annotations (kt_meta n) ∧
    om_Labels (kt_meta old) = om_Labels (kt_meta n)).
  { intros n. simpl. rewrite !orb_false_iff, !negb_false_iff, DeepEqual_spec_eq, !DeepEqual_strings_eq.
    tauto. }
  split; [apply Hiff|]. intros st. by apply Hiff.
Qed.
End drift.

(** ** Tracking *)
Section tracking.
Context {W : Type} `{Client W} `{!ClientLaws W} `{UnstructuredOps} `{!UnstructuredLaws}
  `{CelOps} `{DigestOps}.

(** C32.  The labels a worker puts on a resource lead back to the template: the
    watcher's predicate accepts the resource and it maps to that template alone,
    whatever labels the resource came with. *)
Theorem tracking_roundtrip (kt : KubeTemplate) (t : Template) (obj : object) :
  watch_predicate (decorate kt t obj) = true ∧
  mapToKubeTemplate (decorate kt t obj) = [kt_key kt].
Proof using All.
  unfold watch_predicate, mapToKubeTemplate. rewrite decorate_labels.
  assert (Hne : label_template_namespace ≠ label_template_name) by done.
  rewrite lookup_insert_eq, lookup_insert_ne, lookup_insert_eq by done. done.
Qed.
End tracking.

(** ** Witnesses *)

(** Structural equality of values, for the concrete instance. *)
Fixpoint value_eqb (a b : value) : bool :=
  match a, b with
  | VNull, VNull => true
  | VBool x, VBool y => Bool.eqb x y
  | VInt x, VInt y | VFloat x, VFloat y => (x =? y)%Z
  | VString x, VString y => bool_decide (x = y)
  | VList l, VList m =>
      (fix go l m := match l, m with
        | [], [] => true
        | x :: l, y :: m => value_eqb x y && go l m
        | _, _ => false
        end) l m
  | VMap l, VMap m =>
      (fix go l m := match l, m with
        | [], [] => true
        | (k, x) :: l, (k', y) :: m => bool_decide (k = k') && (value_eqb x y && go l m)
        | _, _ => false
        end) l m
  | _, _ => false
  end.

Lemma value_eqb_refl : ∀ v, value_eqb v v = true.
Proof.
  fix IH 1. intros [| [] | z | z | s | l | m]; simpl; try done.
  - by rewrite Z.eqb_refl.
  - by rewrite Z.eqb_refl.
  - by rewrite bool_decide_true.
  - induction l as [|x l IHl]; [done|]. by rewrite IH, IHl.
  - induction m as [|[k x] m IHm]; [done|]. by rewrite bool_decide_true, IH, IHm.
Qed.

#[local] Instance Template_eq_dec : EqDecision Template.
Proof. solve_decision. Defined.
#[local] Instance KubeTemplateSpec_eq_dec : EqDecision KubeTemplateSpec.
Proof. solve_decision. Defined.

#[local] Instance mem_equality : EqualityOps := {|
  DeepEqual_value := value_eqb;
  DeepEqual_spec a b := bool_decide (a = b);
  DeepEqual_strings a b := bool_decide (a = b)
|}.

#[local] Instance mem_equality_laws : EqualityLaws.
Proof. split; intros; [apply value_eqb_refl|apply bool_decide_eq_true..]. Qed.

Fixpoint retry_times (n : nat) (fn : M mem (option error)) : M mem (option error) := λ s,
  match n with
  | 0 => fn s
  | S n =>
      match fn s with
      | (Some e, s') => if IsConflict e then retry_times n fn s' else (Some e, s')
      | r => r
      end
  end.

#[local] Instance mem_retry : RetryOps mem := {| RetryOnConflict := retry_times 3 |}.

#[local] Existing Instance mem_client.
#[local] Existing Instance mem_client_laws.
#[local] Existing Instance mem_cel.
#[local] Existing Instance mem_digest.
#[local] Instance sample_ops : UnstructuredOps := mem_unstructured sample_decode.
#[local] Instance sample_ops_laws : UnstructuredLaws := mem_unstructured_laws sample_decode.

Lemma retry_times_retried n fn s r s' : retry_times n fn s = (r, s') → retried fn s r s'.
Proof.
  revert s. induction n as [|n IH]; intros s Hr; simpl in Hr; [by apply retried_last|].
  destruct (fn s) as [[e|] s1] eqn:Hf; [|injection Hr as <- <-; by apply retried_last].
  destruct (IsConflict e) eqn:Hc; [|injection Hr as <- <-; by apply retried_last].
  apply (retried_again fn s e s1 (st_world s1) r s' Hf Hc). destruct s1. by apply IH.
Qed.

#[local] Instance mem_retry_laws : RetryLaws mem.
Proof. split. intros fn s r s'. apply retry_times_retried. Qed.

(** A completed template whose recorded hash is not that of its spec. *)
Definition edited_template : KubeTemplate := set_kt_Status
  {| s_Status := "Completed"; s_ProcessingPhase := "Completed"; s_QueuedAt := None;
     s_ProcessedAt := Some 5%Z; s_RetryCount := 2; s_RetryCycle := 0; s_LastReconcileTime := None;
     s_ResourcesTotal := 0; s_ResourcesSynced := 0; s_LastDriftDetected := None;
     s_DriftDetectionCount := 0; s_DryRunChecks := 0; s_AppliedSpecHash := "00"; s_PausedReason := "";
     s_PausedAt := None |} (kubeTemplateOf "team" "app" [templateOf "config" false false]).

Lemma get_edited :
  w_Get_KubeTemplate (NN "team" "app") (st_world (cluster_with edited_template []))
    = (inr edited_template, clusterOf 10 {[NN "team" "app" := edited_template]} []).
Proof. by vm_compute. Qed.

Definition reconciled_edit := Reconcile 60 empty_wq (NN "team" "app") (cluster_with edited_template []).

Lemma Reconcile_queues_witness :
  kt_key edited_template = NN "team" "app" ∧ (¬ wants_queue edited_template → leaves reconciled_edit.1) ∧
  (wants_queue edited_template → queues edited_template [] reconciled_edit.2 reconciled_edit.1).
Proof.
  exact (Reconcile_queues 60 empty_wq (NN "team" "app") edited_template
    (clusterOf 10 {[NN "team" "app" := edited_template]} []) (cluster_with edited_template [])
    reconciled_edit.2 reconciled_edit.1 get_edited (surjective_pairing _)).
Defined.

(** The first status update of a new template meets a conflict. *)
Definition new_template : KubeTemplate := kubeTemplateOf "team" "app" [].



Lemma calculateSpecHash_exact_witness :
  calculateSpecHash {| Templates := [templateOf "config" false false] |} = "636f6e666967"%string ∧
  String.length (calculateSpecHash {| Templates := [templateOf "config" false false] |}) = 12.
Proof.
  split; [vm_compute; reflexivity|].
  exact (proj1 (proj2 (calculateSpecHash_exact {| Templates := [templateOf "config" false false] |}
    {| Templates := [] |} "config" "" eq_refl eq_refl))).
Defined.



(** The same ConfigMap with another label. *)
Definition relabelled : object := set_metadata "labels" (VMap [("app", VString "x")]) config_map.

Lemma hasDrift_only_spec_and_data_witness : hasDrift relabelled config_map = false.
Proof. apply (hasDrift_only_spec_and_data relabelled config_map); vm_compute; reflexivity. Defined.

Lemma UpdateFunc_exact_witness :
  UpdateFunc (Some (ROKubeTemplate new_template))
    (Some (ROKubeTemplate (set_kt_Status (kt_Status edited_template) new_template))) = false ∧
  UpdateFunc (Some (ROKubeTemplate new_template)) (Some (ROKubeTemplate edited_template)) = true.
Proof.
  split; [apply (UpdateFunc_exact new_template edited_template)|vm_compute; reflexivity].
Defined.

Lemma tracking_roundtrip_witness :
  watch_predicate (decorate new_template (templateOf "config" false true) relabelled) = true ∧
  mapToKubeTemplate (decorate new_template (templateOf "config" false true) relabelled)
    = [NN "team" "app"].
Proof.
  exact (tracking_roundtrip (W := mem) new_template (templateOf "config" false true) relabelled).
Defined.
