(* ===== verification/StatusSpec.v ===== *)
(** The status of a template: what holds of every status that the workers and the
    controller record, in whatever order and with whatever errors they run. *)
From stdpp Require Import base option list gmap strings pretty.
From S2P Require Import Prelude ApiTypes Cluster MemCluster PolicyCache WorkQueue.
From S2P Require Import WorkQueueFacts WorkQueueSpec Webhook WebhookSpec Worker WorkerSpec Controller ControllerSpec.
From Stdlib Require Import ZArith Lia.

(** ** Well-formed statuses *)

(** The phases that the comment on [ProcessingPhase] lists, and none for a new template. *)
Definition phases : list string := ["Queued"; "Processing"; "Completed"; "Failed"; "Paused"; EmptyString]%string.

Record status_wf (s : KubeTemplateStatus) : Prop := {
  wf_phase : s_ProcessingPhase s ∈ phases;
  wf_queued : s_ProcessingPhase s = "Queued"%string → s_QueuedAt s ≠ None;
  wf_processing : s_ProcessingPhase s = "Processing"%string → s_ProcessedAt s = None;
  wf_settled : s_ProcessingPhase s ∈ ["Completed"; "Failed"]%string → s_ProcessedAt s ≠ None;
  wf_paused : s_ProcessingPhase s = "Paused"%string → s_PausedAt s ≠ None ∧ s_PausedReason s ≠ EmptyString;
  wf_synced : (0 ≤ s_ResourcesSynced s ≤ s_ResourcesTotal s)%Z;
  wf_counters : in_int64 (s_DriftDetectionCount s) ∧ in_int64 (s_DryRunChecks s);
  wf_retries : s_RetryCount s = 0%Z ∧ s_RetryCycle s = 0%Z
}.

Definition kt_wf (kt : KubeTemplate) : Prop := status_wf (kt_Status kt).

(** The updates of the worker and of the controller. *)
Ltac status_update := destruct 1; split; simpl in *; intuition (first [done|set_solver|lia]).

Lemma status_Processing_wf kt : kt_wf kt → kt_wf (status_Processing kt).
Proof. status_update. Qed.

Lemma status_Failed_wf msg now kt : kt_wf kt → kt_wf (status_Failed msg now kt).
Proof. status_update. Qed.

Lemma status_Completed_wf hash now kt : kt_wf kt → kt_wf (status_Completed hash now kt).
Proof. status_update. Qed.

Lemma status_Paused_wf reason now kt :
  reason ≠ EmptyString → kt_wf kt → kt_wf (status_Paused reason now kt).
Proof. intros Hr. status_update. Qed.

Lemma status_Queued_wf reset clear cleared hash now kt :
  kt_wf kt → kt_wf (status_Queued reset clear cleared hash now kt).
Proof. destruct reset, clear, cleared; status_update. Qed.

Lemma status_Hashed_wf hash kt : kt_wf kt → kt_wf (status_Hashed hash kt).
Proof. status_update. Qed.

Lemma status_Reconciled_wf now total synced drift kt :
  (synced ≤ total)%nat → kt_wf kt → kt_wf (status_Reconciled now total synced drift kt).
Proof.
  intros Hle [? ? ? ? ? ? [? ?] ?]. split; simpl; try done; [lia|].
  split; [|apply wrap64_range]. destruct drift; [apply wrap64_range|done].
Qed.

Create HintDb status.
#[export] Hint Resolve status_Processing_wf status_Failed_wf status_Completed_wf status_Paused_wf
  status_Queued_wf status_Hashed_wf : status.

(** ** Code that keeps them so

    From a world that satisfies [I], [m] ends in one, every status it tried to record on the
    way is well-formed, and its result satisfies [Q]. *)
Definition recorded_wf (c : Call) : Prop :=
  match c with CStatusUpdate kt _ => kt_wf kt | _ => True end.

Definition keeps {W A : Type} (I : W → Prop) (m : M W A) (Q : A → Prop) : Prop :=
  ∀ s, I (st_world s) →
    I (st_world (m s).2) ∧ Q (m s).1 ∧ ∃ tr, st_log (m s).2 = st_log s ++ tr ∧ Forall recorded_wf tr.

Section keeps.
Context {W : Type} (I : W → Prop).

Lemma keeps_ret {A} (a : A) (Q : A → Prop) : Q a → keeps I (retM a) Q.
Proof. intros HQ s Hs. split_and!; [done..|]. exists []. by rewrite app_nil_r. Qed.

Lemma keeps_bind {A B} (m : M W A) (k : A → M W B) (Q : A → Prop) (R : B → Prop) :
  keeps I m Q → (∀ a, Q a → keeps I (k a) R) → keeps I (bindM m k) R.
Proof.
  intros Hm Hk s Hs. unfold bindM. destruct (Hm s Hs) as (Hs1 & HQ & tr1 & Hl1 & Hf1).
  destruct (m s) as [a s1]. simpl in *. destruct (Hk a HQ s1 Hs1) as (Hs2 & HR & tr2 & Hl2 & Hf2).
  split_and!; [done..|]. exists (tr1 ++ tr2). rewrite Hl2, Hl1, app_assoc. split; [done|]. by apply Forall_app.
Qed.

Lemma keeps_liftW {A} (f : W → A * W) (Q : A → Prop) :
  (∀ w, I w → I (f w).2 ∧ Q (f w).1) → keeps I (liftW f) Q.
Proof.
  intros Hf s Hs. unfold liftW. destruct (Hf _ Hs) as [Hw HQ]. destruct (f (st_world s)) as [a w].
  split_and!; [done..|]. exists []. by rewrite app_nil_r.
Qed.

Lemma keeps_emit c : recorded_wf c → keeps I (emit c) (λ _, True).
Proof. intros Hc s Hs. split_and!; [done..|]. exists [c]. split; [done|]. by constructor. Qed.

Lemma keeps_weaken {A} (m : M W A) (Q R : A → Prop) : keeps I m Q → (∀ a, Q a → R a) → keeps I m R.
Proof. intros Hm HQR s Hs. destruct (Hm s Hs) as (? & ? & ?). eauto. Qed.
End keeps.

(** ** A cluster whose statuses are well-formed

    [I] is what the status subresource guarantees: in a world that satisfies it, reads return
    well-formed statuses, an update with a well-formed status keeps it, and nothing else that
    the operator does touches statuses; [RetryOnConflict] only runs its argument. *)
Class StatusStore (W : Type) `{Client W} `{RetryOps W} (I : W → Prop) : Prop := {
  store_Now w : I w → I (w_Now w).2;
  store_Get nn w : I w → I (w_Get_KubeTemplate nn w).2 ∧
    ∀ kt, (w_Get_KubeTemplate nn w).1 = inr kt → kt_wf kt;
  store_Update kt w : I w → kt_wf kt → I (w_Status_Update kt w).2 ∧ kt_wf (w_Status_Update kt w).1.2;
  store_List ns src w : I w → I (w_List_KubeTemplatePolicies ns src w).2;
  store_Get_Object gvk nn w : I w → I (w_Get_Object gvk nn w).2;
  store_Patch opts o w : I w → I (w_Patch_Apply opts o w).2;
  store_Delete o w : I w → I (w_Delete_Object o w).2;
  store_Retry fn : keeps I fn (λ _, True) → keeps I (RetryOnConflict fn) (λ _, True)
}.

Section status.
Context {W : Type} `{Client W} `{RetryOps W} `{UnstructuredOps} `{CelOps} `{DigestOps} `{EqualityOps}.
Context (I : W → Prop) `{!StatusStore W I}.

(** *** The calls *)
Lemma Now_keeps : keeps I Now (λ _, True).
Proof using All. apply keeps_liftW. intros w Hw. split; [by apply store_Now|done]. Qed.

Lemma Get_KubeTemplate_keeps nn : keeps I (Get_KubeTemplate nn) (λ r, ∀ kt, r = inr kt → kt_wf kt).
Proof using All. apply keeps_liftW. intros w. apply store_Get. Qed.

Lemma Status_Update_keeps kt : kt_wf kt → keeps I (Status_Update kt) (λ r, kt_wf r.2).
Proof using All.
  intros Hkt. apply keeps_bind with (Q := λ r, kt_wf r.2).
  - apply keeps_liftW. intros w Hw. by apply store_Update.
  - intros r Hr. eapply keeps_bind; [by apply keeps_emit|]. intros _ _. by apply keeps_ret.
Qed.

Lemma Patch_Apply_keeps opts o : keeps I (Patch_Apply opts o) (λ _, True).
Proof using All.
  eapply keeps_bind; [apply keeps_liftW with (Q := λ _, True); intros w Hw; split; [by apply store_Patch|done]|].
  intros r _. eapply keeps_bind; [by apply keeps_emit|]. intros _ _. by apply keeps_ret.
Qed.

Lemma Delete_Object_keeps o : keeps I (Delete_Object o) (λ _, True).
Proof using All.
  eapply keeps_bind; [apply keeps_liftW with (Q := λ _, True); intros w Hw; split; [by apply store_Delete|done]|].
  intros r _. eapply keeps_bind; [by apply keeps_emit|]. intros _ _. by apply keeps_ret.
Qed.

Lemma Get_keeps cache ns op : keeps I (Get cache ns op) (λ _, True).
Proof using All.
  assert (Hr : keeps I (refresh cache ns op) (λ _, True)).
  { eapply keeps_bind; [apply keeps_liftW with (Q := λ _, True); intros w Hw; split; [by apply store_List|done]|].
    intros [e|items] _; [by apply keeps_ret|]. case_match; [by apply keeps_ret|].
    eapply keeps_bind; [apply Now_keeps|]. intros now _. by apply keeps_ret. }
  unfold Get. case_match; [|done]. eapply keeps_bind; [apply Now_keeps|]. intros now _.
  case_match; [by apply keeps_ret|done].
Qed.

(** *** The workers *)
Lemma update_status_loop_keeps n retries kt fn :
  (∀ kt, kt_wf kt → kt_wf (fn kt)) → kt_wf kt → keeps I (update_status_loop n retries kt fn) (λ r, kt_wf r.2).
Proof using All.
  intros Hfn. revert retries kt. induction n as [|n IH]; intros retries kt Hkt; simpl; [by apply keeps_ret|].
  eapply keeps_bind; [apply Get_KubeTemplate_keeps|]. intros [e|latest] Hg; [by apply keeps_ret|].
  eapply keeps_bind; [by apply Status_Update_keeps, Hfn, Hg|]. intros [[e|] kt'] Hkt'; [|by apply keeps_ret].
  case_match; [by apply IH|by apply keeps_ret].
Qed.

Lemma updateStatusWithRetry_keeps kt fn :
  (∀ kt, kt_wf kt → kt_wf (fn kt)) → kt_wf kt → keeps I (updateStatusWithRetry kt fn) (λ r, kt_wf r.2).
Proof using All. apply update_status_loop_keeps. Qed.

Lemma fail_status_keeps kt msg : kt_wf kt → keeps I (fail_status kt msg) kt_wf.
Proof using All.
  intros Hkt. eapply keeps_bind; [apply Now_keeps|]. intros now _.
  eapply keeps_bind; [apply updateStatusWithRetry_keeps; auto with status|]. intros [r kt'] ?. by apply keeps_ret.
Qed.

Lemma apply_resource_keeps kt t gvk o : kt_wf kt → keeps I (apply_resource kt t gvk o) (λ r, kt_wf r.2).
Proof using All.
  intros Hkt. eapply keeps_bind; [apply Patch_Apply_keeps|]. intros [[e|] o1] _; [|by apply keeps_ret]. case_match.
  - eapply keeps_bind; [apply Delete_Object_keeps|]. intros [de|] _; [by apply keeps_ret|].
    eapply keeps_bind; [apply Patch_Apply_keeps|]. intros [ae o2] _. by apply keeps_ret.
  - eapply keeps_bind; [by apply fail_status_keeps|]. intros kt' ?. by apply keeps_ret.
Qed.

Lemma process_template_keeps policy kt t : kt_wf kt → keeps I (process_template policy kt t) (λ r, kt_wf r.2).
Proof using All.
  intros Hkt. unfold process_template. case_match; [by apply keeps_ret|].
  assert (Hskip : ∀ msg, keeps I (bindM (fail_status kt msg) (λ kt', retM (@None error, kt'))) (λ r, kt_wf r.2)).
  { intros msg. eapply keeps_bind; [by apply fail_status_keeps|]. intros kt' ?. by apply keeps_ret. }
  repeat case_match; auto using apply_resource_keeps.
Qed.

Lemma process_templates_keeps policy ts kt : kt_wf kt → keeps I (process_templates policy kt ts) (λ r, kt_wf r.2).
Proof using All.
  revert kt. induction ts as [|t ts IH]; intros kt Hkt; simpl; [by apply keeps_ret|].
  eapply keeps_bind; [by apply process_template_keeps|]. intros [[e|] kt'] Hkt'; [by apply keeps_ret|by apply IH].
Qed.

Lemma processItem_keeps p cache item : keeps I (processItem p cache item) (λ _, True).
Proof using All.
  eapply keeps_bind; [apply Get_KubeTemplate_keeps|].
  intros [e|kt0] Hg; [case_match; by apply keeps_ret|].
  eapply keeps_bind; [apply updateStatusWithRetry_keeps; auto with status|]. intros [r0 kt] Hkt.
  eapply keeps_bind; [apply Get_keeps|]. intros [[e|policy] cache'] _.
  { eapply keeps_bind; [by apply fail_status_keeps|]. intros kt' ?. by apply keeps_ret. }
  eapply keeps_bind; [by apply process_templates_keeps|]. intros [[e|] kt'] Hkt'; [by apply keeps_ret|].
  eapply keeps_bind; [apply Now_keeps|]. intros now _.
  eapply keeps_bind; [apply updateStatusWithRetry_keeps; auto with status|]. intros [r kt2] _. by apply keeps_ret.
Qed.

Lemma handle_item_keeps p maxCycles cache item : keeps I (handle_item p maxCycles cache item) (λ _, True).
Proof using All.
  eapply keeps_bind; [apply processItem_keeps|]. intros [[err|] cache'] _; [|by apply keeps_ret].
  case_match; [|by apply keeps_ret]. eapply keeps_bind; [|intros _ _; by apply keeps_ret].
  eapply keeps_bind; [apply Get_KubeTemplate_keeps|]. intros [e|kt] Hg; [by apply keeps_ret with (Q := λ _, True)|].
  eapply keeps_bind; [apply Now_keeps|]. intros now _.
  eapply keeps_bind; [apply updateStatusWithRetry_keeps; [|by apply Hg]; intros ?; by apply status_Paused_wf|].
  intros [[e|] kt'] _; [by apply keeps_ret|by apply keeps_emit].
Qed.

(** *** The controller *)
Lemma update_and_enqueue_keeps fn kt :
  (∀ now, kt_wf (fn now kt)) → keeps I (update_and_enqueue fn kt) (λ _, True).
Proof using All.
  intros Hfn. eapply keeps_bind; [apply Now_keeps|]. intros now _.
  eapply keeps_bind; [by apply Status_Update_keeps|]. intros [[e|] kt'] _; [|by apply keeps_ret].
  case_match; by apply keeps_ret.
Qed.

Lemma reconcile_resource_keeps t : keeps I (reconcile_resource t) (λ _, True).
Proof using All.
  assert (Ha : ∀ obj d, keeps I (bindM (Patch_Apply (drift_opts false) obj)
    (λ x, let '(err, _) := x in retM (bool_decide (err = None), d : bool))) (λ _, True)).
  { intros obj d. eapply keeps_bind; [apply Patch_Apply_keeps|]. intros [? ?] _. by apply keeps_ret. }
  unfold reconcile_resource. case_match; [by apply keeps_ret|].
  eapply keeps_bind; [apply keeps_liftW with (Q := λ _, True); intros w Hw; split; [by apply store_Get_Object|done]|].
  intros current _. eapply keeps_bind; [apply Patch_Apply_keeps|]. intros [[e|] o'] _; [by apply keeps_ret|].
  repeat case_match; try apply Ha; by apply keeps_ret.
Qed.

Lemma reconcile_resources_keeps ts synced drift :
  keeps I (reconcile_resources ts synced drift) (λ r, (r.1 ≤ synced + length ts)%nat).
Proof using All.
  revert synced drift. induction ts as [|t ts IH]; intros synced drift; simpl; [apply keeps_ret; simpl; lia|].
  eapply keeps_bind; [apply reconcile_resource_keeps|]. intros [ok d] _.
  eapply keeps_weaken; [apply IH|]. intros r. destruct ok; lia.
Qed.

Lemma applyTemplateResources_keeps kt : kt_wf kt → keeps I (applyTemplateResources kt) (λ _, True).
Proof using All.
  intros Hkt. eapply keeps_bind; [apply reconcile_resources_keeps|]. intros [synced drift] Hle.
  eapply keeps_bind; [apply Now_keeps|]. intros now _. case_match; [|by apply keeps_ret].
  eapply keeps_bind; [by apply Status_Update_keeps, status_Reconciled_wf|]. intros [e kt'] _. by apply keeps_ret.
Qed.

Lemma reconcile_Completed_keeps interval queue kt :
  kt_wf kt → keeps I (reconcile_Completed interval queue kt) (λ _, True).
Proof using All.
  intros Hkt. unfold reconcile_Completed. case_match.
  { eapply keeps_bind; [by apply Status_Update_keeps, status_Hashed_wf|]. intros r _. by apply keeps_ret. }
  case_match; [apply update_and_enqueue_keeps; intros; by apply status_Queued_wf|].
  case_match; [by apply keeps_ret|]. eapply keeps_bind with (Q := λ _, True).
  { unfold recently_reconciled. case_match; [|by apply keeps_ret].
    eapply keeps_bind; [apply Now_keeps|]. intros now _. by apply keeps_ret. }
  intros [] _; [by apply keeps_ret|]. eapply keeps_bind; [by apply applyTemplateResources_keeps|].
  intros r _. by apply keeps_ret.
Qed.

Lemma queue_new_keeps req : keeps I (queue_new req) (λ _, True).
Proof using All.
  eapply keeps_bind; [apply Get_KubeTemplate_keeps|]. intros [e|latest] Hg; [by apply keeps_ret|].
  eapply keeps_bind; [apply Now_keeps|]. intros now _.
  eapply keeps_bind; [by apply Status_Update_keeps, status_Queued_wf, Hg|]. intros [e kt'] _. by apply keeps_ret.
Qed.

Lemma Reconcile_keeps interval queue req : keeps I (Reconcile interval queue req) (λ _, True).
Proof using All.
  eapply keeps_bind; [apply Get_KubeTemplate_keeps|]. intros [e|kt] Hg; [case_match; by apply keeps_ret|].
  specialize (Hg kt eq_refl). case_match.
  { unfold reconcile_Paused. repeat case_match; try by apply keeps_ret.
    apply update_and_enqueue_keeps. intros. by apply status_Queued_wf. }
  case_match.
  { unfold reconcile_Failed. case_match; [|by apply keeps_ret].
    apply update_and_enqueue_keeps. intros. by apply status_Queued_wf. }
  case_match; [by apply reconcile_Completed_keeps|]. case_match; [|by apply keeps_ret].
  eapply keeps_bind; [apply store_Retry, queue_new_keeps|]. intros [e|] _; by apply keeps_ret.
Qed.

(** C11.  The type invariant of template statuses.  In a cluster whose statuses are
    well-formed, every status that a worker or a reconciliation tries to record is
    well-formed and the cluster stays so, on every path and whatever calls fail: the phase
    is one of those documented; a queued template has a queueing time; a completed or failed
    one has a processing time, which is cleared while it is being processed; a paused one
    has a time and a reason; no more resources are synced than there are; and the retry
    count and the retry cycle of the status never leave zero. *)
Theorem statuses_well_formed (s : St W) :
  I (st_world s) →
  (∀ p maxCycles cache item, let r := handle_item p maxCycles cache item s in
     I (st_world r.2) ∧ ∃ tr, st_log r.2 = st_log s ++ tr ∧ Forall recorded_wf tr) ∧
  (∀ interval queue req, let r := Reconcile interval queue req s in
     I (st_world r.2) ∧ ∃ tr, st_log r.2 = st_log s ++ tr ∧ Forall recorded_wf tr).
Proof using All.
  intros Hs. split; intros.
  - destruct (handle_item_keeps p maxCycles cache item s Hs) as (? & _ & ?). done.
  - destruct (Reconcile_keeps interval queue req s Hs) as (? & _ & ?). done.
Qed.
End status.

(** ** The cluster in memory keeps statuses well-formed *)
#[local] Existing Instance mem_client.
#[local] Existing Instance mem_retry.
#[local] Existing Instance mem_cel.
#[local] Existing Instance mem_digest.
#[local] Existing Instance mem_equality.
#[local] Existing Instance ControllerSpec.sample_ops.

Definition mem_wf (m : mem) : Prop := map_Forall (λ _, kt_wf) (mem_kts m).

Lemma retry_times_keeps n fn : keeps mem_wf fn (λ _, True) → keeps mem_wf (retry_times n fn) (λ _, True).
Proof.
  intros Hfn. induction n as [|n IH]; [done|]. intros s Hs.
  destruct (Hfn s Hs) as (Hs1 & _ & tr & Hl & Hf). simpl. destruct (fn s) as [[e|] s1]; simpl in *; [|by eauto].
  destruct (IsConflict e); [|by eauto]. destruct (IH s1 Hs1) as (? & _ & tr' & Hl' & Hf').
  split_and!; [done..|]. exists (tr ++ tr'). rewrite Hl', Hl, app_assoc. split; [done|]. by apply Forall_app.
Qed.

#[local] Instance mem_status_store : StatusStore mem mem_wf.
Proof.
  split; simpl; try done.
  - intros nn w Hw. split; [done|]. intros kt Hkt. repeat case_match; simplify_eq.
    match goal with H : mem_kts w !! nn = Some _ |- _ => exact (Hw _ _ H) end.
  - intros kt w Hw Hkt. unfold mem_wf in *. repeat case_match; simpl; split; try done; by apply map_Forall_insert_2.
  - intros opts o w Hw. unfold mem_wf in *. by repeat case_match.
  - intros fn. exact (retry_times_keeps 3 fn).
Qed.

Lemma zero_status_wf ns name ts : kt_wf (kubeTemplateOf ns name ts).
Proof. by split; simpl; repeat constructor; try set_solver. Qed.

(** A new template is queued by the controller and completed by a worker. *)
Lemma statuses_well_formed_witness :
  ∃ s1 s2, (Reconcile 60 empty_wq (NN "team" "app") (cluster_with good_template [team_policy])).2 = s1 ∧
    (handle_item sample_worker 3 (NewPolicyCache 0) sample_item s1).2 = s2 ∧
    phase_of s1 (NN "team" "app") = Some "Queued"%string ∧
    phase_of s2 (NN "team" "app") = Some "Completed"%string ∧ mem_wf (st_world s2).
Proof.
  assert (H0 : mem_wf (st_world (cluster_with good_template [team_policy]))).
  { apply map_Forall_singleton, zero_status_wf. }
  destruct (statuses_well_formed mem_wf _ H0) as [_ Hc].
  destruct (Hc 60%Z empty_wq (NN "team" "app")) as [H1 _].
  destruct (statuses_well_formed mem_wf _ H1) as [Hw _].
  destruct (Hw sample_worker 3%Z (NewPolicyCache 0) sample_item) as [H2 _].
  do 2 eexists. split; [reflexivity|]. split; [reflexivity|].
  split; [vm_compute; reflexivity|]. split; [vm_compute; reflexivity|exact H2].
Defined.
