(* ===== verification/NamespaceController.v ===== *)
(** The namespace controller of [internal/controller/namespace_controller.go]: a
    finalizer holds a namespace until its templates are deleted. *)
From stdpp Require Import base option list gmap strings.
From S2P Require Import Prelude ApiTypes Cluster.
From Stdlib Require Import ZArith.

Local Open Scope kt_scope.

(** The client calls of this controller. *)
Class NamespaceClient (W : Type) := {
  w_Get_Namespace : NamespacedName → W → (error + Namespace) * W;
  w_Update_Namespace : Namespace → W → (option error * Namespace) * W;
  w_List_KubeTemplates : string → W → (error + list KubeTemplate) * W;
  w_Delete_KubeTemplate : KubeTemplate → W → option error * W
}.

(** [controllerutil.ContainsFinalizer] and its companions. *)
Class FinalizerOps := {
  ContainsFinalizer : Namespace → string → bool;
  AddFinalizer : Namespace → string → Namespace;
  RemoveFinalizer : Namespace → string → Namespace
}.

Class FinalizerLaws `{FinalizerOps} : Prop := {
  ContainsFinalizer_elem ns f : ContainsFinalizer ns f = true ↔ f ∈ ns_Finalizers ns;
  AddFinalizer_elem ns f g : g ∈ ns_Finalizers (AddFinalizer ns f) ↔ g = f ∨ g ∈ ns_Finalizers ns;
  RemoveFinalizer_elem ns f g :
    g ∈ ns_Finalizers (RemoveFinalizer ns f) ↔ g ≠ f ∧ g ∈ ns_Finalizers ns
}.

Definition namespaceFinalizer : string := "kubetemplater.io/namespace-finalizer".

(** The zero [time.Time], 1 January of year 1. *)
Definition time_zero : Z := (-62135596800 * time_Second)%Z.

(** [IsZero] of a pointer to a [metav1.Time] *)
Definition IsZero (t : option Z) : bool :=
  match t with None => true | Some z => (z =? time_zero)%Z end.

Section namespace.
Context {W : Type} `{NamespaceClient W} `{FinalizerOps}.

Definition Update_Namespace (ns : Namespace) : M W (option error) :=
  let! r := liftW (w_Update_Namespace ns) in
  let! _ := emit (CNamespaceUpdate ns r.1) in
  retM r.1.

Definition Delete_KubeTemplate (kt : KubeTemplate) : M W (option error) :=
  let! r := liftW (w_Delete_KubeTemplate kt) in
  let! _ := emit (CDeleteKubeTemplate (kt_key kt) r) in
  retM r.

(** The loop over [templateList.Items]; [Some e] is an early return. *)
Fixpoint delete_templates (items : list KubeTemplate) : M W (option error) :=
  match items with
  | [] => retM None
  | kt :: rest =>
      let! r := Delete_KubeTemplate kt in
      match r with
      | Some e => if IsNotFound e then delete_templates rest else retM (Some e)
      | None => delete_templates rest
      end
  end.

Definition NamespaceReconciler_Reconcile (req : NamespacedName) : M W (option error) :=
  let! g := liftW (w_Get_Namespace req) in
  match g with
  | inl e => if IsNotFound e then retM None else retM (Some e)
  | inr namespace =>
      if IsZero (ns_DeletionTimestamp namespace) then
        if negb (ContainsFinalizer namespace namespaceFinalizer)
        then Update_Namespace (AddFinalizer namespace namespaceFinalizer)
        else retM None
      else if ContainsFinalizer namespace namespaceFinalizer then
        let! l := liftW (w_List_KubeTemplates (ns_Name namespace)) in
        match l with
        | inl e => retM (Some e)
        | inr items =>
            let! err := delete_templates items in
            match err with
            | Some e => retM (Some e)
            | None => Update_Namespace (RemoveFinalizer namespace namespaceFinalizer)
            end
        end
      else retM None
  end.
End namespace.
