(* ===== verification/NamespaceSpec.v ===== *)
(** What the namespace controller guarantees: templates first, finalizer last. *)
From stdpp Require Import base option list gmap strings.
From S2P Require Import Prelude ApiTypes Cluster MemCluster NamespaceController.
From Stdlib Require Import ZArith Lia.

Section namespace.
Context {W : Type} `{NamespaceClient W} `{FinalizerOps} `{!FinalizerLaws}.

(** The call deleted [kt], or found it gone. *)
Definition deleted (kt : KubeTemplate) (c : Call) : Prop :=
  c = CDeleteKubeTemplate (kt_key kt) None ∨
  ∃ e, c = CDeleteKubeTemplate (kt_key kt) (Some e) ∧ IsNotFound e = true.

Lemma delete_templates_trace items s r s' :
  delete_templates (W := W) items s = (r, s') →
  ∃ tr, st_log s' = st_log s ++ tr ∧
    match r with
    | None => Forall2 deleted items tr
    | Some e => IsNotFound e = false ∧
        ∃ pre kt post tr', items = pre ++ kt :: post ∧ Forall2 deleted pre tr' ∧
          tr = tr' ++ [CDeleteKubeTemplate (kt_key kt) (Some e)]
    end.
Proof using Type.
  revert s. induction items as [|kt items IH]; intros s; simpl.
  { intros [= <- <-]. exists []. rewrite app_nil_r. by split; [|constructor]. }
  unfold Delete_KubeTemplate, bindM, liftW, emit, retM.
  destruct (w_Delete_KubeTemplate kt (st_world s)) as [res w1]. cbn [st_world st_log].
  assert (Hgo : deleted kt (CDeleteKubeTemplate (kt_key kt) res) →
    delete_templates items (mkSt w1 (st_log s ++ [CDeleteKubeTemplate (kt_key kt) res])) = (r, s') →
    ∃ tr, st_log s' = st_log s ++ tr ∧
    match r with
    | None => Forall2 deleted (kt :: items) tr
    | Some e => IsNotFound e = false ∧
        ∃ pre kt0 post tr', kt :: items = pre ++ kt0 :: post ∧ Forall2 deleted pre tr' ∧
          tr = tr' ++ [CDeleteKubeTemplate (kt_key kt0) (Some e)]
    end).
  { intros Hd Hrun. apply IH in Hrun as (tr & Hl & Hr). cbn [st_log] in Hl.
    exists (CDeleteKubeTemplate (kt_key kt) res :: tr). rewrite Hl, <- app_assoc. split; [done|].
    destruct r as [e|]; [|by constructor]. destruct Hr as (He & pre & k & post & tr' & -> & Hp & ->).
    split; [done|]. exists (kt :: pre), k, post, (CDeleteKubeTemplate (kt_key kt) res :: tr').
    split_and!; [done|by constructor|done]. }
  destruct res as [e|]; [|apply Hgo; by left]. destruct (IsNotFound e) eqn:He.
  - apply Hgo. right. by exists e.
  - intros [= <- <-]. exists [CDeleteKubeTemplate (kt_key kt) (Some e)]. split; [done|].
    split; [done|]. by exists [], kt, items, [].
Qed.

(** C24.  The controller lets go of a namespace that is being deleted only after every
    template listed in it has been deleted or was already gone: its last call is then
    the update that removes its finalizer and leaves the others.  If a deletion fails,
    the error is returned and the namespace is not updated, so the finalizer stays. *)
Theorem finalizer_removed_last (req : NamespacedName) (ns : Namespace) (w1 : W) (s s' : St W)
    (err : option error) :
  w_Get_Namespace req (st_world s) = (inr ns, w1) →
  IsZero (ns_DeletionTimestamp ns) = false → namespaceFinalizer ∈ ns_Finalizers ns →
  NamespaceReconciler_Reconcile req s = (err, s') →
  ∃ tr, st_log s' = st_log s ++ tr ∧
    match w_List_KubeTemplates (ns_Name ns) w1 with
    | (inl e, _) => tr = [] ∧ err = Some e
    | (inr items, _) =>
        (∃ dels ns' , tr = dels ++ [CNamespaceUpdate ns' err] ∧ Forall2 deleted items dels ∧
           ∀ g, g ∈ ns_Finalizers ns' ↔ g ≠ namespaceFinalizer ∧ g ∈ ns_Finalizers ns) ∨
        (∃ pre kt post dels e, items = pre ++ kt :: post ∧ Forall2 deleted pre dels ∧
           tr = dels ++ [CDeleteKubeTemplate (kt_key kt) (Some e)] ∧ err = Some e)
    end.
Proof using All.
  intros Hg Hz Hf Hrun. unfold NamespaceReconciler_Reconcile in Hrun.
  unfold bindM at 1, liftW in Hrun. rewrite Hg, Hz in Hrun.
  apply ContainsFinalizer_elem in Hf. rewrite Hf in Hrun. unfold bindM at 1 in Hrun.
  cbn [st_world st_log] in Hrun.
  destruct (w_List_KubeTemplates (ns_Name ns) w1) as [[e|items] w2].
  { injection Hrun as <- <-. exists []. rewrite app_nil_r. by split_and!. }
  unfold bindM at 1 in Hrun.
  destruct (delete_templates items (mkSt w2 (st_log s))) as [derr s2] eqn:Hd.
  apply delete_templates_trace in Hd as (tr & Hl & Hr). cbn [st_log] in Hl.
  destruct derr as [e|].
  - injection Hrun as <- <-. exists tr. split; [done|]. right.
    destruct Hr as (_ & pre & kt & post & dels & -> & Hp & ->). by exists pre, kt, post, dels, e.
  - unfold Update_Namespace, bindM, liftW, emit, retM in Hrun.
    destruct (w_Update_Namespace _ (st_world s2)) as [[res ns2] w3]. injection Hrun as <- <-.
    eexists. cbn [st_log fst]. rewrite Hl, <- app_assoc. split; [done|]. left.
    exists tr. eexists. split_and!; [done..|]. intros g. apply RemoveFinalizer_elem.
Qed.
End namespace.

(** ** Witness *)
Definition mem_finalizers : FinalizerOps := {|
  ContainsFinalizer ns f := bool_decide (f ∈ ns_Finalizers ns);
  AddFinalizer ns f :=
    {| ns_Name := ns_Name ns; ns_DeletionTimestamp := ns_DeletionTimestamp ns;
       ns_Finalizers := ns_Finalizers ns ++ [f] |};
  RemoveFinalizer ns f :=
    {| ns_Name := ns_Name ns; ns_DeletionTimestamp := ns_DeletionTimestamp ns;
       ns_Finalizers := filter (λ g, g ≠ f) (ns_Finalizers ns) |}
|}.

Lemma mem_finalizers_laws : @FinalizerLaws mem_finalizers.
Proof.
  split; intros; simpl.
  - apply bool_decide_eq_true.
  - set_solver.
  - by rewrite list_elem_of_filter.
Qed.

Definition dying : Namespace :=
  {| ns_Name := "team"; ns_DeletionTimestamp := Some 7%Z;
     ns_Finalizers := ["kubernetes"%string; namespaceFinalizer] |}.

(** A namespace being deleted with two templates, one of which is already gone. *)
Definition dying_client : NamespaceClient unit := {|
  w_Get_Namespace _ w := (inr dying, w);
  w_Update_Namespace ns w := ((None, ns), w);
  w_List_KubeTemplates _ w := (inr [kubeTemplateOf "team" "a" []; kubeTemplateOf "team" "b" []], w);
  w_Delete_KubeTemplate kt w :=
    (if bool_decide (kt_Name kt = "b"%string) then Some (not_found "b") else None, w)
|}.

#[local] Existing Instance mem_finalizers.
#[local] Existing Instance mem_finalizers_laws.
#[local] Existing Instance dying_client.

Lemma finalizer_removed_last_witness :
  ∃ tr, st_log (NamespaceReconciler_Reconcile (NN "" "team") (mkSt tt [])).2 = [] ++ tr ∧
    ((∃ dels ns', tr = dels ++ [CNamespaceUpdate ns' None] ∧
        Forall2 deleted [kubeTemplateOf "team" "a" []; kubeTemplateOf "team" "b" []] dels ∧
        ∀ g, g ∈ ns_Finalizers ns' ↔ g ≠ namespaceFinalizer ∧ g ∈ ns_Finalizers dying) ∨
     (∃ pre kt post dels e,
        [kubeTemplateOf "team" "a" []; kubeTemplateOf "team" "b" []] = pre ++ kt :: post ∧
        Forall2 deleted pre dels ∧ tr = dels ++ [CDeleteKubeTemplate (kt_key kt) (Some e)] ∧
        @None error = Some e)).
Proof.
  refine (finalizer_removed_last (NN "" "team") dying tt (mkSt tt [])
    (NamespaceReconciler_Reconcile (NN "" "team") (mkSt tt [])).2 None _ _ _ _).
  - reflexivity.
  - reflexivity.
  - simpl. set_solver.
  - vm_compute. reflexivity.
Defined.
