(* ===== verification/GoSlice.v ===== *)
(** Go slices: a window on an array in memory, so that two slices may share their
    elements; and [append], which writes into the array while there is room and moves to a
    new one otherwise. *)
From stdpp Require Import base option list gmap.
From S2P Require Import Prelude.
From Stdlib Require Import Lia.

Definition loc := positive.

(** The elements written so far of each array. *)
Definition arrays (T : Type) := gmap loc (list T).

Inductive slice := SNil | Slice (ptr : loc) (len cap : nat).

Section slices.
Context {T : Type}.

(** The capacity that [append] chooses when an array of this capacity is full; the
    language only promises that it is larger. *)
Variable nextcap : nat → nat.

Definition sl_len (s : slice) : nat := match s with SNil => 0 | Slice _ n _ => n end.
Definition sl_cap (s : slice) : nat := match s with SNil => 0 | Slice _ _ c => c end.

Definition contents (m : arrays T) (s : slice) : list T :=
  match s with SNil => [] | Slice p n _ => take n (default [] ((m : gmap loc (list T)) !! p)) end.

(** [append(s, x)] *)
Definition append (m : arrays T) (s : slice) (x : T) : arrays T * slice :=
  match s with
  | Slice p n c =>
      if decide (n < c) then
        let l := default [] ((m : gmap loc (list T)) !! p) in
        (<[p := take n l ++ x :: drop (S n) l]> (m : gmap loc (list T)), Slice p (S n) c)
      else
        let q := fresh (dom (m : gmap loc (list T))) in
        (<[q := contents m s ++ [x]]> (m : gmap loc (list T)), Slice q (S n) (nextcap c))
  | SNil =>
      let q := fresh (dom (m : gmap loc (list T))) in
      (<[q := [x]]> (m : gmap loc (list T)), Slice q 1 (nextcap 0))
  end.

(** A slice whose elements have been written. *)
Definition wf_slice (m : arrays T) (s : slice) : Prop :=
  match s with
  | SNil => True
  | Slice p n c => ∃ l, (m : gmap loc (list T)) !! p = Some l ∧ n ≤ length l ∧ n ≤ c
  end.

Lemma append_contents m s x :
  wf_slice m s → contents (append m s x).1 (append m s x).2 = contents m s ++ [x].
Proof.
  destruct s as [|p n c]; simpl; [by rewrite lookup_insert_eq|].
  intros (l & Hl & Hn & Hc). rewrite Hl. simpl. case_decide; simpl; rewrite lookup_insert_eq; simpl.
  - rewrite take_app_ge by (rewrite length_take; lia). rewrite length_take, Nat.min_l by done.
    by replace (S n - n) with 1 by lia.
  - apply take_ge. rewrite length_app, length_take. simpl. lia.
Qed.

Lemma append_wf m s x :
  (∀ c, c < nextcap c) → wf_slice m s → wf_slice (append m s x).1 (append m s x).2.
Proof.
  intros Hnext. destruct s as [|p n c]; simpl.
  { intros _. eexists. rewrite lookup_insert_eq. split; [done|]. simpl. specialize (Hnext 0). lia. }
  intros (l & Hl & Hn & Hc). rewrite Hl. simpl.
  case_decide; simpl; eexists; rewrite lookup_insert_eq; (split; [done|]).
  - rewrite length_app, length_take. simpl. lia.
  - rewrite length_app, length_take. simpl. specialize (Hnext c). lia.
Qed.

(** An append to a full slice leaves every other slice as it was. *)
Lemma append_full m s x s' :
  wf_slice m s' → sl_len s = sl_cap s →
  contents (append m s x).1 s' = contents m s' ∧ wf_slice (append m s x).1 s'.
Proof.
  intros Hs' Hfull. destruct s' as [|q k c']; [done|]. destruct Hs' as (l & Hl & Hk & Hc).
  set (f := fresh (dom (m : gmap loc (list T)))).
  assert (f ≠ q) by (intros <-; apply (is_fresh (dom (m : gmap loc (list T)))); by eapply elem_of_dom_2).
  destruct s as [|p n c]; simpl in *; [|rewrite decide_False by lia];
    simpl; rewrite lookup_insert_ne by done; eauto.
Qed.
End slices.
