(* ===== verification/GoMemory.v ===== *)
(** Go values that refer to memory: pointers and slices, what can be reached from a value,
    and deep copies.  A type of such values implements [GoType]; [GoTypeLaws] says that
    what is reached depends on the reached memory only and that a deep copy looks like the
    original and shares no memory with it. *)
From stdpp Require Import base option list gmap strings.
From S2P Require Import Prelude.
From Stdlib Require Import ZArith Lia.

(** What can be seen from a value, as a tree. *)
#[warnings="-register-all"]
Inductive dval :=
  | DNil
  | DStr (s : string)
  | DInt (z : Z)
  | DBool (b : bool)
  | DRef (l : list dval)
  | DStruct (l : list dval).

Definition gloc := positive.

(** Memory: blocks of cells, which are the elements of arrays or single variables. *)
Abbreviation memory cell := (gmap gloc (list cell)).

Class GoType (cell G : Type) := {
  (** the tree, and the blocks that it reads; nothing for a dangling reference *)
  look : memory cell → G → option (dval * gset gloc);
  (** [DeepCopyInto]: the value written to [*out] *)
  deepcopy : G → memory cell → option (G * memory cell)
}.

Class GoTypeLaws (cell G : Type) `{GoType cell G} : Prop := {
  look_dom h g v F : look h g = Some (v, F) → F ⊆ dom h;
  look_frame h h' g v F :
    look h g = Some (v, F) → (∀ l, l ∈ F → h' !! l = h !! l) → look h' g = Some (v, F);
  deepcopy_ok h g v F :
    look h g = Some (v, F) →
    ∃ g' h' F', deepcopy g h = Some (g', h') ∧ h ⊆ h' ∧ look h' g' = Some (v, F') ∧ F' ## dom h
}.

Lemma look_mono {cell G} `{GoTypeLaws cell G} h h' g r :
  look h g = Some r → h ⊆ h' → look h' g = Some r.
Proof.
  destruct r as [v F]. intros Hl Hsub. eapply look_frame; [done|]. intros l Hin.
  apply (look_dom _ _ _ _ Hl) in Hin as [c Hc]%elem_of_dom. rewrite Hc. by eapply lookup_weaken.
Qed.

(** A copy in a memory that has grown since. *)
Lemma deepcopy_later {cell G} `{GoTypeLaws cell G} h H' g v F :
  look h g = Some (v, F) → h ⊆ H' →
  ∃ g' h' F', deepcopy g H' = Some (g', h') ∧ H' ⊆ h' ∧ h ⊆ h' ∧ look h' g' = Some (v, F') ∧ F' ## dom h.
Proof.
  intros Hl Hsub. pose proof (look_mono _ _ _ _ Hl Hsub) as Hl'.
  destruct (deepcopy_ok _ _ _ _ Hl') as (g' & h' & F' & Hc & Hs & Hlook & Hd).
  exists g', h', F'. split_and!; [done..|by etrans|done|].
  pose proof (subseteq_dom _ _ Hsub). set_solver.
Qed.

(** Values that a cell can hold. *)
Class InCell (cell T : Type) := {
  cell_of : T → cell;
  from_cell : cell → option T;
  from_cell_of x : from_cell (cell_of x) = Some x
}.

Section blocks.
Context {cell T : Type} `{!Inhabited cell} `{GoTypeLaws cell T} `{!InCell cell T}.
Implicit Types (h : memory cell) (xs ys : list T).

(** ** Blocks of values *)
Definition looks h xs (rs : list (dval * gset gloc)) : Prop :=
  Forall2 (λ x r, look h x = Some r) xs rs.

Definition look_block (l : gloc) (n : nat) h : option (dval * gset gloc) :=
  blk ← h !! l;
  if decide (n ≤ length blk) then
    xs ← mapM from_cell (take n blk);
    rs ← mapM (look h) xs;
    Some (DRef (fst <$> rs), {[l]} ∪ ⋃ (snd <$> rs))
  else None.

(** [q[i] = c] *)
Definition write (q : gloc) (i : nat) (c : cell) h : option (memory cell) :=
  blk ← h !! q; if decide (i < length blk) then Some (<[q := <[i := c]> blk]> h) else None.

(** The loop that copies each element of [in] into the same place of [out]. *)
Fixpoint copy_elements (q : gloc) (i : nat) xs h : option (memory cell) :=
  match xs with
  | [] => Some h
  | x :: rest =>
      '(x', h1) ← deepcopy x h;
      h2 ← write q i (cell_of x') h1;
      copy_elements q (S i) rest h2
  end.

(** [make] or [new], and then the copies of the elements. *)
Definition copy_block (l : gloc) (n : nat) h : option (gloc * memory cell) :=
  blk ← h !! l;
  xs ← mapM from_cell (take n blk);
  let q := fresh (dom h) in
  h' ← copy_elements q 0 xs (<[q := replicate n inhabitant]> h);
  Some (q, h').

Lemma looks_mapM h xs rs : mapM (look h) xs = Some rs ↔ looks h xs rs.
Proof. apply mapM_Some. Qed.

Lemma mapM_from_cell xs : mapM from_cell (cell_of <$> xs) = Some xs.
Proof.
  apply mapM_Some. induction xs as [|x xs IH]; simpl; constructor; [apply from_cell_of|done].
Qed.

Lemma looks_mono h h' xs rs : looks h xs rs → h ⊆ h' → looks h' xs rs.
Proof using All. intros Hl Hs. eapply Forall2_impl; [exact Hl|]. intros x r Hx. exact (look_mono _ _ _ _ Hx Hs). Qed.

(** Writing outside of what the elements read. *)
Lemma looks_write h q b xs rs :
  looks h xs rs → Forall (λ r, q ∉ r.2) rs → looks (<[q := b]> h) xs rs.
Proof using All.
  intros Hl Hq. induction Hl as [|x [v F] xs rs Hx Hl IH]; [constructor|].
  apply Forall_cons in Hq as [Hq Hqs]. constructor; [|by apply IH].
  eapply look_frame; [done|]. intros l Hin. rewrite lookup_insert_ne; [done|]. intros ->. done.
Qed.

Lemma copy_elements_ok h0 h q ys zs xs rs :
  h0 ⊆ h → q ∉ dom h0 → h !! q = Some ((cell_of <$> ys) ++ zs) → length zs = length xs →
  looks h0 xs rs →
  ∀ ss, looks h ys ss → Forall (λ r, r.2 ## dom h0 ∪ {[q]}) ss →
  ∃ h' xs' rs', copy_elements q (length ys) xs h = Some h' ∧ h0 ⊆ h' ∧
    h' !! q = Some (cell_of <$> ys ++ xs') ∧ looks h' (ys ++ xs') (ss ++ rs') ∧
    fst <$> rs' = fst <$> rs ∧ Forall (λ r, r.2 ## dom h0 ∪ {[q]}) (ss ++ rs').
Proof using All.
  intros Hsub Hq. revert h ys zs rs Hsub.
  induction xs as [|x xs IH]; intros h ys zs rs Hsub Hblk Hlen Hl ss Hss Hd.
  { apply Forall2_nil_inv_l in Hl as ->. destruct zs; [|done]. rewrite app_nil_r in Hblk.
    exists h, [], []. by rewrite !app_nil_r. }
  apply Forall2_cons_inv_l in Hl as ([v F] & rs1 & Hx & Hl & ->). destruct zs as [|z zs]; [done|].
  destruct (deepcopy_ok h x v F (look_mono _ _ _ _ Hx Hsub)) as (x' & h1 & F' & Hc & Hs1 & Hx' & Hd').
  assert (Hq1 : q ∈ dom h) by (by apply elem_of_dom_2 in Hblk).
  assert (Hblk1 : h1 !! q = Some ((cell_of <$> ys) ++ z :: zs)) by (by eapply lookup_weaken).
  set (blk2 := (cell_of <$> (ys ++ [x'])) ++ zs). set (h2 := <[q := blk2]> h1).
  assert (Hw : write q (length ys) (cell_of x') h1 = Some h2).
  { unfold write. rewrite Hblk1. simpl. rewrite decide_True by (rewrite length_app, length_fmap; simpl; lia).
    unfold h2, blk2. rewrite fmap_app, <- app_assoc. simpl. do 2 f_equal.
    rewrite <- (length_fmap cell_of ys), insert_app_r_alt, Nat.sub_diag by done. done. }
  pose proof (subseteq_dom _ _ Hsub) as Hdom. simpl. rewrite Hc. simpl. rewrite Hw. simpl.
  destruct (IH h2 (ys ++ [x']) zs rs1) with (ss := ss ++ [(v, F')]) as (h' & xs' & rs' & Hcp & ? & Hb & Hlk & Hf & Hdd).
  - intros l. unfold h2. destruct (h0 !! l) as [c|] eqn:Hc0; simpl; [|by case_match].
    rewrite lookup_insert_ne by (intros ->; apply Hq; by eapply elem_of_dom_2).
    by rewrite (lookup_weaken _ _ _ _ Hc0 (transitivity Hsub Hs1)).
  - unfold h2. by rewrite lookup_insert_eq.
  - simpl in Hlen. lia.
  - done.
  - apply looks_write.
    + apply Forall2_app; [by eapply looks_mono|]. by repeat constructor.
    + apply Forall_app. split; [eapply Forall_impl; [exact Hd|]; set_solver|].
      apply Forall_singleton. simpl. set_solver.
  - apply Forall_app. split; [done|]. apply Forall_singleton. simpl. set_solver.
  - rewrite length_app in Hcp. simpl in Hcp. rewrite Nat.add_1_r in Hcp.
    exists h', (x' :: xs'), ((v, F') :: rs'). rewrite <- app_assoc in Hb, Hlk. rewrite <- app_assoc in Hlk, Hdd.
    split_and!; try done. change (v :: (fst <$> rs') = v :: (fst <$> rs1)). by rewrite Hf.
Qed.

Lemma look_block_Some l n h v F :
  look_block l n h = Some (v, F) ↔
  ∃ blk xs rs, h !! l = Some blk ∧ n ≤ length blk ∧ mapM from_cell (take n blk) = Some xs ∧
    looks h xs rs ∧ v = DRef (fst <$> rs) ∧ F = {[l]} ∪ ⋃ (snd <$> rs).
Proof.
  unfold look_block. split.
  - intros (blk & Hb & Hl)%bind_Some. case_decide; [|done].
    apply bind_Some in Hl as (xs & Hxs & Hl). apply bind_Some in Hl as (rs & Hrs%looks_mapM & [= <- <-]).
    by exists blk, xs, rs.
  - intros (blk & xs & rs & -> & Hn & Hxs & Hrs%looks_mapM & -> & ->). simpl.
    rewrite decide_True by done. rewrite Hxs. simpl. by rewrite Hrs.
Qed.

Lemma looks_dom h xs rs : looks h xs rs → ⋃ (snd <$> rs) ⊆ dom h.
Proof using All.
  intros Hl. induction Hl as [|x [v F] xs rs Hx Hl IH]; simpl; [set_solver|].
  apply look_dom in Hx. set_solver.
Qed.

Lemma look_block_dom l n h v F : look_block l n h = Some (v, F) → F ⊆ dom h.
Proof using All.
  intros (blk & xs & rs & Hb%elem_of_dom_2 & _ & _ & Hl%looks_dom & _ & ->)%look_block_Some. set_solver.
Qed.

Lemma look_block_frame l n h h' v F :
  look_block l n h = Some (v, F) → (∀ k, k ∈ F → h' !! k = h !! k) → look_block l n h' = Some (v, F).
Proof using All.
  intros (blk & xs & rs & Hb & Hn & Hxs & Hl & -> & ->)%look_block_Some Hag.
  apply look_block_Some. exists blk, xs, rs. split_and!; [rewrite Hag; [done|set_solver]|done..| |done|done].
  clear Hxs. induction Hl as [|x [v F] xs rs Hx Hl IH]; [constructor|]. simpl in Hag.
  constructor; [eapply look_frame; [done|]; set_solver|]. apply IH. set_solver.
Qed.

Lemma mapM_length_take (blk : list cell) n (xs : list T) :
  n ≤ length blk → mapM from_cell (take n blk) = Some xs → length xs = n.
Proof.
  intros Hn Hxs%mapM_Some%Forall2_length. rewrite length_take in Hxs. lia.
Qed.

Lemma copy_block_ok l n h v F :
  look_block l n h = Some (v, F) →
  ∃ q h' F', copy_block l n h = Some (q, h') ∧ h ⊆ h' ∧ look_block q n h' = Some (v, F') ∧ F' ## dom h.
Proof using All.
  intros (blk & xs & rs & Hb & Hn & Hxs & Hl & -> & ->)%look_block_Some.
  pose proof (mapM_length_take _ _ _ Hn Hxs) as Hlen. unfold copy_block. rewrite Hb. simpl. rewrite Hxs. simpl.
  set (q := fresh (dom h)). assert (Hq : q ∉ dom h) by apply is_fresh.
  set (h1 := <[q := replicate n inhabitant]> h).
  assert (Hs1 : h ⊆ h1) by (by apply insert_subseteq, not_elem_of_dom).
  destruct (copy_elements_ok h h1 q [] (replicate n inhabitant) xs rs) with (ss := [] : list (dval * gset gloc))
    as (h' & xs' & rs' & Hcp & Hs' & Hq' & Hl' & Hf & Hd);
    [done|done|by unfold h1; rewrite lookup_insert_eq|by rewrite length_replicate|done|constructor|constructor|].
  simpl in *. rewrite Hcp. simpl. exists q, h', ({[q]} ∪ ⋃ (snd <$> rs')).
  assert (Hlen' : length xs' = n).
  { rewrite (Forall2_length _ _ _ Hl'), <- (length_fmap fst rs'), Hf, length_fmap.
    by rewrite <- (Forall2_length _ _ _ Hl). }
  split_and!; [done|done| |].
  - apply look_block_Some. exists (cell_of <$> xs'), xs', rs'. rewrite Hf, length_fmap.
    split_and!; [done|lia| |done..]. rewrite take_ge by (rewrite length_fmap; lia). apply mapM_from_cell.
  - assert (⋃ (snd <$> rs') ## dom h); [|set_solver].
    clear -Hd. induction Hd as [|r rs Hr _ IH]; simpl; set_solver.
Qed.
End blocks.

(** ** Pointers and slices *)
Inductive gptr (T : Type) := PNil | PRef (l : gloc).
Inductive gslice (T : Type) := GNil | GSlice (l : gloc) (n : nat).
#[global] Arguments PNil {T}.
#[global] Arguments PRef {T} l.
#[global] Arguments GNil {T}.
#[global] Arguments GSlice {T} l n.

Section references.
Context {cell T : Type} `{!Inhabited cell} `{GoTypeLaws cell T} `{!InCell cell T}.

#[export] Instance gptr_GoType : GoType cell (gptr T) := {
  look h p := match p with PNil => Some (DNil, ∅) | PRef l => look_block (T := T) l 1 h end;
  deepcopy p h :=
    match p with
    | PNil => Some (PNil, h)
    | PRef l => '(q, h') ← copy_block (T := T) l 1 h; Some (PRef q, h')
    end
}.

#[export] Instance gslice_GoType : GoType cell (gslice T) := {
  look h s := match s with GNil => Some (DNil, ∅) | GSlice l n => look_block (T := T) l n h end;
  deepcopy s h :=
    match s with
    | GNil => Some (GNil, h)
    | GSlice l n => '(q, h') ← copy_block (T := T) l n h; Some (GSlice q n, h')
    end
}.

#[export] Instance gptr_laws : GoTypeLaws cell (gptr T).
Proof using All.
  split.
  - intros h [|l] v F; simpl; [intros [= <- <-]; set_solver|apply look_block_dom].
  - intros h h' [|l] v F; simpl; [done|apply look_block_frame].
  - intros h [|l] v F; simpl.
    + intros [= <- <-]. exists PNil, h, ∅. set_solver.
    + intros (q & h' & F' & -> & ? & ? & ?)%copy_block_ok. by exists (PRef q), h', F'.
Qed.

#[export] Instance gslice_laws : GoTypeLaws cell (gslice T).
Proof using All.
  split.
  - intros h [|l n] v F; simpl; [intros [= <- <-]; set_solver|apply look_block_dom].
  - intros h h' [|l n] v F; simpl; [done|apply look_block_frame].
  - intros h [|l n] v F; simpl.
    + intros [= <- <-]. exists GNil, h, ∅. set_solver.
    + intros (q & h' & F' & -> & ? & ? & ?)%copy_block_ok. by exists (GSlice q n), h', F'.
Qed.
End references.

(** ** Values without references *)
Section flat.
Context {cell : Type}.

#[export] Instance Z_GoType : GoType cell Z := { look _ z := Some (DInt z, ∅); deepcopy z h := Some (z, h) }.
#[export] Instance string_GoType : GoType cell string := {
  look _ s := Some (DStr s, ∅); deepcopy s h := Some (s, h)
}.
#[export] Instance bool_GoType : GoType cell bool := {
  look _ b := Some (DBool b, ∅); deepcopy b h := Some (b, h)
}.

Lemma flat_laws {G} `{GoType cell G} :
  (∀ g, ∃ v, ∀ h, look h g = Some (v, ∅)) → (∀ g h, deepcopy g h = Some (g, h)) → GoTypeLaws cell G.
Proof.
  intros Hl Hc. split.
  - intros h g v F. destruct (Hl g) as [u Hu]. rewrite Hu. intros [= <- <-]. set_solver.
  - intros h h' g v F. destruct (Hl g) as [u Hu]. by rewrite !Hu.
  - intros h g v F Hg. exists g, h, ∅. destruct (Hl g) as [u Hu]. rewrite Hu in Hg. injection Hg as <- <-.
    split_and!; [by rewrite Hc|done|by rewrite Hu|set_solver].
Qed.

#[export] Instance Z_laws : GoTypeLaws cell Z.
Proof. apply flat_laws; [by intros z; exists (DInt z)|done]. Qed.
#[export] Instance string_laws : GoTypeLaws cell string.
Proof. apply flat_laws; [by intros z; exists (DStr z)|done]. Qed.
#[export] Instance bool_laws : GoTypeLaws cell bool.
Proof. apply flat_laws; [by intros z; exists (DBool z)|done]. Qed.
End flat.

(** ** Structs

    A struct is given by its fields: copying it assigns the whole struct, which copies
    the flat fields, and then replaces the others one after the other. *)
Section pairs.
Context {cell A B : Type} `{GoTypeLaws cell A} `{GoTypeLaws cell B}.

#[export] Instance pair_GoType : GoType cell (A * B) := {
  look h ab := '(v, F) ← look h ab.1; '(u, G) ← look h ab.2; Some (DStruct [v; u], F ∪ G);
  deepcopy ab h := '(a, h1) ← deepcopy ab.1 h; '(b, h2) ← deepcopy ab.2 h1; Some ((a, b), h2)
}.

#[export] Instance pair_laws : GoTypeLaws cell (A * B).
Proof using All.
  split; simpl.
  - intros h [a b] v F. intros ([v1 F1] & Ha & ([v2 F2] & Hb & [= <- <-])%bind_Some)%bind_Some.
    apply look_dom in Ha, Hb. set_solver.
  - intros h h' [a b] v F. intros ([v1 F1] & Ha & ([v2 F2] & Hb & [= <- <-])%bind_Some)%bind_Some Hag.
    simpl in *. rewrite (look_frame _ h' _ _ _ Ha) by set_solver. simpl.
    by rewrite (look_frame _ h' _ _ _ Hb) by set_solver.
  - intros h [a b] v F. intros ([v1 F1] & Ha & ([v2 F2] & Hb & [= <- <-])%bind_Some)%bind_Some. simpl in *.
    destruct (deepcopy_ok _ _ _ _ Ha) as (a' & h1 & G1 & -> & Hs1 & Ha' & Hd1). simpl.
    destruct (deepcopy_later _ _ _ _ _ Hb Hs1) as (b' & h2 & G2 & -> & Hs12 & Hs2 & Hb' & Hd2). simpl.
    exists (a', b'), h2, (G1 ∪ G2). split_and!; [done|done| |set_solver]. simpl.
    rewrite (look_mono _ _ _ _ Ha' Hs12). simpl. by rewrite Hb'.
Qed.
End pairs.

(** A pointer that only a library dereferences: nil, or a value with a [DeepCopy]. *)
Section nilable.
Context {cell G : Type} `{GoTypeLaws cell G}.

#[export] Instance option_GoType : GoType cell (option G) := {
  look h o := match o with None => Some (DNil, ∅) | Some g => '(v, F) ← look h g; Some (DRef [v], F) end;
  deepcopy o h :=
    match o with None => Some (None, h) | Some g => '(g', h') ← deepcopy g h; Some (Some g', h') end
}.

#[export] Instance option_laws : GoTypeLaws cell (option G).
Proof using All.
  split; simpl.
  - intros h [g|] v F; [|intros [= <- <-]; set_solver].
    intros ([u F'] & Hg & [= <- <-])%bind_Some. by apply look_dom in Hg.
  - intros h h' [g|] v F; [|done]. intros ([u F'] & Hg & [= <- <-])%bind_Some Hag.
    by rewrite (look_frame _ h' _ _ _ Hg).
  - intros h [g|] v F; [|intros [= <- <-]; exists None, h, ∅; set_solver].
    intros ([u F'] & Hg & [= <- <-])%bind_Some.
    destruct (deepcopy_ok _ _ _ _ Hg) as (g' & h' & F2 & -> & ? & Hg' & ?).
    exists (Some g'), h', F2. simpl. by rewrite Hg'.
Qed.
End nilable.

(** A type that is copied as another one, field by field. *)
Lemma iso_laws {cell G T} `{GoType cell G} `{GoTypeLaws cell T} (f : G → T) (g : T → G) :
  (∀ x, f (g x) = x) → (∀ h x, look h x = look h (f x)) →
  (∀ h x, deepcopy x h = '(y, h') ← deepcopy (f x) h; Some (g y, h')) → GoTypeLaws cell G.
Proof.
  intros Hfg Hl Hc. split.
  - intros h x v F. rewrite Hl. apply look_dom.
  - intros h h' x v F. rewrite !Hl. apply look_frame.
  - intros h x v F. rewrite Hl. intros (y & h' & F' & Hy & ? & ? & ?)%deepcopy_ok.
    exists (g y), h', F'. rewrite Hc, Hl, Hfg, Hy. done.
Qed.

(** ** Independence *)

(** What a deep copy is for: it looks like the original; whatever is later written to the
    original's memory does not show in the copy, and whatever is written to the copy's
    memory does not show in the original. *)
Definition independent {cell G} `{GoType cell G} (g : G) (h : memory cell) (g' : G) (h' : memory cell) : Prop :=
  ∃ v F F', look h g = Some (v, F) ∧ look h' g' = Some (v, F') ∧ h ⊆ h' ∧ F ## F' ∧
    (∀ h2, (∀ l, l ∉ F → h2 !! l = h' !! l) → look h2 g' = Some (v, F')) ∧
    (∀ h2, (∀ l, l ∉ F' → h2 !! l = h' !! l) → look h2 g = Some (v, F)).

Lemma deepcopy_independent {cell G} `{GoTypeLaws cell G} (g : G) (h : memory cell) v F :
  look h g = Some (v, F) → ∃ g' h', deepcopy g h = Some (g', h') ∧ independent g h g' h'.
Proof.
  intros Hl. destruct (deepcopy_ok _ _ _ _ Hl) as (g' & h' & F' & Hc & Hs & Hl' & Hd).
  exists g', h'. split; [done|]. exists v, F, F'. pose proof (look_dom _ _ _ _ Hl) as HF.
  split_and!; [done..|set_solver| |].
  - intros h2 Hag. eapply look_frame; [done|]. intros l Hin. apply Hag. set_solver.
  - intros h2 Hag. eapply look_frame; [by eapply look_mono|]. intros l Hin. apply Hag. set_solver.
Qed.
