(* ===== verification/DeepCopy.v ===== *)
(** The deep copies of [api/kubetemplater.io/v1alpha1/zz_generated.deepcopy.go], on the
    resource types as Go lays them out in memory: the structs of [ApiTypes], with pointers
    and slices where the source has them. *)
From stdpp Require Import base option list gmap strings.
From S2P Require Import Prelude GoMemory.
From Stdlib Require Import ZArith.

(** Types of the Kubernetes libraries: [metav1.ObjectMeta] and [metav1.ListMeta],
    [runtime.RawExtension], a pointer to a [metav1.Time], and the cells they use. *)
Class ForeignTypes := {
  gObjectMeta : Type;
  gListMeta : Type;
  gRawExtension : Type;
  gTime : Type;
  foreign_cell : Type
}.

Section types.
Context `{ForeignTypes}.

(** [metav1.TypeMeta]: two strings *)
Record gTypeMeta := { gtm_Kind : string; gtm_APIVersion : string }.

Record gFieldValidation := {
  gfv_Name : string;
  gfv_FieldPath : string;
  gfv_Type : string;
  gfv_CEL : string;
  gfv_Regex : string;
  gfv_Min : gptr Z;
  gfv_Max : gptr Z;
  gfv_Required : bool;
  gfv_Message : string
}.

Record gValidationRule := {
  gvr_Kind : string;
  gvr_Group : string;
  gvr_Version : string;
  gvr_Rule : string;
  gvr_FieldValidations : gslice gFieldValidation;
  gvr_TargetNamespaces : gslice string
}.

Record gKubeTemplatePolicySpec := {
  gps_SourceNamespace : string;
  gps_ValidationRules : gslice gValidationRule
}.

Record gKubeTemplatePolicyStatus := {
  gpst_Active : bool;
  gpst_TemplatesUsing : Z;
  gpst_LastValidationTime : option gTime;
  gpst_ValidationSuccesses : Z;
  gpst_ValidationFailures : Z
}.

Record gKubeTemplatePolicy := {
  gp_TypeMeta : gTypeMeta;
  gp_ObjectMeta : gObjectMeta;
  gp_Spec : gKubeTemplatePolicySpec;
  gp_Status : gKubeTemplatePolicyStatus
}.

Record gKubeTemplatePolicyList := {
  gpl_TypeMeta : gTypeMeta;
  gpl_ListMeta : gListMeta;
  gpl_Items : gslice gKubeTemplatePolicy
}.

Record gTemplate := {
  gt_Object : gRawExtension;
  gt_Replace : bool;
  gt_Referenced : bool
}.

Record gKubeTemplateSpec := {
  gs_Templates : gslice gTemplate
}.

Record gKubeTemplateStatus := {
  gst_Status : string;
  gst_ProcessingPhase : string;
  gst_QueuedAt : option gTime;
  gst_ProcessedAt : option gTime;
  gst_RetryCount : Z;
  gst_RetryCycle : Z;
  gst_LastReconcileTime : option gTime;
  gst_ResourcesTotal : Z;
  gst_ResourcesSynced : Z;
  gst_LastDriftDetected : option gTime;
  gst_DriftDetectionCount : Z;
  gst_DryRunChecks : Z;
  gst_AppliedSpecHash : string;
  gst_PausedReason : string;
  gst_PausedAt : option gTime
}.

Record gKubeTemplate := {
  gkt_TypeMeta : gTypeMeta;
  gkt_ObjectMeta : gObjectMeta;
  gkt_Spec : gKubeTemplateSpec;
  gkt_Status : gKubeTemplateStatus
}.

Record gKubeTemplateList := {
  gktl_TypeMeta : gTypeMeta;
  gktl_ListMeta : gListMeta;
  gktl_Items : gslice gKubeTemplate
}.

(** A variable or an array element; [CZero] is one that [new] or [make] has cleared. *)
Inductive gcell :=
  | CZero
  | CInt (z : Z)
  | CString (s : string)
  | CFieldValidation (x : gFieldValidation)
  | CValidationRule (x : gValidationRule)
  | CKubeTemplatePolicySpec (x : gKubeTemplatePolicySpec)
  | CKubeTemplatePolicyStatus (x : gKubeTemplatePolicyStatus)
  | CKubeTemplatePolicy (x : gKubeTemplatePolicy)
  | CKubeTemplatePolicyList (x : gKubeTemplatePolicyList)
  | CTemplate (x : gTemplate)
  | CKubeTemplateSpec (x : gKubeTemplateSpec)
  | CKubeTemplateStatus (x : gKubeTemplateStatus)
  | CKubeTemplate (x : gKubeTemplate)
  | CKubeTemplateList (x : gKubeTemplateList)
  | CForeign (x : foreign_cell).
End types.

#[export] Instance gcell_inhabited `{ForeignTypes} : Inhabited gcell := populate CZero.

(** The deep copies that the libraries provide. *)
Class ForeignCopies `{ForeignTypes} := {
  ObjectMeta_GoType :: GoType gcell gObjectMeta;
  ListMeta_GoType :: GoType gcell gListMeta;
  RawExtension_GoType :: GoType gcell gRawExtension;
  Time_GoType :: GoType gcell gTime
}.

(** They are deep copies. *)
Class ForeignCopyLaws `{ForeignCopies} : Prop := {
  ObjectMeta_laws :: GoTypeLaws gcell gObjectMeta;
  ListMeta_laws :: GoTypeLaws gcell gListMeta;
  RawExtension_laws :: GoTypeLaws gcell gRawExtension;
  Time_laws :: GoTypeLaws gcell gTime
}.

Section copies.
Context `{ForeignCopies}.

#[export] Instance TypeMeta_GoType : GoType gcell gTypeMeta := {
  look _ m := Some (DStruct [DStr (gtm_Kind m); DStr (gtm_APIVersion m)], ∅);
  deepcopy m h := Some (m, h)
}.

#[export] Program Instance Z_InCell : InCell gcell Z :=
  {| cell_of := CInt; from_cell c := match c with CInt x => Some x | _ => None end |}.
Solve Obligations with done.

#[export] Program Instance string_InCell : InCell gcell string :=
  {| cell_of := CString; from_cell c := match c with CString x => Some x | _ => None end |}.
Solve Obligations with done.

(** ** [DeepCopyInto]

    The receiver is assigned as a whole, then the fields with references are replaced by
    copies; the copy of a nil reference is nil. *)

Definition FieldValidation_DeepCopyInto (x : gFieldValidation) (h : memory gcell) : option (gFieldValidation * memory gcell) :=
  '(out_Min, h) ← deepcopy (gfv_Min x) h;
  '(out_Max, h) ← deepcopy (gfv_Max x) h;
  Some ({| gfv_Name := gfv_Name x; gfv_FieldPath := gfv_FieldPath x; gfv_Type := gfv_Type x;
    gfv_CEL := gfv_CEL x; gfv_Regex := gfv_Regex x; gfv_Min := out_Min; gfv_Max := out_Max;
    gfv_Required := gfv_Required x; gfv_Message := gfv_Message x |}, h).

Definition FieldValidation_fields (x : gFieldValidation) :=
  (gfv_Name x, gfv_FieldPath x, gfv_Type x, gfv_CEL x, gfv_Regex x, gfv_Min x, gfv_Max x,
   gfv_Required x, gfv_Message x).

#[export] Instance FieldValidation_GoType : GoType gcell gFieldValidation :=
  {| look h x := look h (FieldValidation_fields x); deepcopy := FieldValidation_DeepCopyInto |}.

#[export] Program Instance FieldValidation_InCell : InCell gcell gFieldValidation :=
  {| cell_of := CFieldValidation; from_cell c := match c with CFieldValidation x => Some x | _ => None end |}.
Solve Obligations with done.

Definition ValidationRule_DeepCopyInto (x : gValidationRule) (h : memory gcell) : option (gValidationRule * memory gcell) :=
  '(out_FieldValidations, h) ← deepcopy (gvr_FieldValidations x) h;
  '(out_TargetNamespaces, h) ← deepcopy (gvr_TargetNamespaces x) h;
  Some ({| gvr_Kind := gvr_Kind x; gvr_Group := gvr_Group x; gvr_Version := gvr_Version x;
    gvr_Rule := gvr_Rule x; gvr_FieldValidations := out_FieldValidations; gvr_TargetNamespaces
    := out_TargetNamespaces |}, h).

Definition ValidationRule_fields (x : gValidationRule) :=
  (gvr_Kind x, gvr_Group x, gvr_Version x, gvr_Rule x, gvr_FieldValidations x,
   gvr_TargetNamespaces x).

#[export] Instance ValidationRule_GoType : GoType gcell gValidationRule :=
  {| look h x := look h (ValidationRule_fields x); deepcopy := ValidationRule_DeepCopyInto |}.

#[export] Program Instance ValidationRule_InCell : InCell gcell gValidationRule :=
  {| cell_of := CValidationRule; from_cell c := match c with CValidationRule x => Some x | _ => None end |}.
Solve Obligations with done.

Definition KubeTemplatePolicySpec_DeepCopyInto (x : gKubeTemplatePolicySpec) (h : memory gcell) : option (gKubeTemplatePolicySpec * memory gcell) :=
  '(out_ValidationRules, h) ← deepcopy (gps_ValidationRules x) h;
  Some ({| gps_SourceNamespace := gps_SourceNamespace x; gps_ValidationRules :=
    out_ValidationRules |}, h).

Definition KubeTemplatePolicySpec_fields (x : gKubeTemplatePolicySpec) :=
  (gps_SourceNamespace x, gps_ValidationRules x).

#[export] Instance KubeTemplatePolicySpec_GoType : GoType gcell gKubeTemplatePolicySpec :=
  {| look h x := look h (KubeTemplatePolicySpec_fields x); deepcopy := KubeTemplatePolicySpec_DeepCopyInto |}.

#[export] Program Instance KubeTemplatePolicySpec_InCell : InCell gcell gKubeTemplatePolicySpec :=
  {| cell_of := CKubeTemplatePolicySpec; from_cell c := match c with CKubeTemplatePolicySpec x => Some x | _ => None end |}.
Solve Obligations with done.

Definition KubeTemplatePolicyStatus_DeepCopyInto (x : gKubeTemplatePolicyStatus) (h : memory gcell) : option (gKubeTemplatePolicyStatus * memory gcell) :=
  '(out_LastValidationTime, h) ← deepcopy (gpst_LastValidationTime x) h;
  Some ({| gpst_Active := gpst_Active x; gpst_TemplatesUsing := gpst_TemplatesUsing x;
    gpst_LastValidationTime := out_LastValidationTime; gpst_ValidationSuccesses :=
    gpst_ValidationSuccesses x; gpst_ValidationFailures := gpst_ValidationFailures x |}, h).

Definition KubeTemplatePolicyStatus_fields (x : gKubeTemplatePolicyStatus) :=
  (gpst_Active x, gpst_TemplatesUsing x, gpst_LastValidationTime x, gpst_ValidationSuccesses x,
   gpst_ValidationFailures x).

#[export] Instance KubeTemplatePolicyStatus_GoType : GoType gcell gKubeTemplatePolicyStatus :=
  {| look h x := look h (KubeTemplatePolicyStatus_fields x); deepcopy := KubeTemplatePolicyStatus_DeepCopyInto |}.

#[export] Program Instance KubeTemplatePolicyStatus_InCell : InCell gcell gKubeTemplatePolicyStatus :=
  {| cell_of := CKubeTemplatePolicyStatus; from_cell c := match c with CKubeTemplatePolicyStatus x => Some x | _ => None end |}.
Solve Obligations with done.

Definition KubeTemplatePolicy_DeepCopyInto (x : gKubeTemplatePolicy) (h : memory gcell) : option (gKubeTemplatePolicy * memory gcell) :=
  '(out_ObjectMeta, h) ← deepcopy (gp_ObjectMeta x) h;
  '(out_Spec, h) ← deepcopy (gp_Spec x) h;
  '(out_Status, h) ← deepcopy (gp_Status x) h;
  Some ({| gp_TypeMeta := gp_TypeMeta x; gp_ObjectMeta := out_ObjectMeta; gp_Spec := out_Spec;
    gp_Status := out_Status |}, h).

Definition KubeTemplatePolicy_fields (x : gKubeTemplatePolicy) :=
  (gp_TypeMeta x, gp_ObjectMeta x, gp_Spec x, gp_Status x).

#[export] Instance KubeTemplatePolicy_GoType : GoType gcell gKubeTemplatePolicy :=
  {| look h x := look h (KubeTemplatePolicy_fields x); deepcopy := KubeTemplatePolicy_DeepCopyInto |}.

#[export] Program Instance KubeTemplatePolicy_InCell : InCell gcell gKubeTemplatePolicy :=
  {| cell_of := CKubeTemplatePolicy; from_cell c := match c with CKubeTemplatePolicy x => Some x | _ => None end |}.
Solve Obligations with done.

Definition KubeTemplatePolicyList_DeepCopyInto (x : gKubeTemplatePolicyList) (h : memory gcell) : option (gKubeTemplatePolicyList * memory gcell) :=
  '(out_ListMeta, h) ← deepcopy (gpl_ListMeta x) h;
  '(out_Items, h) ← deepcopy (gpl_Items x) h;
  Some ({| gpl_TypeMeta := gpl_TypeMeta x; gpl_ListMeta := out_ListMeta; gpl_Items := out_Items
    |}, h).

Definition KubeTemplatePolicyList_fields (x : gKubeTemplatePolicyList) :=
  (gpl_TypeMeta x, gpl_ListMeta x, gpl_Items x).

#[export] Instance KubeTemplatePolicyList_GoType : GoType gcell gKubeTemplatePolicyList :=
  {| look h x := look h (KubeTemplatePolicyList_fields x); deepcopy := KubeTemplatePolicyList_DeepCopyInto |}.

#[export] Program Instance KubeTemplatePolicyList_InCell : InCell gcell gKubeTemplatePolicyList :=
  {| cell_of := CKubeTemplatePolicyList; from_cell c := match c with CKubeTemplatePolicyList x => Some x | _ => None end |}.
Solve Obligations with done.

Definition Template_DeepCopyInto (x : gTemplate) (h : memory gcell) : option (gTemplate * memory gcell) :=
  '(out_Object, h) ← deepcopy (gt_Object x) h;
  Some ({| gt_Object := out_Object; gt_Replace := gt_Replace x; gt_Referenced := gt_Referenced x
    |}, h).

Definition Template_fields (x : gTemplate) :=
  (gt_Object x, gt_Replace x, gt_Referenced x).

#[export] Instance Template_GoType : GoType gcell gTemplate :=
  {| look h x := look h (Template_fields x); deepcopy := Template_DeepCopyInto |}.

#[export] Program Instance Template_InCell : InCell gcell gTemplate :=
  {| cell_of := CTemplate; from_cell c := match c with CTemplate x => Some x | _ => None end |}.
Solve Obligations with done.

Definition KubeTemplateSpec_DeepCopyInto (x : gKubeTemplateSpec) (h : memory gcell) : option (gKubeTemplateSpec * memory gcell) :=
  '(out_Templates, h) ← deepcopy (gs_Templates x) h;
  Some ({| gs_Templates := out_Templates |}, h).

Definition KubeTemplateSpec_fields (x : gKubeTemplateSpec) :=
  gs_Templates x.

#[export] Instance KubeTemplateSpec_GoType : GoType gcell gKubeTemplateSpec :=
  {| look h x := look h (KubeTemplateSpec_fields x); deepcopy := KubeTemplateSpec_DeepCopyInto |}.

#[export] Program Instance KubeTemplateSpec_InCell : InCell gcell gKubeTemplateSpec :=
  {| cell_of := CKubeTemplateSpec; from_cell c := match c with CKubeTemplateSpec x => Some x | _ => None end |}.
Solve Obligations with done.

Definition KubeTemplateStatus_DeepCopyInto (x : gKubeTemplateStatus) (h : memory gcell) : option (gKubeTemplateStatus * memory gcell) :=
  '(out_QueuedAt, h) ← deepcopy (gst_QueuedAt x) h;
  '(out_ProcessedAt, h) ← deepcopy (gst_ProcessedAt x) h;
  '(out_LastReconcileTime, h) ← deepcopy (gst_LastReconcileTime x) h;
  '(out_LastDriftDetected, h) ← deepcopy (gst_LastDriftDetected x) h;
  '(out_PausedAt, h) ← deepcopy (gst_PausedAt x) h;
  Some ({| gst_Status := gst_Status x; gst_ProcessingPhase := gst_ProcessingPhase x;
    gst_QueuedAt := out_QueuedAt; gst_ProcessedAt := out_ProcessedAt; gst_RetryCount :=
    gst_RetryCount x; gst_RetryCycle := gst_RetryCycle x; gst_LastReconcileTime :=
    out_LastReconcileTime; gst_ResourcesTotal := gst_ResourcesTotal x; gst_ResourcesSynced :=
    gst_ResourcesSynced x; gst_LastDriftDetected := out_LastDriftDetected;
    gst_DriftDetectionCount := gst_DriftDetectionCount x; gst_DryRunChecks := gst_DryRunChecks
    x; gst_AppliedSpecHash := gst_AppliedSpecHash x; gst_PausedReason := gst_PausedReason x;
    gst_PausedAt := out_PausedAt |}, h).

Definition KubeTemplateStatus_fields (x : gKubeTemplateStatus) :=
  (gst_Status x, gst_ProcessingPhase x, gst_QueuedAt x, gst_ProcessedAt x, gst_RetryCount x,
   gst_RetryCycle x, gst_LastReconcileTime x, gst_ResourcesTotal x, gst_ResourcesSynced x,
   gst_LastDriftDetected x, gst_DriftDetectionCount x, gst_DryRunChecks x, gst_AppliedSpecHash
   x, gst_PausedReason x, gst_PausedAt x).

#[export] Instance KubeTemplateStatus_GoType : GoType gcell gKubeTemplateStatus :=
  {| look h x := look h (KubeTemplateStatus_fields x); deepcopy := KubeTemplateStatus_DeepCopyInto |}.

#[export] Program Instance KubeTemplateStatus_InCell : InCell gcell gKubeTemplateStatus :=
  {| cell_of := CKubeTemplateStatus; from_cell c := match c with CKubeTemplateStatus x => Some x | _ => None end |}.
Solve Obligations with done.

Definition KubeTemplate_DeepCopyInto (x : gKubeTemplate) (h : memory gcell) : option (gKubeTemplate * memory gcell) :=
  '(out_ObjectMeta, h) ← deepcopy (gkt_ObjectMeta x) h;
  '(out_Spec, h) ← deepcopy (gkt_Spec x) h;
  '(out_Status, h) ← deepcopy (gkt_Status x) h;
  Some ({| gkt_TypeMeta := gkt_TypeMeta x; gkt_ObjectMeta := out_ObjectMeta; gkt_Spec :=
    out_Spec; gkt_Status := out_Status |}, h).

Definition KubeTemplate_fields (x : gKubeTemplate) :=
  (gkt_TypeMeta x, gkt_ObjectMeta x, gkt_Spec x, gkt_Status x).

#[export] Instance KubeTemplate_GoType : GoType gcell gKubeTemplate :=
  {| look h x := look h (KubeTemplate_fields x); deepcopy := KubeTemplate_DeepCopyInto |}.

#[export] Program Instance KubeTemplate_InCell : InCell gcell gKubeTemplate :=
  {| cell_of := CKubeTemplate; from_cell c := match c with CKubeTemplate x => Some x | _ => None end |}.
Solve Obligations with done.

Definition KubeTemplateList_DeepCopyInto (x : gKubeTemplateList) (h : memory gcell) : option (gKubeTemplateList * memory gcell) :=
  '(out_ListMeta, h) ← deepcopy (gktl_ListMeta x) h;
  '(out_Items, h) ← deepcopy (gktl_Items x) h;
  Some ({| gktl_TypeMeta := gktl_TypeMeta x; gktl_ListMeta := out_ListMeta; gktl_Items :=
    out_Items |}, h).

Definition KubeTemplateList_fields (x : gKubeTemplateList) :=
  (gktl_TypeMeta x, gktl_ListMeta x, gktl_Items x).

#[export] Instance KubeTemplateList_GoType : GoType gcell gKubeTemplateList :=
  {| look h x := look h (KubeTemplateList_fields x); deepcopy := KubeTemplateList_DeepCopyInto |}.

#[export] Program Instance KubeTemplateList_InCell : InCell gcell gKubeTemplateList :=
  {| cell_of := CKubeTemplateList; from_cell c := match c with CKubeTemplateList x => Some x | _ => None end |}.
Solve Obligations with done.

(** ** [DeepCopy] and [DeepCopyObject] *)

(** A pointer to a struct: [new], and [DeepCopyInto]; nil for nil. *)
Definition DeepCopy {T : Type} `{GoType gcell T} `{!InCell gcell T} (x : gptr T) (h : memory gcell)
    : option (gptr T * memory gcell) := deepcopy x h.

Definition FieldValidation_DeepCopy : gptr gFieldValidation → memory gcell → option (gptr gFieldValidation * memory gcell) :=
  DeepCopy.
Definition ValidationRule_DeepCopy : gptr gValidationRule → memory gcell → option (gptr gValidationRule * memory gcell) :=
  DeepCopy.
Definition KubeTemplatePolicySpec_DeepCopy : gptr gKubeTemplatePolicySpec → memory gcell → option (gptr gKubeTemplatePolicySpec * memory gcell) :=
  DeepCopy.
Definition KubeTemplatePolicyStatus_DeepCopy : gptr gKubeTemplatePolicyStatus → memory gcell → option (gptr gKubeTemplatePolicyStatus * memory gcell) :=
  DeepCopy.
Definition KubeTemplatePolicy_DeepCopy : gptr gKubeTemplatePolicy → memory gcell → option (gptr gKubeTemplatePolicy * memory gcell) :=
  DeepCopy.
Definition KubeTemplatePolicyList_DeepCopy : gptr gKubeTemplatePolicyList → memory gcell → option (gptr gKubeTemplatePolicyList * memory gcell) :=
  DeepCopy.
Definition Template_DeepCopy : gptr gTemplate → memory gcell → option (gptr gTemplate * memory gcell) :=
  DeepCopy.
Definition KubeTemplateSpec_DeepCopy : gptr gKubeTemplateSpec → memory gcell → option (gptr gKubeTemplateSpec * memory gcell) :=
  DeepCopy.
Definition KubeTemplateStatus_DeepCopy : gptr gKubeTemplateStatus → memory gcell → option (gptr gKubeTemplateStatus * memory gcell) :=
  DeepCopy.
Definition KubeTemplate_DeepCopy : gptr gKubeTemplate → memory gcell → option (gptr gKubeTemplate * memory gcell) :=
  DeepCopy.
Definition KubeTemplateList_DeepCopy : gptr gKubeTemplateList → memory gcell → option (gptr gKubeTemplateList * memory gcell) :=
  DeepCopy.

(** A [runtime.Object]: the nil interface, or a pointer that is not nil. *)
Definition DeepCopyObject {T : Type} `{GoType gcell T} `{!InCell gcell T} (x : gptr T) (h : memory gcell)
    : option (option (gptr T) * memory gcell) :=
  '(c, h') ← DeepCopy x h;
  match c with PNil => Some (None, h') | PRef _ => Some (Some c, h') end.

Definition KubeTemplate_DeepCopyObject : gptr gKubeTemplate → memory gcell → option (option (gptr gKubeTemplate) * memory gcell) :=
  DeepCopyObject.
Definition KubeTemplateList_DeepCopyObject : gptr gKubeTemplateList → memory gcell → option (option (gptr gKubeTemplateList) * memory gcell) :=
  DeepCopyObject.
Definition KubeTemplatePolicy_DeepCopyObject : gptr gKubeTemplatePolicy → memory gcell → option (option (gptr gKubeTemplatePolicy) * memory gcell) :=
  DeepCopyObject.
Definition KubeTemplatePolicyList_DeepCopyObject : gptr gKubeTemplatePolicyList → memory gcell → option (option (gptr gKubeTemplatePolicyList) * memory gcell) :=
  DeepCopyObject.
End copies.
