(* ===== verification/DeepCopySpec.v ===== *)
(** Deep copies of the resource types share no memory with their originals. *)
From stdpp Require Import base option list gmap strings.
From S2P Require Import Prelude GoMemory DeepCopy.
From Stdlib Require Import ZArith.

Section laws.
Context `{ForeignCopyLaws}.

#[export] Instance TypeMeta_laws : GoTypeLaws gcell gTypeMeta.
Proof. apply flat_laws; [by intros m; eexists|done]. Qed.

(** Copying a struct is copying the tuple of its fields. *)
Local Tactic Notation "struct_laws" constr(f) constr(g) reference(d) :=
  apply (iso_laws f g);
    [intros x; repeat match goal with x : _ * _ |- _ => destruct x end; done|done|];
  intros h x; cbn; unfold d; destruct x; cbn;
  repeat match goal with |- (?m ≫= _) = _ => destruct m as [[? ?]|]; cbn; [|done] end; done.

Definition FieldValidation_of (t : string * string * string * string * string * gptr Z * gptr Z * bool * string) : gFieldValidation :=
  let '(x0, x1, x2, x3, x4, x5, x6, x7, x8) := t in
  {| gfv_Name := x0; gfv_FieldPath := x1; gfv_Type := x2; gfv_CEL := x3; gfv_Regex := x4;
     gfv_Min := x5; gfv_Max := x6; gfv_Required := x7; gfv_Message := x8 |}.

#[export] Instance FieldValidation_laws : GoTypeLaws gcell gFieldValidation.
Proof using All. struct_laws FieldValidation_fields FieldValidation_of FieldValidation_DeepCopyInto. Qed.
#[local] Opaque FieldValidation_DeepCopyInto.

Definition ValidationRule_of (t : string * string * string * string * gslice gFieldValidation * gslice string) : gValidationRule :=
  let '(x0, x1, x2, x3, x4, x5) := t in
  {| gvr_Kind := x0; gvr_Group := x1; gvr_Version := x2; gvr_Rule := x3; gvr_FieldValidations :=
     x4; gvr_TargetNamespaces := x5 |}.

#[export] Instance ValidationRule_laws : GoTypeLaws gcell gValidationRule.
Proof using All. struct_laws ValidationRule_fields ValidationRule_of ValidationRule_DeepCopyInto. Qed.
#[local] Opaque ValidationRule_DeepCopyInto.

Definition KubeTemplatePolicySpec_of (t : string * gslice gValidationRule) : gKubeTemplatePolicySpec :=
  let '(x0, x1) := t in
  {| gps_SourceNamespace := x0; gps_ValidationRules := x1 |}.

#[export] Instance KubeTemplatePolicySpec_laws : GoTypeLaws gcell gKubeTemplatePolicySpec.
Proof using All. struct_laws KubeTemplatePolicySpec_fields KubeTemplatePolicySpec_of KubeTemplatePolicySpec_DeepCopyInto. Qed.
#[local] Opaque KubeTemplatePolicySpec_DeepCopyInto.

Definition KubeTemplatePolicyStatus_of (t : bool * Z * option gTime * Z * Z) : gKubeTemplatePolicyStatus :=
  let '(x0, x1, x2, x3, x4) := t in
  {| gpst_Active := x0; gpst_TemplatesUsing := x1; gpst_LastValidationTime := x2;
     gpst_ValidationSuccesses := x3; gpst_ValidationFailures := x4 |}.

#[export] Instance KubeTemplatePolicyStatus_laws : GoTypeLaws gcell gKubeTemplatePolicyStatus.
Proof using All. struct_laws KubeTemplatePolicyStatus_fields KubeTemplatePolicyStatus_of KubeTemplatePolicyStatus_DeepCopyInto. Qed.
#[local] Opaque KubeTemplatePolicyStatus_DeepCopyInto.

Definition KubeTemplatePolicy_of (t : gTypeMeta * gObjectMeta * gKubeTemplatePolicySpec * gKubeTemplatePolicyStatus) : gKubeTemplatePolicy :=
  let '(x0, x1, x2, x3) := t in
  {| gp_TypeMeta := x0; gp_ObjectMeta := x1; gp_Spec := x2; gp_Status := x3 |}.

#[export] Instance KubeTemplatePolicy_laws : GoTypeLaws gcell gKubeTemplatePolicy.
Proof using All. struct_laws KubeTemplatePolicy_fields KubeTemplatePolicy_of KubeTemplatePolicy_DeepCopyInto. Qed.
#[local] Opaque KubeTemplatePolicy_DeepCopyInto.

Definition KubeTemplatePolicyList_of (t : gTypeMeta * gListMeta * gslice gKubeTemplatePolicy) : gKubeTemplatePolicyList :=
  let '(x0, x1, x2) := t in
  {| gpl_TypeMeta := x0; gpl_ListMeta := x1; gpl_Items := x2 |}.

#[export] Instance KubeTemplatePolicyList_laws : GoTypeLaws gcell gKubeTemplatePolicyList.
Proof using All. struct_laws KubeTemplatePolicyList_fields KubeTemplatePolicyList_of KubeTemplatePolicyList_DeepCopyInto. Qed.
#[local] Opaque KubeTemplatePolicyList_DeepCopyInto.

Definition Template_of (t : gRawExtension * bool * bool) : gTemplate :=
  let '(x0, x1, x2) := t in
  {| gt_Object := x0; gt_Replace := x1; gt_Referenced := x2 |}.

#[export] Instance Template_laws : GoTypeLaws gcell gTemplate.
Proof using All. struct_laws Template_fields Template_of Template_DeepCopyInto. Qed.
#[local] Opaque Template_DeepCopyInto.

Definition KubeTemplateSpec_of (t : gslice gTemplate) : gKubeTemplateSpec :=
  let x0 := t in
  {| gs_Templates := x0 |}.

#[export] Instance KubeTemplateSpec_laws : GoTypeLaws gcell gKubeTemplateSpec.
Proof using All. struct_laws KubeTemplateSpec_fields KubeTemplateSpec_of KubeTemplateSpec_DeepCopyInto. Qed.
#[local] Opaque KubeTemplateSpec_DeepCopyInto.

Definition KubeTemplateStatus_of (t : string * string * option gTime * option gTime * Z * Z * option gTime * Z * Z * option gTime * Z * Z * string * string * option gTime) : gKubeTemplateStatus :=
  let '(x0, x1, x2, x3, x4, x5, x6, x7, x8, x9, x10, x11, x12, x13, x14) := t in
  {| gst_Status := x0; gst_ProcessingPhase := x1; gst_QueuedAt := x2; gst_ProcessedAt := x3;
     gst_RetryCount := x4; gst_RetryCycle := x5; gst_LastReconcileTime := x6; gst_ResourcesTotal
     := x7; gst_ResourcesSynced := x8; gst_LastDriftDetected := x9; gst_DriftDetectionCount :=
     x10; gst_DryRunChecks := x11; gst_AppliedSpecHash := x12; gst_PausedReason := x13;
     gst_PausedAt := x14 |}.

#[export] Instance KubeTemplateStatus_laws : GoTypeLaws gcell gKubeTemplateStatus.
Proof using All. struct_laws KubeTemplateStatus_fields KubeTemplateStatus_of KubeTemplateStatus_DeepCopyInto. Qed.
#[local] Opaque KubeTemplateStatus_DeepCopyInto.

Definition KubeTemplate_of (t : gTypeMeta * gObjectMeta * gKubeTemplateSpec * gKubeTemplateStatus) : gKubeTemplate :=
  let '(x0, x1, x2, x3) := t in
  {| gkt_TypeMeta := x0; gkt_ObjectMeta := x1; gkt_Spec := x2; gkt_Status := x3 |}.

#[export] Instance KubeTemplate_laws : GoTypeLaws gcell gKubeTemplate.
Proof using All. struct_laws KubeTemplate_fields KubeTemplate_of KubeTemplate_DeepCopyInto. Qed.
#[local] Opaque KubeTemplate_DeepCopyInto.

Definition KubeTemplateList_of (t : gTypeMeta * gListMeta * gslice gKubeTemplate) : gKubeTemplateList :=
  let '(x0, x1, x2) := t in
  {| gktl_TypeMeta := x0; gktl_ListMeta := x1; gktl_Items := x2 |}.

#[export] Instance KubeTemplateList_laws : GoTypeLaws gcell gKubeTemplateList.
Proof using All. struct_laws KubeTemplateList_fields KubeTemplateList_of KubeTemplateList_DeepCopyInto. Qed.
#[local] Opaque KubeTemplateList_DeepCopyInto.

Lemma DeepCopyObject_ok {T} `{GoTypeLaws gcell T} `{!InCell gcell T} (x : gptr T) (h : memory gcell) v F :
  x ≠ PNil → look h x = Some (v, F) →
  ∃ x' h', DeepCopyObject x h = Some (Some x', h') ∧ independent x h x' h'.
Proof using Type.
  intros Hx Hl. destruct (deepcopy_independent x h v F Hl) as (x' & h' & Hc & Hi).
  exists x', h'. split; [|done]. unfold DeepCopyObject, DeepCopy. rewrite Hc. simpl.
  destruct x' as [|l]; [|done]. exfalso. destruct x as [|l]; [done|]. simpl in Hc.
  by apply bind_Some in Hc as ([q h1] & _ & [=]).
Qed.

(** C12.  The deep copies of templates, policies and lists of them: the copy of nil is the
    nil object; a copy of an object whose references are valid always exists, looks like
    the original, and the two are independent, so that no later write to the memory of
    one of them, through whatever pointer or slice, shows in the other. *)
Theorem deep_copies_independent (h : memory gcell) :
  (∀ (x : gptr gKubeTemplate) v F, x ≠ PNil → look h x = Some (v, F) →
     ∃ x' h', KubeTemplate_DeepCopyObject x h = Some (Some x', h') ∧ independent x h x' h') ∧
  (∀ (x : gptr gKubeTemplateList) v F, x ≠ PNil → look h x = Some (v, F) →
     ∃ x' h', KubeTemplateList_DeepCopyObject x h = Some (Some x', h') ∧ independent x h x' h') ∧
  (∀ (x : gptr gKubeTemplatePolicy) v F, x ≠ PNil → look h x = Some (v, F) →
     ∃ x' h', KubeTemplatePolicy_DeepCopyObject x h = Some (Some x', h') ∧ independent x h x' h') ∧
  (∀ (x : gptr gKubeTemplatePolicyList) v F, x ≠ PNil → look h x = Some (v, F) →
     ∃ x' h', KubeTemplatePolicyList_DeepCopyObject x h = Some (Some x', h') ∧ independent x h x' h') ∧
  KubeTemplate_DeepCopyObject PNil h = Some (None, h) ∧
  KubeTemplatePolicy_DeepCopyObject PNil h = Some (None, h).
Proof using All. split_and!; [intros x v F; apply DeepCopyObject_ok..|done|done]. Qed.
End laws.

(** ** A policy in memory, with metadata that is a list of labels *)
#[local] Instance ex_foreign : ForeignTypes :=
  {| gObjectMeta := gslice string; gListMeta := string; gRawExtension := gptr string; gTime := gptr Z;
     foreign_cell := unit |}.
#[local] Instance ex_copies : ForeignCopies :=
  {| ObjectMeta_GoType := gslice_GoType (cell := gcell) (T := string) : GoType gcell gObjectMeta;
     ListMeta_GoType := string_GoType (cell := gcell) : GoType gcell gListMeta;
     RawExtension_GoType := gptr_GoType (cell := gcell) (T := string) : GoType gcell gRawExtension;
     Time_GoType := gptr_GoType (cell := gcell) (T := Z) : GoType gcell gTime |}.
#[local] Instance ex_laws : ForeignCopyLaws.
Proof.
  split; [exact (gslice_laws (cell := gcell) (T := string))|exact (string_laws (cell := gcell))
    |exact (gptr_laws (cell := gcell) (T := string))|exact (gptr_laws (cell := gcell) (T := Z))].
Qed.

Definition ex_memory : memory gcell :=
  {[ 1%positive := [CKubeTemplatePolicy
       {| gp_TypeMeta := {| gtm_Kind := "KubeTemplatePolicy"; gtm_APIVersion := "v1alpha1" |};
          gp_ObjectMeta := (GSlice 4%positive 1 : gslice string);
          gp_Spec := {| gps_SourceNamespace := "team"; gps_ValidationRules := GSlice 2%positive 1 |};
          gp_Status := {| gpst_Active := true; gpst_TemplatesUsing := 0; gpst_LastValidationTime := None;
                          gpst_ValidationSuccesses := 0; gpst_ValidationFailures := 0 |} |}];
     2%positive := [CValidationRule
       {| gvr_Kind := "ConfigMap"; gvr_Group := ""; gvr_Version := "v1"; gvr_Rule := "";
          gvr_FieldValidations := GSlice 3%positive 1; gvr_TargetNamespaces := GSlice 4%positive 2 |}];
     3%positive := [CFieldValidation
       {| gfv_Name := "size"; gfv_FieldPath := "data.replicas"; gfv_Type := "range"; gfv_CEL := "";
          gfv_Regex := ""; gfv_Min := PRef 5%positive; gfv_Max := PNil; gfv_Required := false; gfv_Message := "" |}];
     4%positive := [CString "team"; CString "shared"];
     5%positive := [CInt 1] ]}.

Definition ex_policy : gptr gKubeTemplatePolicy := PRef 1%positive.
Definition ex_seen : dval * gset gloc := default (DNil, ∅) (look ex_memory ex_policy).

Lemma deep_copies_independent_witness :
  ∃ x' h', KubeTemplatePolicy_DeepCopyObject ex_policy ex_memory = Some (Some x', h') ∧
    independent ex_policy ex_memory x' h'.
Proof.
  destruct (deep_copies_independent ex_memory) as (_ & _ & Hp & _).
  refine (Hp ex_policy ex_seen.1 ex_seen.2 _ _); [discriminate|vm_compute; reflexivity].
Defined.
