(* ===== verification/Flags.v ===== *)
(** The command line of [cmd/main.go]: the flags it registers, and [flag.Parse] of Go's
    standard library with the policy [ExitOnError]. *)
From stdpp Require Import base option list gmap strings.
From S2P Require Import Prelude.
From Stdlib Require Import ZArith Ascii.

Local Open Scope Z_scope.

Record Flags := mkFlags {
  metricsAddr : string;
  probeAddr : string;
  enableLeaderElection : bool;
  secureMetrics : bool;
  webhookCertPath : string;
  webhookCertName : string;
  webhookCertKey : string;
  webhookCertSecretName : string;
  webhookServiceName : string;
  webhookConfigurationName : string;
  metricsCertPath : string;
  metricsCertName : string;
  metricsCertKey : string;
  enableHTTP2 : bool
}.

Definition default_flags : Flags := {|
  metricsAddr := "0"; probeAddr := ":8081"; enableLeaderElection := false; secureMetrics := true;
  webhookCertPath := ""; webhookCertName := "tls.crt"; webhookCertKey := "tls.key";
  webhookCertSecretName := ""; webhookServiceName := "kubetemplater-webhook-service";
  webhookConfigurationName := "kubetemplater-validating-webhook-configuration";
  metricsCertPath := ""; metricsCertName := "tls.crt"; metricsCertKey := "tls.key";
  enableHTTP2 := false
|}.

(** What a registered flag does with its value. *)
Inductive Flag :=
  | FString (set : string → Flags → Flags)
  | FBool (set : bool → Flags → Flags).

(** The registrations of [main], in their order; each sets one field. *)
Definition registered : list (string * Flag) :=
  [("metrics-bind-address", FString (λ x '(mkFlags _ b c d e f g h i j k l m n), mkFlags x b c d e f g h i j k l m n));
   ("health-probe-bind-address", FString (λ x '(mkFlags a _ c d e f g h i j k l m n), mkFlags a x c d e f g h i j k l m n));
   ("leader-elect", FBool (λ x '(mkFlags a b _ d e f g h i j k l m n), mkFlags a b x d e f g h i j k l m n));
   ("metrics-secure", FBool (λ x '(mkFlags a b c _ e f g h i j k l m n), mkFlags a b c x e f g h i j k l m n));
   ("webhook-cert-path", FString (λ x '(mkFlags a b c d _ f g h i j k l m n), mkFlags a b c d x f g h i j k l m n));
   ("webhook-cert-name", FString (λ x '(mkFlags a b c d e _ g h i j k l m n), mkFlags a b c d e x g h i j k l m n));
   ("webhook-cert-key", FString (λ x '(mkFlags a b c d e f _ h i j k l m n), mkFlags a b c d e f x h i j k l m n));
   ("webhook-cert-secret-name", FString (λ x '(mkFlags a b c d e f g _ i j k l m n), mkFlags a b c d e f g x i j k l m n));
   ("webhook-service-name", FString (λ x '(mkFlags a b c d e f g h _ j k l m n), mkFlags a b c d e f g h x j k l m n));
   ("webhook-configuration-name", FString (λ x '(mkFlags a b c d e f g h i _ k l m n), mkFlags a b c d e f g h i x k l m n));
   ("metrics-cert-path", FString (λ x '(mkFlags a b c d e f g h i j _ l m n), mkFlags a b c d e f g h i j x l m n));
   ("metrics-cert-name", FString (λ x '(mkFlags a b c d e f g h i j k _ m n), mkFlags a b c d e f g h i j k x m n));
   ("metrics-cert-key", FString (λ x '(mkFlags a b c d e f g h i j k l _ n), mkFlags a b c d e f g h i j k l x n));
   ("enable-http2", FBool (λ x '(mkFlags a b c d e f g h i j k l m _), mkFlags a b c d e f g h i j k l m x))]%string.

Definition formal (name : string) : option Flag :=
  r ← list_find (λ kv, kv.1 = name) registered; Some r.2.2.

(** Flags that other packages register: the logger's options and the path of the
    kubeconfig.  A flag is boolean or not, and accepts a value or not. *)
Class OtherFlags := {
  other_flag : string → option bool;
  other_accepts : string → string → bool
}.

(** [strconv.ParseBool] *)
Definition ParseBool (s : string) : option bool :=
  if bool_decide (s ∈ ["1"; "t"; "T"; "true"; "TRUE"; "True"]%string) then Some true
  else if bool_decide (s ∈ ["0"; "f"; "F"; "false"; "FALSE"; "False"]%string) then Some false
  else None.

(** The name before the first ["="] that is not the first character, and the value after
    it. *)
Fixpoint cut_equals (s : string) : string * option string :=
  match s with
  | EmptyString => (EmptyString, None)
  | String c r =>
      if bool_decide (c = "="%char) then (EmptyString, Some r)
      else let '(name, v) := cut_equals r in (String c name, v)
  end.

Definition split_flag (s : string) : string * option string :=
  match s with
  | EmptyString => (EmptyString, None)
  | String c r => let '(name, v) := cut_equals r in (String c name, v)
  end.

(** An argument: not a flag, the terminator ["--"], malformed, or a flag with its name
    and perhaps a value. *)
Inductive Argument :=
  | NotAFlag
  | Terminator
  | BadSyntax
  | FlagArg (name : string) (value : option string).

Definition flag_body (s : string) : Argument :=
  match s with
  | EmptyString => BadSyntax
  | String c _ =>
      if bool_decide (c = "-"%char) || bool_decide (c = "="%char) then BadSyntax
      else let '(name, v) := split_flag s in FlagArg name v
  end.

Definition classify (s : string) : Argument :=
  match s with
  | String a (String b r) =>
      if negb (bool_decide (a = "-"%char)) then NotAFlag
      else if bool_decide (b = "-"%char) then
        match r with EmptyString => Terminator | _ => flag_body r end
      else flag_body (String b r)
  | _ => NotAFlag
  end.

(** [ErrHelp] exits with 0, any other error with 2. *)
Definition undefined_code (name : string) : Z :=
  if bool_decide (name = "help"%string) || bool_decide (name = "h"%string) then 0 else 2.

Section parse.
Context `{OtherFlags}.

(** A boolean flag takes no value from the next argument. *)
Definition set_bool (name : string) (value : option string) (f : Flags) : Z + Flags :=
  match formal name with
  | Some (FBool set) =>
      match ParseBool (default "true"%string value) with
      | Some b => inr (set b f)
      | None => inl 2
      end
  | _ => if other_accepts name (default "true"%string value) then inr f else inl 2
  end.

Definition set_value (name value : string) (f : Flags) : Z + Flags :=
  match formal name with
  | Some (FString set) => inr (set value f)
  | _ => if other_accepts name value then inr f else inl 2
  end.

(** Whether the flag is boolean, or [None] if there is no such flag. *)
Definition flag_kind (name : string) : option bool :=
  match formal name with
  | Some (FBool _) => Some true
  | Some (FString _) => Some false
  | None => other_flag name
  end.

(** [flag.Parse]: the exit code, or the flags; what follows the flags is ignored. *)
Fixpoint parse (args : list string) (f : Flags) : Z + Flags :=
  match args with
  | [] => inr f
  | s :: rest =>
      match classify s with
      | NotAFlag | Terminator => inr f
      | BadSyntax => inl 2
      | FlagArg name value =>
          match flag_kind name with
          | None => inl (undefined_code name)
          | Some true =>
              match set_bool name value f with inl code => inl code | inr f' => parse rest f' end
          | Some false =>
              match value, rest with
              | Some v, _ =>
                  match set_value name v f with inl code => inl code | inr f' => parse rest f' end
              | None, v :: rest' =>
                  match set_value name v f with inl code => inl code | inr f' => parse rest' f' end
              | None, [] => inl 2
              end
          end
      end
  end.

Definition parse_flags (args : list string) : Z + Flags := parse args default_flags.
End parse.

(** The command line that sets every flag. *)
Definition show_bool (b : bool) : string := if b then "true" else "false".

Definition print_flags (f : Flags) : list string :=
  (λ kv, "--" +:+ kv.1 +:+ "=" +:+ kv.2) <$>
  [("metrics-bind-address", metricsAddr f);
   ("health-probe-bind-address", probeAddr f);
   ("leader-elect", show_bool (enableLeaderElection f));
   ("metrics-secure", show_bool (secureMetrics f));
   ("webhook-cert-path", webhookCertPath f);
   ("webhook-cert-name", webhookCertName f);
   ("webhook-cert-key", webhookCertKey f);
   ("webhook-cert-secret-name", webhookCertSecretName f);
   ("webhook-service-name", webhookServiceName f);
   ("webhook-configuration-name", webhookConfigurationName f);
   ("metrics-cert-path", metricsCertPath f);
   ("metrics-cert-name", metricsCertName f);
   ("metrics-cert-key", metricsCertKey f);
   ("enable-http2", show_bool (enableHTTP2 f))]%string.
