(* ===== verification/FlagsSpec.v ===== *)
(** The command line: settings in any of the spellings that Go accepts are applied in
    their order, and printed flags are read back. *)
From stdpp Require Import base option list gmap strings.
From S2P Require Import Prelude Flags.
From Stdlib Require Import ZArith.

Local Open Scope Z_scope.

(** One setting: with one or two dashes, with ["="] or, for a string, in two arguments,
    or, for a boolean that is switched on, without a value. *)
Inductive Spelling := Equals (dashes : string) | TwoArguments (dashes : string) | Bare (dashes : string).

Record Setting := { set_name : string; set_to : string; set_spelling : Spelling }.

Definition render (s : Setting) : list string :=
  match set_spelling s with
  | Equals d => [d +:+ set_name s +:+ "=" +:+ set_to s]
  | TwoArguments d => [d +:+ set_name s; set_to s]
  | Bare d => [d +:+ set_name s]
  end.

Definition dashes (s : Spelling) : string := match s with Equals d | TwoArguments d | Bare d => d end.

(** What the setting does, if it is one of [main]'s flags and spelled as its kind needs. *)
Definition meaning (s : Setting) : option (Flags → Flags) :=
  if bool_decide (dashes (set_spelling s) = "-"%string ∨ dashes (set_spelling s) = "--"%string) then
    match formal (set_name s), set_spelling s with
    | Some (FString set), (Equals _ | TwoArguments _) => Some (set (set_to s))
    | Some (FBool set), Equals _ => b ← ParseBool (set_to s); Some (set b)
    | Some (FBool set), Bare _ => Some (set true)
    | _, _ => None
    end
  else None.

Section parse.
Context `{OtherFlags}.

Lemma formal_registered name flag : formal name = Some flag → (name, flag) ∈ registered.
Proof.
  unfold formal. intros ((i & kv) & (Hi & Hkv & _)%list_find_Some & [= <-])%bind_Some.
  simpl in *. subst name. destruct kv. by eapply list_elem_of_lookup_2.
Qed.

(** Each registered flag, in each spelling. *)
Lemma classify_registered name flag d v :
  (name, flag) ∈ registered → d = "-"%string ∨ d = "--"%string →
  classify (d +:+ name) = FlagArg name None ∧
  classify (d +:+ name +:+ "=" +:+ v) = FlagArg name (Some v).
Proof.
  intros Hin Hd. unfold registered in Hin.
  repeat (apply elem_of_cons in Hin as [[= -> ->]|Hin]; [destruct Hd as [-> | ->]; by split|]).
  by apply elem_of_nil in Hin.
Qed.

Lemma parse_setting s g rest f :
  meaning s = Some g → parse (render s ++ rest) f = parse rest (g f).
Proof.
  destruct s as [name v sp]. unfold meaning, render. cbn [set_name set_to set_spelling].
  case_bool_decide as Hd; [|done]. destruct (formal name) as [flag|] eqn:Hf; [|done].
  pose proof (formal_registered _ _ Hf) as Hin.
  destruct (classify_registered name flag (dashes sp) v Hin Hd) as [Hbare Heq].
  destruct flag as [set|set], sp as [d|d|d]; simpl dashes in *; try done.
  - intros [= <-]. cbn [app parse]. rewrite Heq. unfold flag_kind, set_value. by rewrite Hf.
  - intros [= <-]. cbn [app parse]. rewrite Hbare. unfold flag_kind, set_value. by rewrite Hf.
  - intros (b & Hb & [= <-])%bind_Some. cbn [app parse]. rewrite Heq. unfold flag_kind, set_bool.
    rewrite Hf. simpl. by rewrite Hb.
  - intros [= <-]. cbn [app parse]. rewrite Hbare. unfold flag_kind, set_bool. by rewrite Hf.
Qed.

Lemma parse_settings ss gs rest f :
  mapM meaning ss = Some gs → parse (concat (render <$> ss) ++ rest) f = parse rest (foldl (λ x g, g x) f gs).
Proof.
  revert gs f. induction ss as [|s ss IH]; intros gs f; simpl.
  { by intros [= <-]. }
  intros (g & Hg & (gs' & Hgs & [= <-])%bind_Some)%bind_Some. simpl.
  by rewrite <- app_assoc, (parse_setting s g _ _ Hg), (IH gs' _ Hgs).
Qed.

(** C37.  Any sequence of settings of [main]'s flags, each in any spelling that Go
    accepts, is applied in its order, up to the end of the arguments, a ["--"] or the
    first argument that is not a flag; and the flags printed one by one are read back,
    whatever values they have. *)
Theorem flags_roundtrip (ss : list Setting) (gs : list (Flags → Flags)) (rest : list string) (f : Flags) :
  mapM meaning ss = Some gs →
  match rest with [] => True | s :: _ => classify s = NotAFlag ∨ classify s = Terminator end →
  parse_flags (concat (render <$> ss) ++ rest) = inr (foldl (λ x g, g x) default_flags gs) ∧
  parse_flags (print_flags f) = inr f.
Proof.
  intros Hss Hrest. unfold parse_flags. split.
  - rewrite (parse_settings ss gs rest _ Hss). destruct rest as [|s rest]; [done|].
    simpl. by destruct Hrest as [-> | ->].
  - destruct f as [a b [] [] e g h i j k l m n []]; reflexivity.
Qed.
End parse.

(** ["-leader-elect --metrics-secure=f --webhook-cert-secret-name cert run"] *)
Definition ex_settings : list Setting :=
  [{| set_name := "leader-elect"; set_to := ""; set_spelling := Bare "-" |};
   {| set_name := "metrics-secure"; set_to := "f"; set_spelling := Equals "--" |};
   {| set_name := "webhook-cert-secret-name"; set_to := "cert"; set_spelling := TwoArguments "--" |}].

#[local] Instance no_other_flags : OtherFlags := {| other_flag _ := None; other_accepts _ _ := false |}.

Lemma flags_roundtrip_witness :
  ∃ gs, parse_flags ["-leader-elect"; "--metrics-secure=f"; "--webhook-cert-secret-name"; "cert"; "run"]
    = inr (foldl (λ x g, g x) default_flags gs) ∧
  parse_flags (print_flags default_flags) = inr default_flags.
Proof.
  eexists. refine (flags_roundtrip ex_settings _ ["run"%string] default_flags _ _).
  - reflexivity.
  - left. reflexivity.
Defined.
