(* ===== verification/Config.v ===== *)
(** The tuning parameters that [cmd/main.go] reads from the environment, and the queue
    and the cache it builds from them. *)
From stdpp Require Import base option list gmap strings.
From S2P Require Import Prelude ApiTypes PolicyCache WorkQueue Worker.
From Stdlib Require Import ZArith Ascii.

Local Open Scope Z_scope.

(** ** [strconv.Atoi] *)
Definition digit_value (c : ascii) : option Z :=
  let n := Z.of_N (N_of_ascii c) in
  if (48 <=? n) && (n <=? 57) then Some (n - 48) else None.

(** The value of a string of decimal digits, on top of [acc]. *)
Fixpoint digits_value (acc : Z) (s : string) : option Z :=
  match s with
  | EmptyString => Some acc
  | String c rest => d ← digit_value c; digits_value (acc * 10 + d) rest
  end.

Definition unsigned_value (s : string) : option Z :=
  match s with EmptyString => None | _ => digits_value 0 s end.

(** [None] is an error: not a number, or not an [int]. *)
Definition Atoi (s : string) : option Z :=
  z ← match s with
      | String c rest =>
          if bool_decide (c = "-"%char) then Z.opp <$> unsigned_value rest
          else if bool_decide (c = "+"%char) then unsigned_value rest
          else unsigned_value s
      | EmptyString => None
      end;
  if (int64_min <=? z) && (z <=? int64_max) then Some z else None.

(** [os.Getenv]: the empty string when the variable is not set. *)
Definition Env := string → string.

Definition getEnvInt (env : Env) (key : string) (defaultValue : Z) : Z :=
  let valStr := env key in
  if bool_decide (valStr = EmptyString) then defaultValue else default defaultValue (Atoi valStr).

(** [time.Duration(n) * time.Second] *)
Definition seconds (n : Z) : Z := wrap64 (n * time_Second).

Definition at_least (lo n : Z) : Z := if n <? lo then lo else n.
Definition at_most (hi n : Z) : Z := if hi <? n then hi else n.

Record Tuning := {
  numWorkers : Z;
  cacheTTL : Z;
  policyCacheTTL : Z;
  periodicReconcileInterval : Z;
  queueMaxRetries : Z;
  queueInitialRetryDelay : Z;
  queueMaxRetryDelay : Z;
  queueMaxRetryCycles : Z
}.

Definition read_tuning (env : Env) : Tuning := {|
  numWorkers := at_least 1 (getEnvInt env "NUM_WORKERS" 3);
  cacheTTL := seconds (at_least 60 (getEnvInt env "CACHE_TTL" 300));
  policyCacheTTL := seconds (at_most 600 (at_least 30 (getEnvInt env "POLICY_CACHE_TTL" 60)));
  periodicReconcileInterval := seconds (at_least 30 (getEnvInt env "PERIODIC_RECONCILE_INTERVAL" 60));
  queueMaxRetries := at_least 1 (getEnvInt env "QUEUE_MAX_RETRIES" 5);
  queueInitialRetryDelay := seconds (at_least 1 (getEnvInt env "QUEUE_INITIAL_RETRY_DELAY" 1));
  queueMaxRetryDelay := seconds (at_least 60 (getEnvInt env "QUEUE_MAX_RETRY_DELAY" 300));
  queueMaxRetryCycles := at_least 0 (getEnvInt env "QUEUE_MAX_RETRY_CYCLES" 3)
|}.

(** [policyCache], [workQueue] and the workers of [main]. *)
Definition main_policyCache (t : Tuning) : PolicyCache := NewPolicyCache (policyCacheTTL t).

Definition main_workQueue (t : Tuning) : option WorkQueue :=
  NewWorkQueueWithConfig (queueMaxRetries t) (queueInitialRetryDelay t) (queueMaxRetryDelay t)
    (queueMaxRetryCycles t).

Definition main_workers (operatorNamespace : string) (t : Tuning) : list TemplateProcessor :=
  StartWorkers operatorNamespace (numWorkers t).
