(* ===== verification/ConfigSpec.v ===== *)
(** What the configuration guarantees to the queue, the cache and the workers. *)
From stdpp Require Import base option list gmap strings pretty.
From S2P Require Import Prelude ApiTypes PolicyCache WorkQueue WorkQueueFacts Worker WorkerPool Config.
From Stdlib Require Import ZArith Ascii Lia.

Local Open Scope Z_scope.

(** ** Parsing what is printed *)
Lemma digit_value_pretty (x : N) :
  (x < 10)%N → digit_value (pretty_N_char x) = Some (Z.of_N x).
Proof.
  intros Hx. destruct x as [|p]; [done|]. do 4 (destruct p as [p|p|]; try done); lia.
Qed.

Lemma digits_value_pretty (x : N) s :
  digits_value 0 (pretty_N_go x s) = digits_value (Z.of_N x) s.
Proof.
  revert s. induction (N.lt_wf_0 x) as [x _ IH]; intros s.
  destruct (decide (x = 0%N)) as [->|Hx]; [done|].
  rewrite pretty_N_go_step by lia. rewrite IH by (apply N.div_lt; lia). simpl.
  rewrite digit_value_pretty by (apply N.mod_lt; lia). simpl. f_equal.
  rewrite <- (N2Z.inj_mul _ 10), <- N2Z.inj_add. f_equal.
  rewrite (N.mul_comm _ 10), <- N.div_mod by lia. done.
Qed.

Lemma unsigned_value_pretty (n : N) : unsigned_value (pretty n) = Some (Z.of_N n).
Proof.
  destruct (decide (n = 0%N)) as [->|Hn]; [done|].
  pose proof (digits_value_pretty n "") as Hd. simpl in Hd.
  unfold pretty, pretty_N. rewrite decide_False by done.
  destruct (pretty_N_go n "") as [|c s]; [|done]. simpl in Hd. injection Hd as Hd. lia.
Qed.

(** An unsigned number has no sign. *)
Lemma unsigned_value_sign c s z :
  unsigned_value (String c s) = Some z → c ≠ "-"%char ∧ c ≠ "+"%char.
Proof. intros Hu. split; intros ->; by cbn in Hu. Qed.

Lemma Atoi_pretty (z : Z) : in_int64 z → Atoi (pretty z) = Some z.
Proof.
  intros Hz. unfold Atoi.
  assert (Hin : (int64_min <=? z) && (z <=? int64_max) = true)
    by (destruct Hz; apply andb_true_iff; rewrite !Z.leb_le; lia).
  assert (Hpos : ∀ n : N, match pretty n with
      | EmptyString => None
      | String c rest =>
          if bool_decide (c = "-"%char) then Z.opp <$> unsigned_value rest
          else if bool_decide (c = "+"%char) then unsigned_value rest
          else unsigned_value (pretty n)
      end = Some (Z.of_N n)).
  { intros n. pose proof (unsigned_value_pretty n) as Hu.
    destruct (pretty n) as [|c rest]; [done|].
    destruct (unsigned_value_sign _ _ _ Hu) as [? ?]. by rewrite !bool_decide_false. }
  destruct z as [|p|p].
  - done.
  - change (pretty (Z.pos p)) with (pretty (N.pos p)). rewrite Hpos.
    change (Z.of_N (N.pos p)) with (Z.pos p). unfold mbind, option_bind. by rewrite Hin.
  - change (pretty (Z.neg p)) with (String "-" (pretty (N.pos p))).
    cbv beta iota. rewrite (bool_decide_true ("-"%char = "-"%char)) by done.
    rewrite unsigned_value_pretty.
    change (Z.opp <$> Some (Z.of_N (N.pos p))) with (Some (Z.neg p)).
    unfold mbind, option_bind. by rewrite Hin.
Qed.

Lemma Atoi_range s z : Atoi s = Some z → in_int64 z.
Proof.
  unfold Atoi. intros (x & _ & Hx)%bind_Some. case_match eqn:Hr; [|done]. injection Hx as <-.
  apply andb_true_iff in Hr as [?%Z.leb_le ?%Z.leb_le]. done.
Qed.

Lemma getEnvInt_range env key d : in_int64 d → in_int64 (getEnvInt env key d).
Proof.
  intros Hd. unfold getEnvInt. case_bool_decide; [done|].
  destruct (Atoi (env key)) as [z|] eqn:Ha; [by eapply Atoi_range|done].
Qed.

(** An environment variable set to the decimal form of an [int] is read as that
    number; and whatever the variable holds, the value read is an [int]. *)
Theorem getEnvInt_roundtrip (env : Env) (key : string) (d z : Z) :
  in_int64 d →
  in_int64 (getEnvInt env key d) ∧
  (in_int64 z → env key = pretty z → getEnvInt env key d = z) ∧
  (env key = EmptyString → getEnvInt env key d = d).
Proof.
  intros Hd. split_and!; [by apply getEnvInt_range| |].
  - intros Hz He. unfold getEnvInt. rewrite He. rewrite (Atoi_pretty z Hz).
    case_bool_decide as Hn; [|done]. pose proof (Atoi_pretty z Hz) as Ha. by rewrite Hn in Ha.
  - intros He. unfold getEnvInt. by rewrite He.
Qed.

Lemma getEnvInt_roundtrip_witness :
  in_int64 (getEnvInt (λ _, "-42"%string) "NUM_WORKERS" 3) ∧
  getEnvInt (λ _, "-42"%string) "NUM_WORKERS" 3 = -42.
Proof.
  destruct (getEnvInt_roundtrip (λ _, "-42"%string) "NUM_WORKERS" 3 (-42)) as (Hin & Heq & _).
  - vm_compute. split; discriminate.
  - split; [exact Hin|]. apply Heq; [vm_compute; split; discriminate|vm_compute; reflexivity].
Defined.







(** A maximum retry delay of 10^10 seconds passes the check on its lower bound
    and overflows: the configured maximum is negative, every retry is then scheduled
    before the failure it follows, and the queue retries without any pause. *)
Theorem huge_max_delay_retries_at_once (env : Env) (initial retryCount : Z) :
  env "QUEUE_MAX_RETRY_DELAY"%string = "10000000000"%string →
  queueMaxRetryDelay (read_tuning env) < 0 ∧
  (1 ≤ retryCount ≤ int64_max → 0 ≤ initial * shl1_64 (Z.min 30 (retryCount - 1)) ≤ int64_max →
   backoff initial (queueMaxRetryDelay (read_tuning env)) retryCount < 0).
Proof.
  intros He.
  assert (Hq : queueMaxRetryDelay (read_tuning env) = -8446744073709551616).
  { cbn [queueMaxRetryDelay read_tuning]. unfold getEnvInt. rewrite He. by vm_compute. }
  rewrite Hq. split; [lia|]. intros Hrc Hb. unfold backoff.
  rewrite (wrap64_id (retryCount - 1)) by (unfold in_int64, int64_min; lia). cbv zeta.
  replace (if 30 <? retryCount - 1 then 30 else retryCount - 1) with (Z.min 30 (retryCount - 1))
    by (case_match; bool_simpl; lia).
  rewrite wrap64_id by (unfold in_int64, int64_min, int64_max in *; lia).
  case_match; bool_simpl; lia.
Qed.

Lemma huge_max_delay_retries_at_once_witness :
  queueMaxRetryDelay (read_tuning (λ _, "10000000000"%string)) < 0 ∧
  backoff time_Second (queueMaxRetryDelay (read_tuning (λ _, "10000000000"%string))) 1 < 0.
Proof.
  destruct (huge_max_delay_retries_at_once (λ _, "10000000000"%string) time_Second 1 eq_refl)
    as [Hneg Hb].
  split; [exact Hneg|]. apply Hb; vm_compute; split; discriminate.
Defined.

