(* ===== verification/SecretWatcher.v ===== *)
(** The certificate that the webhook server presents:
    [internal/cert/secret_watcher.go].

    [Start] first polls for the secret and then follows a watch; what it receives is a
    sequence of events, and each event is one step of the state below.  The delays
    between attempts and the restarts of the watch carry no state. *)
From stdpp Require Import base option list gmap strings.
From S2P Require Import Prelude ApiTypes.
From Stdlib Require Import ZArith.

(** [tls.X509KeyPair] *)
Class TlsOps := {
  TlsCertificate : Type;
  X509KeyPair : string → string → error + TlsCertificate
}.

Section watcher.
Context `{TlsOps}.

Record SecretCertWatcher := {
  sw_secretName : string;
  sw_secretNamespace : string;
  (** [atomic.Value]: [None] until the first store *)
  sw_cert : option TlsCertificate;
  sw_lastValidCert : option TlsCertificate;
  (** the channel [isReady] is closed *)
  sw_isReady : bool
}.

Definition NewSecretCertWatcher (secretName secretNamespace : string) : SecretCertWatcher :=
  {| sw_secretName := secretName; sw_secretNamespace := secretNamespace; sw_cert := None;
     sw_lastValidCert := None; sw_isReady := false |}.

(** [readyOnce.Do(close(isReady))] *)
Definition close_ready (s : SecretCertWatcher) : SecretCertWatcher :=
  {| sw_secretName := sw_secretName s; sw_secretNamespace := sw_secretNamespace s;
     sw_cert := sw_cert s;
     sw_lastValidCert := sw_lastValidCert s; sw_isReady := true |}.

Definition loadCertificate (s : SecretCertWatcher) (secret : Secret)
    : option error * SecretCertWatcher :=
  match sec_Data secret !! "tls.crt"%string with
  | None => (Some (Errorf ("secret " +:+ sw_secretName s +:+ " is missing tls.crt")), s)
  | Some certPEM =>
  match sec_Data secret !! "tls.key"%string with
  | None => (Some (Errorf ("secret " +:+ sw_secretName s +:+ " is missing tls.key")), s)
  | Some keyPEM =>
  if bool_decide (certPEM = EmptyString) || bool_decide (keyPEM = EmptyString) then
    (Some (Errorf ("certificate data not yet populated in secret " +:+ sw_secretName s)), s)
  else
  match X509KeyPair certPEM keyPEM with
  | inl e =>
      (Some (Wrapf ("failed to parse certificate and key from secret " +:+ sw_secretName s) e), s)
  | inr cert =>
      (None, close_ready {| sw_secretName := sw_secretName s;
                            sw_secretNamespace := sw_secretNamespace s; sw_cert := Some cert;
                            sw_lastValidCert := Some cert; sw_isReady := sw_isReady s |})
  end end end.

(** [GetCertificate] blocks on [isReady] before it answers. *)
Inductive Handshake := Blocked | Presented (c : TlsCertificate) | Refused (e : error).

Definition GetCertificate (s : SecretCertWatcher) : Handshake :=
  if sw_isReady s then
    match sw_cert s with
    | Some cert => Presented cert
    | None =>
        match sw_lastValidCert s with
        | Some lastCert => Presented lastCert
        | None => Refused (Errorf "certificate not loaded or invalid type")
        end
    end
  else Blocked.

Definition IsReady (s : SecretCertWatcher) : bool := sw_isReady s.

(** ** The loop of [Start] *)
Inductive Phase := InitialLoad | Watching.

Inductive WatchObject := WSecret (secret : Secret) | WOther.

Inductive Event :=
  | EInitialGet (r : error + Secret)       (* one attempt of [performInitialLoad] *)
  | EInitialTimeout                        (* its context is done *)
  | EWatch (deleted : bool) (o : WatchObject). (* one event of [runWatch] *)

(** [performInitialLoad]: an attempt that finds the secret ends it, whether or not the
    certificate loads; the deferred function closes [isReady] in any case. *)
Definition initial_attempt (s : SecretCertWatcher) (r : error + Secret) : Phase * SecretCertWatcher :=
  match r with
  | inl _ => (InitialLoad, s)
  | inr secret => (Watching, close_ready (loadCertificate s secret).2)
  end.

(** The body of the loop of [runWatch]. *)
Definition watch_event (s : SecretCertWatcher) (deleted : bool) (o : WatchObject) : SecretCertWatcher :=
  if deleted then s
  else match o with WSecret secret => (loadCertificate s secret).2 | WOther => s end.

(** Events of the other phase do not occur. *)
Definition watcher_step (ps : Phase * SecretCertWatcher) (e : Event) : Phase * SecretCertWatcher :=
  match ps, e with
  | (InitialLoad, s), EInitialGet r => initial_attempt s r
  | (InitialLoad, s), EInitialTimeout => (Watching, close_ready s)
  | (Watching, s), EWatch deleted o => (Watching, watch_event s deleted o)
  | _, _ => ps
  end.

Definition watcher_run (s : SecretCertWatcher) (es : list Event) : Phase * SecretCertWatcher :=
  foldl watcher_step (InitialLoad, s) es.
End watcher.
