(* ===== verification/SecretWatcherSpec.v ===== *)
(** What the webhook server presents: always the last certificate that loaded. *)
From stdpp Require Import base option list gmap strings.
From S2P Require Import Prelude ApiTypes SecretWatcher.
From Stdlib Require Import ZArith.

Section spec.
Context `{TlsOps}.

(** The certificate a secret holds, if it holds a complete and valid pair. *)
Definition pair_of (secret : Secret) : option TlsCertificate :=
  certPEM ← sec_Data secret !! "tls.crt"%string; keyPEM ← sec_Data secret !! "tls.key"%string;
  if bool_decide (certPEM = EmptyString) || bool_decide (keyPEM = EmptyString) then None
  else match X509KeyPair certPEM keyPEM with inl _ => None | inr c => Some c end.

(** ** The abstract watcher: the phase, and the last valid certificate seen *)
Definition spec_step (a : Phase * option TlsCertificate) (e : Event) : Phase * option TlsCertificate :=
  match a, e with
  | (InitialLoad, c), EInitialGet (inr secret) => (Watching, match pair_of secret with Some x => Some x | None => c end)
  | (InitialLoad, c), EInitialTimeout => (Watching, c)
  | (Watching, c), EWatch false (WSecret secret) => (Watching, match pair_of secret with Some x => Some x | None => c end)
  | _, _ => a
  end.

Definition spec_handshake (a : Phase * option TlsCertificate) : Handshake :=
  match a with
  | (InitialLoad, _) => Blocked
  | (Watching, Some c) => Presented c
  | (Watching, None) => Refused (Errorf "certificate not loaded or invalid type")
  end.

Definition represents (a : Phase * option TlsCertificate) (ps : Phase * SecretCertWatcher) : Prop :=
  a.1 = ps.1 ∧ sw_cert ps.2 = a.2 ∧ sw_lastValidCert ps.2 = a.2 ∧
  (sw_isReady ps.2 = true ↔ ps.1 = Watching).

Lemma loadCertificate_pair s secret :
  let r := loadCertificate s secret in
  match pair_of secret with
  | Some c => r.1 = None ∧ sw_cert r.2 = Some c ∧ sw_lastValidCert r.2 = Some c ∧ sw_isReady r.2 = true
  | None => r.1 ≠ None ∧ r.2 = s
  end.
Proof.
  cbv zeta. unfold loadCertificate, pair_of.
  destruct (sec_Data secret !! "tls.crt"%string) as [certPEM|]; simpl; [|done].
  destruct (sec_Data secret !! "tls.key"%string) as [keyPEM|]; simpl; [|done].
  destruct (bool_decide _ || bool_decide _); [done|].
  destruct (X509KeyPair certPEM keyPEM) as [e|c]; done.
Qed.

Lemma watcher_step_represents a ps e :
  represents a ps → represents (spec_step a e) (watcher_step ps e).
Proof.
  destruct a as [p c], ps as [p' s]. intros (Hp & Hc & Hl & Hr). simpl in *. subst p'.
  destruct p, e as [[|secret]| |[] [secret|]]; simpl; try by split_and!.
  - pose proof (loadCertificate_pair s secret) as Hload.
    destruct (loadCertificate s secret) as [err s']. destruct (pair_of secret); simpl in *.
    + destruct Hload as (_ & ? & ? & ?). by split_and!.
    + destruct Hload as [_ ->]. by split_and!.
  - pose proof (loadCertificate_pair s secret) as Hload.
    destruct (loadCertificate s secret) as [err s']. destruct (pair_of secret); simpl in *.
    + destruct Hload as (_ & ? & ? & ?). by split_and!.
    + destruct Hload as [_ ->]. by split_and!.
Qed.

Lemma watcher_run_represents es a ps :
  represents a ps → represents (foldl spec_step a es) (foldl watcher_step ps es).
Proof.
  revert a ps. induction es as [|e es IH]; intros a ps Hr; simpl; [done|].
  by apply IH, watcher_step_represents.
Qed.

(** C22.  After any sequence of events, a TLS handshake is answered as the abstract
    watcher answers it: it blocks until the initial load is over, and then presents the
    last certificate that loaded.  Secrets that are incomplete, invalid or deleted never
    replace it; only while none has loaded yet is the handshake refused. *)
Theorem watcher_serves_last_valid (secretName secretNamespace : string) (es : list Event) :
  GetCertificate (watcher_run (NewSecretCertWatcher secretName secretNamespace) es).2
    = spec_handshake (foldl spec_step (InitialLoad, None) es) ∧
  (IsReady (watcher_run (NewSecretCertWatcher secretName secretNamespace) es).2 = true ↔
   (foldl spec_step (InitialLoad, None) es).1 = Watching).
Proof.
  assert (Hr : represents (InitialLoad, None) (InitialLoad, NewSecretCertWatcher secretName secretNamespace))
    by by split_and!.
  apply (watcher_run_represents es) in Hr. unfold watcher_run.
  destruct (foldl spec_step (InitialLoad, None) es) as [p c].
  destruct (foldl watcher_step _ es) as [p' s]. destruct Hr as (Hp & Hc & Hl & Hrd). simpl in *. subst p'.
  unfold GetCertificate, IsReady. split; [|done].
  destruct p.
  - destruct (sw_isReady s); [|done]. discriminate (proj1 Hrd eq_refl).
  - rewrite (proj2 Hrd eq_refl), Hc, Hl. by destruct c.
Qed.
End spec.
