(* ===== verification/CertManager.v ===== *)
(** The certificate manager of [internal/cert/manager.go]: a CA that outlives its server
    certificates, a transition to a new CA before the old one expires, and the CA bundle
    of the webhook configuration. *)
From stdpp Require Import base option list gmap strings.
From S2P Require Import Prelude ApiTypes Cluster.
From Stdlib Require Import ZArith.

Local Open Scope kt_scope.
Local Open Scope Z_scope.

Definition CAValidityDuration : Z := 10 * 365 * 24 * time_Hour.
Definition CertValidityDuration : Z := 365 * 24 * time_Hour.
Definition RenewThreshold : Z := 30 * 24 * time_Hour.
Definition CARenewThreshold : Z := 365 * 24 * time_Hour.
Definition CheckInterval : Z := 24 * time_Hour.

(** ** Code outside the repository *)
Class CertClient (W : Type) := {
  w_Get_Secret : NamespacedName → W → (error + Secret) * W;
  w_Create_Secret : Secret → W → option error * W;
  w_Update_Secret : Secret → W → option error * W;
  w_Delete_Secret : NamespacedName → W → option error * W;
  w_Get_WebhookConfiguration : string → W → (error + WebhookConfiguration) * W;
  w_Update_WebhookConfiguration : WebhookConfiguration → W → option error * W
}.

(** [x509.KeyUsage] and [x509.ExtKeyUsage] values *)
Definition KeyUsageDigitalSignature : Z := 1.
Definition KeyUsageKeyEncipherment : Z := 4.
Definition KeyUsageCertSign : Z := 32.
Definition KeyUsageCRLSign : Z := 64.
Definition ExtKeyUsageServerAuth : Z := 1.

(** The fields of an [x509.Certificate] used as a template. *)
Record CertTemplate := {
  ct_SerialNumber : Z;
  ct_CommonName : string;
  ct_Organization : list string;
  ct_DNSNames : list string;
  ct_NotBefore : Z;
  ct_NotAfter : Z;
  ct_KeyUsage : Z;
  ct_ExtKeyUsage : list Z;
  ct_BasicConstraintsValid : bool;
  ct_IsCA : bool
}.

(** [crypto/rsa], [crypto/x509] and [encoding/pem]; what uses randomness or the time
    runs in the world. *)
Class X509Ops (W : Type) := {
  Certificate : Type;
  PrivateKey : Type;
  w_GenerateKey : W → (error + PrivateKey) * W;
  w_SerialNumber : W → (error + Z) * W;
  (** template, parent, subject's key, signer's key *)
  w_CreateCertificate : CertTemplate → CertTemplate + Certificate → PrivateKey → PrivateKey → W →
    (error + string) * W;
  w_Verify : Certificate → list Certificate → W → option error * W;
  ParseCertificate : string → error + Certificate;
  MarshalPKCS1PrivateKey : PrivateKey → string;
  ParsePKCS1PrivateKey : string → error + PrivateKey;
  pem_EncodeToMemory : string → string → string;
  pem_Decode : string → option string;
  cert_NotAfter : Certificate → Z;
  cert_Raw : Certificate → string;
  cert_Equal : Certificate → Certificate → bool
}.

(** ** Documented behaviour of this code *)

(** A read returns the secret it was asked for. *)
Class CertClientLaws (W : Type) `{CertClient W} : Prop := {
  Get_Secret_key nn w secret w' : w_Get_Secret nn w = (inr secret, w') →
    NN (sec_Namespace secret) (sec_Name secret) = nn
}.

(** A world with a clock that does not go back. *)
Class CertClockLaws (W : Type) `{Client W} `{CertClient W} `{X509Ops W} (clock : W → Z) : Prop := {
  Now_clock w now w' : w_Now w = (now, w') → clock w ≤ now ≤ clock w';
  GenerateKey_clock w : clock w ≤ clock (w_GenerateKey w).2;
  SerialNumber_clock w : clock w ≤ clock (w_SerialNumber w).2;
  CreateCertificate_clock t p k k' w : clock w ≤ clock (w_CreateCertificate t p k k' w).2;
  Verify_clock c roots w : clock w ≤ clock (w_Verify c roots w).2;
  Get_Secret_clock nn w : clock w ≤ clock (w_Get_Secret nn w).2;
  Create_Secret_clock secret w : clock w ≤ clock (w_Create_Secret secret w).2;
  Update_Secret_clock secret w : clock w ≤ clock (w_Update_Secret secret w).2
}.

(** PEM is decoded to what was encoded; a certificate that was created parses, expires
    when its template says (to the second), and verifies against any pool that contains
    its issuer, while both are valid, if it is for servers.  [CA_pair ca key from] says
    that [ca] is a CA certificate for [key], valid from [from]. *)
Class X509Laws (W : Type) `{X509Ops W} (clock : W → Z)
    (CA_pair : Certificate → PrivateKey → Z → Prop) : Prop := {
  pem_Decode_Encode ty bytes : pem_Decode (pem_EncodeToMemory ty bytes) = Some bytes;
  pem_Encode_nonempty ty bytes : pem_EncodeToMemory ty bytes ≠ EmptyString;
  CreateCertificate_parses t p k k' w bytes w' :
    w_CreateCertificate t p k k' w = (inr bytes, w') →
    ∃ cert, ParseCertificate bytes = inr cert ∧
      ct_NotAfter t - time_Second < cert_NotAfter cert ≤ ct_NotAfter t;
  CreateCertificate_verifies t ca k caKey from w bytes w' cert roots u v u' :
    w_CreateCertificate t (inr ca) k caKey w = (inr bytes, w') →
    ParseCertificate bytes = inr cert → CA_pair ca caKey from → ca ∈ roots →
    ExtKeyUsageServerAuth ∈ ct_ExtKeyUsage t →
    ct_NotBefore t ≤ clock u → clock u' ≤ cert_NotAfter cert →
    from ≤ clock u → clock u' ≤ cert_NotAfter ca →
    w_Verify cert roots u = (v, u') → v = None
}.

Record Manager := {
  mg_secretName : string;
  mg_secretNamespace : string;
  mg_serviceName : string;
  mg_webhookConfigName : string
}.

Section manager.
Context {W : Type} `{Client W} `{CertClient W} `{X509Ops W}.

(** *** Client calls that write *)
Definition Create_Secret (secret : Secret) : M W (option error) :=
  let! r := liftW (w_Create_Secret secret) in
  let! _ := emit (CCreateSecret secret r) in retM r.

Definition Update_Secret (secret : Secret) : M W (option error) :=
  let! r := liftW (w_Update_Secret secret) in
  let! _ := emit (CUpdateSecret secret r) in retM r.

Definition Delete_Secret (nn : NamespacedName) : M W (option error) :=
  let! r := liftW (w_Delete_Secret nn) in
  let! _ := emit (CDeleteSecret nn r) in retM r.

Definition Update_WebhookConfiguration (cfg : WebhookConfiguration) : M W (option error) :=
  let! r := liftW (w_Update_WebhookConfiguration cfg) in
  let! _ := emit (CUpdateWebhookConfiguration cfg r) in retM r.

Definition caSecretName (m : Manager) : string := mg_secretName m +:+ "-ca".
Definition caSecretNameNew (m : Manager) : string := caSecretName m +:+ "-new".
Definition key_of (m : Manager) (name : string) : NamespacedName := NN (mg_secretNamespace m) name.

Definition parseCAFromSecret (secret : Secret) : error + Certificate * PrivateKey :=
  match sec_Data secret !! "ca.crt"%string with
  | None => inl (Errorf "CA secret missing ca.crt")
  | Some certPEM =>
  match sec_Data secret !! "ca.key"%string with
  | None => inl (Errorf "CA secret missing ca.key")
  | Some keyPEM =>
  match pem_Decode certPEM with
  | None => inl (Errorf "failed to decode CA certificate PEM")
  | Some certBytes =>
  match ParseCertificate certBytes with
  | inl e => inl (Wrapf "failed to parse CA certificate" e)
  | inr caCert =>
  match pem_Decode keyPEM with
  | None => inl (Errorf "failed to decode CA key PEM")
  | Some keyBytes =>
  match ParsePKCS1PrivateKey keyBytes with
  | inl e => inl (Wrapf "failed to parse CA key" e)
  | inr caKey => inr (caCert, caKey)
  end end end end end end.

Definition generateCA (m : Manager) (secretName : string) : M W (error + Certificate * PrivateKey) :=
  let! k := liftW w_GenerateKey in
  match k with
  | inl e => retM (inl (Wrapf "failed to generate CA key" e))
  | inr caKey =>
  let! sn := liftW w_SerialNumber in
  match sn with
  | inl e => retM (inl (Wrapf "failed to generate serial number" e))
  | inr serialNumber =>
  let! notBefore := Now in
  let! now := Now in
  let caTemplate :=
    {| ct_SerialNumber := serialNumber; ct_CommonName := "KubeTemplater CA";
       ct_Organization := ["KubeTemplater"%string]; ct_DNSNames := [];
       ct_NotBefore := notBefore; ct_NotAfter := now + CAValidityDuration;
       ct_KeyUsage := Z.lor KeyUsageCertSign KeyUsageCRLSign; ct_ExtKeyUsage := [];
       ct_BasicConstraintsValid := true; ct_IsCA := true |} in
  let! c := liftW (w_CreateCertificate caTemplate (inl caTemplate) caKey caKey) in
  match c with
  | inl e => retM (inl (Wrapf "failed to create CA certificate" e))
  | inr caCertBytes =>
  match ParseCertificate caCertBytes with
  | inl e => retM (inl (Wrapf "failed to parse generated CA certificate" e))
  | inr caCert =>
  let caCertPEM := pem_EncodeToMemory "CERTIFICATE" caCertBytes in
  let caKeyPEM := pem_EncodeToMemory "RSA PRIVATE KEY" (MarshalPKCS1PrivateKey caKey) in
  let! r := Create_Secret {| sec_Name := secretName; sec_Namespace := mg_secretNamespace m;
                             sec_Type := "Opaque";
                             sec_Data := {["ca.crt" := caCertPEM; "ca.key" := caKeyPEM]} |} in
  match r with
  | Some e => retM (inl (Wrapf "failed to create CA secret" e))
  | None => retM (inr (caCert, caKey))
  end end end end end.

(** "Rename new CA to primary": [ObjectMeta] is replaced, the data kept. *)
Definition promoted (m : Manager) (newSecret : Secret) : Secret :=
  {| sec_Name := caSecretName m; sec_Namespace := mg_secretNamespace m;
     sec_Type := sec_Type newSecret; sec_Data := sec_Data newSecret |}.

(** The promotion of the new CA when the old one has expired; its errors are only
    logged, but a failing creation ends it. *)
Definition promote (m : Manager) (oldSecret newSecret : Secret) : M W unit :=
  let! _ := Delete_Secret (NN (sec_Namespace oldSecret) (sec_Name oldSecret)) in
  let! r := Create_Secret (promoted m newSecret) in
  match r with
  | Some _ => retM tt
  | None =>
      let! _ := Delete_Secret (key_of m (caSecretNameNew m)) in retM tt
  end.

(** What [ensureCA] does in the transition period, with a new CA that parses. *)
Definition transition (m : Manager) (newSecret : Secret) : M W unit :=
  let! old := liftW (w_Get_Secret (key_of m (caSecretName m))) in
  match old with
  | inl _ => retM tt
  | inr oldSecret =>
      match parseCAFromSecret oldSecret with
      | inl _ => retM tt
      | inr (oldCACert, _) =>
          let! now := Now in
          if cert_NotAfter oldCACert <? now then promote m oldSecret newSecret else retM tt
      end
  end.

(** "Check current CA". *)
Definition current_CA (m : Manager) : M W (error + Certificate * PrivateKey) :=
  let! cur := liftW (w_Get_Secret (key_of m (caSecretName m))) in
  match cur with
  | inr secret =>
      match parseCAFromSecret secret with
      | inl e => retM (inl e)
      | inr (caCert, caKey) =>
          let! now := Now in
          if cert_NotAfter caCert <? now + CARenewThreshold then
            let! new := generateCA m (caSecretNameNew m) in
            match new with
            | inl _ => retM (inr (caCert, caKey))
            | inr ca => retM (inr ca)
            end
          else retM (inr (caCert, caKey))
      end
  | inl e =>
      if negb (IsNotFound e) then retM (inl (Wrapf "failed to get CA secret" e))
      else generateCA m (caSecretName m)
  end.

Definition ensureCA (m : Manager) : M W (error + Certificate * PrivateKey) :=
  let! new := liftW (w_Get_Secret (key_of m (caSecretNameNew m))) in
  match new with
  | inr newSecret =>
      match parseCAFromSecret newSecret with
      | inr ca => let! _ := transition m newSecret in retM (inr ca)
      | inl _ => current_CA m
      end
  | inl _ => current_CA m
  end.

(** The certificates that a server certificate may be signed by. *)
Definition trusted_roots (m : Manager) (caCert : Certificate) : M W (list Certificate) :=
  let! old := liftW (w_Get_Secret (key_of m (caSecretName m))) in
  match old with
  | inl _ => retM [caCert]
  | inr oldCASecret =>
      match parseCAFromSecret oldCASecret with
      | inl _ => retM [caCert]
      | inr (oldCACert, _) =>
          if negb (cert_Equal oldCACert caCert) then retM [caCert; oldCACert] else retM [caCert]
      end
  end.

Definition needsServerCertGeneration (m : Manager) (caCert : Certificate) : M W (error + bool) :=
  let! g := liftW (w_Get_Secret (key_of m (mg_secretName m))) in
  match g with
  | inl e => if IsNotFound e then retM (inr true) else retM (inl (Wrapf "failed to get secret" e))
  | inr secret =>
      let certData := default EmptyString (sec_Data secret !! "tls.crt"%string) in
      if bool_decide (certData = EmptyString) then retM (inr true)
      else
        match pem_Decode certData with
        | None => retM (inr true)
        | Some bytes =>
            match ParseCertificate bytes with
            | inl _ => retM (inr true)
            | inr cert =>
                let! now := Now in
                if cert_NotAfter cert <? now + RenewThreshold then retM (inr true)
                else
                  let! roots := trusted_roots m caCert in
                  let! v := liftW (w_Verify cert roots) in
                  match v with
                  | Some _ => retM (inr true)
                  | None => retM (inr false)
                  end
            end
        end
  end.

Definition server_names (m : Manager) : list string :=
  [mg_serviceName m;
   mg_serviceName m +:+ "." +:+ mg_secretNamespace m;
   mg_serviceName m +:+ "." +:+ mg_secretNamespace m +:+ ".svc";
   mg_serviceName m +:+ "." +:+ mg_secretNamespace m +:+ ".svc.cluster.local"].

Definition server_template (m : Manager) (serialNumber notBefore now : Z) : CertTemplate :=
  {| ct_SerialNumber := serialNumber;
     ct_CommonName := mg_serviceName m +:+ "." +:+ mg_secretNamespace m +:+ ".svc";
     ct_Organization := ["KubeTemplater"%string]; ct_DNSNames := server_names m;
     ct_NotBefore := notBefore; ct_NotAfter := now + CertValidityDuration;
     ct_KeyUsage := Z.lor KeyUsageKeyEncipherment KeyUsageDigitalSignature;
     ct_ExtKeyUsage := [ExtKeyUsageServerAuth]; ct_BasicConstraintsValid := true;
     ct_IsCA := false |}.

(** "Update or create secret". *)
Definition store_server_cert (m : Manager) (data : gmap string string) : M W (option error) :=
  let! g := liftW (w_Get_Secret (key_of m (mg_secretName m))) in
  match g with
  | inl e =>
      if negb (IsNotFound e) then retM (Some (Wrapf "failed to get secret" e))
      else
        let! r := Create_Secret {| sec_Name := mg_secretName m; sec_Namespace := mg_secretNamespace m;
                                   sec_Type := "kubernetes.io/tls"; sec_Data := data |} in
        retM (Wrapf "failed to create secret" <$> r)
  | inr secret =>
      let! r := Update_Secret {| sec_Name := sec_Name secret; sec_Namespace := sec_Namespace secret;
                                 sec_Type := sec_Type secret; sec_Data := data |} in
      retM (Wrapf "failed to update secret" <$> r)
  end.

Definition generateServerCert (m : Manager) (caCert : Certificate) (caKey : PrivateKey)
    : M W (option error) :=
  let! k := liftW w_GenerateKey in
  match k with
  | inl e => retM (Some (Wrapf "failed to generate server key" e))
  | inr serverKey =>
  let! sn := liftW w_SerialNumber in
  match sn with
  | inl e => retM (Some (Wrapf "failed to generate serial number" e))
  | inr serialNumber =>
  let! notBefore := Now in
  let! now := Now in
  let! c := liftW (w_CreateCertificate (server_template m serialNumber notBefore now) (inr caCert)
                     serverKey caKey) in
  match c with
  | inl e => retM (Some (Wrapf "failed to create certificate" e))
  | inr certBytes =>
      store_server_cert m
        {["tls.crt" := pem_EncodeToMemory "CERTIFICATE" certBytes;
          "tls.key" := pem_EncodeToMemory "RSA PRIVATE KEY" (MarshalPKCS1PrivateKey serverKey)]}
  end end end.

Definition with_bundle (bundle : string) (cfg : WebhookConfiguration) : WebhookConfiguration :=
  {| wc_Name := wc_Name cfg; wc_CABundles := (λ _, bundle) <$> wc_CABundles cfg |}.

Definition patchWebhookConfiguration (m : Manager) (caCert : Certificate) : M W (option error) :=
  let caCertPEM := pem_EncodeToMemory "CERTIFICATE" (cert_Raw caCert) in
  let! g := liftW (w_Get_WebhookConfiguration (mg_webhookConfigName m)) in
  match g with
  | inl e => retM (Some (Wrapf "failed to get webhook configuration" e))
  | inr webhookConfig =>
      let! r := Update_WebhookConfiguration (with_bundle caCertPEM webhookConfig) in
      retM (Wrapf "failed to update webhook configuration" <$> r)
  end.

Definition ensureCertificate (m : Manager) : M W (option error) :=
  let! ca := ensureCA m in
  match ca with
  | inl e => retM (Some (Wrapf "failed to ensure CA" e))
  | inr (caCert, caKey) =>
  let! needs := needsServerCertGeneration m caCert in
  match needs with
  | inl e => retM (Some (Wrapf "failed to check server certificate" e))
  | inr false => retM None
  | inr true =>
      let! r := generateServerCert m caCert caKey in
      match r with
      | Some e => retM (Some (Wrapf "failed to generate server certificate" e))
      | None => let! _ := patchWebhookConfiguration m caCert in retM None
      end
  end end.

(** [Start], with the flag [started]: the error, the flag, and whether the renewal loop
    was started. *)
Definition Manager_Start (m : Manager) (started : bool) : M W (option error * bool * bool) :=
  if started then retM (None, true, false)
  else
    let! r := ensureCertificate m in
    match r with
    | Some e => retM (Some (Wrapf "failed to ensure certificate" e), true, false)
    | None => retM (None, true, true)
    end.

(** [n] ticks of [renewalLoop]; errors are only logged. *)
Fixpoint renewalLoop (n : nat) (m : Manager) : M W unit :=
  match n with
  | O => retM tt
  | S n => let! _ := ensureCertificate m in renewalLoop n m
  end.
End manager.
