(* ===== verification/MemCert.v ===== *)
(** A concrete world for the certificate manager: secrets in a map, a clock that ticks,
    and a toy issuer whose certificates carry their expiry, their key and the key that
    signed them.  It satisfies the laws of [CertManager] and serves as the input on which
    its theorems are exercised; no theorem about the operator depends on it. *)
From stdpp Require Import base option list gmap strings countable.
From S2P Require Import Prelude ApiTypes Cluster CertManager.
From Stdlib Require Import ZArith Lia Ascii.

Local Open Scope Z_scope.

(** Certificates are written as binary numerals. *)
Fixpoint string_of_positive (p : positive) : string :=
  match p with
  | xH => EmptyString
  | xO q => String "0"%char (string_of_positive q)
  | xI q => String "1"%char (string_of_positive q)
  end.

Fixpoint positive_of_string (s : string) : positive :=
  match s with
  | EmptyString => xH
  | String c r =>
      if bool_decide (c = "1"%char) then xI (positive_of_string r) else xO (positive_of_string r)
  end.

Lemma positive_of_string_of_positive p : positive_of_string (string_of_positive p) = p.
Proof. induction p as [p IH|p IH|]; simpl; by rewrite ?IH. Qed.

Record MemCertificate := { mc_NotAfter : Z; mc_key : Z; mc_signer : Z }.

Definition mc_bytes (c : MemCertificate) : string :=
  string_of_positive (encode (mc_NotAfter c, mc_key c, mc_signer c)).

Definition mc_parse (s : string) : error + MemCertificate :=
  match decode (positive_of_string s) with
  | Some (a, k, g) => inr {| mc_NotAfter := a; mc_key := k; mc_signer := g |}
  | None => inl (Errorf "malformed certificate")
  end.

Lemma mc_parse_bytes c : mc_parse (mc_bytes c) = inr c.
Proof. unfold mc_parse, mc_bytes. rewrite positive_of_string_of_positive, decode_encode. by destruct c. Qed.

Record MemWorld := {
  mw_clock : Z;
  mw_secrets : gmap NamespacedName Secret;
  (** the webhook configuration, if there is one, and whether it can be written *)
  mw_config : option WebhookConfiguration;
  mw_writable : bool
}.

Definition mw_tick (w : MemWorld) : MemWorld :=
  {| mw_clock := mw_clock w + 1; mw_secrets := mw_secrets w; mw_config := mw_config w;
     mw_writable := mw_writable w |}.

Definition mw_put (secret : Secret) (w : MemWorld) : MemWorld :=
  {| mw_clock := mw_clock w;
     mw_secrets := <[NN (sec_Namespace secret) (sec_Name secret) := secret]> (mw_secrets w);
     mw_config := mw_config w; mw_writable := mw_writable w |}.

#[export] Instance MemWorld_Client : Client MemWorld := {
  w_Now w := (mw_clock w, mw_tick w);
  w_Get_KubeTemplate _ w := (inl (Err ReasonNotFound "not found"), w);
  w_Status_Update kt w := ((None, kt), w);
  w_List_KubeTemplatePolicies _ _ w := (inr [], w);
  w_Get_KubeTemplatePolicy _ w := (inl (Err ReasonNotFound "not found"), w);
  w_Get_Object _ _ w := (inl (Err ReasonNotFound "not found"), w);
  w_Patch_Apply _ o w := ((None, o), w);
  w_Delete_Object _ w := (None, w)
}.

(** A read looks a secret up under the key it is stored with. *)
Definition mw_get (nn : NamespacedName) (w : MemWorld) : (error + Secret) * MemWorld :=
  match mw_secrets w !! nn with
  | Some secret =>
      if bool_decide (NN (sec_Namespace secret) (sec_Name secret) = nn) then (inr secret, w)
      else (inl (Errorf "corrupt store"), w)
  | None => (inl (Err ReasonNotFound "not found"), w)
  end.

#[export] Instance MemWorld_CertClient : CertClient MemWorld := {
  w_Get_Secret := mw_get;
  w_Create_Secret secret w :=
    match mw_secrets w !! NN (sec_Namespace secret) (sec_Name secret) with
    | Some _ => (Some (Err ReasonAlreadyExists "already exists"), w)
    | None => (None, mw_put secret w)
    end;
  w_Update_Secret secret w := (None, mw_put secret w);
  w_Delete_Secret nn w :=
    (None, {| mw_clock := mw_clock w; mw_secrets := delete nn (mw_secrets w);
              mw_config := mw_config w; mw_writable := mw_writable w |});
  w_Get_WebhookConfiguration _ w :=
    match mw_config w with
    | Some cfg => (inr cfg, w)
    | None => (inl (Err ReasonNotFound "not found"), w)
    end;
  w_Update_WebhookConfiguration cfg w :=
    if mw_writable w then
      (None, {| mw_clock := mw_clock w; mw_secrets := mw_secrets w; mw_config := Some cfg;
                mw_writable := true |})
    else (Some (Err ReasonConflict "conflict"), w)
}.

Definition mw_verifies (c : MemCertificate) (roots : list MemCertificate) (now : Z) : bool :=
  (now <=? mc_NotAfter c) &&
  existsb (λ ca, (mc_key ca =? mc_signer c) && (now <=? mc_NotAfter ca)) roots.

#[export] Instance MemWorld_X509Ops : X509Ops MemWorld := {
  Certificate := MemCertificate;
  PrivateKey := Z;
  w_GenerateKey w := (inr (mw_clock w), mw_tick w);
  w_SerialNumber w := (inr (mw_clock w), mw_tick w);
  w_CreateCertificate t _ k signer w :=
    (inr (mc_bytes {| mc_NotAfter := ct_NotAfter t; mc_key := k; mc_signer := signer |}), w);
  w_Verify c roots w :=
    (if mw_verifies c roots (mw_clock w) then None else Some (Errorf "unknown authority"), w);
  ParseCertificate := mc_parse;
  MarshalPKCS1PrivateKey k := string_of_positive (encode k);
  ParsePKCS1PrivateKey s :=
    match decode (positive_of_string s) with
    | Some k => inr k
    | None => inl (Errorf "malformed key")
    end;
  pem_EncodeToMemory _ bytes := String "-"%char bytes;
  pem_Decode s := match s with String _ bytes => Some bytes | EmptyString => None end;
  cert_NotAfter := mc_NotAfter;
  cert_Raw := mc_bytes;
  cert_Equal c c' := String.eqb (mc_bytes c) (mc_bytes c')
}.

Lemma mw_get_spec nn w r w' : mw_get nn w = (r, w') →
  w' = w ∧ match r with
           | inr secret => mw_secrets w !! nn = Some secret ∧
                           NN (sec_Namespace secret) (sec_Name secret) = nn
           | inl _ => True
           end.
Proof.
  unfold mw_get. destruct (mw_secrets w !! nn) as [secret|]; [case_bool_decide|];
    by intros [= <- <-].
Qed.

#[export] Instance MemWorld_CertClientLaws : CertClientLaws MemWorld.
Proof. split. intros nn w secret w' Hg. by apply mw_get_spec in Hg as (_ & _ & ?). Qed.

#[export] Instance MemWorld_CertClockLaws : CertClockLaws MemWorld mw_clock.
Proof.
  split; simpl; try lia.
  - intros w now w' [= <- <-]. simpl. lia.
  - intros nn w. destruct (mw_get nn w) as [r w'] eqn:Hg. apply mw_get_spec in Hg as [-> _]. simpl. lia.
  - intros secret w. case_match; simpl; lia.
Qed.

Definition mem_CA_pair (ca : MemCertificate) (key from : Z) : Prop := mc_key ca = key.

#[export] Instance MemWorld_X509Laws : X509Laws MemWorld mw_clock mem_CA_pair.
Proof.
  split; simpl; try done.
  - intros t p k k' w bytes w' [= <- <-]. eexists. split; [apply mc_parse_bytes|].
    simpl. unfold time_Second, time_Millisecond. lia.
  - intros t ca k caKey from w bytes w' cert roots u v u' [= <- <-].
    rewrite mc_parse_bytes. intros [= <-] Hpair Hin _ _. simpl. intros Hexp _ Hca [= <- <-].
    unfold mw_verifies. simpl. rewrite (proj2 (Z.leb_le _ _) Hexp). simpl.
    assert (existsb (λ ca, (mc_key ca =? caKey) && (mw_clock u <=? mc_NotAfter ca)) roots = true)
      as ->; [|done].
    apply existsb_exists. exists ca. split; [by apply list_elem_of_In|].
    unfold mem_CA_pair in Hpair. apply andb_true_iff. split; [by apply Z.eqb_eq|by apply Z.leb_le].
Qed.
