(* ===== verification/CertManagerSpec.v ===== *)
(** What the certificate manager guarantees: the CA is not lost in a transition, the
    served certificate is renewed in time, and the CA bundle follows the certificate. *)
From stdpp Require Import base option list gmap strings.
From S2P Require Import Prelude ApiTypes Cluster CertManager MemCert.
From Stdlib Require Import ZArith Lia.

Local Open Scope Z_scope.

Section manager.
Context {W : Type} `{Client W} `{CertClient W} `{X509Ops W}.

(** ** The CA *)

(** Reads that return a CA with this certificate. *)
Definition holds_CA (nn : NamespacedName) (secret : Secret) (cert : Certificate) : Prop :=
  (∃ w w', w_Get_Secret nn w = (inr secret, w')) ∧
  ∃ key, parseCAFromSecret secret = inr (cert, key).

(** The calls of [ensureCA]: none; the creation of one CA; or, once the old CA has
    expired, a promotion, which deletes the copy of the new CA only after it is stored
    under the primary name. *)
Inductive CA_trace (m : Manager) : list Call → Prop :=
  | cat_none : CA_trace m []
  | cat_create name cert key res :
      name = caSecretName m ∨ name = caSecretNameNew m →
      CA_trace m [CCreateSecret
        {| sec_Name := name; sec_Namespace := mg_secretNamespace m; sec_Type := "Opaque";
           sec_Data := {["ca.crt"%string := cert; "ca.key"%string := key]} |} res]
  | cat_promote oldSecret oldCert newSecret newCert w now w' res1 res2 tr :
      holds_CA (key_of m (caSecretName m)) oldSecret oldCert →
      holds_CA (key_of m (caSecretNameNew m)) newSecret newCert →
      w_Now w = (now, w') → cert_NotAfter oldCert < now →
      (∃ e, res2 = Some e ∧ tr = []) ∨
      (∃ res3, res2 = None ∧ tr = [CDeleteSecret (key_of m (caSecretNameNew m)) res3]) →
      CA_trace m (CDeleteSecret (key_of m (caSecretName m)) res1 ::
                  CCreateSecret (promoted m newSecret) res2 :: tr).

(** [s'] extends the log of [s] by calls that satisfy [P]. *)
Definition extends (P : list Call → Prop) (s s' : St W) : Prop :=
  ∃ tr, st_log s' = st_log s ++ tr ∧ P tr.

Lemma extends_nil (P : list Call → Prop) s s' : st_log s' = st_log s → P [] → extends P s s'.
Proof using Type. intros Hl HP. exists []. by rewrite app_nil_r. Qed.

Lemma generateCA_trace m name s r s' :
  name = caSecretName m ∨ name = caSecretNameNew m →
  generateCA (W := W) m name s = (r, s') → extends (CA_trace m) s s'.
Proof using Type.
  intros Hn. unfold generateCA, bindM, liftW, Now, liftW, Create_Secret, bindM, liftW, emit, retM.
  destruct (w_GenerateKey (st_world s)) as [[e|caKey] w1];
    [intros [= <- <-]; apply extends_nil; [done|constructor]|]. cbn [st_world st_log].
  destruct (w_SerialNumber w1) as [[e|sn] w2];
    [intros [= <- <-]; apply extends_nil; [done|constructor]|]. cbn [st_world st_log].
  destruct (w_Now w2) as [nb w3]. cbn [st_world st_log]. destruct (w_Now w3) as [now w4].
  cbn [st_world st_log]. destruct (w_CreateCertificate _ _ _ _ w4) as [[e|bytes] w5];
    [intros [= <- <-]; apply extends_nil; [done|constructor]|]. cbn [st_world st_log].
  destruct (ParseCertificate bytes) as [e|cert];
    [intros [= <- <-]; apply extends_nil; [done|constructor]|].
  cbn [st_world st_log].
  match goal with |- context [w_Create_Secret ?x w5] => destruct (w_Create_Secret x w5) as [res w6] end.
  intros Hr. eexists. split; [|by apply cat_create].
  destruct res; by injection Hr as <- <-.
Qed.

Lemma current_CA_trace m s r s' :
  current_CA (W := W) m s = (r, s') → extends (CA_trace m) s s'.
Proof using Type.
  unfold current_CA. unfold bindM at 1, liftW.
  destruct (w_Get_Secret _ (st_world s)) as [[e|secret] w1].
  - destruct (negb (IsNotFound e)); [intros [= <- <-]; apply extends_nil; [done|constructor]|].
    intros Hg. apply generateCA_trace in Hg; [done|by left].
  - destruct (parseCAFromSecret secret) as [e|[cert key]];
      [intros [= <- <-]; apply extends_nil; [done|constructor]|].
    unfold bindM at 1, Now, liftW. cbn [st_world st_log]. destruct (w_Now w1) as [now w2].
    destruct (_ <? _); [|intros [= <- <-]; apply extends_nil; [done|constructor]].
    unfold bindM. destruct (generateCA m (caSecretNameNew m) _) as [g s2] eqn:Hg.
    apply generateCA_trace in Hg as (tr & Hl & Ht); [|by right]. cbn [st_log] in Hl.
    intros Hr. exists tr. split; [|done]. destruct g; by injection Hr as <- <-.
Qed.

Lemma transition_trace `{!CertClientLaws W} m newSecret newCert s s' :
  holds_CA (key_of m (caSecretNameNew m)) newSecret newCert →
  transition (W := W) m newSecret s = (tt, s') → extends (CA_trace m) s s'.
Proof using Type.
  intros Hnew. unfold transition. unfold bindM at 1, liftW.
  destruct (w_Get_Secret _ (st_world s)) as [[e|old] w1] eqn:Hg;
    [intros [= <-]; apply extends_nil; [done|constructor]|].
  destruct (parseCAFromSecret old) as [e|[oldCert oldKey]] eqn:Hp;
    [intros [= <-]; apply extends_nil; [done|constructor]|].
  unfold bindM at 1, Now, liftW. cbn [st_world st_log]. destruct (w_Now w1) as [now w2] eqn:Hn.
  destruct (cert_NotAfter oldCert <? now) eqn:Hexp; [|intros [= <-]; apply extends_nil; [done|constructor]].
  apply Z.ltb_lt in Hexp. pose proof (Get_Secret_key _ _ _ _ Hg) as Hkey.
  assert (Hold : holds_CA (key_of m (caSecretName m)) old oldCert) by (split; eauto).
  unfold promote, bindM, Delete_Secret, Create_Secret, bindM, liftW, emit, retM.
  cbn [st_world st_log]. rewrite Hkey.
  destruct (w_Delete_Secret (key_of m (caSecretName m)) w2) as [res1 w3]. cbn [st_world st_log].
  destruct (w_Create_Secret (promoted m newSecret) w3) as [res2 w4]. cbn [st_world st_log].
  destruct res2 as [e|].
  - intros Hr. injection Hr as <-. eexists. cbn [st_log]. rewrite <- app_assoc. split; [done|].
    eapply cat_promote; eauto.
  - cbn [st_world st_log]. destruct (w_Delete_Secret (key_of m (caSecretNameNew m)) w4) as [res3 w5].
    intros Hr. injection Hr as <-. eexists. cbn [st_log]. rewrite <- !app_assoc. split; [done|].
    eapply cat_promote; eauto.
Qed.

Lemma ensureCA_trace `{!CertClientLaws W} m s r s' :
  ensureCA (W := W) m s = (r, s') → extends (CA_trace m) s s'.
Proof using Type.
  unfold ensureCA. unfold bindM at 1, liftW.
  destruct (w_Get_Secret _ (st_world s)) as [[e|new] w1] eqn:Hg;
    [intros Hc; by apply current_CA_trace in Hc|].
  destruct (parseCAFromSecret new) as [e|[cert key]] eqn:Hp; [intros Hc; by apply current_CA_trace in Hc|].
  unfold bindM. destruct (transition m new _) as [[] s2] eqn:Ht. intros [= <- <-].
  apply (transition_trace m new cert) in Ht as (tr & Hl & Htr); [by exists tr|]. split; eauto.
Qed.

(** C21.  Ensuring the CA never loses one: its calls are none, the creation of a CA
    under the primary or the transition name, or the promotion of a new CA that parses
    after the old one has expired; and there the copy under the transition name is
    deleted only when the promoted CA, with the same data, has been stored. *)
Theorem ensureCA_keeps_CA `{!CertClientLaws W} (m : Manager) (s s' : St W)
    (r : error + Certificate * PrivateKey) :
  ensureCA m s = (r, s') →
  ∃ tr, st_log s' = st_log s ++ tr ∧ CA_trace m tr ∧
    ∀ pre res post, tr = pre ++ CDeleteSecret (key_of m (caSecretNameNew m)) res :: post →
      post = [] ∧ ∃ pre' newSecret newCert,
        pre = pre' ++ [CCreateSecret (promoted m newSecret) None] ∧
        holds_CA (key_of m (caSecretNameNew m)) newSecret newCert.
Proof using Type.
  intros Hr. apply ensureCA_trace in Hr as (tr & Hl & Ht). exists tr. split_and!; [done..|].
  assert (Hne : key_of m (caSecretName m) ≠ key_of m (caSecretNameNew m)).
  { intros [= Heq%(f_equal String.length)]. unfold caSecretNameNew in Heq.
    rewrite string_length_app in Heq. simpl in Heq. lia. }
  destruct Ht as [|name cert key res _|old oc new nc w now w' r1 r2 tr _ Hnew _ _ Htr].
  - intros [] ? ? [=].
  - intros [|? []] ? ? [=].
  - intros pre res post Heq. destruct pre as [|c1 pre]; [simpl in Heq; congruence|].
    injection Heq as <- Heq. destruct pre as [|c2 pre]; [discriminate|]. injection Heq as <- Heq.
    destruct Htr as [(e & -> & ->)|(r3 & -> & ->)]; [by destruct pre|].
    destruct pre as [|? []]; [|discriminate..]. injection Heq as <- <-. split; [done|].
    by exists [CDeleteSecret (key_of m (caSecretName m)) r1], new, nc.
Qed.

(** ** Renewal *)

(** The CAs that are accepted as issuers when the CA in use is [caCert], as the read of
    the secret of the primary CA decides: the primary CA too if that secret can be read,
    holds a CA that parses, and this CA is another one; else [caCert] alone. *)
Definition accepted_roots (m : Manager) (caCert : Certificate) (w : W) (roots : list Certificate)
    (w' : W) : Prop :=
  ∃ primary, w_Get_Secret (key_of m (caSecretName m)) w = (primary, w') ∧
    ((∃ secret ca key, primary = inr secret ∧ parseCAFromSecret secret = inr (ca, key) ∧
        cert_Equal ca caCert = false ∧ roots = [caCert; ca]) ∨
     ((∀ secret ca key, primary = inr secret → parseCAFromSecret secret = inr (ca, key) →
         cert_Equal ca caCert = true) ∧ roots = [caCert])).

Lemma trusted_roots_exact m caCert s roots s' :
  trusted_roots (W := W) m caCert s = (roots, s') →
  st_log s' = st_log s ∧ caCert ∈ roots ∧ accepted_roots m caCert (st_world s) roots (st_world s').
Proof using Type.
  unfold trusted_roots, accepted_roots, bindM, liftW, retM.
  destruct (w_Get_Secret _ (st_world s)) as [[e|old] w1] eqn:Hg.
  { intros [= <- <-]. split_and!; [done|set_solver|]. eexists. split; [done|]. right. done. }
  destruct (parseCAFromSecret old) as [e|[oc ok]] eqn:Hp.
  { intros [= <- <-]. split_and!; [done|set_solver|]. eexists. split; [done|]. right.
    split; [|done]. intros ? ? ? [= <-]. by rewrite Hp. }
  destruct (cert_Equal oc caCert) eqn:Heq; intros [= <- <-]; (split_and!; [done|set_solver|]);
    eexists; (split; [done|]).
  - right. split; [|done]. intros ? ? ? [= <-]. rewrite Hp. by intros [= <- <-].
  - left. by exists old, oc, ok.
Qed.

Lemma accepted_roots_fun m caCert w roots1 w1 roots2 w2 :
  accepted_roots m caCert w roots1 w1 → accepted_roots m caCert w roots2 w2 → roots1 = roots2 ∧ w1 = w2.
Proof using Type.
  intros (p1 & Hg1 & H1') (p2 & Hg2 & H2'). rewrite Hg1 in Hg2. injection Hg2 as <- <-. split; [|done].
  destruct H1' as [(? & ? & ? & -> & Hp1 & Hq1 & ->)|[Hno1 ->]], H2' as [(? & ? & ? & Hs & Hp2 & Hq2 & ->)|[Hno2 ->]].
  - congruence.
  - rewrite (Hno2 _ _ _ eq_refl Hp1) in Hq1. done.
  - rewrite (Hno1 _ _ _ Hs Hp2) in Hq2. done.
  - done.
Qed.

(** The stored certificate parses, is valid for 30 more days, and verifies against the
    accepted CAs. *)
Definition cert_current (m : Manager) (caCert : Certificate) (s : St W) : Prop :=
  ∃ secret certData bytes cert w1 now w2 roots w3 w4,
    w_Get_Secret (key_of m (mg_secretName m)) (st_world s) = (inr secret, w1) ∧
    sec_Data secret !! "tls.crt"%string = Some certData ∧ certData ≠ EmptyString ∧
    pem_Decode certData = Some bytes ∧ ParseCertificate bytes = inr cert ∧
    w_Now w1 = (now, w2) ∧ now + 30 * 24 * time_Hour ≤ cert_NotAfter cert ∧
    accepted_roots m caCert w2 roots w3 ∧ w_Verify cert roots w3 = (None, w4).

(** The secret of the certificate cannot be read, and not because there is none. *)
Definition secret_unreadable (m : Manager) (s : St W) (e : error) : Prop :=
  ∃ w, w_Get_Secret (key_of m (mg_secretName m)) (st_world s) = (inl e, w) ∧ IsNotFound e = false.

(** The answer of the check of the server certificate. *)
Definition check_answer (m : Manager) (caCert : Certificate) (s : St W) (r : error + bool) : Prop :=
  match r with
  | inl err => ∃ e, secret_unreadable m s e ∧ err = Wrapf "failed to get secret" e
  | inr false => cert_current m caCert s
  | inr true => ¬ cert_current m caCert s ∧ ∀ e, ¬ secret_unreadable m s e
  end.

Lemma needs_exact m caCert s r s' :
  needsServerCertGeneration (W := W) m caCert s = (r, s') →
  st_log s' = st_log s ∧ check_answer m caCert s r.
Proof using Type.
  unfold needsServerCertGeneration. unfold bindM at 1, liftW.
  destruct (w_Get_Secret _ (st_world s)) as [[e|secret] w1] eqn:Hg.
  { destruct (IsNotFound e) eqn:Hnf; intros [= <- <-]; (split; [done|]); unfold secret_unreadable; simpl.
    - unfold secret_unreadable. rewrite Hg. split; [|by intros ? (? & [= <- <-] & ?); congruence].
      unfold cert_current. rewrite Hg. by intros (? & ? & ? & ? & ? & ? & ? & ? & ? & ? & [=] & _).
    - exists e. split; [|done]. by exists w1. }
  assert (Hyes : ∀ w, ¬ cert_current m caCert s → (inr true, mkSt w (st_log s)) = (r, s') →
    st_log s' = st_log s ∧ check_answer m caCert s r).
  { intros w Hno [= <- <-]. split; [done|]. split; [done|]. intros e (? & Hg' & _). congruence. }
  unfold cert_current in Hyes. rewrite Hg in Hyes. case_bool_decide as Hd.
  { apply Hyes. intros (sec & d & ? & ? & ? & ? & ? & ? & ? & ? & [= <- <-] & Hs & Hne & _).
    by rewrite Hs in Hd. }
  destruct (sec_Data secret !! "tls.crt"%string) as [d|] eqn:Hs; [|done]. simpl in Hd |- *.
  destruct (pem_Decode d) as [bytes|] eqn:Hpem.
  2:{ apply Hyes. intros (sec & d' & ? & ? & ? & ? & ? & ? & ? & ? & [= <- <-] & Hs' & _ & Hp & _).
      rewrite Hs in Hs'. injection Hs' as <-. congruence. }
  destruct (ParseCertificate bytes) as [e|cert] eqn:Hparse.
  { apply Hyes. intros (sec & d' & b & c & ? & ? & ? & ? & ? & ? & [= <- <-] & Hs' & _ & Hp & Hc & _).
    rewrite Hs in Hs'. injection Hs' as <-. congruence. }
  unfold bindM at 1, Now, liftW. cbn [st_world st_log].
  destruct (w_Now w1) as [now w2] eqn:Hn. destruct (cert_NotAfter cert <? now + RenewThreshold) eqn:Hx.
  { apply Hyes. apply Z.ltb_lt in Hx. unfold RenewThreshold in Hx.
    intros (sec & d' & b & c & ? & now' & ? & ? & ? & ? & [= <- <-] & Hs' & _ & Hp & Hc & Hn' & Hle & _).
    assert (d' = d) as -> by congruence. assert (b = bytes) as -> by congruence.
    assert (c = cert) as -> by congruence. assert (now' = now) as -> by congruence. lia. }
  apply Z.ltb_ge in Hx. unfold bindM.
  destruct (trusted_roots m caCert (mkSt w2 (st_log s))) as [roots s3] eqn:Ht.
  apply trusted_roots_exact in Ht as (Hl3 & _ & Hacc). simpl in Hl3, Hacc.
  destruct (w_Verify cert roots (st_world s3)) as [v w4] eqn:Hv. rewrite Hl3. destruct v as [e|].
  - apply Hyes. intros (sec & d' & b & c & ? & now' & ? & rts & w3 & w4' & [= <- <-] & Hs' & _ & Hp & Hc & Hn' & _ & Ht' & Hv').
    assert (d' = d) as -> by congruence. assert (b = bytes) as -> by congruence.
    assert (c = cert) as -> by congruence. rewrite Hn in Hn'. injection Hn' as <- <-.
    destruct (accepted_roots_fun _ _ _ _ _ _ _ Hacc Ht') as [<- <-]. congruence.
  - intros [= <- <-]. split; [done|].
    by exists secret, d, bytes, cert, w1, now, w2, roots, (st_world s3), w4.
Qed.

(** ** The CA bundle *)
Definition is_webhook_update (c : Call) : Prop :=
  match c with CUpdateWebhookConfiguration _ _ => True | _ => False end.

Definition bundle_of (caCert : Certificate) : string :=
  pem_EncodeToMemory "CERTIFICATE" (cert_Raw caCert).

(** The secret that a call has written. *)
Definition wrote (c : Call) (secret : Secret) : Prop :=
  c = CCreateSecret secret None ∨ c = CUpdateSecret secret None.

(** The same, with the world that the call leaves. *)
Definition writes (secret : Secret) (c : Call) (w' : W) : Prop :=
  ∃ w, (c = CCreateSecret secret None ∧ w_Create_Secret secret w = (None, w')) ∨
       (c = CUpdateSecret secret None ∧ w_Update_Secret secret w = (None, w')).

Lemma writes_wrote secret c w' : writes secret c w' → wrote c secret.
Proof using Type. intros (w & [[-> _]|[-> _]]); [by left|by right]. Qed.

(** The successful write of a new server certificate to the secret of the manager: the
    certificate is for the names of the service and for servers, valid for a year from a
    reading of the clock, for a newly generated key, and signed with the key of the CA. *)
Definition signed_write (m : Manager) (caCert : Certificate) (caKey : PrivateKey) (c : Call)
    (after : W) : Prop :=
  ∃ secret tmpl serverKey bytes t u u' v v' w w',
    writes secret c after ∧
    sec_Name secret = mg_secretName m ∧ sec_Namespace secret = mg_secretNamespace m ∧
    (let svc := mg_serviceName m in
     let ns := mg_secretNamespace m in
     ct_DNSNames tmpl = [svc; svc +:+ "." +:+ ns; svc +:+ "." +:+ ns +:+ ".svc";
                         svc +:+ "." +:+ ns +:+ ".svc.cluster.local"]) ∧
    ct_ExtKeyUsage tmpl = [ExtKeyUsageServerAuth] ∧ ct_IsCA tmpl = false ∧
    w_Now u = (t, u') ∧ ct_NotAfter tmpl = t + 365 * 24 * time_Hour ∧
    w_GenerateKey v = (inr serverKey, v') ∧
    w_CreateCertificate tmpl (inr caCert) serverKey caKey w = (inr bytes, w') ∧
    sec_Data secret !! "tls.crt"%string = Some (pem_EncodeToMemory "CERTIFICATE" bytes) ∧
    sec_Data secret !! "tls.key"%string
      = Some (pem_EncodeToMemory "RSA PRIVATE KEY" (MarshalPKCS1PrivateKey serverKey)).

Lemma store_server_cert_trace `{!CertClientLaws W} m data s r s' :
  store_server_cert (W := W) m data s = (r, s') →
  ∃ tr, st_log s' = st_log s ++ tr ∧ Forall (λ c, ¬ is_webhook_update c) tr ∧
    (r = None → ∃ c secret, tr = [c] ∧ writes secret c (st_world s') ∧ sec_Data secret = data ∧
       NN (sec_Namespace secret) (sec_Name secret) = key_of m (mg_secretName m)).
Proof using Type.
  unfold store_server_cert, bindM, liftW, Create_Secret, Update_Secret, bindM, liftW, emit, retM.
  destruct (w_Get_Secret _ (st_world s)) as [[e|secret] w1] eqn:Hg.
  - destruct (negb (IsNotFound e)).
    { intros [= <- <-]. exists []. rewrite app_nil_r. by split_and!; [|constructor|]. }
    cbn [st_world st_log].
    match goal with |- context [w_Create_Secret ?x w1] => destruct (w_Create_Secret x w1) as [res w2] eqn:Hw end.
    intros [= <- <-]. eexists. split; [done|]. split; [by apply Forall_singleton; intros ?|].
    intros Hr. destruct res; [done|]. eexists _, _. split_and!; [done|exists w1; by left|done..].
  - apply Get_Secret_key in Hg. cbn [st_world st_log].
    match goal with |- context [w_Update_Secret ?x w1] => destruct (w_Update_Secret x w1) as [res w2] eqn:Hw end.
    intros [= <- <-]. eexists. split; [done|]. split; [by apply Forall_singleton; intros ?|].
    intros Hr. destruct res; [done|]. eexists _, _. split_and!; [done|exists w1; by right|done..].
Qed.

Lemma generateServerCert_trace `{!CertClientLaws W} m caCert caKey s r s' :
  generateServerCert (W := W) m caCert caKey s = (r, s') →
  ∃ tr, st_log s' = st_log s ++ tr ∧ Forall (λ c, ¬ is_webhook_update c) tr ∧
    (r = None → ∃ c, tr = [c] ∧ signed_write m caCert caKey c (st_world s')).
Proof using Type.
  assert (Hfail : ∀ e w, (Some e, mkSt w (st_log s)) = (r, s') →
    ∃ tr, st_log s' = st_log s ++ tr ∧ Forall (λ c, ¬ is_webhook_update c) tr ∧
    (r = None → ∃ c, tr = [c] ∧ signed_write m caCert caKey c (st_world s'))).
  { intros e w [= <- <-]. exists []. rewrite app_nil_r. by split_and!; [|constructor|]. }
  unfold generateServerCert. unfold bindM at 1, liftW.
  destruct (w_GenerateKey (st_world s)) as [[e|key] w1] eqn:Hk; [apply Hfail|].
  unfold bindM at 1, liftW. cbn [st_world st_log].
  destruct (w_SerialNumber w1) as [[e|sn] w2]; [apply Hfail|].
  unfold bindM at 1, Now, liftW. cbn [st_world st_log]. destruct (w_Now w2) as [nb w3].
  unfold bindM at 1, liftW. cbn [st_world st_log]. destruct (w_Now w3) as [now w4] eqn:Hnow.
  unfold bindM at 1, liftW. cbn [st_world st_log].
  destruct (w_CreateCertificate _ _ _ _ w4) as [[e|bytes] w5] eqn:Hc; [apply Hfail|].
  intros Hs. apply store_server_cert_trace in Hs as (tr & Hl & Hf & Hn). exists tr.
  split_and!; [done..|]. intros Hr. destruct (Hn Hr) as (c & secret & -> & Hw & Hd & [= Hns Hname]).
  exists c. split; [done|].
  exists secret, (server_template m sn nb now), key, bytes, now, w3, w4, (st_world s), w1, w4, w5.
  rewrite Hd. by split_and!.
Qed.

(** C28.  The check of the server certificate.  It answers that the certificate is to be
    kept exactly when the stored one parses, is valid for 30 more days, and verifies
    against the accepted CAs: the CA in use, and also the CA under the primary name when
    its secret can be read, it parses, and it is another one, as in a transition.  It
    fails exactly when the secret of the certificate cannot be read although there is
    one.  Otherwise the certificate is to be renewed.  The check writes nothing. *)
Theorem renewal_exact (m : Manager) (caCert : Certificate) (s : St W) :
  st_log (needsServerCertGeneration m caCert s).2 = st_log s ∧
  match (needsServerCertGeneration m caCert s).1 with
  | inl err => ∃ e, secret_unreadable m s e ∧ err = Wrapf "failed to get secret" e
  | inr false => cert_current m caCert s
  | inr true => ¬ cert_current m caCert s ∧ ∀ e, ¬ secret_unreadable m s e
  end.
Proof using Type.
  destruct (needsServerCertGeneration m caCert s) as [r s'] eqn:Hr. by apply needs_exact in Hr.
Qed.

(** The update of the bundle: the configuration is read, and unless this fails, it is
    written with the CA in every webhook. *)
Inductive patch_calls (m : Manager) (caCert : Certificate) (w : W) : list Call → Prop :=
  | pc_unread e w' :
      w_Get_WebhookConfiguration (mg_webhookConfigName m) w = (inl e, w') → patch_calls m caCert w []
  | pc_update cfg cfg' w1 res w2 :
      w_Get_WebhookConfiguration (mg_webhookConfigName m) w = (inr cfg, w1) →
      wc_Name cfg' = wc_Name cfg → length (wc_CABundles cfg') = length (wc_CABundles cfg) →
      Forall (λ b, b = bundle_of caCert) (wc_CABundles cfg') →
      w_Update_WebhookConfiguration cfg' w1 = (res, w2) →
      patch_calls m caCert w [CUpdateWebhookConfiguration cfg' res].

Lemma patch_trace m caCert s r s' :
  patchWebhookConfiguration (W := W) m caCert s = (r, s') →
  extends (patch_calls m caCert (st_world s)) s s'.
Proof using Type.
  unfold patchWebhookConfiguration, Update_WebhookConfiguration, bindM, liftW, emit, retM.
  destruct (w_Get_WebhookConfiguration _ (st_world s)) as [[e|cfg] w1] eqn:Hg;
    [intros [= <- <-]; apply extends_nil; [done|by econstructor]|]. cbn [st_world st_log].
  match goal with |- context [w_Update_WebhookConfiguration ?x w1] =>
    destruct (w_Update_WebhookConfiguration x w1) as [res w2] eqn:Hu end.
  intros [= <- <-]. eexists. split; [done|]. eapply pc_update; [done|done| | |done].
  - apply length_fmap.
  - apply Forall_fmap, Forall_true. done.
Qed.

(** C18.  One run of [ensureCertificate].  When it reports an error, the CA bundle is
    untouched.  When it reports none, either the certificate was current and nothing but
    the CA was written, or it was not, and a new one, for the names of the service and
    signed with the key of the CA in use, has been stored in the manager's secret; then,
    and last, the webhook configuration is read and, unless this fails, the bundle of
    every webhook is set to that CA.  The outcome of this last step is not reported. *)
Theorem ensureCertificate_outcome `{!CertClientLaws W} (m : Manager) (s s' : St W) (r : option error) :
  ensureCertificate m s = (r, s') →
  ∃ ca_calls, CA_trace m ca_calls ∧
  match r with
  | Some _ => ∃ tail, st_log s' = st_log s ++ ca_calls ++ tail ∧
                Forall (λ c, ¬ is_webhook_update c) tail
  | None => ∃ caCert caKey s1, ensureCA m s = (inr (caCert, caKey), s1) ∧
      ((cert_current m caCert s1 ∧ st_log s' = st_log s ++ ca_calls) ∨
       (¬ cert_current m caCert s1 ∧ ∃ c bundle_calls w,
          st_log s' = st_log s ++ ca_calls ++ c :: bundle_calls ∧
          signed_write m caCert caKey c w ∧ patch_calls m caCert w bundle_calls))
  end.
Proof using Type.
  unfold ensureCertificate. unfold bindM at 1.
  destruct (ensureCA m s) as [ca s1] eqn:Hca. pose proof Hca as (tr & Hl & Ht)%ensureCA_trace.
  destruct ca as [e|[caCert caKey]].
  { intros [= <- <-]. exists tr. split; [done|]. exists []. by rewrite app_nil_r. }
  unfold bindM at 1. destruct (needsServerCertGeneration m caCert s1) as [needs s2] eqn:Hn.
  apply needs_exact in Hn as [Hl2 Hans]. destruct needs as [e|[]].
  - intros [= <- <-]. exists tr. split; [done|]. exists []. rewrite app_nil_r. split; [congruence|done].
  - unfold bindM at 1. destruct (generateServerCert m caCert caKey s2) as [g s3] eqn:Hg.
    apply generateServerCert_trace in Hg as (tr2 & Hl3 & Hf & Hsig).
    rewrite Hl2, Hl, <- app_assoc in Hl3. destruct g as [e|].
    { intros [= <- <-]. exists tr. split; [done|]. by exists tr2. }
    unfold bindM. destruct (patchWebhookConfiguration m caCert s3) as [p s4] eqn:Hp.
    apply patch_trace in Hp as (tr3 & Hl4 & Hpc). intros [= <- <-]. exists tr. split; [done|].
    exists caCert, caKey, s1. split; [done|]. right. split; [apply Hans|].
    destruct (Hsig eq_refl) as (c & -> & Hw). exists c, tr3, (st_world s3). split_and!; [|done..].
    rewrite Hl4, Hl3, <- !app_assoc. done.
  - intros [= <- <-]. exists tr. split; [done|]. exists caCert, caKey, s1. split; [done|]. left.
    split; [done|congruence].
Qed.

(** ** A renewed certificate stays *)
Section kept.
Context `{!CertClientLaws W} (clock : W → Z) `{!CertClockLaws W clock}.
Context (CA_pair : Certificate → PrivateKey → Z → Prop) `{!X509Laws W clock CA_pair}.

Lemma store_server_cert_clock m data s r s' :
  store_server_cert (W := W) m data s = (r, s') → clock (st_world s) ≤ clock (st_world s').
Proof using All.
  unfold store_server_cert, bindM, liftW, Create_Secret, Update_Secret, bindM, liftW, emit, retM.
  pose proof (Get_Secret_clock (key_of m (mg_secretName m)) (st_world s)) as Hc.
  destruct (w_Get_Secret _ (st_world s)) as [[e|secret] w1]; simpl in Hc.
  - destruct (negb (IsNotFound e)); [by intros [= <- <-]|]. cbn [st_world st_log].
    match goal with |- context [w_Create_Secret ?x w1] =>
      pose proof (Create_Secret_clock x w1) as Hc2; destruct (w_Create_Secret x w1) as [res w2] end.
    intros [= <- <-]. simpl in *. lia.
  - cbn [st_world st_log].
    match goal with |- context [w_Update_Secret ?x w1] =>
      pose proof (Update_Secret_clock x w1) as Hc2; destruct (w_Update_Secret x w1) as [res w2] end.
    intros [= <- <-]. simpl in *. lia.
Qed.

(** What a renewal writes, and when. *)
Lemma generateServerCert_wrote m caCert caKey s s' :
  generateServerCert (W := W) m caCert caKey s = (None, s') →
  ∃ c secret key sn nb now bytes w w',
    st_log s' = st_log s ++ [c] ∧ wrote c secret ∧
    sec_Data secret !! "tls.crt"%string = Some (pem_EncodeToMemory "CERTIFICATE" bytes) ∧
    w_CreateCertificate (server_template m sn nb now) (inr caCert) key caKey w = (inr bytes, w') ∧
    clock (st_world s) ≤ now ∧ nb ≤ clock (st_world s').
Proof using All.
  unfold generateServerCert. unfold bindM at 1, liftW.
  pose proof (GenerateKey_clock (st_world s)) as K1.
  destruct (w_GenerateKey (st_world s)) as [[e|key] w1]; [done|]. unfold bindM at 1, liftW. cbn [st_world st_log].
  pose proof (SerialNumber_clock w1) as K2. destruct (w_SerialNumber w1) as [[e|sn] w2]; [done|].
  unfold bindM at 1, Now, liftW. cbn [st_world st_log]. destruct (w_Now w2) as [nb w3] eqn:Hnb.
  unfold bindM at 1, liftW. cbn [st_world st_log]. destruct (w_Now w3) as [now w4] eqn:Hnow.
  unfold bindM at 1, liftW. cbn [st_world st_log].
  pose proof (CreateCertificate_clock (server_template m sn nb now) (inr caCert) key caKey w4) as K5.
  destruct (w_CreateCertificate _ _ _ _ w4) as [[e|bytes] w5] eqn:Hc; [done|].
  intros Hs. pose proof (store_server_cert_clock _ _ _ _ _ Hs) as K6.
  apply store_server_cert_trace in Hs as (tr & Hl & _ & Hw).
  destruct (Hw eq_refl) as (c & secret & -> & Hwr & Hd & _).
  apply Now_clock in Hnb, Hnow. simpl in *. exists c, secret, key, sn, nb, now, bytes, w4, w5.
  split_and!; [done|by eapply writes_wrote|by rewrite Hd|done|lia|lia].
Qed.

Lemma trusted_roots_clock m caCert s :
  clock (st_world s) ≤ clock (st_world (trusted_roots (W := W) m caCert s).2).
Proof using All.
  unfold trusted_roots, bindM, liftW, retM.
  pose proof (Get_Secret_clock (key_of m (caSecretName m)) (st_world s)) as Hc.
  destruct (w_Get_Secret _ (st_world s)) as [[e|old] w1]; simpl in *; [done|].
  destruct (parseCAFromSecret old) as [e|[oc ok]]; simpl; [done|]. by case_match.
Qed.

(** C27.  A certificate that was renewed is not renewed again by a later check, under
    these conditions: the check is against the CA that signed it, which is a CA for that
    key, valid already when the certificate was stored and still valid when the check
    ends; it reads the secret with the data that the renewal wrote; and it ends at least
    30 days (and a second, the resolution of certificates) before a year after the start
    of the renewal.  The clock does not go back. *)
Theorem renewed_certificate_kept (m : Manager) (caCert : Certificate) (caKey : PrivateKey) (from : Z)
    (s s' s2 s3 : St W) (r : error + bool) (c : Call) (written read : Secret) (w : W) :
  CA_pair caCert caKey from → from ≤ clock (st_world s') →
  generateServerCert m caCert caKey s = (None, s') →
  st_log s' = st_log s ++ [c] → wrote c written →
  clock (st_world s') ≤ clock (st_world s2) →
  w_Get_Secret (key_of m (mg_secretName m)) (st_world s2) = (inr read, w) →
  sec_Data read = sec_Data written →
  needsServerCertGeneration m caCert s2 = (r, s3) →
  clock (st_world s3) + RenewThreshold ≤ clock (st_world s) + CertValidityDuration - time_Second →
  clock (st_world s3) ≤ cert_NotAfter caCert →
  r = inr false.
Proof using All.
  intros Hpair Hfrom Hgen Hlog Hwrote H12 Hget Hsame Hneeds Hyear Hca.
  destruct (generateServerCert_wrote _ _ _ _ _ Hgen)
    as (c' & sec & key & sn & nb & now & bytes & w0 & w0' & Hlog' & Hwrote' & Hcrt & Hcc & Hnow & Hnb).
  rewrite Hlog in Hlog'. apply app_inv_head in Hlog' as [= <-].
  assert (sec = written) as -> by (destruct Hwrote as [->| ->], Hwrote' as [?|?]; congruence).
  rewrite <- Hsame in Hcrt.
  pose proof (CreateCertificate_parses _ _ _ _ _ _ _ Hcc) as (cert & Hparse & Hexp & _). simpl in Hexp.
  pose proof (Get_Secret_clock (key_of m (mg_secretName m)) (st_world s2)) as K2. rewrite Hget in K2.
  revert Hneeds. unfold needsServerCertGeneration. unfold bindM at 1, liftW. rewrite Hget, Hcrt. simpl.
  rewrite bool_decide_false by apply pem_Encode_nonempty. rewrite pem_Decode_Encode, Hparse.
  unfold bindM at 1, Now, liftW. cbn [st_world st_log]. destruct (w_Now w) as [t w2] eqn:Ht.
  pose proof (Now_clock _ _ _ Ht) as K3. simpl in *.
  destruct (cert_NotAfter cert <? t + RenewThreshold) eqn:Hlt; [apply Z.ltb_lt in Hlt|].
  { intros [= <- <-]. simpl in *. exfalso. lia. }
  pose proof (trusted_roots_clock m caCert (mkSt w2 (st_log s2))) as K4. unfold bindM.
  destruct (trusted_roots m caCert (mkSt w2 (st_log s2))) as [roots s4] eqn:Hroots.
  apply trusted_roots_exact in Hroots as (_ & Hin & _).
  pose proof (Verify_clock cert roots (st_world s4)) as K5.
  destruct (w_Verify cert roots (st_world s4)) as [v w5] eqn:Hv. simpl in *. intros Hr.
  assert (s3 = mkSt w5 (st_log s4)) as -> by (by destruct v; injection Hr as <- <-). simpl in *.
  assert (v = None) as ->; [|by injection Hr as <-].
  assert (0 ≤ RenewThreshold) by done.
  eapply CreateCertificate_verifies; [exact Hcc|exact Hparse|exact Hpair|exact Hin|set_solver|..|exact Hv];
    simpl; lia.
Qed.
End kept.
End manager.

(** ** Concrete runs *)
Definition ex_manager : Manager :=
  {| mg_secretName := "tls"; mg_secretNamespace := "ops"; mg_serviceName := "hook";
     mg_webhookConfigName := "validate" |}.

Definition ex_CA_secret (name : string) (notAfter key : Z) : Secret :=
  {| sec_Name := name; sec_Namespace := "ops"; sec_Type := "Opaque";
     sec_Data :=
       {["ca.crt"%string := pem_EncodeToMemory "CERTIFICATE"
           (mc_bytes {| mc_NotAfter := notAfter; mc_key := key; mc_signer := key |});
         "ca.key"%string := pem_EncodeToMemory "RSA PRIVATE KEY" (MarshalPKCS1PrivateKey key)]} |}.

Definition ex_world (now : Z) (secrets : list Secret) (writable : bool) : St MemWorld :=
  mkSt {| mw_clock := now;
          mw_secrets := list_to_map ((λ x, (NN (sec_Namespace x) (sec_Name x), x)) <$> secrets);
          mw_config := Some {| wc_Name := "validate"; wc_CABundles := [EmptyString; EmptyString] |};
          mw_writable := writable |} [].

(** The old CA has expired and the new one is promoted. *)
Definition ex_promotion : St MemWorld :=
  ex_world 100 [ex_CA_secret "tls-ca" 50 1; ex_CA_secret "tls-ca-new" 1000 2] true.

Lemma ensureCA_keeps_CA_witness :
  (st_log (ensureCA ex_manager ex_promotion).2
    = [CDeleteSecret (NN "ops" "tls-ca") None; CCreateSecret (ex_CA_secret "tls-ca" 1000 2) None;
       CDeleteSecret (NN "ops" "tls-ca-new") None]) ∧
  ∃ tr, st_log (ensureCA ex_manager ex_promotion).2 = [] ++ tr ∧ CA_trace ex_manager tr.
Proof.
  split; [vm_compute; reflexivity|].
  destruct (ensureCA_keeps_CA ex_manager ex_promotion _ _ (surjective_pairing _)) as (tr & Hl & Ht & _).
  exists tr. split; [exact Hl|exact Ht].
Defined.

(** The first start: a CA, a server certificate and an update of the bundle that fails
    without an error being reported. *)
Definition ex_start : St MemWorld := ex_world 0 [] false.

Lemma ensureCertificate_outcome_witness :
  (ensureCertificate ex_manager ex_start).1 = None ∧
  length (st_log (ensureCertificate ex_manager ex_start).2) = 3%nat ∧
  ∃ ca_calls caCert caKey s1, CA_trace ex_manager ca_calls ∧
    ensureCA ex_manager ex_start = (inr (caCert, caKey), s1).
Proof.
  split; [vm_compute; reflexivity|]. split; [vm_compute; reflexivity|].
  destruct (ensureCertificate_outcome ex_manager ex_start (ensureCertificate ex_manager ex_start).2 None)
    as (ca & Ht & caCert & caKey & s1 & He & _); [vm_compute; reflexivity|].
  exists ca, caCert, caKey, s1. split; [exact Ht|exact He].
Defined.

(** A renewal at time 0 with the CA of key 7, and a check 300 days later. *)
Definition ex_CA : MemCertificate :=
  {| mc_NotAfter := CAValidityDuration; mc_key := 7; mc_signer := 7 |}.

Definition ex_renewed : St MemWorld := (generateServerCert ex_manager ex_CA 7 (ex_world 0 [] true)).2.

Definition ex_later : St MemWorld :=
  mkSt {| mw_clock := 300 * 24 * time_Hour; mw_secrets := mw_secrets (st_world ex_renewed);
          mw_config := None; mw_writable := true |} [].

Definition ex_written : Secret :=
  default (ex_CA_secret "" 0 0) (mw_secrets (st_world ex_renewed) !! NN "ops" "tls").

Lemma renewed_certificate_kept_witness :
  (needsServerCertGeneration ex_manager ex_CA ex_later).1 = inr false.
Proof.
  refine (renewed_certificate_kept mw_clock mem_CA_pair ex_manager ex_CA 7 0
    (ex_world 0 [] true) ex_renewed ex_later _ _ (CCreateSecret ex_written None) ex_written ex_written
    (st_world ex_later) _ _ _ _ (or_introl eq_refl) _ _ eq_refl (surjective_pairing _) _ _).
  all: vm_compute; first [reflexivity|discriminate].
Defined.
