(* ===== verification/Main.v ===== *)
(** [main] of [cmd/main.go]: the TLS options of its servers, and the sequence of calls
    that builds the manager, its runnables, controllers, webhook and checks.  Every call
    that can fail ends the program with exit code 1. *)
From stdpp Require Import base option list gmap strings.
From S2P Require Import Prelude ApiTypes PolicyCache WorkQueue Worker GoSlice Flags Config.
From S2P Require Import SecretWatcher CertManager.
From Stdlib Require Import ZArith Ascii.

Local Open Scope Z_scope.

(** ** TLS options *)
Inductive TlsOption := DisableHTTP2 | SecretCertificate | MetricsCertificate.
Inductive CertificateSource := FromSecretCertWatcher | FromMetricsCertWatcher.

(** The fields of [tls.Config] that the options set. *)
Record TlsConfig := { NextProtos : option (list string); GetCertificateFrom : option CertificateSource }.

Definition apply_option (c : TlsConfig) (o : TlsOption) : TlsConfig :=
  match o with
  | DisableHTTP2 => {| NextProtos := Some ["http/1.1"%string]; GetCertificateFrom := GetCertificateFrom c |}
  | SecretCertificate => {| NextProtos := NextProtos c; GetCertificateFrom := Some FromSecretCertWatcher |}
  | MetricsCertificate => {| NextProtos := NextProtos c; GetCertificateFrom := Some FromMetricsCertWatcher |}
  end.

Definition configured (os : list TlsOption) : TlsConfig :=
  foldl apply_option {| NextProtos := None; GetCertificateFrom := None |} os.

Definition nonempty (s : string) : bool := negb (bool_decide (s = EmptyString)).

Section tls.
Variable nextcap : nat → nat.

(** [tlsOpts], then [webhookTLSOpts], then the options of the metrics server: the last two
    are appended to the same slice. *)
Definition tls_base (fl : Flags) : arrays TlsOption * slice :=
  if negb (enableHTTP2 fl) then append nextcap ∅ SNil DisableHTTP2 else (∅, SNil).

Definition tls_webhook (fl : Flags) (m : arrays TlsOption) (tlsOpts : slice) : arrays TlsOption * slice :=
  if nonempty (webhookCertSecretName fl) then append nextcap m tlsOpts SecretCertificate else (m, tlsOpts).

Definition tls_metrics (fl : Flags) (m : arrays TlsOption) (tlsOpts : slice) : arrays TlsOption * slice :=
  if nonempty (metricsCertPath fl) then append nextcap m tlsOpts MetricsCertificate else (m, tlsOpts).
End tls.

(** ** What is set up *)
Record ManagerOptions := {
  mo_MetricsBindAddress : string;
  mo_MetricsSecure : bool;
  mo_MetricsFilter : bool;
  (** the configurations that the two servers find when the manager starts them *)
  mo_MetricsTLS : TlsConfig;
  mo_WebhookTLS : TlsConfig;
  mo_HealthProbeBindAddress : string;
  mo_LeaderElection : bool;
  mo_LeaderElectionID : string;
  mo_LeaderElectionReleaseOnCancel : bool;
  mo_LeaseDuration : Z;
  mo_RenewDeadline : Z;
  mo_RetryPeriod : Z
}.

Inductive Runnable :=
  | RSecretCertWatcher (secretName secretNamespace : string)
  | RCertManager (m : Manager)
  | RMetricsCertWatcher.

Definition SecretCertWatcher_NeedLeaderElection : bool := false.
Definition Manager_NeedLeaderElection : bool := true.

(** [NeedLeaderElection]; the metrics watcher, a library's, says that it needs none. *)
Definition NeedLeaderElection (r : Runnable) : bool :=
  match r with
  | RSecretCertWatcher _ _ => SecretCertWatcher_NeedLeaderElection
  | RCertManager _ => Manager_NeedLeaderElection
  | RMetricsCertWatcher => false
  end.

Inductive Reconciler :=
  | PolicyCacheReconciler
  | KubeTemplateReconciler (operatorNamespace : string) (interval : Z)
  | KubeTemplatePolicyReconciler
  | NamespaceReconciler.

(** [ctrl.NewControllerManagedBy(mgr).For(...).Named(...)] *)
Record ControllerBuilder := { cb_For : string; cb_Named : option string; cb_UpdatePredicate : bool }.

Definition PolicyCacheReconciler_SetupWithManager : ControllerBuilder :=
  {| cb_For := "KubeTemplatePolicy"; cb_Named := Some "policy-cache"%string; cb_UpdatePredicate := false |}.

Definition KubeTemplateReconciler_SetupWithManager : ControllerBuilder :=
  {| cb_For := "KubeTemplate"; cb_Named := Some "kubetemplater.io-kubetemplate"%string;
     cb_UpdatePredicate := true |}.

Definition KubeTemplatePolicyReconciler_SetupWithManager : ControllerBuilder :=
  {| cb_For := "KubeTemplatePolicy"; cb_Named := None; cb_UpdatePredicate := false |}.

Definition NamespaceReconciler_SetupWithManager : ControllerBuilder :=
  {| cb_For := "Namespace"; cb_Named := Some "namespace"%string; cb_UpdatePredicate := false |}.

Definition SetupWithManager (r : Reconciler) : ControllerBuilder :=
  match r with
  | PolicyCacheReconciler => PolicyCacheReconciler_SetupWithManager
  | KubeTemplateReconciler _ _ => KubeTemplateReconciler_SetupWithManager
  | KubeTemplatePolicyReconciler => KubeTemplatePolicyReconciler_SetupWithManager
  | NamespaceReconciler => NamespaceReconciler_SetupWithManager
  end.

Definition lower (c : ascii) : ascii :=
  let n := N_of_ascii c in
  if (65 <=? Z.of_N n) && (Z.of_N n <=? 90) then ascii_of_N (n + 32) else c.

Fixpoint ToLower (s : string) : string :=
  match s with EmptyString => EmptyString | String c r => String (lower c) (ToLower r) end.

(** Without [Named], a controller is called after the kind in lower case. *)
Definition controller_name (r : Reconciler) : string :=
  default (ToLower (cb_For (SetupWithManager r))) (cb_Named (SetupWithManager r)).

Inductive SetupCall :=
  | SGetConfigOrDie
  | SNewClientset
  | SNewMetricsCertWatcher (dir cert key : string)
  | SNewManager (o : ManagerOptions)
  | SAdd (r : Runnable)
  | SIndexField (kind field : string)
  | SStartWorkers (cache : PolicyCache) (queue : option WorkQueue) (workers : list TemplateProcessor)
  | SController (r : Reconciler)
  | SWebhook (operatorNamespace : string)
  | SHealthzCheck (name : string)
  | SReadyzCheck (name : string)
  | SStart.

(** [StartWorkers] has no error. *)
Definition can_fail (c : SetupCall) : bool := match c with SStartWorkers _ _ _ => false | _ => true end.

(** The outcome of each call. *)
Class SetupOps (W : Type) := { w_setup : SetupCall → W → option error * W }.

(** [NewManager] of [internal/cert] *)
Definition NewManager (secretName secretNamespace serviceName webhookConfigName : string) : Manager :=
  {| mg_secretName := secretName; mg_secretNamespace := secretNamespace;
     mg_serviceName := serviceName; mg_webhookConfigName := webhookConfigName |}.

(** The check ["certificate-ready"] *)
Definition certificate_ready `{TlsOps} (s : SecretCertWatcher) : option error :=
  if IsReady s then None else Some (Errorf "certificate not loaded yet").

Definition env_or (env : Env) (key fallback : string) : string :=
  if bool_decide (env key = EmptyString) then fallback else env key.

Definition manager_options (fl : Flags) (m : arrays TlsOption) (webhookTLSOpts metricsTLSOpts : slice)
    : ManagerOptions := {|
  mo_MetricsBindAddress := metricsAddr fl; mo_MetricsSecure := secureMetrics fl;
  mo_MetricsFilter := secureMetrics fl; mo_MetricsTLS := configured (contents m metricsTLSOpts);
  mo_WebhookTLS := configured (contents m webhookTLSOpts); mo_HealthProbeBindAddress := probeAddr fl;
  mo_LeaderElection := enableLeaderElection fl; mo_LeaderElectionID := "8377a775.my.company.com";
  mo_LeaderElectionReleaseOnCancel := true; mo_LeaseDuration := 10 * time_Second;
  mo_RenewDeadline := 7 * time_Second; mo_RetryPeriod := 2 * time_Second
|}.

(** ** The program *)
Section main.
Context {W : Type} `{SetupOps W} `{OtherFlags} (nextcap : nat → nat).

(** [inl code] is [os.Exit(code)]. *)
Definition Setup (A : Type) : Type :=
  W * list (SetupCall * option error) → (Z + A) * (W * list (SetupCall * option error)).

Definition ret {A} (x : A) : Setup A := λ s, (inr x, s).
Definition exit {A} (code : Z) : Setup A := λ s, (inl code, s).
#[global] Instance Setup_bind : MBind Setup := λ A B k m s,
  let '(r, s') := m s in match r with inl code => (inl code, s') | inr x => k x s' end.

(** A call whose error is logged and ends the program. *)
Definition must (c : SetupCall) : Setup unit :=
  λ s, let '(r, w) := w_setup c s.1 in
       (match r with Some _ => inl 1 | None => inr tt end, (w, s.2 ++ [(c, r)])).

(** A call that cannot fail. *)
Definition call (c : SetupCall) : Setup unit :=
  λ s, let '(_, w) := w_setup c s.1 in (inr tt, (w, s.2 ++ [(c, None)])).

Definition when (b : bool) (m : Setup unit) : Setup unit := if b then m else ret tt.

(** The controllers, the webhook and the checks, and then the manager's loop. *)
Definition main_controllers (fl : Flags) (operatorNamespace : string) (t : Tuning) : Setup unit :=
  must (SController PolicyCacheReconciler);;
  must (SController (KubeTemplateReconciler operatorNamespace (periodicReconcileInterval t)));;
  must (SController KubeTemplatePolicyReconciler);;
  must (SController NamespaceReconciler);;
  must (SWebhook operatorNamespace);;
  when (nonempty (metricsCertPath fl)) (must (SAdd RMetricsCertWatcher));;
  must (SHealthzCheck "healthz");;
  must (SReadyzCheck "readyz");;
  when (nonempty (webhookCertSecretName fl)) (must (SReadyzCheck "certificate-ready"));;
  must SStart.

Definition main_certificates (fl : Flags) (operatorNamespace : string) : Setup unit :=
  when (nonempty (webhookCertSecretName fl))
    (must SGetConfigOrDie;; must SNewClientset;;
     must (SAdd (RCertManager (NewManager (webhookCertSecretName fl) operatorNamespace
                                 (webhookServiceName fl) (webhookConfigurationName fl))))).

Definition main (args : list string) (env : Env) : Setup unit :=
  match parse_flags args with
  | inl code => exit code
  | inr fl =>
  let '(m0, tlsOpts) := tls_base nextcap fl in
  let podNamespace := env_or env "POD_NAMESPACE" "kubetemplater-system" in
  when (nonempty (webhookCertSecretName fl)) (must SGetConfigOrDie;; must SNewClientset);;
  let '(m1, webhookTLSOpts) := tls_webhook nextcap fl m0 tlsOpts in
  when (nonempty (metricsCertPath fl))
    (must (SNewMetricsCertWatcher (metricsCertPath fl) (metricsCertName fl) (metricsCertKey fl)));;
  let '(m2, metricsTLSOpts) := tls_metrics nextcap fl m1 tlsOpts in
  must SGetConfigOrDie;;
  must (SNewManager (manager_options fl m2 webhookTLSOpts metricsTLSOpts));;
  when (nonempty (webhookCertSecretName fl))
    (must (SAdd (RSecretCertWatcher (webhookCertSecretName fl) podNamespace)));;
  let operatorNamespace := env_or env "OPERATOR_NAMESPACE" "default" in
  main_certificates fl operatorNamespace;;
  must (SIndexField "KubeTemplatePolicy" "spec.sourceNamespace");;
  let t := read_tuning env in
  call (SStartWorkers (main_policyCache t) (main_workQueue t) (main_workers operatorNamespace t));;
  main_controllers fl operatorNamespace t
  end.
End main.
