(* ===== verification/MainSpec.v ===== *)
(** What [main] sets up: the TLS options of its two servers do not interfere, the first
    failing call ends it, and a complete set-up is wired consistently. *)
From stdpp Require Import base option list gmap strings.
From S2P Require Import Prelude ApiTypes PolicyCache WorkQueue WorkQueueFacts Worker GoSlice Flags FlagsSpec.
From S2P Require Import Config ConfigSpec SecretWatcher CertManager Main.
From Stdlib Require Import ZArith Lia.

Local Open Scope Z_scope.

(** ** TLS options *)
Definition base_options (fl : Flags) : list TlsOption :=
  if enableHTTP2 fl then [] else [DisableHTTP2].
Definition webhook_options (fl : Flags) : list TlsOption :=
  base_options fl ++ (if nonempty (webhookCertSecretName fl) then [SecretCertificate] else []).
Definition metrics_options (fl : Flags) : list TlsOption :=
  base_options fl ++ (if nonempty (metricsCertPath fl) then [MetricsCertificate] else []).

(** The memory and the two slices when the manager is created. *)
Definition tls_slices (nextcap : nat → nat) (fl : Flags) : arrays TlsOption * slice * slice :=
  let '(m0, tlsOpts) := tls_base nextcap fl in
  let '(m1, webhookTLSOpts) := tls_webhook nextcap fl m0 tlsOpts in
  let '(m2, metricsTLSOpts) := tls_metrics nextcap fl m1 tlsOpts in
  (m2, webhookTLSOpts, metricsTLSOpts).

(** A full slice stays full and intact while another option is appended to it. *)
Lemma tls_base_full nextcap fl m tlsOpts :
  nextcap 0%nat = 1%nat → tls_base nextcap fl = (m, tlsOpts) →
  wf_slice m tlsOpts ∧ sl_len tlsOpts = sl_cap tlsOpts ∧ contents m tlsOpts = base_options fl.
Proof.
  intros H1. unfold tls_base, base_options. destruct (enableHTTP2 fl); simpl; intros [= <- <-]; [done|].
  rewrite H1. split_and!; [|done|simpl; by rewrite lookup_insert_eq].
  exists [DisableHTTP2]. rewrite lookup_insert_eq. simpl. split; [done|lia].
Qed.

Lemma append_option nextcap (b : bool) (m : arrays TlsOption) s x s' :
  (∀ c, (c < nextcap c)%nat) → wf_slice m s → wf_slice m s' → sl_len s = sl_cap s →
  let '(m', r) := if b then append nextcap m s x else (m, s) in
  contents m' r = contents m s ++ (if b then [x] else []) ∧ wf_slice m' r ∧
  contents m' s' = contents m s' ∧ wf_slice m' s'.
Proof.
  intros Hnext Hs Hs' Hfull. destruct b; [|by rewrite app_nil_r].
  pose proof (append_contents nextcap m s x Hs) as Hc. pose proof (append_wf nextcap m s x Hnext Hs) as Hwf.
  destruct (append_full nextcap m s x s' Hs' Hfull) as [? ?]. destruct (append nextcap m s x). done.
Qed.

Lemma tls_slices_contents nextcap fl m wh mt :
  (∀ c, (c < nextcap c)%nat) → nextcap 0%nat = 1%nat → tls_slices nextcap fl = (m, wh, mt) →
  contents m wh = webhook_options fl ∧ contents m mt = metrics_options fl.
Proof.
  intros Hnext H1. unfold tls_slices. destruct (tls_base nextcap fl) as [m0 base] eqn:Hbase.
  destruct (tls_webhook nextcap fl m0 base) as [m1 w] eqn:Hwh.
  destruct (tls_metrics nextcap fl m1 base) as [m2 r] eqn:Hmt. intros [= -> -> ->].
  destruct (tls_base_full _ _ _ _ H1 Hbase) as (Hwf & Hfull & Hc).
  unfold tls_webhook in Hwh. unfold tls_metrics in Hmt. unfold webhook_options, metrics_options.
  pose proof (append_option nextcap (nonempty (webhookCertSecretName fl)) m0 base SecretCertificate base
    Hnext Hwf Hwf Hfull) as Hopt. rewrite Hwh in Hopt. destruct Hopt as (Hc1 & Hwf1 & Hb1 & Hbwf1).
  pose proof (append_option nextcap (nonempty (metricsCertPath fl)) m1 base MetricsCertificate wh
    Hnext Hbwf1 Hwf1 Hfull) as Hopt2. rewrite Hmt in Hopt2. destruct Hopt2 as (Hc2 & _ & Hw2 & _).
  by rewrite Hw2, Hc2, Hc1, Hb1, Hc.
Qed.

(** C38.  The options of the webhook server and of the metrics server are appended to the
    same slice.  As long as a slice of one element has no room for another, which is what
    the runtime does, each server gets its own certificate source, and HTTP/2 is disabled
    on both unless enabled.  With a larger capacity, and both certificates configured,
    the metrics option would overwrite the webhook's, which would then present the
    metrics certificate. *)
Theorem tls_options_separate (nextcap : nat → nat) (fl : Flags) :
  (∀ c, (c < nextcap c)%nat) →
  let '(m, wh, mt) := tls_slices nextcap fl in
  (nextcap 0%nat = 1%nat → contents m wh = webhook_options fl ∧ contents m mt = metrics_options fl) ∧
  ((1 < nextcap 0)%nat → enableHTTP2 fl = false →
   nonempty (webhookCertSecretName fl) = true → nonempty (metricsCertPath fl) = true →
   GetCertificateFrom (configured (contents m wh)) = Some FromMetricsCertWatcher).
Proof.
  intros Hnext. pose proof (λ m wh mt, tls_slices_contents nextcap fl m wh mt Hnext) as Hsep. unfold tls_slices in *.
  destruct (tls_base nextcap fl) as [m0 base] eqn:Hbase.
  destruct (tls_webhook nextcap fl m0 base) as [m1 wh] eqn:Hwh.
  destruct (tls_metrics nextcap fl m1 base) as [m2 mt] eqn:Hmt. split; [by intros; apply Hsep|].
  intros H1 Hh2 Hs Hm. unfold tls_base in Hbase. rewrite Hh2 in Hbase. injection Hbase as <- <-.
  unfold tls_webhook in Hwh. rewrite Hs in Hwh. simpl in Hwh.
  rewrite decide_True, lookup_insert_eq in Hwh by done. injection Hwh as <- <-.
  unfold tls_metrics in Hmt. rewrite Hm in Hmt. simpl in Hmt.
  rewrite decide_True, lookup_insert_eq in Hmt by done. injection Hmt as <- <-.
  simpl. by rewrite lookup_insert_eq.
Qed.

(** Both certificates configured. *)
Definition ex_flags : Flags :=
  mkFlags ":8443" ":8081" true true "" "tls.crt" "tls.key" "cert" "svc" "cfg" "/certs" "tls.crt" "tls.key" false.

Lemma tls_options_separate_witness :
  ∃ m wh mt, tls_slices S ex_flags = (m, wh, mt) ∧
    contents m wh = [DisableHTTP2; SecretCertificate] ∧ contents m mt = [DisableHTTP2; MetricsCertificate].
Proof.
  eexists _, _, _. split; [reflexivity|].
  exact (proj1 (tls_options_separate S ex_flags (λ c, Nat.lt_succ_diag_r c)) eq_refl).
Defined.

(** ** The sequence of calls *)
Definition only_if {A} (b : bool) (l : list A) : list A := if b then l else [].

(** All calls of a set-up without failures. *)
Definition wiring (nextcap : nat → nat) (fl : Flags) (env : Env) : list SetupCall :=
  let secret := nonempty (webhookCertSecretName fl) in
  let metrics := nonempty (metricsCertPath fl) in
  let operatorNamespace := env_or env "OPERATOR_NAMESPACE" "default" in
  let t := read_tuning env in
  let '(m, wh, mt) := tls_slices nextcap fl in
  only_if secret [SGetConfigOrDie; SNewClientset] ++
  only_if metrics
    [SNewMetricsCertWatcher (metricsCertPath fl) (metricsCertName fl) (metricsCertKey fl)] ++
  [SGetConfigOrDie; SNewManager (manager_options fl m wh mt)] ++
  only_if secret
    [SAdd (RSecretCertWatcher (webhookCertSecretName fl)
             (env_or env "POD_NAMESPACE" "kubetemplater-system"));
     SGetConfigOrDie; SNewClientset;
     SAdd (RCertManager (NewManager (webhookCertSecretName fl) operatorNamespace
                           (webhookServiceName fl) (webhookConfigurationName fl)))] ++
  [SIndexField "KubeTemplatePolicy" "spec.sourceNamespace";
   SStartWorkers (main_policyCache t) (main_workQueue t) (main_workers operatorNamespace t);
   SController PolicyCacheReconciler;
   SController (KubeTemplateReconciler operatorNamespace (periodicReconcileInterval t));
   SController KubeTemplatePolicyReconciler; SController NamespaceReconciler;
   SWebhook operatorNamespace] ++
  only_if metrics [SAdd RMetricsCertWatcher] ++
  [SHealthzCheck "healthz"; SReadyzCheck "readyz"] ++
  only_if secret [SReadyzCheck "certificate-ready"] ++ [SStart].

Section main.
Context {W : Type} `{SetupOps W} `{OtherFlags} (nextcap : nat → nat).

(** The calls one after the other, up to the first that fails. *)
Fixpoint run (l : list SetupCall) : Setup (W := W) unit :=
  match l with
  | [] => ret tt
  | c :: r => (if can_fail c then must c else call c);; run r
  end.

Lemma bind_ext (a b c : Setup (W := W) unit) s : (∀ s, b s = c s) → (a;; b) s = (a;; c) s.
Proof using Type. intros Hbc. unfold mbind, Setup_bind. destruct (a s) as [[|] s']; [done|]. apply Hbc. Qed.

Lemma bind_assoc (a b c : Setup (W := W) unit) s : ((a;; b);; c) s = (a;; b;; c) s.
Proof using Type. unfold mbind, Setup_bind. by destruct (a s) as [[|] s']. Qed.

Lemma ret_bind (a : Setup (W := W) unit) s : (ret tt;; a) s = a s.
Proof using Type. done. Qed.

Lemma bind_ret (a : Setup (W := W) unit) s : a s = (a;; ret tt) s.
Proof using Type. unfold mbind, Setup_bind, ret. by destruct (a s) as [[|[]] s']. Qed.

Lemma main_run args env fl s :
  parse_flags args = inr fl → main nextcap args env s = run (wiring nextcap fl env) s.
Proof using Type.
  intros Hfl. unfold main, wiring, tls_slices, main_certificates, main_controllers. rewrite Hfl.
  destruct (tls_base nextcap fl) as [m0 base].
  destruct (tls_webhook nextcap fl m0 base) as [m1 wh].
  destruct (tls_metrics nextcap fl m1 base) as [m2 mt]. cbv zeta.
  destruct (nonempty (webhookCertSecretName fl)), (nonempty (metricsCertPath fl));
    cbn [when only_if app run can_fail];
    repeat first [rewrite bind_assoc|apply bind_ext; intros ?|apply bind_ret|rewrite ret_bind].
Qed.

(** The calls made by [run]: all of them, or up to the first that fails. *)
Lemma run_outcome l w log :
  let '(r, (w', log')) := run l (w, log) in
  ∃ made, log' = log ++ made ∧
    ((r = inr tt ∧ fst <$> made = l ∧ Forall (λ cr, cr.2 = None) made) ∨
     (r = inl 1 ∧ ∃ ok c e rest, made = ok ++ [(c, Some e)] ∧ Forall (λ cr, cr.2 = None) ok ∧
        l = (fst <$> made) ++ rest ∧ can_fail c = true)).
Proof using Type.
  revert w log. induction l as [|c l IH]; intros w log; simpl.
  { exists []. rewrite app_nil_r. by split; [|left]. }
  assert (Hnext : ∀ w1, let '(r, (w', log')) := run l (w1, log ++ [(c, None)]) in
    ∃ made, log' = log ++ made ∧
      ((r = inr tt ∧ fst <$> made = c :: l ∧ Forall (λ cr, cr.2 = None) made) ∨
       (r = inl 1 ∧ ∃ ok c' e rest, made = ok ++ [(c', Some e)] ∧ Forall (λ cr, cr.2 = None) ok ∧
          c :: l = (fst <$> made) ++ rest ∧ can_fail c' = true))).
  { intros w1. specialize (IH w1 (log ++ [(c, None)])). destruct (run l _) as [r [w2 log2]].
    destruct IH as (made & -> & IH). exists ((c, None) :: made). rewrite <- app_assoc.
    split; [done|]. destruct IH as [(-> & <- & Hall)|(-> & ok & c' & e & rest & -> & Hok & -> & Hf)].
    + left. split_and!; [done..|]. by constructor.
    + right. split; [done|]. exists ((c, None) :: ok), c', e, rest. split_and!; [done| |done..]. by constructor. }
  destruct (can_fail c) eqn:Hc; unfold mbind, Setup_bind, must, call; cbn [fst snd];
    destruct (w_setup c w) as [[e|] w1]; [|apply Hnext..].
  exists [(c, Some e)]. split; [done|]. right. split; [done|]. by exists [], c, e, l.
Qed.

(** A run that returns has made all its calls. *)
Lemma main_completes args env fl w w' log :
  parse_flags args = inr fl → main nextcap args env (w, []) = (inr tt, (w', log)) →
  fst <$> log = wiring nextcap fl env.
Proof using Type.
  intros Hfl. rewrite (main_run args env fl _ Hfl). pose proof (run_outcome (wiring nextcap fl env) w []) as Hrun.
  destruct (run (wiring nextcap fl env) (w, [])) as [r [w1 log1]]. intros [= -> -> ->].
  by destruct Hrun as (made & -> & [(_ & ? & _)|(? & _)]).
Qed.

(** C14.  [main] with any arguments and environment, whatever its calls answer: a command
    line that does not parse ends it with the parser's exit code before any call; else it
    makes the calls of the complete set-up in their order and stops with exit code 1
    right after the first one that fails; it returns normally only after all of them,
    the manager's loop the last. *)
Theorem main_fails_fast (args : list string) (env : Env) (w : W) :
  let '(r, (w', log)) := main nextcap args env (w, []) in
  match parse_flags args with
  | inl code => r = inl code ∧ log = []
  | inr fl =>
      (r = inr tt ∧ fst <$> log = wiring nextcap fl env ∧ Forall (λ cr, cr.2 = None) log) ∨
      (r = inl 1 ∧ ∃ ok c e rest, log = ok ++ [(c, Some e)] ∧ Forall (λ cr, cr.2 = None) ok ∧
         wiring nextcap fl env = (fst <$> log) ++ rest)
  end.
Proof using Type.
  destruct (parse_flags args) as [code|fl] eqn:Hfl.
  { unfold main. rewrite Hfl. done. }
  rewrite (main_run args env fl _ Hfl). pose proof (run_outcome (wiring nextcap fl env) w []) as Hrun.
  destruct (run (wiring nextcap fl env) (w, [])) as [r [w' log]]. destruct Hrun as (made & -> & Hrun).
  destruct Hrun as [?|(? & ok & c & e & rest & -> & ? & ? & _)]; [by left|]. right. split; [done|].
  by exists ok, c, e, rest.
Qed.
End main.

(** ** The complete set-up *)
Definition controllers (l : list SetupCall) : list Reconciler :=
  omap (λ c, match c with SController r => Some r | _ => None end) l.

Definition runnables (l : list SetupCall) : list Runnable :=
  omap (λ c, match c with SAdd r => Some r | _ => None end) l.

(** A queue and workers are started once, before any controller can enqueue. *)
Definition workers_first (l : list SetupCall) (operatorNamespace : string) (t : Tuning) : Prop :=
  ∃ pre post queue, l = pre ++ SStartWorkers (main_policyCache t) (Some queue) (main_workers operatorNamespace t) :: post ∧
    main_workQueue t = Some queue ∧ wq_wf queue ∧ controllers pre = [] ∧ main_workers operatorNamespace t ≠ [] ∧
    Forall (λ c, ∀ a b d, c ≠ SStartWorkers a b d) (pre ++ post).

(** The inequalities that the leader election of the client library asks for, with its
    jitter factor 1.2. *)
Definition lease_ok (o : ManagerOptions) : Prop :=
  mo_RenewDeadline o < mo_LeaseDuration o ∧ 12 * mo_RetryPeriod o < 10 * mo_RenewDeadline o.

Lemma wiring_shape nextcap fl env :
  ∃ m wh mt, tls_slices nextcap fl = (m, wh, mt) ∧
  controllers (wiring nextcap fl env) =
    [PolicyCacheReconciler;
     KubeTemplateReconciler (env_or env "OPERATOR_NAMESPACE" "default")
       (periodicReconcileInterval (read_tuning env));
     KubeTemplatePolicyReconciler; NamespaceReconciler] ∧
  runnables (wiring nextcap fl env) =
    only_if (nonempty (webhookCertSecretName fl))
      [RSecretCertWatcher (webhookCertSecretName fl) (env_or env "POD_NAMESPACE" "kubetemplater-system");
       RCertManager (NewManager (webhookCertSecretName fl) (env_or env "OPERATOR_NAMESPACE" "default")
                       (webhookServiceName fl) (webhookConfigurationName fl))] ++
    only_if (nonempty (metricsCertPath fl)) [RMetricsCertWatcher] ∧
  SNewManager (manager_options fl m wh mt) ∈ wiring nextcap fl env.
Proof.
  unfold wiring. destruct (tls_slices nextcap fl) as [[m wh] mt]. exists m, wh, mt. split; [done|].
  destruct (nonempty (webhookCertSecretName fl)), (nonempty (metricsCertPath fl)); simpl;
    (split_and!; [done..|set_solver]).
Qed.

Lemma main_workQueue_wf t : ∃ queue, main_workQueue t = Some queue ∧ wq_wf queue.
Proof.
  destruct (NewWorkQueueWithConfig_wf (queueMaxRetries t) (queueInitialRetryDelay t)
    (queueMaxRetryDelay t) (queueMaxRetryCycles t)) as (q & Hq & Hwf & _). by exists q.
Qed.

Lemma main_workers_some ns env : main_workers ns (read_tuning env) ≠ [].
Proof.
  unfold main_workers, StartWorkers. simpl. unfold at_least.
  destruct (Z.ltb_spec (getEnvInt env "NUM_WORKERS" 3) 1); [done|].
  destruct (Z.to_nat (getEnvInt env "NUM_WORKERS" 3)) eqn:Hn; [lia|done].
Qed.

Lemma wiring_workers_first nextcap fl env :
  workers_first (wiring nextcap fl env) (env_or env "OPERATOR_NAMESPACE" "default") (read_tuning env).
Proof.
  destruct (main_workQueue_wf (read_tuning env)) as (q & Hq & Hwf).
  unfold workers_first, wiring. destruct (tls_slices nextcap fl) as [[m wh] mt]. rewrite Hq. cbv zeta.
  eexists (only_if _ _ ++ only_if _ _ ++ [_; _] ++ only_if _ _ ++ [_]), _, q.
  split_and!; [rewrite <- !app_assoc; reflexivity|done..| |apply main_workers_some|].
  - by destruct (nonempty (webhookCertSecretName fl)), (nonempty (metricsCertPath fl)).
  - destruct (nonempty (webhookCertSecretName fl)), (nonempty (metricsCertPath fl)); by repeat constructor.
Qed.

Lemma wiring_last nextcap fl env : last (wiring nextcap fl env) = Some SStart.
Proof. unfold wiring. destruct (tls_slices nextcap fl) as [[m wh] mt]. by rewrite !app_assoc, last_snoc. Qed.

Section complete.
Context {W : Type} `{SetupOps W} `{OtherFlags} (nextcap : nat → nat).

(** C13.  When [main] returns normally it has registered exactly its four controllers,
    under different names; it has started at least one worker, once, on a well-formed
    queue, before any controller; the readiness check of the certificate is there
    exactly when a watcher is that loads it; the lease settings are ones the leader
    election accepts; and the two servers have the TLS configurations that the flags ask
    for. *)
Theorem main_wiring (args : list string) (env : Env) (fl : Flags) (w w' : W)
    (log : list (SetupCall * option error)) :
  parse_flags args = inr fl → nextcap 0%nat = 1%nat → (∀ c, (c < nextcap c)%nat) →
  main nextcap args env (w, []) = (inr tt, (w', log)) →
  let l := fst <$> log in
  NoDup (controller_name <$> controllers l) ∧
  controllers l = [PolicyCacheReconciler;
    KubeTemplateReconciler (env_or env "OPERATOR_NAMESPACE" "default")
      (periodicReconcileInterval (read_tuning env));
    KubeTemplatePolicyReconciler; NamespaceReconciler] ∧
  workers_first l (env_or env "OPERATOR_NAMESPACE" "default") (read_tuning env) ∧
  (SReadyzCheck "certificate-ready" ∈ l ↔ ∃ name ns, SAdd (RSecretCertWatcher name ns) ∈ l) ∧
  (∃ o, SNewManager o ∈ l ∧ lease_ok o ∧ mo_WebhookTLS o = configured (webhook_options fl) ∧
     mo_MetricsTLS o = configured (metrics_options fl)) ∧
  last l = Some SStart.
Proof using Type.
  intros Hfl H1 Hnext Hmain. cbv zeta. rewrite (main_completes _ _ _ _ _ _ _ Hfl Hmain).
  destruct (wiring_shape nextcap fl env) as (m & wh & mt & Hs & Hctl & _ & Hmgr). rewrite Hctl.
  split_and!.
  - refine (bool_decide_unpack _ _). vm_compute. exact I.
  - done.
  - apply wiring_workers_first.
  - clear. unfold wiring. destruct (tls_slices nextcap fl) as [[m wh] mt].
    destruct (nonempty (webhookCertSecretName fl)), (nonempty (metricsCertPath fl)); simpl; set_solver.
  - eexists. split; [exact Hmgr|]. split; [by split|].
    destruct (tls_slices_contents nextcap fl m wh mt Hnext H1 Hs) as [Hw Hm]. simpl. by rewrite Hw, Hm.
  - apply wiring_last.
Qed.
(** C40.  With automatic certificates, the pods watch the secret in the namespace of
    [POD_NAMESPACE] while the certificate manager writes it in that of
    [OPERATOR_NAMESPACE], each with its own default: they are about the same secret
    exactly when the two agree, and are not when neither variable is set. *)
Theorem certificate_namespaces (args : list string) (env : Env) (fl : Flags) (w w' : W)
    (log : list (SetupCall * option error)) :
  parse_flags args = inr fl → nonempty (webhookCertSecretName fl) = true →
  main nextcap args env (w, []) = (inr tt, (w', log)) →
  ∃ ns m, SAdd (RSecretCertWatcher (webhookCertSecretName fl) ns) ∈ fst <$> log ∧
    SAdd (RCertManager m) ∈ fst <$> log ∧
    (key_of m (mg_secretName m) = NN ns (webhookCertSecretName fl) ↔
     env_or env "POD_NAMESPACE" "kubetemplater-system" = env_or env "OPERATOR_NAMESPACE" "default") ∧
    (env "POD_NAMESPACE"%string = EmptyString → env "OPERATOR_NAMESPACE"%string = EmptyString →
     key_of m (mg_secretName m) ≠ NN ns (webhookCertSecretName fl)).
Proof using Type.
  intros Hfl Hs Hmain. rewrite (main_completes _ _ _ _ _ _ _ Hfl Hmain).
  exists (env_or env "POD_NAMESPACE" "kubetemplater-system"),
    (NewManager (webhookCertSecretName fl) (env_or env "OPERATOR_NAMESPACE" "default")
       (webhookServiceName fl) (webhookConfigurationName fl)).
  unfold key_of. simpl. split_and!.
  1,2: unfold wiring; destruct (tls_slices nextcap fl) as [[m wh] mt]; rewrite Hs;
    destruct (nonempty (metricsCertPath fl)); simpl; set_solver.
  - split; [by intros [= ->]|by intros ->].
  - intros Hp Ho. unfold env_or. by rewrite Hp, Ho.
Qed.

(** The flags for a certificate in files are accepted and have no effect: two command lines
    that differ in nothing else lead to the same run. *)
Theorem webhook_cert_flags_ignored args args' env s a b c d e f g h i j k l m n e' f' g' :
  parse_flags args = inr (mkFlags a b c d e f g h i j k l m n) →
  parse_flags args' = inr (mkFlags a b c d e' f' g' h i j k l m n) →
  main (W := W) nextcap args env s = main nextcap args' env s.
Proof using Type. intros Ha Ha'. by rewrite (main_run _ _ _ _ _ Ha), (main_run _ _ _ _ _ Ha'). Qed.
End complete.

(** ** Concrete runs: every call succeeds *)
#[local] Instance all_succeed : SetupOps unit := {| w_setup _ w := (None, w) |}.
#[local] Existing Instance no_other_flags.

Definition ex_env : Env := λ _, EmptyString.

Definition ex_log : list (SetupCall * option error) :=
  (main S (print_flags ex_flags) ex_env (tt, [])).2.2.

Lemma ex_main : main S (print_flags ex_flags) ex_env (tt, []) = (inr tt, (tt, ex_log)).
Proof. vm_compute. reflexivity. Qed.

Lemma main_wiring_witness :
  NoDup (controller_name <$> controllers (fst <$> ex_log)) ∧ length ex_log = 21%nat ∧
  last (fst <$> ex_log) = Some SStart.
Proof.
  destruct (main_wiring S (print_flags ex_flags) ex_env ex_flags tt tt ex_log eq_refl eq_refl
    (λ c, Nat.lt_succ_diag_r c) ex_main) as (Hnd & _ & _ & _ & _ & Hlast).
  split; [exact Hnd|]. split; [vm_compute; reflexivity|exact Hlast].
Defined.

Lemma certificate_namespaces_witness :
  ∃ ns m, SAdd (RSecretCertWatcher "cert" ns) ∈ fst <$> ex_log ∧
    SAdd (RCertManager m) ∈ fst <$> ex_log ∧ key_of m (mg_secretName m) ≠ NN ns "cert".
Proof.
  destruct (certificate_namespaces S (print_flags ex_flags) ex_env ex_flags tt tt ex_log eq_refl eq_refl ex_main)
    as (ns & m & Hw & Hm & _ & Hne).
  exists ns, m. split; [exact Hw|]. split; [exact Hm|]. exact (Hne eq_refl eq_refl).
Defined.
